(* ===== verification/_CoqProject ===== *)
-Q . S2P
Prelude.v
CLib.v
FtpTypes.v
FtpPath.v
FtpProtocol.v
FtpCrypto.v
Os.v
PalNetwork.v
PalFileio.v
FtpState.v
FtpResolve.v
FtpSession.v
FtpCommands.v
FtpDataCmds.v
FtpListing.v
FtpTransfer.v
FtpDispatch.v
FtpInv.v
FtpConfine.v
FtpUpload.v
FtpAuth.v
FtpReader.v
FtpPort.v
FtpDownload.v
PalAlloc.v
PalAllocInv.v
PalAllocSpec.v
FtpServer.v
FtpBufferPool.v
FtpReset.v
PalCopy.v
PalCopyFile.v
PalCopySpec.v
CopyThreads.v
Curl.v
CurlSpec.v
Download.v
Unpack.v
Exfat.v
ExfatSpec.v
ExfatDir.v
Pkg.v
PkgSpec.v
Sfo.v
SfoSpec.v
HttpParser.v
HttpState.v
HttpResponse.v
HttpCsrf.v
HttpQuery.v
HttpApi.v
HttpServer.v
EventLoop.v
HttpSetup.v
HttpInv.v
HttpConfine.v
HttpGate.v
HttpBuild.v
HttpUpload.v
HttpFaults.v
HttpJobs.v
HttpStats.v
HttpGame.v
