(* ===== verification/Prelude.v ===== *)
(** * zftpd: a verification of the file server

    ** The program

    zftpd is a file server in C with an FTP and an HTTP front end.

    The FTP server accepts control connections ([src/ftp_server.c]) and runs
    one thread per session ([src/ftp_session.c]).  The session thread reads
    command lines, splits and looks them up ([src/ftp_protocol.c]) and calls a
    handler ([src/ftp_commands.c]).  Handlers turn client paths into paths of
    the file system ([src/ftp_path.c]), open data connections
    ([src/pal_network.c]), read and write files ([src/pal_fileio.c],
    [src/pal_filesystem.c]) through a pool of buffers
    ([src/ftp_buffer_pool.c]) and optionally encrypt the data connection
    ([src/ftp_crypto.c]).

    The HTTP server is one thread of callbacks ([src/http_server.c]): it
    collects a request, streams an upload into its file or parses the request
    ([src/http_parser.c]) and routes it to a handler ([src/http_api.c]) that
    checks the token of state-changing requests ([src/http_csrf.c]) and builds
    a response ([src/http_response.c]), which the callback then sends.

    Both use the allocator of [src/pal_alloc.c] and start the copy engine of
    [src/pal_fileio.c] in a thread of its own.  Downloads run in a thread too,
    on the console builds with the HTTP client of [src/pal_curl.c].  Disk
    images and containers are read by [src/exfat_unpacker.c] and
    [src/pkg_unpacker.c].

    The model is a shallow embedding of the default Linux build (none of the
    console macros, [FTP_SOCKET_TELEMETRY], [FTP_LIST_SAFE_MODE] and
    [FTP_TRANSFER_RATE_LIMIT_BPS] at 0) with uploads enabled
    ([ENABLE_WEB_UPLOAD], a switch of the Makefile); [Curl] and [Download] are
    the client and the download thread of the console builds, and [EventLoop] the
    loop of the systems with kqueue, the only one there is.  Definitions keep the
    names of the C functions; a constant keeps the name of its macro.

    ** Files

    Foundations:
    - [Prelude]: bytes, machine integers, notations in [zftpd_scope], list
      lemmas, hint databases, tactics.
    - [CLib]: what the sources use of [ctype.h], [string.h], [printf] and the
      [strto] functions.
    - [Os]: system calls as the type [sys], the class [OS] that answers them,
      the class [SaneOS] of the documented bounds on counts, the monad of code
      with a state of its own beside the system's and the recorded trace of
      requests and answers, the logics [hoare], [wp] and [total], and the
      concrete system [toy] of the witnesses.
    - [PalNetwork], [PalFileio], [PalCopy]: [src/pal_network.c], the file and
      virtual-file parts of [src/pal_fileio.c] and [src/pal_filesystem.c], and
      the recursive removal.

    FTP:
    - [FtpTypes]: [include/ftp_types.h] and the constants of
      [include/ftp_config.h].
    - [FtpPath], [FtpProtocol], [FtpCrypto]: the pure functions of the C files
      of those names.
    - [FtpState]: [ftp_session_t] and the session monad.
    - [FtpResolve]: [ftp_path_resolve].
    - [FtpSession]: [src/ftp_session.c].  The command handlers are a
      parameter, the class [Handlers], as they are function pointers in C.
    - [FtpCommands], [FtpDataCmds], [FtpListing], [FtpTransfer]: the handlers
      of [src/ftp_commands.c].
    - [FtpDispatch]: the instance of [Handlers], the table's function
      pointers.
    - [FtpInv]: what every session function keeps, for any invariant on
      stored paths and on requests that accepts the requests naming no path.
    - [FtpConfine], [FtpUpload], [FtpAuth], [FtpReader], [FtpPort],
      [FtpDownload]: the theorems about whole sessions and handlers.
    - [FtpServer]: [src/ftp_server.c]; the accept thread and the session
      threads as interleaved steps on the shared pool of sessions.
    - [FtpBufferPool]: [src/ftp_buffer_pool.c], interleaved atomic steps.
    - [FtpReset]: [pal_network_reset_ftp_stack] of [src/pal_network.c].

    Allocator:
    - [PalAlloc]: [src/pal_alloc.c] on a memory of words and bytes;
      [PalAllocInv]: its heap invariant; [PalAllocSpec]: the refinement to a
      store of arrays.

    Copies, downloads and images:
    - [PalCopyFile]: the copy of a file through a temporary one, with its
      reader thread, and the recursive copy and move; [CopyThreads]: the
      threads that run them; [PalCopySpec]: what a copy asks of the disk.
    - [Curl]: [src/pal_curl.c]; [CurlSpec]: its decoder and body loops;
      [Download]: the download thread of [src/http_api.c].
    - [Unpack]: integers in byte strings and the class of systems that serve
      a given image; [Exfat], [ExfatSpec], [ExfatDir]: the image reader;
      [Pkg], [PkgSpec]: the container reader; [Sfo], [SfoSpec]: the lookups
      in title metadata of [src/http_api.c].

    HTTP:
    - [HttpParser]: [src/http_parser.c], in place on the buffer, pointers
      being offsets.
    - [HttpState]: the globals of the HTTP code: response pool, token, root,
      copy progress, connection table, and a heap of malloc'd blocks, in which
      a use of a freed block is recorded as [heap_fault].
    - [HttpResponse], [HttpCsrf]: the C files of those names.
    - [HttpQuery]: decoding of queries, path checks and JSON text of
      [src/http_api.c]; [HttpApi]: its router and the file handlers.  The other
      handlers are the class [OtherApi], the embedded files and the text of
      error numbers the class [Resources].
    - [HttpJobs], [HttpStats], [HttpGame]: the other handlers, in modules of
      their own because the router's type has constructors of their names:
      downloads and archives, statistics and processes, titles.
      [default_api] is the instance of [OtherApi] made of them.
    - [HttpServer]: [src/http_server.c]; [HttpSetup]: its set-up, and the
      parser of listening addresses of [src/pal_network.c].
    - [EventLoop]: [src/event_loop_kqueue.c].  The table of handlers and the
      loop, with the callbacks as a parameter; the class [Callbacks] says what
      the loop asks of them, the class [KqueueOS] what it asks of the kernel.
    - [HttpInv]: as [FtpInv], for invariants on root and token.
    - [HttpConfine], [HttpGate], [HttpBuild], [HttpUpload], [HttpFaults]: the
      theorems.

    ** How state and effects are represented

    A byte is a [Z], a C string a list of bytes without its NUL; unsigned
    arithmetic that can wrap is written with [u8], [u16], [u32], [u64].  A
    function that can fail returns an [ftp_error_t] or a sum.  Code that talks
    to the kernel is a value of [M S A], that is [S -> option A * S]: the
    result [None] means that the fuel given to a loop was used up, and the
    state then is the one reached.  The kernel is not modelled: the class [OS]
    is one function from request and kernel state to answer and kernel state,
    and the theorems hold for every such function unless they name an
    assumption.  The assumptions are [SaneOS] (a transfer call moves at most
    what it was given or asked for, and a failed write sets [errno]), [Peer]
    (a socket delivers a given byte stream), [FileOS] (reading a regular
    file returns its bytes at the position of the descriptor), [ImageOS] (the
    same for a buffered file), [ReliableOS] (its seeks and reads do not fail),
    [RealpathOS]
    ([realpath] returns a canonical path) and [ReaddirOS] (a directory entry
    is a name without slash).  Each is instantiated in the witness of the
    theorem that uses it.  Memory the program reads without owning it is a
    request too ([SysStale]): what it holds is up to the system.

    Loops that end only when the kernel lets them (short counts, [EINTR],
    [EAGAIN], the entries of a directory) take fuel.  The safety theorems
    cover every prefix of a run, so they hold for every fuel, including runs
    cut short.  The theorems that promise a result ([send_all_terminates],
    [read_command_frames], [http_upload_integrity]) state the fuel that
    suffices: one step per byte and per transient failure, or per piece of the
    stream.  The loops of the pure functions run on a structural argument or
    on a bound computed from the input, and their theorems show that the bound
    is never reached: the header loop of a request by the length of its
    buffer, the free-list walks of the allocator by the number of blocks.

    The two threads of [STOR] and the two of a copy are run step by step; the kernel
    chooses which moves next ([SysSchedule]), so a theorem for every [OS] is a theorem for
    every schedule.  The threads of [FtpServer] and [FtpBufferPool] are step
    relations, and their theorems hold on every interleaving.

    ** What the theorems show

    - Confinement: [resolve_confined] for one path, [session_confined] for
      the whole life of an FTP session, [http_confined] for the file
      handlers of the HTTP API, with the path lemmas below them: [normalize_refines_spec],
      [normalize_canonical_idempotent], [within_root_iff_below].
      [games_icon_escapes_root] shows a handler that is not confined.
    - Authority: [login_gate] for FTP, [http_mutation_needs_token] and
      [signals_guarded] for HTTP;
      [csrf_get_bypass] shows what the token does not protect.
    - Uploads: [stor_receive_integrity], [stor_atomic],
      [stor_tmp_inside_iff], [http_upload_integrity]; [stor_pipe_deadlock]
      shows a schedule on which the two threads of [STOR] stop for ever.
    - Downloads: [retr_delivers_file].
    - Copies: [copy_atomic], [copy_spares_source]; [copy_pipe_deadlock] and
      [move_rollback_loses_data] show a schedule without end and a loss.
    - HTTP client: [chunked_roundtrip], [transfer_integrity],
      [dl_filename_safe]; [relative_redirect_lost] and [redirect_body_kept]
      show what redirects do.
    - Images: [exfat_open_bounds], [exfat_extract_correct],
      [entry_set_roundtrip], [parse_entry_bounds], [pkg_extract_correct],
      [sfo_lookup_correct], and [pkg_title_correct] for the readers together;
      [cyclic_directory_hangs] and [sfo_over_read] show what a malformed image
      does.
    - Control connection: [read_command_frames], [parse_command_line_spec],
      [find_command_spec], [format_reply_spec]; [read_command_interrupted]
      shows what an interrupted or timed-out [recv] does to a line.
    - Data connection: [port_active_is_client]; [port_bounce] shows that a
      refused [PORT] is still used, and [reset_breaks_passive] that a network
      reset cuts off clients that are about to connect.
    - Start and dispatch of the HTTP server: [create_all_or_nothing],
      [make_sockaddr_roundtrip]; [run_dispatches_registered] for the loop,
      with [stale_event_misdirected] and [filters_left_behind] for what its
      conditions exclude.
    - Encryption: [crypto_xor_is_stream], [crypto_xor_roundtrip],
      [crypto_rfc8439_vector].
    - HTTP messages: [http_parse_roundtrip], [response_builds_refine];
      [static_use_after_free] and [create_reply_over_read] show two memory
      faults.
    - Job tables and reports: [jobs_well_typed], [dl_report_fits],
      [disk_tree_fits]; [dl_request_faults] shows two requests that are
      mishandled.
    - Shared pools: [pool_exclusive] with [slot_reuse_race],
      [buffer_pool_exclusive].
    - Allocator: [allocator_refines_arrays], [allocator_recovers], with
      [malloc_wraps] and [aligned_free_confused].
    - Kernel loops: [send_all_in_order], [send_all_terminates],
      [write_all_in_order].
    - A defect of a helper: [is_safe_rejects_all].

    ** What is not modelled

    The contents of the file system and of sockets are the kernel's, hence
    parameters; so confinement is a statement about the text of paths after
    [realpath], and a file exchanged for a link between the check and its use
    is outside it. Time is an answer of the kernel. Memory safety of the C
    code is modelled where a bound or a lifetime is written out: the
    allocator, the heap blocks of the HTTP code, texts formatted into local
    arrays and sent with their full length.  The background copy started by
    [COPY], [CPTO] and the HTTP API is one request to the system where it is
    started; what the thread then does is the subject of [CopyThreads].
    Registering a descriptor is one request in the HTTP code and an operation
    of its own in [EventLoop]; that the HTTP callbacks meet the class
    [Callbacks] is not proved. Of the HTTP code the branches of other builds
    are not modelled: the archive thread of the builds with libarchive, and on
    the consoles the launch and installation of titles, whose system libraries
    are not in the repository.  The reset of the sessions' buffers is one
    request in [HttpStats]. [src/main.c] parses options and starts the
    servers, the scratch memory of [src/pal_scratch.c] is used by console code
    only, [src/ftp_log.c] formats the lines that are requests here, and the
    embedded resources are data.  The confinement and token theorems for HTTP
    speak of the file handlers of [HttpApi]: [own_route] excludes the routes
    of [OtherApi]. *)

From stdpp Require Export base tactics option list numbers strings gmap.
From Stdlib Require Export ZArith Lia.
Open Scope Z_scope.

(** ** Bytes and machine integers *)

(** A C [char]/[uint8_t] is a [Z]; byte strings are lists of them. *)
Abbreviation bytes := (list Z).

Definition is_byte (b : Z) : Prop := 0 <= b < 256.

Definition u8 (z : Z) : Z := z mod 2 ^ 8.
Definition u16 (z : Z) : Z := z mod 2 ^ 16.
Definition u32 (z : Z) : Z := z mod 2 ^ 32.
Definition u64 (z : Z) : Z := z mod 2 ^ 64.

(** Reinterpretation of a 64-bit word as a signed integer. *)
Definition s64 (z : Z) : Z := let w := u64 z in if w <? 2 ^ 63 then w else w - 2 ^ 64.
(** and to [int]. *)
Definition to_int (z : Z) : Z := let w := u32 z in if w <? 2 ^ 31 then w else w - 2 ^ 32.

Declare Scope zftpd_scope.
Delimit Scope zftpd_scope with zftpd.
Notation "x '+u32' y" := (u32 (x + y)) (at level 50, left associativity) : zftpd_scope.
Notation "x '+u64' y" := (u64 (x + y)) (at level 50, left associativity) : zftpd_scope.
Notation "x '-u64' y" := (u64 (x - y)) (at level 50, left associativity) : zftpd_scope.
Open Scope zftpd_scope.

(** A string literal as the byte list the C compiler would emit (without
    the terminating NUL). *)
Definition str (s : string) : bytes :=
  map (fun a => Z.of_N (Ascii.N_of_ascii a)) (String.list_ascii_of_string s).
Arguments str s%_string_scope.

(** [strlen]: a C string is modelled without its terminating NUL. *)
Definition strlen (s : bytes) : Z := Z.of_nat (length s).

(** The characters the sources test by name. *)
Definition SLASH : Z := 47.
Definition DOT : Z := 46.
Definition SPACE : Z := 32.
Definition CR : Z := 13.
Definition LF : Z := 10.
Definition COLON : Z := 58.

(** ** Automation *)

Create HintDb zftpd.

(** Turn boolean integer tests in the context into the propositions they
    decide. *)
Ltac zbool :=
  repeat match goal with
  | H : (_ && _)%bool = true |- _ => apply andb_prop in H; destruct H
  | H : (_ || _)%bool = false |- _ => apply orb_false_elim in H; destruct H
  | H : (_ || _)%bool = true |- _ => apply orb_prop in H
  | H : (_ && _)%bool = false |- _ => apply andb_false_iff in H
  | H : negb _ = true |- _ => apply negb_true_iff in H
  | H : negb _ = false |- _ => apply negb_false_iff in H
  | H : (_ =? _)%Z = true |- _ => apply Z.eqb_eq in H
  | H : (_ =? _)%Z = false |- _ => apply Z.eqb_neq in H
  | H : (_ <? _)%Z = true |- _ => apply Z.ltb_lt in H
  | H : (_ <? _)%Z = false |- _ => apply Z.ltb_ge in H
  | H : (_ <=? _)%Z = true |- _ => apply Z.leb_le in H
  | H : (_ <=? _)%Z = false |- _ => apply Z.leb_gt in H
  | H : (_ >=? _)%Z = _ |- _ => rewrite Z.geb_leb in H
  | H : (_ >? _)%Z = _ |- _ => rewrite Z.gtb_ltb in H
  | H : bool_decide _ = true |- _ => apply bool_decide_eq_true in H
  | H : bool_decide _ = false |- _ => apply bool_decide_eq_false in H
  end.

(** Prove a decidable closed proposition by evaluating its decision. *)
Ltac by_compute := apply (bool_decide_unpack _); vm_compute; exact I.

(** Case analysis on the first conditional of the goal or of a hypothesis. *)
Ltac case_if :=
  match goal with
  | |- context [if ?b then _ else _] => destruct b eqn:?
  | H : context [if ?b then _ else _] |- _ => destruct b eqn:?
  end.

(** ** Lists *)

Section lists.
Context {A : Type}.
Implicit Types (l k : list A) (f : A -> bool).

Fixpoint take_while f l : list A :=
  match l with
  | [] => []
  | x :: l' => if f x then x :: take_while f l' else []
  end.

Fixpoint drop_while f l : list A :=
  match l with
  | [] => []
  | x :: l' => if f x then drop_while f l' else l
  end.

Lemma take_drop_while f l : take_while f l ++ drop_while f l = l.
Proof. induction l as [|x l IH]; simpl; [done|]. destruct (f x); simpl; congruence. Qed.

Lemma take_while_Forall f l : Forall (fun x => f x = true) (take_while f l).
Proof.
  induction l as [|x l IH]; simpl; [done|].
  destruct (f x) eqn:E; constructor; auto.
Qed.

Lemma take_while_all f l : Forall (fun x => f x = true) l -> take_while f l = l.
Proof. induction 1 as [|x l Hx _ IH]; simpl; [done|]. by rewrite Hx, IH. Qed.

Lemma drop_while_all f l : Forall (fun x => f x = true) l -> drop_while f l = [].
Proof. induction 1 as [|x l Hx _ IH]; simpl; [done|]. by rewrite Hx. Qed.

Lemma take_while_app_stop f l x k :
  Forall (fun y => f y = true) l -> f x = false ->
  take_while f (l ++ x :: k) = l.
Proof.
  intros Hl Hx. induction Hl as [|y l Hy _ IH]; simpl.
  - by rewrite Hx.
  - by rewrite Hy, IH.
Qed.

Lemma drop_while_app_stop f l x k :
  Forall (fun y => f y = true) l -> f x = false ->
  drop_while f (l ++ x :: k) = x :: k.
Proof.
  intros Hl Hx. induction Hl as [|y l Hy _ IH]; simpl.
  - by rewrite Hx.
  - by rewrite Hy, IH.
Qed.

Lemma drop_while_head f l x k : drop_while f l = x :: k -> f x = false.
Proof.
  induction l as [|y l IH]; simpl; [done|].
  destruct (f y) eqn:E; [done|]. by intros [= -> _].
Qed.

Lemma length_drop_while f l : (length (drop_while f l) <= length l)%nat.
Proof. induction l as [|x l IH]; simpl; [lia|]. destruct (f x); simpl; lia. Qed.

End lists.

Lemma insert_middle {A} (pre suf : list A) x y :
  <[length pre := y]> (pre ++ x :: suf) = pre ++ y :: suf.
Proof. by rewrite insert_app_r_alt, Nat.sub_diag by lia. Qed.

Lemma lookup_total_middle (pre suf : bytes) x : (pre ++ x :: suf) !!! length pre = x.
Proof. by rewrite lookup_total_app_r, Nat.sub_diag by lia. Qed.

(** [len] elements of a list from offset [off], and adjacent ones joined. *)
Definition slice {A} (l : list A) (off len : Z) : list A := take (Z.to_nat len) (drop (Z.to_nat off) l).

Lemma slice_app {A} (l : list A) off m n : 0 <= off -> 0 <= m -> 0 <= n ->
  slice l off m ++ slice l (off + m) n = slice l off (m + n).
Proof.
  intros Ho Hm Hn. unfold slice. rewrite !Z2Nat.inj_add by lia.
  rewrite <- drop_drop. apply take_take_drop.
Qed.
