(* ===== verification/CLib.v ===== *)
(** * The parts of the C library the sources call

    [ctype.h] in the "C" locale (the program never calls [setlocale]),
    [string.h] on NUL-free byte lists, the [printf] conversions the sources
    use, and [strtoll].  These definitions model the language's standard
    library, so they carry no source lines of their own. *)

From S2P Require Import Prelude.

(** ** ctype.h *)

Definition isdigit (c : Z) : bool := (48 <=? c) && (c <=? 57).
Definition isupper (c : Z) : bool := (65 <=? c) && (c <=? 90).
Definition islower (c : Z) : bool := (97 <=? c) && (c <=? 122).
Definition isalnum (c : Z) : bool := isdigit c || isupper c || islower c.
Definition isspace (c : Z) : bool := (c =? 32) || ((9 <=? c) && (c <=? 13)).
Definition toupper (c : Z) : Z := if islower c then c - 32 else c.
Definition tolower (c : Z) : Z := if isupper c then c + 32 else c.

(** ** string.h *)

(** A C string does not contain NUL. *)
Definition no_nul (s : bytes) : Prop := Forall (fun c => c <> 0) s.

#[global] Instance no_nul_dec s : Decision (no_nul s).
Proof. unfold no_nul. apply _. Defined.

(** The C string stored in a buffer: everything before the first NUL. *)
Definition cstr_of (buf : bytes) : bytes := take_while (fun c => negb (c =? 0)) buf.

(** [strchr]: offset of the first [c], if any. *)
Fixpoint strchr (s : bytes) (c : Z) : option nat :=
  match s with
  | [] => None
  | x :: s' => if x =? c then Some 0%nat else S <$> strchr s' c
  end.

(** [strrchr]: offset of the last [c], if any. *)
Fixpoint strrchr (s : bytes) (c : Z) : option nat :=
  match s with
  | [] => None
  | x :: s' => match strrchr s' c with
               | Some i => Some (S i)
               | None => if x =? c then Some 0%nat else None
               end
  end.

(** [strstr]: offset of the first occurrence of [pat], if any. *)
Fixpoint strstr (s pat : bytes) : option nat :=
  if bool_decide (take (length pat) s = pat) then Some 0%nat
  else match s with
       | [] => None
       | _ :: s' => S <$> strstr s' pat
       end.

(** [strcmp(a, b) == 0] *)
Definition streq (a b : bytes) : bool := bool_decide (a = b).

(** [strncmp(a, b, n) == 0]: the comparison stops at [n] characters or at
    the terminating NUL, which takes part in it. *)
Definition strneq (a b : bytes) (n : nat) : bool :=
  bool_decide (take n (a ++ [0]) = take n (b ++ [0])).

(** [strcasecmp(a, b) == 0] *)
Definition strcaseeq (a b : bytes) : bool :=
  bool_decide (map tolower a = map tolower b).

(** [strncasecmp(a, b, n) == 0] *)
Definition strncaseeq (a b : bytes) (n : nat) : bool :=
  bool_decide (map tolower (take n (a ++ [0])) = map tolower (take n (b ++ [0]))).

(** [memchr(p, c, n)] on the first [n] bytes of a buffer: the offset of the
    first [c], [None] for NULL. *)
Definition memchr (buf : bytes) (c : Z) (n : nat) : option nat :=
  strchr (take n buf) c.

(** ** stdio.h conversions *)

(** Digits of a non-negative number in base [b], most significant first. *)
Fixpoint digits_fuel (fuel : nat) (b z : Z) (acc : bytes) : bytes :=
  match fuel with
  | O => acc
  | S fuel' =>
      let d := z mod b in
      let acc' := (if d <? 10 then 48 + d else 87 + d) :: acc in
      if z / b =? 0 then acc' else digits_fuel fuel' b (z / b) acc'
  end.

Definition digits (b z : Z) : bytes := digits_fuel (S (Z.to_nat (Z.log2 z))) b z [].

(** [%u], [%llu], [%zu] *)
Definition fmt_u (z : Z) : bytes := digits 10 z.

(** [%d], [%lld] *)
Definition fmt_d (z : Z) : bytes := if z <? 0 then 45 :: digits 10 (- z) else digits 10 z.

Definition pad_left (c : Z) (w : nat) (s : bytes) : bytes :=
  replicate (w - length s) c ++ s.

(** [%x], [%zx] *)
Definition fmt_x (z : Z) : bytes := digits 16 z.

(** [%02x] of a byte, [%04o], [%0Nd], [%10lld] *)
Definition fmt_02x (z : Z) : bytes := pad_left 48 2 (digits 16 z).
Definition fmt_04o (z : Z) : bytes := pad_left 48 4 (digits 8 z).
Definition fmt_0d (w : nat) (z : Z) : bytes :=
  if z <? 0 then 45 :: pad_left 48 (w - 1) (digits 10 (- z)) else pad_left 48 w (digits 10 z).
Definition fmt_10d (z : Z) : bytes := pad_left 32 10 (fmt_d z).

(** [snprintf(buf, size, ...)] of a formatted string [s]: what the buffer
    holds afterwards ([size > 0]); the return value is [strlen s]. *)
Definition snprintf_buf (size : Z) (s : bytes) : bytes := take (Z.to_nat (size - 1)) s.

(** ** stdlib.h *)

(** Value of a string of decimal digits. *)
Definition dec_value (s : bytes) : Z := fold_left (fun a d => 10 * a + (d - 48)) s 0.

Definition LLONG_MAX : Z := 2 ^ 63 - 1.
Definition LLONG_MIN : Z := - 2 ^ 63.

Definition clamp_ll (z : Z) : Z := Z.max LLONG_MIN (Z.min LLONG_MAX z).

(** [strtoll(s, &end, 10)]: the value and the string at [end]. *)
Definition strtoll (s : bytes) : Z * bytes :=
  let s1 := drop_while isspace s in
  let '(neg, s2) := match s1 with
                    | 45 :: t => (true, t)
                    | 43 :: t => (false, t)
                    | _ => (false, s1)
                    end in
  match take_while isdigit s2 with
  | [] => (0, s)
  | ds => (clamp_ll (if neg then - dec_value ds else dec_value ds), drop_while isdigit s2)
  end.

(** [strtoull(s, NULL, 10)]: a minus sign negates modulo 2^64. *)
Definition strtoull (s : bytes) : Z :=
  let s1 := drop_while isspace s in
  let '(neg, s2) := match s1 with
                    | 45 :: t => (true, t)
                    | 43 :: t => (false, t)
                    | _ => (false, s1)
                    end in
  let v := dec_value (take_while isdigit s2) in
  if 2 ^ 64 <=? v then 2 ^ 64 - 1 else if (neg : bool) then u64 (- v) else v.

(** The value of a hexadecimal digit. *)
Definition xdigit (c : Z) : option Z :=
  if isdigit c then Some (c - 48)
  else if (97 <=? c) && (c <=? 102) then Some (c - 87)
  else if (65 <=? c) && (c <=? 70) then Some (c - 55)
  else None.

Definition isxdigit (c : Z) : bool := match xdigit c with Some _ => true | None => false end.

Definition hex_value (s : bytes) : Z := fold_left (fun a d => 16 * a + default 0 (xdigit d)) s 0.

(** [strtoull(s, &end, 16)]; [None] when nothing is converted, that is when
    [end] is [s].  A prefix 0x counts only if a hexadecimal digit follows. *)
Definition strtoull16 (s : bytes) : option Z :=
  let s1 := drop_while isspace s in
  let '(neg, s2) := match s1 with
                    | c :: t => if c =? 45 then (true, t) else if c =? 43 then (false, t) else (false, s1)
                    | [] => (false, s1)
                    end in
  let s3 := match s2 with
            | z :: x :: d :: t =>
                if (z =? 48) && ((x =? 120) || (x =? 88)) && isxdigit d then d :: t else s2
            | _ => s2
            end in
  match take_while isxdigit s3 with
  | [] => None
  | ds =>
      let v := hex_value ds in
      Some (if 2 ^ 64 <=? v then 2 ^ 64 - 1 else if (neg : bool) then u64 (- v) else v)
  end.

(** [%u] of [sscanf] on a 32-bit [unsigned int]: white space, an optional
    sign, digits; [strtoul] saturates at 2^64 - 1 and the result is
    truncated.  The rest of the input follows the value. *)
Definition scan_u (s : bytes) : option (Z * bytes) :=
  let s1 := drop_while isspace s in
  let '(neg, s2) := match s1 with
                    | 45 :: t => (true, t)
                    | 43 :: t => (false, t)
                    | _ => (false, s1)
                    end in
  match take_while isdigit s2 with
  | [] => None
  | ds =>
      let v := dec_value ds in
      let ul := if 2 ^ 64 <=? v then 2 ^ 64 - 1 else if (neg : bool) then u64 (- v) else v in
      Some (u32 ul, drop_while isdigit s2)
  end.

(** [sscanf(s, "%u,%u,...")] with [n] conversions: the values when all of
    them match. *)
Fixpoint scan_u_list (n : nat) (s : bytes) : option (list Z) :=
  match n with
  | O => Some []
  | S n' =>
      match scan_u s with
      | None => None
      | Some (v, rest) =>
          match n', rest with
          | O, _ => Some [v]
          | S _, 44 :: rest' => cons v <$> scan_u_list n' rest'
          | S _, _ => None
          end
      end
  end.

(** ** arpa/inet.h *)

(** Dotted-quad text of a host-order address ([inet_ntop], [inet_ntoa]). *)
Definition inet_ntop (a : Z) : bytes :=
  fmt_u (Z.shiftr a 24 mod 256) ++ DOT :: fmt_u (Z.shiftr a 16 mod 256)
  ++ DOT :: fmt_u (Z.shiftr a 8 mod 256) ++ DOT :: fmt_u (a mod 256).

(** One octet of a dotted quad: one to three digits, no superfluous leading
    zero, at most 255; the rest of the string follows it. *)
Definition pton_octet (s : bytes) : option (Z * bytes) :=
  let ds := take_while isdigit s in
  let v := dec_value ds in
  if (0 <? strlen ds) && (strlen ds <=? 3) && (v <=? 255)
     && negb ((1 <? strlen ds) && (ds !!! 0%nat =? 48))
  then Some (v, drop_while isdigit s) else None.

(** [inet_pton(AF_INET, ...)] *)
Definition inet_pton (s : bytes) : option Z :=
  match pton_octet s with
  | Some (a, 46 :: s1) =>
      match pton_octet s1 with
      | Some (b, 46 :: s2) =>
          match pton_octet s2 with
          | Some (c, 46 :: s3) =>
              match pton_octet s3 with
              | Some (d, []) => Some (((a * 256 + b) * 256 + c) * 256 + d)
              | _ => None
              end
          | _ => None
          end
      | _ => None
      end
  | _ => None
  end.

(** [inet_pton(AF_INET6, ...)]: [out] are the bytes stored, [colon] the place
    of the two colons, [seen] and [val] the digits of the group that is being
    read, [tok] its start. *)
Definition pton6_finish (out : bytes) (colon : option nat) (seen : nat) (val : Z) : option bytes :=
  let out' := if (seen =? 0)%nat then out else out ++ [Z.shiftr val 8; Z.land val 255] in
  let full := match colon with
              | Some k => take k out' ++ replicate (16 - length out') 0 ++ drop k out'
              | None => out'
              end in
  if (16 <? length out')%nat then None
  else if match colon with Some _ => (length out' =? 16)%nat | None => false end then None
  else if (length full =? 16)%nat then Some full else None.

Fixpoint pton6_loop (s tok out : bytes) (colon : option nat) (seen : nat) (val : Z) : option bytes :=
  match s with
  | [] => pton6_finish out colon seen val
  | c :: s' =>
      match xdigit c with
      | Some d =>
          if (seen =? 4)%nat then None else pton6_loop s' tok out colon (S seen) (val * 16 + d)
      | None =>
          if c =? 58 then
            if (seen =? 0)%nat then
              match colon with Some _ => None | None => pton6_loop s' s' out (Some (length out)) 0 0 end
            else match s' with
                 | [] => None
                 | _ =>
                     if (16 <? length out + 2)%nat then None
                     else pton6_loop s' s' (out ++ [Z.shiftr val 8; Z.land val 255]) colon 0 0
                 end
          else if (c =? DOT) && (length out + 4 <=? 16)%nat then
            match inet_pton tok with
            | Some a => pton6_finish (out ++ [Z.shiftr a 24 mod 256; Z.shiftr a 16 mod 256;
                                              Z.shiftr a 8 mod 256; a mod 256]) colon 0 0
            | None => None
            end
          else None
      end
  end.

Definition inet_pton6 (s : bytes) : option bytes :=
  match s with
  | [] => None
  | c :: s' =>
      if c =? 58 then
        match s' with
        | c' :: _ => if c' =? 58 then pton6_loop s' s' [] None 0 0 else None
        | [] => None
        end
      else pton6_loop s s [] None 0 0
  end.

(** ** Facts *)

Lemma no_nul_app s t : no_nul (s ++ t) <-> no_nul s /\ no_nul t.
Proof. apply Forall_app. Qed.

Lemma cstr_of_no_nul buf : no_nul (cstr_of buf).
Proof.
  induction buf as [|c buf IH]; [constructor|]. unfold cstr_of. cbn [take_while].
  destruct (Z.eqb_spec c 0); [constructor|]. by constructor.
Qed.

Lemma cstr_of_nul s t : no_nul s -> cstr_of (s ++ 0 :: t) = s.
Proof.
  intros Hs. apply take_while_app_stop; [|done].
  eapply Forall_impl; [exact Hs|]. intros c Hc. simpl. by destruct (Z.eqb_spec c 0).
Qed.

Lemma strchr_Some s c i :
  strchr s c = Some i <-> s !! i = Some c /\ c ∉ take i s.
Proof.
  revert i. induction s as [|x s IH]; intros i; simpl.
  - rewrite lookup_nil. split; [done | by intros [? _]].
  - destruct (Z.eqb_spec x c) as [->|Hne].
    + split.
      * intros [= <-]. simpl. split; [done|]. apply not_elem_of_nil.
      * intros [Hl Hn]. destruct i as [|i]; [done|]. simpl in Hn. set_solver.
    + destruct i as [|i]; simpl.
      * split; [destruct (strchr s c); by intros [=]|]. intros [[= ->] _]. done.
      * rewrite fmap_Some. split.
        -- intros (j & Hj & [= ->]). apply IH in Hj as [? ?]. split; [done|]. set_solver.
        -- intros [Hl Hn]. exists i. split; [|done]. apply IH. split; [done|]. set_solver.
Qed.

Lemma strchr_None s c : strchr s c = None <-> c ∉ s.
Proof.
  induction s as [|x s IH]; simpl.
  - split; [intros _; apply not_elem_of_nil | done].
  - destruct (Z.eqb_spec x c) as [->|Hne].
    + split; [done|]. set_solver.
    + rewrite fmap_None, IH. set_solver.
Qed.

Lemma strchr_app_l s t c : c ∉ s -> strchr (s ++ c :: t) c = Some (length s).
Proof.
  intros Hs. apply strchr_Some. split.
  - rewrite lookup_app_r by lia. by rewrite Nat.sub_diag.
  - by rewrite take_app_length.
Qed.

Lemma strrchr_None s c : strrchr s c = None <-> c ∉ s.
Proof.
  induction s as [|x s IH]; simpl.
  - split; [intros _; apply not_elem_of_nil | done].
  - destruct (strrchr s c) eqn:E.
    + split; [done|]. intros Hn. exfalso. assert (c ∉ s) as Hc by set_solver.
      apply IH in Hc. done.
    + destruct (Z.eqb_spec x c) as [->|Hne]; [set_solver|].
      assert (c ∉ s) by (by apply IH). set_solver.
Qed.

Lemma strrchr_app s t c : c ∉ t -> strrchr (s ++ c :: t) c = Some (length s).
Proof.
  intros Ht. induction s as [|x s IH]; simpl.
  - apply strrchr_None in Ht. by rewrite Ht, Z.eqb_refl.
  - by rewrite IH.
Qed.

Lemma streq_true a b : streq a b = true <-> a = b.
Proof. apply bool_decide_eq_true. Qed.

Lemma strneq_prefix a b :
  no_nul b -> strneq a b (length b) = true <-> b `prefix_of` a.
Proof.
  intros Hb. unfold strneq. rewrite bool_decide_eq_true, take_app_length.
  split.
  - intros Ht. destruct (decide (length b <= length a)%nat) as [Hl|Hl].
    + rewrite take_app_le in Ht by done. rewrite <- Ht. apply prefix_take.
    + exfalso. rewrite take_ge in Ht by (rewrite length_app; simpl; lia).
      subst b. apply no_nul_app in Hb as [_ Hb]. by inversion Hb.
  - intros [k ->]. rewrite <- app_assoc. by rewrite take_app_length.
Qed.

(** Decimal text: digits only, and reading them gives the number back. *)
Lemma digits_fuel_dec fuel z acc :
  0 <= z < 2 ^ Z.of_nat fuel -> (0 < fuel)%nat ->
  exists ds, digits_fuel fuel 10 z acc = ds ++ acc /\ ds <> [] /\
    Forall (fun c => isdigit c = true) ds /\ dec_value ds = z.
Proof.
  revert z acc. induction fuel as [|fuel IH]; intros z acc Hz Hf; [lia|].
  pose proof (Z.mod_pos_bound z 10 ltac:(lia)) as Hm. pose proof (Z.div_mod z 10 ltac:(lia)) as Hd.
  cbn [digits_fuel]. destruct (Z.ltb_spec (z mod 10) 10); [|lia].
  assert (Hc : isdigit (48 + z mod 10) = true)
    by (unfold isdigit; apply andb_true_intro; rewrite !Z.leb_le; lia).
  destruct (Z.eqb_spec (z / 10) 0) as [E|E].
  - exists [48 + z mod 10]. split; [done|]. split; [done|]. split; [by repeat constructor|].
    unfold dec_value. simpl. lia.
  - rewrite Nat2Z.inj_succ, Z.pow_succ_r in Hz by lia.
    assert (0 <= z / 10) by (apply Z.div_pos; lia).
    destruct fuel as [|fuel]; [simpl in Hz; lia|].
    destruct (IH (z / 10) (48 + z mod 10 :: acc)) as (ds & -> & Hne & Hdig & Hv); [lia|lia|].
    exists (ds ++ [48 + z mod 10]). rewrite <- app_assoc. split; [done|].
    split; [by destruct ds|]. split; [apply Forall_app; by repeat constructor|].
    unfold dec_value in *. rewrite fold_left_app, Hv. simpl. lia.
Qed.

Lemma digits_fuel_length n b z acc : (length (digits_fuel n b z acc) <= n + length acc)%nat.
Proof.
  revert z acc. induction n as [|n IH]; intros z acc; simpl; [lia|]. case_match; simpl; [lia|].
  etrans; [apply IH|]. simpl. lia.
Qed.

Lemma fmt_u_dec z : 0 <= z ->
  fmt_u z <> [] /\ Forall (fun c => isdigit c = true) (fmt_u z) /\ dec_value (fmt_u z) = z.
Proof.
  intros Hz. unfold fmt_u, digits.
  destruct (digits_fuel_dec (S (Z.to_nat (Z.log2 z))) z []) as (ds & -> & Hne & Hd & Hv).
  - split; [done|]. rewrite Nat2Z.inj_succ, Z2Nat.id by apply Z.log2_nonneg.
    destruct (Z.eq_dec z 0) as [->|]; [done|]. apply Z.log2_spec. lia.
  - lia.
  - by rewrite app_nil_r.
Qed.

Lemma isdigit_range c : isdigit c = true <-> 48 <= c <= 57.
Proof. unfold isdigit. rewrite andb_true_iff, !Z.leb_le. lia. Qed.
