(* ===== verification/FtpTypes.v ===== *)
(** * Core types and configuration

    [include/ftp_types.h] (error codes, reply codes, session enumerations)
    and the constants of [include/ftp_config.h] for the generic POSIX build
    (no PLATFORM_PS4/PLATFORM_PS5 macro), which is the build modelled by the
    whole development. *)

From S2P Require Import Prelude CLib.

(** ** Error codes: [ftp_error_t] *)

Inductive ftp_error_t :=
| FTP_OK
| FTP_ERR_INVALID_PARAM
| FTP_ERR_OUT_OF_MEMORY
| FTP_ERR_SOCKET_CREATE
| FTP_ERR_SOCKET_BIND
| FTP_ERR_SOCKET_LISTEN
| FTP_ERR_SOCKET_ACCEPT
| FTP_ERR_SOCKET_SEND
| FTP_ERR_SOCKET_RECV
| FTP_ERR_THREAD_CREATE
| FTP_ERR_FILE_OPEN
| FTP_ERR_FILE_READ
| FTP_ERR_FILE_WRITE
| FTP_ERR_FILE_STAT
| FTP_ERR_DIR_OPEN
| FTP_ERR_PATH_INVALID
| FTP_ERR_PATH_TOO_LONG
| FTP_ERR_NOT_FOUND
| FTP_ERR_PERMISSION
| FTP_ERR_TIMEOUT
| FTP_ERR_MAX_SESSIONS
| FTP_ERR_AUTH_FAILED
| FTP_ERR_PROTOCOL
| FTP_ERR_DIR_EXISTS
| FTP_ERR_CROSS_DEVICE
| FTP_ERR_UNKNOWN.

#[global] Instance ftp_error_eq_dec : EqDecision ftp_error_t.
Proof. solve_decision. Defined.

(** The integer value of each code. *)
Definition err_code (e : ftp_error_t) : Z :=
  match e with
  | FTP_OK => 0
  | FTP_ERR_INVALID_PARAM => -1
  | FTP_ERR_OUT_OF_MEMORY => -2
  | FTP_ERR_SOCKET_CREATE => -3
  | FTP_ERR_SOCKET_BIND => -4
  | FTP_ERR_SOCKET_LISTEN => -5
  | FTP_ERR_SOCKET_ACCEPT => -6
  | FTP_ERR_SOCKET_SEND => -7
  | FTP_ERR_SOCKET_RECV => -8
  | FTP_ERR_THREAD_CREATE => -9
  | FTP_ERR_FILE_OPEN => -10
  | FTP_ERR_FILE_READ => -11
  | FTP_ERR_FILE_WRITE => -12
  | FTP_ERR_FILE_STAT => -13
  | FTP_ERR_DIR_OPEN => -14
  | FTP_ERR_PATH_INVALID => -15
  | FTP_ERR_PATH_TOO_LONG => -16
  | FTP_ERR_NOT_FOUND => -17
  | FTP_ERR_PERMISSION => -18
  | FTP_ERR_TIMEOUT => -19
  | FTP_ERR_MAX_SESSIONS => -20
  | FTP_ERR_AUTH_FAILED => -21
  | FTP_ERR_PROTOCOL => -22
  | FTP_ERR_DIR_EXISTS => -23
  | FTP_ERR_CROSS_DEVICE => -24
  | FTP_ERR_UNKNOWN => -99
  end.

(** A function with an output buffer returns the buffer's contents on
    [FTP_OK] and an error code otherwise. *)
Inductive res (A : Type) :=
| Ok (a : A)
| Err (e : ftp_error_t).
Arguments Ok {A} a.
Arguments Err {A} e.

#[global] Instance res_eq_dec {A} `{EqDecision A} : EqDecision (res A).
Proof. solve_decision. Defined.

(** ** Reply codes: [ftp_reply_code_t] *)

Inductive ftp_reply_code_t :=
| FTP_REPLY_150_FILE_OK
| FTP_REPLY_200_OK
| FTP_REPLY_211_SYSTEM_STATUS
| FTP_REPLY_212_DIR_STATUS
| FTP_REPLY_213_FILE_STATUS
| FTP_REPLY_214_HELP
| FTP_REPLY_215_SYSTEM_TYPE
| FTP_REPLY_220_SERVICE_READY
| FTP_REPLY_221_GOODBYE
| FTP_REPLY_225_DATA_OPEN
| FTP_REPLY_226_TRANSFER_COMPLETE
| FTP_REPLY_227_PASV_MODE
| FTP_REPLY_229_EPSV_MODE
| FTP_REPLY_230_LOGGED_IN
| FTP_REPLY_234_AUTH_OK
| FTP_REPLY_250_FILE_ACTION_OK
| FTP_REPLY_257_PATH_CREATED
| FTP_REPLY_331_NEED_PASSWORD
| FTP_REPLY_350_PENDING
| FTP_REPLY_421_SERVICE_UNAVAIL
| FTP_REPLY_425_CANT_OPEN_DATA
| FTP_REPLY_426_TRANSFER_ABORTED
| FTP_REPLY_450_FILE_UNAVAILABLE
| FTP_REPLY_451_LOCAL_ERROR
| FTP_REPLY_452_INSUFFICIENT_STORAGE
| FTP_REPLY_500_SYNTAX_ERROR
| FTP_REPLY_501_SYNTAX_ARGS
| FTP_REPLY_502_NOT_IMPLEMENTED
| FTP_REPLY_503_BAD_SEQUENCE
| FTP_REPLY_504_NOT_IMPL_PARAM
| FTP_REPLY_530_NOT_LOGGED_IN
| FTP_REPLY_532_NEED_ACCOUNT
| FTP_REPLY_550_FILE_ERROR
| FTP_REPLY_551_PAGE_TYPE_UNKNOWN
| FTP_REPLY_552_STORAGE_EXCEEDED
| FTP_REPLY_553_FILENAME_INVALID.

#[global] Instance ftp_reply_code_eq_dec : EqDecision ftp_reply_code_t.
Proof. solve_decision. Defined.

Definition reply_code (c : ftp_reply_code_t) : Z :=
  match c with
  | FTP_REPLY_150_FILE_OK => 150
  | FTP_REPLY_200_OK => 200
  | FTP_REPLY_211_SYSTEM_STATUS => 211
  | FTP_REPLY_212_DIR_STATUS => 212
  | FTP_REPLY_213_FILE_STATUS => 213
  | FTP_REPLY_214_HELP => 214
  | FTP_REPLY_215_SYSTEM_TYPE => 215
  | FTP_REPLY_220_SERVICE_READY => 220
  | FTP_REPLY_221_GOODBYE => 221
  | FTP_REPLY_225_DATA_OPEN => 225
  | FTP_REPLY_226_TRANSFER_COMPLETE => 226
  | FTP_REPLY_227_PASV_MODE => 227
  | FTP_REPLY_229_EPSV_MODE => 229
  | FTP_REPLY_230_LOGGED_IN => 230
  | FTP_REPLY_234_AUTH_OK => 234
  | FTP_REPLY_250_FILE_ACTION_OK => 250
  | FTP_REPLY_257_PATH_CREATED => 257
  | FTP_REPLY_331_NEED_PASSWORD => 331
  | FTP_REPLY_350_PENDING => 350
  | FTP_REPLY_421_SERVICE_UNAVAIL => 421
  | FTP_REPLY_425_CANT_OPEN_DATA => 425
  | FTP_REPLY_426_TRANSFER_ABORTED => 426
  | FTP_REPLY_450_FILE_UNAVAILABLE => 450
  | FTP_REPLY_451_LOCAL_ERROR => 451
  | FTP_REPLY_452_INSUFFICIENT_STORAGE => 452
  | FTP_REPLY_500_SYNTAX_ERROR => 500
  | FTP_REPLY_501_SYNTAX_ARGS => 501
  | FTP_REPLY_502_NOT_IMPLEMENTED => 502
  | FTP_REPLY_503_BAD_SEQUENCE => 503
  | FTP_REPLY_504_NOT_IMPL_PARAM => 504
  | FTP_REPLY_530_NOT_LOGGED_IN => 530
  | FTP_REPLY_532_NEED_ACCOUNT => 532
  | FTP_REPLY_550_FILE_ERROR => 550
  | FTP_REPLY_551_PAGE_TYPE_UNKNOWN => 551
  | FTP_REPLY_552_STORAGE_EXCEEDED => 552
  | FTP_REPLY_553_FILENAME_INVALID => 553
  end.

(** ** Session enumerations *)

Inductive ftp_session_state_t :=
| FTP_STATE_INIT
| FTP_STATE_CONNECTED
| FTP_STATE_AUTHENTICATED
| FTP_STATE_TRANSFERRING
| FTP_STATE_TERMINATING.

Inductive ftp_data_mode_t :=
| FTP_DATA_MODE_NONE
| FTP_DATA_MODE_ACTIVE
| FTP_DATA_MODE_PASSIVE.

Inductive ftp_transfer_type_t := FTP_TYPE_ASCII | FTP_TYPE_BINARY.
Inductive ftp_transfer_mode_t := FTP_MODE_STREAM | FTP_MODE_BLOCK | FTP_MODE_COMPRESS.
Inductive ftp_file_structure_t := FTP_STRU_FILE | FTP_STRU_RECORD | FTP_STRU_PAGE.
Inductive ftp_args_req_t := FTP_ARGS_NONE | FTP_ARGS_REQUIRED | FTP_ARGS_OPTIONAL.

#[global] Instance ftp_session_state_eq_dec : EqDecision ftp_session_state_t.
Proof. solve_decision. Defined.
#[global] Instance ftp_data_mode_eq_dec : EqDecision ftp_data_mode_t.
Proof. solve_decision. Defined.
#[global] Instance ftp_args_req_eq_dec : EqDecision ftp_args_req_t.
Proof. solve_decision. Defined.

(** ** Configuration (generic POSIX build) *)

Definition FTP_MAX_SESSIONS : Z := 32.
Definition FTP_SESSION_TIMEOUT : Z := 300.
Definition FTP_DATA_CONNECT_TIMEOUT_MS : Z := 15000.
Definition FTP_CMD_BUFFER_SIZE : Z := 512.
Definition FTP_REPLY_BUFFER_SIZE : Z := 1024.
Definition FTP_LIST_LINE_SIZE : Z := 512.
Definition FTP_PATH_MAX : Z := 4096.
Definition FTP_STREAM_BUFFER_SIZE : Z := 524288.
Definition FTP_CTRL_IO_TIMEOUT_MS : Z := 1000.
Definition FTP_DATA_IO_TIMEOUT_MS : Z := 120000.
Definition FTP_DATA_LINGER_TIMEOUT_S : Z := 10.
Definition FTP_TCP_SNDBUF : Z := 1048576.
Definition FTP_TCP_RCVBUF : Z := 1048576.
Definition FTP_TCP_KEEPIDLE : Z := 60.
Definition FTP_TCP_KEEPINTVL : Z := 10.
Definition FTP_TCP_KEEPCNT : Z := 3.
Definition INET_ADDRSTRLEN : Z := 16.
