(* ===== verification/FtpPath.v ===== *)
(** * Path normalisation and confinement: [src/ftp_path.c]

    The pure functions of the file.  [ftp_path_normalize] is translated with
    its working buffer, the NUL bytes it writes over the separators and its
    stack of token offsets; the reference definition [normalize_spec] splits
    the path on '/' and folds the components. *)

From S2P Require Import Prelude CLib FtpTypes.

Definition MAX_PATH_COMPONENTS : Z := 128.

(** ** [ftp_path_normalize] *)

(** [while (temp[scan] == '/') { temp[scan] = '\0'; scan++; }] *)
Fixpoint skip_slashes (fuel : nat) (temp : bytes) (scan : nat) : bytes * nat :=
  match fuel with
  | O => (temp, scan)
  | S fuel' =>
      if temp !!! scan =? SLASH
      then skip_slashes fuel' (<[scan := 0]> temp) (S scan)
      else (temp, scan)
  end.

(** [while ((temp[scan] != '\0') && (temp[scan] != '/')) scan++;] *)
Fixpoint scan_token (fuel : nat) (temp : bytes) (scan : nat) : nat :=
  match fuel with
  | O => scan
  | S fuel' =>
      if negb (temp !!! scan =? 0) && negb (temp !!! scan =? SLASH)
      then scan_token fuel' temp (S scan)
      else scan
  end.

(** The [while (1)] loop.  [components] holds the offsets of the tokens in
    [temp], the top of the stack first; its length is [depth]. *)
Fixpoint normalize_loop (fuel : nat) (temp : bytes) (scan : nat) (components : list nat)
    : res (bytes * list nat) :=
  match fuel with
  | O => Err FTP_ERR_UNKNOWN
  | S fuel' =>
      let '(temp, scan) := skip_slashes (length temp) temp scan in
      if temp !!! scan =? 0 then Ok (temp, components)
      else
        let start := scan in
        let scan := scan_token (length temp) temp scan in
        let '(temp, scan) :=
          if temp !!! scan =? SLASH then (<[scan := 0]> temp, S scan) else (temp, scan) in
        let token := cstr_of (drop start temp) in
        if streq token (str ".") then normalize_loop fuel' temp scan components
        else if streq token (str "..") then
          normalize_loop fuel' temp scan
            (match components with [] => [] | _ :: below => below end)
        else if 0 <? strlen token then
          if MAX_PATH_COMPONENTS <=? Z.of_nat (length components)
          then Err FTP_ERR_PATH_TOO_LONG
          else normalize_loop fuel' temp scan (start :: components)
        else normalize_loop fuel' temp scan components
  end.

(** The reconstruction loop; [output] is what has been written so far, its
    length is [offset]. *)
Fixpoint normalize_build (temp : bytes) (components : list nat) (output : bytes) (size : Z)
    : res bytes :=
  match components with
  | [] => Ok output
  | c :: rest =>
      let comp := cstr_of (drop c temp) in
      if size <? strlen output + strlen comp + 2 then Err FTP_ERR_PATH_TOO_LONG
      else normalize_build temp rest (output ++ SLASH :: comp) size
  end.

Definition ftp_path_normalize (path : option bytes) (size : Z) : res bytes :=
  match path with
  | None => Err FTP_ERR_INVALID_PARAM
  | Some path =>
      if size =? 0 then Err FTP_ERR_INVALID_PARAM
      else
        let path_len := strlen path in
        if FTP_PATH_MAX <=? path_len then Err FTP_ERR_PATH_TOO_LONG
        else if path_len =? 0 then
          if size <? 2 then Err FTP_ERR_PATH_TOO_LONG else Ok (str "/")
        else
          let temp := path ++ [0] in
          match normalize_loop (length temp) temp 0 [] with
          | Err e => Err e
          | Ok (temp, components) =>
              match components with
              | [] => if size <? 2 then Err FTP_ERR_PATH_TOO_LONG else Ok (str "/")
              | _ => normalize_build temp (reverse components) [] size
              end
          end
  end.

(** ** Path security checks *)

(** [ftp_path_is_within_root]: 1, 0 or a negative error code.  The element
    past the last character of a string is its NUL ([!!!] gives 0). *)
Definition ftp_path_is_within_root (path root : option bytes) : Z :=
  match path, root with
  | Some path, Some root =>
      if negb (path !!! 0%nat =? SLASH) || negb (root !!! 0%nat =? SLASH) then 0
      else
        let root_len := strlen root in
        let path_len := strlen path in
        if (root_len =? 1) && (root !!! 0%nat =? SLASH) then 1
        else if path_len <? root_len then 0
        else if negb (strneq path root (Z.to_nat root_len)) then 0
        else if root_len <? path_len then
          if negb (path !!! Z.to_nat root_len =? SLASH) then 0 else 1
        else 1
  | _, _ => err_code FTP_ERR_INVALID_PARAM
  end.

(** The characters [ftp_path_is_safe] accepts. *)
Definition safe_char (c : Z) : bool :=
  isalnum c || (c =? SLASH) || (c =? DOT) || (c =? 45) || (c =? 95) || (c =? SPACE).

(** [memchr(path, '\0', len) != path + len] compares the returned pointer,
    [NULL] when no byte matches, with the end of the string. *)
Definition ftp_path_is_safe (path : option bytes) : Z :=
  match path with
  | None => 0
  | Some path =>
      let len := length path in
      if FTP_PATH_MAX <=? Z.of_nat len then 0
      else if negb (bool_decide (memchr (path ++ [0]) 0 len = Some len)) then 0
      else if forallb safe_char path then 1 else 0
  end.

(** ** Path manipulation *)

Definition ftp_path_basename (path : option bytes) (size : Z) : res bytes :=
  match path with
  | None => Err FTP_ERR_INVALID_PARAM
  | Some path =>
      if size =? 0 then Err FTP_ERR_INVALID_PARAM
      else
        let name := match strrchr path SLASH with
                    | None => path
                    | Some last_slash => drop (last_slash + 1) path
                    end in
        if size <? strlen name + 1 then Err FTP_ERR_PATH_TOO_LONG else Ok name
  end.

Definition ftp_path_dirname (path : option bytes) (size : Z) : res bytes :=
  match path with
  | None => Err FTP_ERR_INVALID_PARAM
  | Some path =>
      if size =? 0 then Err FTP_ERR_INVALID_PARAM
      else
        match strrchr path SLASH with
        | None => if size <? 2 then Err FTP_ERR_PATH_TOO_LONG else Ok (str ".")
        | Some O => if size <? 2 then Err FTP_ERR_PATH_TOO_LONG else Ok (str "/")
        | Some dir_len =>
            if size <? Z.of_nat dir_len + 1 then Err FTP_ERR_PATH_TOO_LONG
            else Ok (take dir_len path)
        end
  end.

(** The concatenation is written into [char temp[FTP_PATH_MAX]]; [None] is a
    write past its end. *)
Definition ftp_path_join (base append : option bytes) (size : Z) : option (res bytes) :=
  match base, append with
  | Some base, Some append =>
      if size <? FTP_PATH_MAX then Some (Err FTP_ERR_INVALID_PARAM)
      else
        let base_len := strlen base in
        let append_len := strlen append in
        if size <=? base_len + append_len + 2 then Some (Err FTP_ERR_PATH_TOO_LONG)
        else
          let base :=
            if (0 <? base_len) && negb (base !!! Z.to_nat (base_len - 1) =? SLASH)
            then base ++ [SLASH] else base in
          if FTP_PATH_MAX <? strlen base + append_len + 1 then None
          else Some (ftp_path_normalize (Some (base ++ append)) size)
  | _, _ => Some (Err FTP_ERR_INVALID_PARAM)
  end.

(** ** Reference definitions *)

(** Split on a separator; [split_on] of the empty string is one empty token. *)
Fixpoint split_on (c : Z) (s : bytes) : list bytes :=
  match s with
  | [] => [[]]
  | x :: s' =>
      if x =? c then [] :: split_on c s'
      else match split_on c s' with
           | [] => [[x]]
           | tok :: toks => (x :: tok) :: toks
           end
  end.

(** The effect of one token on the stack of components (top first); [None]
    when the stack would grow past its capacity. *)
Definition push_comp (stack : option (list bytes)) (tok : bytes) : option (list bytes) :=
  match stack with
  | None => None
  | Some stk =>
      if decide (tok = [] \/ tok = str ".") then Some stk
      else if decide (tok = str "..") then Some (tail stk)
      else if MAX_PATH_COMPONENTS <=? Z.of_nat (length stk) then None
      else Some (tok :: stk)
  end.

(** Canonical components of a path. *)
Definition norm_comps (path : bytes) : option (list bytes) :=
  (@reverse bytes) <$> fold_left push_comp (split_on SLASH path) (Some []).

(** An absolute path from its components. *)
Definition render (comps : list bytes) : bytes :=
  match comps with
  | [] => [SLASH]
  | _ => concat (map (cons SLASH) comps)
  end.

Definition normalize_spec (path : bytes) (size : Z) : res bytes :=
  if FTP_PATH_MAX <=? strlen path then Err FTP_ERR_PATH_TOO_LONG
  else match norm_comps path with
       | None => Err FTP_ERR_PATH_TOO_LONG
       | Some comps =>
           if size <? strlen (render comps) + 1 then Err FTP_ERR_PATH_TOO_LONG
           else Ok (render comps)
       end.

(** A component of a canonical path: a proper file name. *)
Definition good_comp (c : bytes) : Prop :=
  c <> [] /\ (SLASH ∉ c) /\ c <> str "." /\ c <> str ".." /\ no_nul c.

#[global] Instance good_comp_dec c : Decision (good_comp c).
Proof. unfold good_comp. apply _. Defined.

(** A canonical absolute path. *)
Definition canonical (p : bytes) : Prop :=
  exists comps, p = render comps /\ Forall good_comp comps.

(** [path] is [root] or lies below it, by components. *)
Definition below (root path : bytes) : Prop :=
  exists rs ps, root = render rs /\ path = render (rs ++ ps)
                /\ Forall good_comp rs /\ Forall good_comp ps.

(** ** The loop refines the component fold *)

(** [zeroed temp temp']: [temp'] is [temp] with some separators overwritten
    by NUL, the only writes the loop makes. *)
Definition zeroed : bytes -> bytes -> Prop :=
  Forall2 (fun x y => y = x \/ (x = SLASH /\ y = 0)).

(** The C string at offset [st] of [temp] is the slash-free token [tok]. *)
Definition tok_at (temp : bytes) (st : nat) (tok : bytes) : Prop :=
  (SLASH ∉ tok) /\ no_nul tok /\
  exists a b, temp = a ++ tok ++ 0 :: b /\ length a = st.

Lemma zeroed_refl temp : zeroed temp temp.
Proof. induction temp; constructor; auto. Qed.

Lemma zeroed_trans t1 t2 t3 : zeroed t1 t2 -> zeroed t2 t3 -> zeroed t1 t3.
Proof.
  intros H. revert t3. induction H as [|x y t1 t2 Hxy _ IH]; intros t3 H3.
  - done.
  - apply Forall2_cons_inv_l in H3 as (z & t3' & Hyz & H3 & ->).
    constructor; [naive_solver | by apply IH].
Qed.

Lemma zeroed_insert pre suf : zeroed (pre ++ SLASH :: suf) (pre ++ 0 :: suf).
Proof.
  apply Forall2_app; [apply zeroed_refl|]. constructor; [by right | apply zeroed_refl].
Qed.

Lemma zeroed_no_slash tok k : SLASH ∉ tok -> zeroed tok k -> k = tok.
Proof.
  intros Hn H. induction H as [|x y tok k Hxy _ IH]; [done|].
  destruct Hxy as [->|[-> _]]; [|set_solver]. f_equal. apply IH. set_solver.
Qed.

Lemma tok_at_zeroed temp temp' st tok :
  zeroed temp temp' -> tok_at temp st tok -> tok_at temp' st tok.
Proof.
  intros Hz (Hs & Hn & a & b & -> & Ha). split; [done|]. split; [done|].
  apply Forall2_app_inv_l in Hz as (a' & r & Ha' & Hr & ->).
  apply Forall2_app_inv_l in Hr as (t' & r' & Ht & Hr & ->).
  apply Forall2_cons_inv_l in Hr as (z & b' & Hz & Hb & ->).
  apply zeroed_no_slash in Ht as ->; [|done].
  destruct Hz as [->|[? _]]; [|done].
  exists a', b'. split; [done|]. by rewrite <- (Forall2_length _ _ _ Ha').
Qed.

Lemma tok_at_cstr temp st tok : tok_at temp st tok -> cstr_of (drop st temp) = tok.
Proof.
  intros (_ & Hn & a & b & -> & <-). rewrite drop_app_length. by apply cstr_of_nul.
Qed.

Lemma toks_at_zeroed temp temp' comps toks :
  zeroed temp temp' -> Forall2 (tok_at temp) comps toks -> Forall2 (tok_at temp') comps toks.
Proof.
  intros Hz H. eapply Forall2_impl; [exact H|]. intros ??. by apply tok_at_zeroed.
Qed.

Lemma skip_slashes_spec fuel pre n suf :
  (n < fuel)%nat -> head suf <> Some SLASH ->
  suf <> [] ->
  skip_slashes fuel (pre ++ replicate n SLASH ++ suf) (length pre)
  = (pre ++ replicate n 0 ++ suf, (length pre + n)%nat).
Proof.
  revert pre n. induction fuel as [|fuel IH]; intros pre n Hn Hh Hs; [lia|].
  simpl. destruct n as [|n]; simpl.
  - destruct suf as [|x suf]; [done|]. rewrite lookup_total_middle.
    destruct (Z.eqb_spec x SLASH) as [->|_]; [done|]. by rewrite Nat.add_0_r.
  - rewrite lookup_total_middle, Z.eqb_refl, insert_middle.
    rewrite cons_middle, app_assoc.
    replace (S (length pre)) with (length (pre ++ [0])) by (rewrite length_app; simpl; lia).
    rewrite IH by (done || lia). rewrite <- app_assoc, length_app. simpl. f_equal. lia.
Qed.

Lemma scan_token_spec fuel pre tok x suf :
  (length tok < fuel)%nat -> SLASH ∉ tok -> no_nul tok -> x = 0 \/ x = SLASH ->
  scan_token fuel (pre ++ tok ++ x :: suf) (length pre) = (length pre + length tok)%nat.
Proof.
  revert pre tok. induction fuel as [|fuel IH]; intros pre tok Hf Hs Hn Hx; [lia|].
  simpl. destruct tok as [|c tok]; simpl.
  - rewrite lookup_total_middle. destruct Hx as [->| ->]; simpl; lia.
  - rewrite lookup_total_middle. inversion Hn as [|? ? Hc Hn']; subst.
    destruct (Z.eqb_spec c 0); [done|].
    destruct (Z.eqb_spec c SLASH) as [->|]; [set_solver|]. simpl.
    rewrite cons_middle, app_assoc.
    replace (S (length pre)) with (length (pre ++ [c])) by (rewrite length_app; simpl; lia).
    rewrite IH; [|simpl in Hf; lia|set_solver|done|done].
    rewrite length_app. simpl. lia.
Qed.

Lemma split_on_token s tok : SLASH ∉ tok ->
  split_on SLASH (tok ++ SLASH :: s) = tok :: split_on SLASH s /\
  split_on SLASH tok = [tok].
Proof.
  induction tok as [|c tok IH]; intros Hn; simpl; [done|].
  destruct (Z.eqb_spec c SLASH) as [->|_]; [set_solver|].
  destruct IH as [-> ->]; [set_solver|]. done.
Qed.

Lemma fold_push_skip n s r :
  fold_left push_comp (split_on SLASH (replicate n SLASH ++ s)) r
  = fold_left push_comp (split_on SLASH s) r.
Proof.
  induction n as [|n IH]; simpl; [done|]. rewrite <- IH. f_equal. by destruct r.
Qed.

(** Every string is a run of separators, a token, and either its end or a
    separator and a shorter rest. *)
Lemma slash_run s : exists n t, s = replicate n SLASH ++ t /\ head t <> Some SLASH.
Proof.
  induction s as [|c s (n & t & -> & Ht)]; [by exists 0%nat, []|].
  destruct (decide (c = SLASH)) as [->|Hc].
  - by exists (S n), t.
  - exists 0%nat, (c :: replicate n SLASH ++ t). simpl. split; [done|]. congruence.
Qed.

Lemma token_run s : exists tok t, s = tok ++ t /\ (SLASH ∉ tok)
  /\ (t = [] \/ exists t', t = SLASH :: t').
Proof.
  destruct (strchr s SLASH) as [i|] eqn:E.
  - apply strchr_Some in E as [Hl Hn]. exists (take i s), (drop i s).
    rewrite take_drop. split; [done|]. split; [done|]. right.
    exists (drop (S i) s). by apply drop_S.
  - apply strchr_None in E. exists s, []. rewrite app_nil_r. auto.
Qed.

(** What the body of the loop does with the token it has cut out. *)
Definition loop_step (fuel : nat) (temp : bytes) (scan start : nat) (components : list nat)
    (tok : bytes) : res (bytes * list nat) :=
  if streq tok (str ".") then normalize_loop fuel temp scan components
  else if streq tok (str "..") then
    normalize_loop fuel temp scan (match components with [] => [] | _ :: below => below end)
  else if 0 <? strlen tok then
    if MAX_PATH_COMPONENTS <=? Z.of_nat (length components) then Err FTP_ERR_PATH_TOO_LONG
    else normalize_loop fuel temp scan (start :: components)
  else normalize_loop fuel temp scan components.

Lemma normalize_loop_end fuel pre n components :
  normalize_loop (S fuel) (pre ++ replicate n SLASH ++ [0]) (length pre) components
  = Ok (pre ++ replicate n 0 ++ [0], components).
Proof.
  simpl. rewrite skip_slashes_spec; [|rewrite !length_app, length_replicate; simpl; lia|done|done].
  rewrite app_assoc.
  replace (length pre + n)%nat with (length (pre ++ replicate n 0))
    by (rewrite length_app, length_replicate; lia).
  by rewrite lookup_total_middle.
Qed.

Lemma normalize_loop_token fuel pre n tok x rest components :
  tok <> [] -> SLASH ∉ tok -> no_nul tok -> x = 0 \/ x = SLASH ->
  let q := pre ++ replicate n 0 in
  normalize_loop (S fuel) (pre ++ replicate n SLASH ++ tok ++ x :: rest) (length pre) components
  = loop_step fuel (q ++ tok ++ 0 :: rest)
      (if x =? SLASH then S (length q + length tok) else (length q + length tok)%nat)
      (length q) components tok.
Proof.
  intros Hne Hs Hn Hx q. cbn [normalize_loop].
  rewrite skip_slashes_spec.
  2: { rewrite !length_app, length_replicate. destruct tok; simpl; [done|lia]. }
  2: { destruct tok as [|c tok]; [done|]. simpl. set_solver. }
  2: { destruct tok; done. }
  replace (length pre + n)%nat with (length q)
    by (unfold q; rewrite length_app, length_replicate; lia).
  rewrite app_assoc. fold q. clearbody q.
  rewrite scan_token_spec; [|rewrite !length_app; simpl; lia|done..].
  rewrite (app_assoc q tok), <- length_app, lookup_total_middle, insert_middle.
  destruct tok as [|c tok]; [done|].
  replace (((q ++ c :: tok) ++ x :: rest) !!! length q) with c
    by (rewrite <- app_assoc; simpl; by rewrite lookup_total_middle).
  destruct (Z.eqb_spec c 0) as [->|_]; [by inversion Hn|].
  destruct Hx as [-> | ->]; simpl (_ =? SLASH); cbv iota beta zeta;
    rewrite <- app_assoc, drop_app_length, cstr_of_nul by done; done.
Qed.

(** The loop's result represents a stack of components. *)
Definition loop_ok (r : res (bytes * list nat)) (stk : option (list bytes)) : Prop :=
  match stk with
  | Some toks => exists temp comps, r = Ok (temp, comps) /\ Forall2 (tok_at temp) comps toks
  | None => r = Err FTP_ERR_PATH_TOO_LONG
  end.

Lemma fold_push_None toks : fold_left push_comp toks None = None.
Proof. induction toks; auto. Qed.

Lemma loop_step_ok fuel temp scan start comps toks tok later :
  tok <> [] -> tok_at temp start tok -> Forall2 (tok_at temp) comps toks ->
  (forall comps' toks', Forall2 (tok_at temp) comps' toks' ->
     loop_ok (normalize_loop fuel temp scan comps') (fold_left push_comp later (Some toks'))) ->
  loop_ok (loop_step fuel temp scan start comps tok)
          (fold_left push_comp later (push_comp (Some toks) tok)).
Proof.
  intros Hne Htok Hcomps IH. unfold loop_step, push_comp, streq, strlen.
  rewrite <- (Forall2_length _ _ _ Hcomps).
  rewrite (bool_decide_decide (tok = str ".")), (bool_decide_decide (tok = str "..")).
  destruct (decide (tok = str ".")), (decide (tok = [] \/ _)); try tauto; [auto|].
  destruct (decide (tok = str "..")).
  - apply IH. destruct Hcomps; simpl; auto.
  - destruct (Z.ltb_spec 0 (Z.of_nat (length tok))) as [_|Hl].
    + destruct (MAX_PATH_COMPONENTS <=? _); [by rewrite fold_push_None|]. apply IH. by constructor.
    + destruct tok; [done|]. simpl in Hl. lia.
Qed.

Lemma normalize_loop_ok fuel pre suf comps toks :
  (length suf < fuel)%nat -> no_nul suf ->
  Forall2 (tok_at (pre ++ suf ++ [0])) comps toks ->
  loop_ok (normalize_loop fuel (pre ++ suf ++ [0]) (length pre) comps)
          (fold_left push_comp (split_on SLASH suf) (Some toks)).
Proof.
  revert pre suf comps toks. induction fuel as [|fuel IH]; intros pre suf comps toks Hf Hn Ht; [lia|].
  destruct (slash_run suf) as (n & t & -> & Hh). rewrite fold_push_skip.
  assert (Hz : forall k, zeroed (pre ++ replicate n SLASH ++ k) (pre ++ replicate n 0 ++ k)).
  { intros k. apply Forall2_app; [apply zeroed_refl|].
    apply Forall2_app; [|apply zeroed_refl]. apply Forall2_replicate. by right. }
  destruct (token_run t) as (tok & r & -> & Hs & Hr).
  rewrite <- !app_assoc in *. apply no_nul_app in Hn as [_ [Hn Hnr]%no_nul_app].
  destruct (decide (tok = [])) as [->|Hne].
  { destruct Hr as [->|[r' ->]]; [|done]. cbn [app] in *. rewrite normalize_loop_end.
    eexists _, _. split; [done|]. by eapply toks_at_zeroed. }
  eapply toks_at_zeroed in Ht; [|apply Hz]. rewrite app_assoc in Ht.
  destruct (split_on_token (tail r) tok Hs) as [Hsp1 Hsp2].
  destruct Hr as [->|[r' ->]]; cbn [app tail] in *.
  - rewrite app_nil_r, Hsp2, normalize_loop_token by auto. cbn [fold_left Z.eqb Pos.eqb SLASH].
    apply (loop_step_ok _ _ _ _ _ _ _ []); [done| |done|].
    + repeat split; [done..|]. by eexists _, [].
    + intros comps' toks' H'. rewrite <- length_app, app_assoc. simpl.
      apply (IH (_ ++ _) []); [|done|by rewrite <- app_assoc].
      rewrite !length_app in Hf. destruct tok; [done|]. simpl in *. lia.
  - rewrite Hsp1, normalize_loop_token by auto. cbn [fold_left Z.eqb Pos.eqb SLASH].
    set (q := pre ++ replicate n 0) in *.
    assert (Hz' : zeroed (q ++ tok ++ SLASH :: r' ++ [0]) (q ++ tok ++ 0 :: r' ++ [0])).
    { rewrite !(app_assoc q tok). apply zeroed_insert. }
    apply loop_step_ok; [done| | |].
    + repeat split; [done..|]. by eexists _, _.
    + by eapply toks_at_zeroed.
    + intros comps' toks' H'.
      replace (q ++ tok ++ 0 :: r' ++ [0]) with ((q ++ tok ++ [0]) ++ r' ++ [0]) in *
        by (by rewrite <- !app_assoc).
      replace (S (length q + length tok)) with (length (q ++ tok ++ [0]))
        by (rewrite !length_app; simpl; lia).
      apply IH; [|by inversion Hnr|done].
      rewrite !length_app in Hf. simpl in Hf. lia.
Qed.

Lemma concat_snoc_comp (comps : list bytes) c :
  concat (map (cons SLASH) (comps ++ [c])) = concat (map (cons SLASH) comps) ++ SLASH :: c.
Proof. rewrite map_app, concat_app. simpl. by rewrite app_nil_r. Qed.

(** The reconstruction succeeds exactly when the whole result fits. *)
Lemma normalize_build_ok temp comps toks output size :
  Forall2 (tok_at temp) comps toks -> strlen output + 1 <= size \/ toks <> [] ->
  normalize_build temp comps output size
  = let out := output ++ concat (map (cons SLASH) toks) in
    if size <? strlen out + 1 then Err FTP_ERR_PATH_TOO_LONG else Ok out.
Proof.
  intros H. revert output. induction H as [|c tok comps toks Hc H IH]; intros output Ho; simpl.
  - rewrite app_nil_r. destruct Ho as [Ho|]; [|done].
    by destruct (Z.ltb_spec size (strlen output + 1)); [lia|].
  - rewrite (tok_at_cstr _ _ _ Hc). unfold strlen in *.
    destruct (Z.ltb_spec size (Z.of_nat (length output) + Z.of_nat (length tok) + 2)) as [Hlt|Hge].
    + rewrite length_app. simpl. rewrite length_app.
      destruct (Z.ltb_spec size
        (Z.of_nat (length output + S (length tok + length (concat (map (cons SLASH) toks)))) + 1));
        [done|lia].
    + rewrite IH by (left; rewrite length_app; simpl; lia). simpl.
      by rewrite <- app_assoc.
Qed.

Lemma normalize_refines path size :
  no_nul path -> 0 < size ->
  ftp_path_normalize (Some path) size = normalize_spec path size.
Proof.
  intros Hn Hsz. unfold ftp_path_normalize, normalize_spec.
  destruct (Z.eqb_spec size 0); [lia|]. case_if; [done|].
  unfold norm_comps.
  destruct (Z.eqb_spec (strlen path) 0) as [Hl|_].
  { by destruct path. }
  pose proof (normalize_loop_ok (length (path ++ [0])) [] path [] []) as Hok.
  rewrite !app_nil_l in Hok.
  specialize (Hok ltac:(rewrite length_app; simpl; lia) Hn ltac:(constructor)).
  destruct (fold_left push_comp (split_on SLASH path) (Some [])) as [toks|]; simpl in *.
  - destruct Hok as (temp & comps & -> & Hc). destruct Hc as [|c tok comps toks Hc H].
    + done.
    + rewrite normalize_build_ok with (toks := reverse (tok :: toks)).
      * simpl. unfold render. destruct (reverse (tok :: toks)) eqn:E; [|done].
        apply (f_equal length) in E. by rewrite length_reverse in E.
      * by apply Forall2_reverse; constructor.
      * right. intros E. apply (f_equal length) in E. by rewrite length_reverse in E.
  - by rewrite Hok.
Qed.

(** ** Canonical paths *)

Lemma split_on_tokens s tok :
  no_nul s -> tok ∈ split_on SLASH s -> (SLASH ∉ tok) /\ no_nul tok.
Proof.
  revert tok. induction s as [|x s IH]; intros tok Hn; simpl.
  - rewrite list_elem_of_singleton. intros ->. split; [set_solver | constructor].
  - inversion Hn as [|? ? Hx Hn']; subst. specialize (fun t => IH t Hn').
    destruct (Z.eqb_spec x SLASH).
    + rewrite elem_of_cons. intros [->|]; [|by apply IH]. split; [set_solver | constructor].
    + destruct (split_on SLASH s) as [|t ts].
      * rewrite list_elem_of_singleton. intros ->. split; [set_solver | by repeat constructor].
      * rewrite elem_of_cons. intros [->|Hin].
        -- destruct (IH t) as [? ?]; [set_solver|]. split; [set_solver | by constructor].
        -- apply IH. set_solver.
Qed.

Definition stack_ok (stk : list bytes) : Prop :=
  Forall good_comp stk /\ Z.of_nat (length stk) <= MAX_PATH_COMPONENTS.

#[global] Instance stack_ok_dec stk : Decision (stack_ok stk).
Proof. unfold stack_ok. apply _. Defined.

Lemma push_comp_ok stk tok stk' :
  stack_ok stk -> SLASH ∉ tok -> no_nul tok ->
  push_comp (Some stk) tok = Some stk' -> stack_ok stk'.
Proof.
  intros [Hg Hl] Hs Hn. simpl.
  destruct (decide (tok = [] \/ tok = str ".")); [by intros [= <-]|].
  destruct (decide (tok = str "..")).
  { intros [= <-]. destruct Hg; split; simpl in *; auto; lia. }
  destruct (Z.leb_spec MAX_PATH_COMPONENTS (Z.of_nat (length stk))); [done|].
  intros [= <-]. split; [constructor; [unfold good_comp; naive_solver | done] | simpl; lia].
Qed.

Lemma fold_push_ok toks stk stk' :
  stack_ok stk -> (forall t, t ∈ toks -> (SLASH ∉ t) /\ no_nul t) ->
  fold_left push_comp toks (Some stk) = Some stk' -> stack_ok stk'.
Proof.
  revert stk. induction toks as [|t toks IH]; intros stk Hk Ht; [by intros [= <-]|].
  cbn [fold_left]. destruct (push_comp (Some stk) t) as [stk1|] eqn:E; [|by rewrite fold_push_None].
  apply IH; [|set_solver]. destruct (Ht t) as [? ?]; [set_solver|]. by eapply push_comp_ok.
Qed.

Lemma norm_comps_ok path comps :
  no_nul path -> norm_comps path = Some comps -> stack_ok comps.
Proof.
  unfold norm_comps. rewrite fmap_Some. intros Hn (stk & Hf & ->).
  apply fold_push_ok in Hf as [Hg Hl].
  - split; [by apply Forall_reverse | by rewrite length_reverse].
  - by split; [constructor | simpl].
  - intros t Ht. by eapply split_on_tokens.
Qed.

Lemma split_on_comps c comps :
  Forall good_comp (c :: comps) ->
  split_on SLASH (c ++ concat (map (cons SLASH) comps)) = c :: comps.
Proof.
  revert c. induction comps as [|d comps IH]; intros c Hg; simpl;
    inversion Hg as [|? ? (Hne & Hs & _) Hg']; subst.
  - rewrite app_nil_r. by apply (split_on_token []).
  - rewrite (proj1 (split_on_token _ c Hs)). f_equal. by apply IH.
Qed.

Lemma split_on_render comps :
  Forall good_comp comps ->
  split_on SLASH (render comps) = match comps with [] => [[]; []] | _ => [] :: comps end.
Proof.
  intros Hg. destruct comps as [|c comps]; [done|]. simpl. f_equal. by apply split_on_comps.
Qed.

Lemma fold_push_good comps stk :
  Forall good_comp comps ->
  Z.of_nat (length comps + length stk) <= MAX_PATH_COMPONENTS ->
  fold_left push_comp comps (Some stk) = Some (reverse comps ++ stk).
Proof.
  intros Hg. revert stk. induction Hg as [|c comps (H1 & H2 & H3 & H4 & H5) Hg IH];
    intros stk Hl; [done|].
  cbn [fold_left]. unfold push_comp at 2.
  destruct (decide (c = [] \/ c = str ".")) as [[]|]; [done..|].
  destruct (decide (c = str "..")); [done|].
  destruct (Z.leb_spec MAX_PATH_COMPONENTS (Z.of_nat (length stk))); [simpl in Hl; lia|].
  rewrite IH by (simpl in *; lia). by rewrite reverse_cons, <- app_assoc.
Qed.

Lemma norm_comps_render comps :
  stack_ok comps -> norm_comps (render comps) = Some comps.
Proof.
  intros [Hg Hl]. unfold norm_comps. rewrite split_on_render by done.
  destruct comps as [|c comps]; [done|].
  change (fold_left push_comp ([] :: ?k) (Some [])) with (fold_left push_comp k (Some [])).
  rewrite fold_push_good by (done || simpl in *; lia). simpl. by rewrite app_nil_r, reverse_involutive.
Qed.

Lemma no_nul_render comps : Forall good_comp comps -> no_nul (render comps).
Proof.
  intros Hg. assert (no_nul (concat (map (cons SLASH) comps))) as H.
  { induction Hg as [|c comps (_ & _ & _ & _ & Hc) _ IH]; simpl; [constructor|].
    constructor; [done|]. by apply Forall_app. }
  destruct comps; [by repeat constructor | exact H].
Qed.

Lemma normalize_Ok_inv path size out :
  no_nul path -> 0 < size -> ftp_path_normalize (Some path) size = Ok out ->
  exists comps, out = render comps /\ norm_comps path = Some comps /\ stack_ok comps
                /\ strlen out < size.
Proof.
  intros Hn Hsz. rewrite normalize_refines by done. unfold normalize_spec.
  case_if; [done|]. destruct (norm_comps path) as [comps|] eqn:E; [|done].
  case_if; [done|]. intros [= <-]. zbool. apply norm_comps_ok in E as ?; [|done].
  exists comps. do 3 (split; [done|]). lia.
Qed.

Lemma split_on_not_nil c s : split_on c s <> [].
Proof. destruct s as [|x s]; simpl; [done|]. destruct (x =? c); [done|]. by destruct (split_on c s). Qed.

Lemma split_on_app c s t : split_on c (s ++ c :: t) = split_on c s ++ split_on c t.
Proof.
  induction s as [|x s IH]; simpl; [by rewrite Z.eqb_refl|].
  destruct (x =? c); rewrite IH; [done|].
  pose proof (split_on_not_nil c s). by destruct (split_on c s) as [|tok toks].
Qed.

Lemma render_inj cs ds :
  Forall good_comp cs -> Forall good_comp ds -> render cs = render ds -> cs = ds.
Proof.
  intros Hc Hd E. apply (f_equal (split_on SLASH)) in E. rewrite !split_on_render in E by done.
  destruct cs as [|c cs], ds as [|d ds]; [done| | |congruence]; exfalso; simplify_eq.
  - by inversion Hd as [|? ? [? _]].
  - by inversion Hc as [|? ? [? _]].
Qed.

Lemma render_app rs ps :
  rs <> [] -> render (rs ++ ps) = render rs ++ concat (map (cons SLASH) ps).
Proof. destruct rs; [done|]. intros _. unfold render. simpl. by rewrite map_app, concat_app, app_assoc. Qed.

Lemma render_head cs : render cs !!! 0%nat = SLASH.
Proof. by destruct cs. Qed.

Lemma render_long c cs : Forall good_comp (c :: cs) -> 1 < strlen (render (c :: cs)).
Proof.
  intros Hg. inversion Hg as [|? ? [Hne _] _]; subst. destruct c; [done|].
  unfold strlen. simpl. lia.
Qed.

(** A rendered path that extends another one at a separator extends it by
    components. *)
Lemma render_prefix rs ps k :
  Forall good_comp rs -> Forall good_comp ps -> rs <> [] ->
  render ps = render rs ++ k -> k = [] \/ head k = Some SLASH ->
  exists qs, ps = rs ++ qs.
Proof.
  intros Hr Hp Hne E [->|Hk].
  - rewrite app_nil_r in E. apply render_inj in E as ->; [|done..]. exists []. by rewrite app_nil_r.
  - destruct k as [|x k]; [done|]. injection Hk as ->.
    apply (f_equal (split_on SLASH)) in E.
    rewrite split_on_app, !split_on_render in E by done.
    destruct rs as [|r rs]; [done|]. destruct ps as [|p ps].
    + exfalso. injection E as E _. subst r. by inversion Hr as [|? ? [? _]].
    + injection E as -> ->. by eexists.
Qed.

Lemma within_root_below ps rs :
  Forall good_comp ps -> Forall good_comp rs ->
  ftp_path_is_within_root (Some (render ps)) (Some (render rs)) = 1
  <-> below (render rs) (render ps).
Proof.
  intros Hp Hr. unfold ftp_path_is_within_root. rewrite !render_head, Z.eqb_refl. cbn [negb orb].
  destruct rs as [|r rs].
  { split; [intros _|done]. by exists [], ps. }
  pose proof (render_long _ _ Hr) as Hlong.
  destruct (Z.eqb_spec (strlen (render (r :: rs))) 1); [lia|]. cbn [andb].
  set (root := render (r :: rs)) in *. set (path := render ps) in *.
  assert (Hpre : strneq path root (Z.to_nat (strlen root)) = true <-> root `prefix_of` path).
  { unfold strlen. rewrite Nat2Z.id. apply strneq_prefix. by apply no_nul_render. }
  split.
  - case_if; [done|]. case_if; [done|]. zbool.
    apply Hpre in Heqb0 as [k Hk]. intros Hend.
    destruct (render_prefix (r :: rs) ps k) as [qs ->]; try done.
    + destruct k as [|x k]; [by left|]. right. revert Hend. unfold strlen.
      rewrite Hk, Nat2Z.id, lookup_total_middle, length_app. cbn [length].
      destruct (Z.ltb_spec (Z.of_nat (length root)) (Z.of_nat (length root + S (length k)))); [|lia].
      destruct (Z.eqb_spec x SLASH) as [->|]; done.
    + exists (r :: rs), qs. repeat split; try done. by apply Forall_app in Hp as [_ ?].
  - intros (rs' & qs & E1 & E2 & Hr' & Hq).
    apply render_inj in E1 as <-; [|done..].
    rewrite render_app in E2 by done. fold root in E2.
    assert (root `prefix_of` path) as Hpr by (rewrite E2; by eexists).
    destruct (Z.ltb_spec (strlen path) (strlen root)) as [Hlt|_].
    { apply prefix_length in Hpr. unfold strlen in Hlt. lia. }
    rewrite (proj2 Hpre Hpr). cbn [negb]. rewrite E2. unfold strlen. rewrite length_app, Nat2Z.id.
    destruct qs as [|q qs]; cbn [map concat app].
    + destruct (_ <? _) eqn:Hlt; [|done]. zbool. simpl in Hlt. lia.
    + rewrite lookup_total_middle, Z.eqb_refl. by destruct (_ <? _).
Qed.

(** ** Last components *)

Lemma concat_comps_app cs c :
  render (cs ++ [c]) = concat (map (cons SLASH) cs) ++ SLASH :: c.
Proof. rewrite <- concat_snoc_comp. by destruct cs. Qed.

Lemma basename_render cs c size :
  good_comp c -> strlen c < size ->
  ftp_path_basename (Some (render (cs ++ [c]))) size = Ok c.
Proof.
  intros (_ & Hs & _) Hl. unfold ftp_path_basename, strlen in *. rewrite concat_comps_app.
  destruct (Z.eqb_spec size 0); [lia|]. rewrite strrchr_app by done.
  rewrite cons_middle, app_assoc. rewrite drop_app_length' by (rewrite length_app; simpl; lia).
  destruct (Z.ltb_spec size (Z.of_nat (length c) + 1)); [lia|done].
Qed.

Lemma dirname_render cs c size :
  good_comp c -> strlen (render cs) < size ->
  ftp_path_dirname (Some (render (cs ++ [c]))) size = Ok (render cs).
Proof.
  intros (_ & Hs & _) Hl. unfold ftp_path_dirname, strlen in *. rewrite concat_comps_app.
  destruct (Z.eqb_spec size 0); [lia|]. rewrite strrchr_app by done.
  destruct cs as [|d cs]; [by destruct (Z.ltb_spec size 2); simpl in Hl; [lia|]|].
  rewrite take_app_length. simpl in *.
  destruct (Z.ltb_spec size (Z.of_nat (S (length (d ++ concat (map (cons SLASH) cs)))) + 1));
    [lia|done].
Qed.

Lemma normalize_render comps size :
  stack_ok comps -> strlen (render comps) < size -> size <= FTP_PATH_MAX ->
  ftp_path_normalize (Some (render comps)) size = Ok (render comps).
Proof.
  intros Hk Hl Hsz. rewrite normalize_refines; [|apply no_nul_render, Hk|unfold strlen in *; lia].
  unfold normalize_spec. rewrite norm_comps_render by done.
  destruct (Z.leb_spec FTP_PATH_MAX (strlen (render comps))); [lia|].
  destruct (Z.ltb_spec size (strlen (render comps) + 1)); [lia|done].
Qed.

Lemma render_last cs :
  cs <> [] -> Forall good_comp cs -> render cs !!! (length (render cs) - 1)%nat <> SLASH.
Proof.
  intros Hne Hg. destruct (exists_last Hne) as (ds & c & ->).
  apply Forall_app in Hg as [_ Hg]. inversion Hg as [|? ? (Hc & Hs & _) _]; subst.
  destruct (exists_last Hc) as (c' & x & ->). rewrite concat_comps_app.
  set (a := concat (map (cons SLASH) ds)).
  replace (a ++ SLASH :: c' ++ [x]) with ((a ++ SLASH :: c') ++ [x]) by (by rewrite <- app_assoc).
  rewrite (length_app _ [x]), Nat.add_sub, lookup_total_middle. set_solver.
Qed.

Lemma join_render cs c :
  stack_ok (cs ++ [c]) -> strlen (render cs) + strlen c + 2 < FTP_PATH_MAX ->
  ftp_path_join (Some (render cs)) (Some c) FTP_PATH_MAX = Some (Ok (render (cs ++ [c]))).
Proof.
  intros Hk Hl. pose proof Hk as [[Hcs Hc]%Forall_app _].
  unfold ftp_path_join. rewrite Z.ltb_irrefl.
  destruct (Z.leb_spec FTP_PATH_MAX (strlen (render cs) + strlen c + 2)); [lia|].
  assert (strlen (render (cs ++ [c])) < FTP_PATH_MAX) as Hlen.
  { rewrite concat_comps_app. unfold strlen in *. rewrite length_app.
    destruct cs; simpl in *; lia. }
  assert (E : (if (0 <? strlen (render cs))
                  && negb (render cs !!! Z.to_nat (strlen (render cs) - 1) =? SLASH)
               then render cs ++ [SLASH] else render cs) ++ c = render (cs ++ [c])).
  { destruct cs as [|d cs]; [simpl; by rewrite app_nil_r|].
    unfold strlen. replace (Z.to_nat _) with (length (render (d :: cs)) - 1)%nat by lia.
    pose proof (render_last (d :: cs) ltac:(done) Hcs) as Hlast.
    apply Z.eqb_neq in Hlast. rewrite Hlast.
    destruct (Z.ltb_spec 0 (Z.of_nat (length (render (d :: cs))))); [|simpl in *; lia].
    cbn [negb andb]. by rewrite concat_comps_app, <- app_assoc. }
  match type of E with ?b ++ _ = _ => set (base' := b) in * end.
  assert (strlen base' + strlen c = strlen (render (cs ++ [c]))) as Hb
    by (unfold strlen; rewrite <- E, length_app; lia).
  destruct (Z.ltb_spec FTP_PATH_MAX (strlen base' + strlen c + 1)); [lia|].
  rewrite E. by rewrite normalize_render.
Qed.

(** ** Properties *)

(** C40: [ftp_path_normalize] computes the reference normalisation.  For every
    C string and every buffer size, the tokenising loop over the mutable
    working buffer returns exactly what splitting on '/', dropping empty and
    '.' components, popping on '..' and re-joining gives, with the same
    PATH_TOO_LONG results for over-long input, more than 128 components and a
    buffer that is too small. *)
Theorem normalize_refines_spec path size :
  no_nul path -> 0 <= size ->
  ftp_path_normalize (Some path) size
  = if size =? 0 then Err FTP_ERR_INVALID_PARAM else normalize_spec path size.
Proof.
  intros Hn Hsz. destruct (Z.eqb_spec size 0) as [->|]; [done|].
  apply normalize_refines; [done|lia].
Qed.

Lemma normalize_refines_spec_witness :
  ftp_path_normalize (Some (str "a/./b//../c/")) 4096 = Ok (str "/a/c").
Proof.
  rewrite (normalize_refines_spec (str "a/./b//../c/") 4096);
    [vm_compute; reflexivity | by_compute | lia].
Defined.

(** A successful normalisation returns a canonical absolute path (no
    empty, '.' or '..' component, no trailing separator), which fits the
    buffer with its NUL, and normalising it again returns it unchanged. *)
Theorem normalize_canonical_idempotent path size out :
  no_nul path -> 0 < size <= FTP_PATH_MAX ->
  ftp_path_normalize (Some path) size = Ok out ->
  canonical out /\ strlen out < size /\ ftp_path_normalize (Some out) size = Ok out.
Proof.
  intros Hn Hsz H. apply normalize_Ok_inv in H as (comps & -> & _ & Hk & Hl); [|done|lia].
  split; [exists comps; split; [done|apply Hk]|]. split; [done|]. apply normalize_render; lia || done.
Qed.

Lemma normalize_canonical_idempotent_witness :
  canonical (str "/b") /\ strlen (str "/b") < 3
  /\ ftp_path_normalize (Some (str "/b")) 3 = Ok (str "/b").
Proof.
  apply (normalize_canonical_idempotent (str "/../a/../b/.") 3 (str "/b"));
    [by_compute | by split | vm_compute; reflexivity].
Defined.

(** Between canonical paths, [ftp_path_is_within_root] answers 1 exactly
    when the path's component list extends the root's, so '/homeother' is not
    inside '/home' and everything is inside '/'. *)
Theorem within_root_iff_below path root :
  canonical path -> canonical root ->
  ftp_path_is_within_root (Some path) (Some root) = 1 <-> below root path.
Proof. intros (ps & -> & Hp) (rs & -> & Hr). by apply within_root_below. Qed.

Lemma within_root_iff_below_witness :
  ftp_path_is_within_root (Some (str "/home/a")) (Some (str "/home")) = 1
  <-> below (str "/home") (str "/home/a").
Proof.
  apply (within_root_iff_below (str "/home/a") (str "/home")).
  - exists [str "home"; str "a"]. split; [reflexivity | by_compute].
  - exists [str "home"]. split; [reflexivity | by_compute].
Defined.

(** [ftp_path_is_safe] rejects every path.  Its embedded-NUL test compares
    the result of [memchr] over the first [len] bytes, which is NULL for
    every C string, with the end of the string. *)
Theorem is_safe_rejects_all path :
  no_nul path -> ftp_path_is_safe (Some path) = 0.
Proof.
  intros Hn. unfold ftp_path_is_safe. case_if; [done|].
  unfold memchr. rewrite take_app_length.
  replace (strchr path 0) with (@None nat); [done|].
  symmetry. apply strchr_None. intros Hin. by eapply Forall_forall in Hn.
Qed.

Lemma is_safe_rejects_all_witness :
  ftp_path_is_safe (Some (str "/data/readme.txt")) = 0.
Proof.
  apply (is_safe_rejects_all (str "/data/readme.txt")). by_compute.
Defined.

(** [ftp_path_dirname] and [ftp_path_basename] split a canonical path into
    its parent directory and its last component, and [ftp_path_join] puts them
    together again. *)
Theorem dirname_basename_join cs c :
  stack_ok (cs ++ [c]) -> strlen (render cs) + strlen c + 2 < FTP_PATH_MAX ->
  let path := render (cs ++ [c]) in
  ftp_path_dirname (Some path) FTP_PATH_MAX = Ok (render cs) /\
  ftp_path_basename (Some path) FTP_PATH_MAX = Ok c /\
  ftp_path_join (Some (render cs)) (Some c) FTP_PATH_MAX = Some (Ok path).
Proof.
  intros Hk Hl path. pose proof Hk as [[_ Hc]%Forall_app _].
  inversion Hc as [|? ? Hg _]; subst. unfold strlen in *. unfold path.
  split; [apply dirname_render; [done|unfold strlen; lia]|].
  split; [apply basename_render; [done|unfold strlen; lia]|]. by apply join_render.
Qed.

Lemma dirname_basename_join_witness :
  ftp_path_dirname (Some (str "/data/save")) FTP_PATH_MAX = Ok (str "/data") /\
  ftp_path_basename (Some (str "/data/save")) FTP_PATH_MAX = Ok (str "save") /\
  ftp_path_join (Some (str "/data")) (Some (str "save")) FTP_PATH_MAX
  = Some (Ok (str "/data/save")).
Proof.
  apply (dirname_basename_join [str "data"] (str "save")); [by_compute | reflexivity].
Defined.

(** [ftp_path_join] checks the combined length against the caller's
    buffer and not against its own: with the documented buffer size it never
    writes past [temp]; with any size above FTP_PATH_MAX + 1 some inputs do. *)
Theorem join_temp_bound :
  (forall base append, ftp_path_join base append FTP_PATH_MAX <> None) /\
  (forall size, FTP_PATH_MAX + 1 < size ->
     exists base append, ftp_path_join (Some base) (Some append) size = None).
Proof.
  split.
  - intros [base|] [append|]; try done. unfold ftp_path_join. rewrite Z.ltb_irrefl.
    destruct (Z.leb_spec FTP_PATH_MAX (strlen base + strlen append + 2)) as [|Hl]; [done|].
    case_match eqn:Ht; [|done]. exfalso. zbool. revert Ht. unfold strlen in *.
    case_if; rewrite ?length_app; simpl; lia.
  - intros size Hsz. exists (replicate 4095 97), []. unfold ftp_path_join.
    change (strlen (replicate 4095 97) + strlen [] + 2) with 4097. unfold FTP_PATH_MAX in *.
    destruct (Z.ltb_spec size 4096); [lia|]. destruct (Z.leb_spec size 4097); [lia|].
    vm_compute. reflexivity.
Qed.
