(* ===== verification/FtpProtocol.v ===== *)
(** * Command parsing and reply formatting: [src/ftp_protocol.c] *)

From S2P Require Import Prelude CLib FtpTypes.

(** ** The command table *)

(** The handlers the table points to; [FtpCommands] gives their bodies. *)
Inductive handler :=
| H_USER | H_PASS | H_QUIT | H_NOOP | H_CWD | H_CDUP | H_PWD
| H_LIST | H_NLST | H_MLSD | H_MLST | H_RETR | H_STOR | H_APPE
| H_REST | H_DELE | H_RMD | H_MKD | H_RNFR | H_RNTO | H_CPFR
| H_CPTO | H_COPY | H_PORT | H_PASV | H_EPSV | H_OPTS | H_SITE
| H_CLNT | H_SIZE | H_MDTM | H_STAT | H_SYST | H_FEAT | H_HELP
| H_TYPE | H_MODE | H_STRU | H_AUTH.

#[global] Instance handler_eq_dec : EqDecision handler.
Proof. solve_decision. Defined.

Record ftp_command_entry_t := CmdEntry {
  cmd_name : bytes;
  cmd_handler : handler;
  cmd_args_req : ftp_args_req_t
}.

#[global] Instance ftp_command_entry_eq_dec : EqDecision ftp_command_entry_t.
Proof. solve_decision. Defined.

Definition command_table : list ftp_command_entry_t :=
  [ CmdEntry (str "USER") H_USER FTP_ARGS_REQUIRED;
    CmdEntry (str "PASS") H_PASS FTP_ARGS_OPTIONAL;
    CmdEntry (str "QUIT") H_QUIT FTP_ARGS_NONE;
    CmdEntry (str "NOOP") H_NOOP FTP_ARGS_NONE;
    CmdEntry (str "CWD") H_CWD FTP_ARGS_REQUIRED;
    CmdEntry (str "CDUP") H_CDUP FTP_ARGS_NONE;
    CmdEntry (str "PWD") H_PWD FTP_ARGS_NONE;
    CmdEntry (str "LIST") H_LIST FTP_ARGS_OPTIONAL;
    CmdEntry (str "NLST") H_NLST FTP_ARGS_OPTIONAL;
    CmdEntry (str "MLSD") H_MLSD FTP_ARGS_OPTIONAL;
    CmdEntry (str "MLST") H_MLST FTP_ARGS_OPTIONAL;
    CmdEntry (str "RETR") H_RETR FTP_ARGS_REQUIRED;
    CmdEntry (str "STOR") H_STOR FTP_ARGS_REQUIRED;
    CmdEntry (str "APPE") H_APPE FTP_ARGS_REQUIRED;
    CmdEntry (str "REST") H_REST FTP_ARGS_REQUIRED;
    CmdEntry (str "DELE") H_DELE FTP_ARGS_REQUIRED;
    CmdEntry (str "RMD") H_RMD FTP_ARGS_REQUIRED;
    CmdEntry (str "MKD") H_MKD FTP_ARGS_REQUIRED;
    CmdEntry (str "RNFR") H_RNFR FTP_ARGS_REQUIRED;
    CmdEntry (str "RNTO") H_RNTO FTP_ARGS_REQUIRED;
    CmdEntry (str "CPFR") H_CPFR FTP_ARGS_REQUIRED;
    CmdEntry (str "CPTO") H_CPTO FTP_ARGS_REQUIRED;
    CmdEntry (str "COPY") H_COPY FTP_ARGS_REQUIRED;
    CmdEntry (str "PORT") H_PORT FTP_ARGS_REQUIRED;
    CmdEntry (str "PASV") H_PASV FTP_ARGS_NONE;
    CmdEntry (str "EPSV") H_EPSV FTP_ARGS_OPTIONAL;
    CmdEntry (str "OPTS") H_OPTS FTP_ARGS_REQUIRED;
    CmdEntry (str "SITE") H_SITE FTP_ARGS_REQUIRED;
    CmdEntry (str "CLNT") H_CLNT FTP_ARGS_OPTIONAL;
    CmdEntry (str "SIZE") H_SIZE FTP_ARGS_REQUIRED;
    CmdEntry (str "MDTM") H_MDTM FTP_ARGS_REQUIRED;
    CmdEntry (str "STAT") H_STAT FTP_ARGS_OPTIONAL;
    CmdEntry (str "SYST") H_SYST FTP_ARGS_NONE;
    CmdEntry (str "FEAT") H_FEAT FTP_ARGS_NONE;
    CmdEntry (str "HELP") H_HELP FTP_ARGS_OPTIONAL;
    CmdEntry (str "TYPE") H_TYPE FTP_ARGS_REQUIRED;
    CmdEntry (str "MODE") H_MODE FTP_ARGS_REQUIRED;
    CmdEntry (str "STRU") H_STRU FTP_ARGS_REQUIRED;
    CmdEntry (str "AUTH") H_AUTH FTP_ARGS_REQUIRED ].

Definition command_table_size : nat := length command_table.

(** ** Default reply messages *)

Definition get_default_message (code : ftp_reply_code_t) : bytes :=
  match code with
  | FTP_REPLY_150_FILE_OK => str "File status okay; about to open data connection."
  | FTP_REPLY_200_OK => str "Command okay."
  | FTP_REPLY_211_SYSTEM_STATUS => str "System status."
  | FTP_REPLY_214_HELP => str "Help message."
  | FTP_REPLY_215_SYSTEM_TYPE => str "UNIX Type: L8"
  | FTP_REPLY_220_SERVICE_READY => str "Service ready for new user."
  | FTP_REPLY_221_GOODBYE => str "Service closing control connection."
  | FTP_REPLY_227_PASV_MODE => str "Entering Passive Mode."
  | FTP_REPLY_229_EPSV_MODE => str "Entering Extended Passive Mode."
  | FTP_REPLY_225_DATA_OPEN => str "Data connection open; no transfer in progress."
  | FTP_REPLY_226_TRANSFER_COMPLETE => str "Closing data connection. Transfer complete."
  | FTP_REPLY_230_LOGGED_IN => str "User logged in, proceed."
  | FTP_REPLY_250_FILE_ACTION_OK => str "Requested file action okay, completed."
  | FTP_REPLY_331_NEED_PASSWORD => str "User name okay, need password."
  | FTP_REPLY_350_PENDING => str "Requested file action pending further information."
  | FTP_REPLY_421_SERVICE_UNAVAIL => str "Service not available, closing control connection."
  | FTP_REPLY_425_CANT_OPEN_DATA => str "Can't open data connection."
  | FTP_REPLY_426_TRANSFER_ABORTED => str "Connection closed; transfer aborted."
  | FTP_REPLY_450_FILE_UNAVAILABLE => str "Requested file action not taken."
  | FTP_REPLY_451_LOCAL_ERROR => str "Requested action aborted: local error."
  | FTP_REPLY_500_SYNTAX_ERROR => str "Syntax error, command unrecognized."
  | FTP_REPLY_501_SYNTAX_ARGS => str "Syntax error in parameters or arguments."
  | FTP_REPLY_502_NOT_IMPLEMENTED => str "Command not implemented."
  | FTP_REPLY_503_BAD_SEQUENCE => str "Bad sequence of commands."
  | FTP_REPLY_530_NOT_LOGGED_IN => str "Not logged in."
  | FTP_REPLY_550_FILE_ERROR => str "Requested action not taken. File unavailable."
  | FTP_REPLY_553_FILENAME_INVALID => str "Requested action not taken. File name not allowed."
  | _ => str "Unknown reply code."
  end.

(** ** Parsing *)

(** [while ((arg_len > 0U) && isspace(arg_start[arg_len - 1U])) arg_len--;] *)
Fixpoint trim_len (arg_start : bytes) (arg_len : nat) : nat :=
  match arg_len with
  | O => O
  | S n => if isspace (arg_start !!! n) then trim_len arg_start n else arg_len
  end.

(** [args_size] is [None] when the caller passes [args == NULL]; the result
    is what the command and argument buffers hold. *)
Definition ftp_parse_command_line (line : option bytes) (cmd_size : Z) (args_size : option Z)
    : res (bytes * option bytes) :=
  match line with
  | None => Err FTP_ERR_INVALID_PARAM
  | Some line =>
      if cmd_size =? 0 then Err FTP_ERR_INVALID_PARAM
      else
        let space := strchr line SPACE in
        let cmd_len := match space with None => length line | Some i => i end in
        if (Z.of_nat cmd_len =? 0) || (cmd_size <=? Z.of_nat cmd_len) then Err FTP_ERR_PROTOCOL
        else
          let command := map toupper (take cmd_len line) in
          match space, args_size with
          | Some i, Some args_size =>
              let arg_start := drop_while isspace (drop (i + 1) line) in
              let arg_len := trim_len arg_start (length arg_start) in
              if args_size <=? Z.of_nat arg_len then Err FTP_ERR_PROTOCOL
              else Ok (command, Some (take arg_len arg_start))
          | None, Some _ => Ok (command, Some [])
          | _, None => Ok (command, None)
          end
  end.

Definition ftp_find_command (name : option bytes) : option ftp_command_entry_t :=
  match name with
  | None => None
  | Some name => find (fun e => strcaseeq name (cmd_name e)) command_table
  end.

Definition ftp_validate_command_args (cmd : option ftp_command_entry_t) (args : option bytes)
    : ftp_error_t :=
  match cmd with
  | None => FTP_ERR_INVALID_PARAM
  | Some cmd =>
      let has_args := match args with Some (_ :: _) => true | _ => false end in
      match cmd_args_req cmd with
      | FTP_ARGS_NONE => if has_args then FTP_ERR_PROTOCOL else FTP_OK
      | FTP_ARGS_REQUIRED => if negb has_args then FTP_ERR_PROTOCOL else FTP_OK
      | FTP_ARGS_OPTIONAL => FTP_OK
      end
  end.

Definition ftp_get_command_table : list ftp_command_entry_t * nat :=
  (command_table, command_table_size).

(** ** Replies *)

(** The formatted reply: the buffer's contents; [snprintf] cannot fail on
    these arguments, so the only error besides a small buffer is truncation. *)
Definition ftp_format_reply (code : ftp_reply_code_t) (message : option bytes) (size : Z)
    : res bytes :=
  if size <? 64 then Err FTP_ERR_INVALID_PARAM
  else
    let msg := match message with None => get_default_message code | Some m => m end in
    let text := fmt_d (reply_code code) ++ SPACE :: msg ++ [CR; LF] in
    if size <=? strlen text then Err FTP_ERR_INVALID_PARAM else Ok text.

Definition ftp_get_default_reply_message (code : ftp_reply_code_t) : bytes :=
  get_default_message code.

(** ** Facts *)

(** Neither end is white space. *)
Definition trimmed (a : bytes) : Prop :=
  (forall c, head a = Some c -> isspace c = false) /\
  (forall c, last a = Some c -> isspace c = false).

Definition spaces (ws : bytes) : Prop := Forall (fun c => isspace c = true) ws.

Lemma trim_len_spec a ws :
  (forall c, last a = Some c -> isspace c = false) -> spaces ws ->
  trim_len (a ++ ws) (length (a ++ ws)) = length a.
Proof.
  intros Ha Hw. assert (Hk : forall n, (n <= length ws)%nat ->
    trim_len (a ++ ws) (length a + n) = length a).
  { induction n as [|n IH]; intros Hn.
    - rewrite Nat.add_0_r. destruct a as [|x a _] using rev_ind; [done|].
      rewrite length_app, Nat.add_1_r. simpl. rewrite <- app_assoc. cbn [app]. rewrite lookup_total_middle.
      by rewrite (Ha x) by (by rewrite last_snoc).
    - rewrite Nat.add_succ_r. simpl. rewrite lookup_total_app_r by lia.
      replace (length a + n - length a)%nat with n by lia.
      destruct (lookup_lt_is_Some_2 ws n) as [c Hc]; [lia|].
      rewrite (list_lookup_total_correct _ _ _ Hc).
      pose proof (proj1 (Forall_lookup _ _) Hw n c Hc) as ->. apply IH. lia. }
  rewrite length_app. by apply Hk.
Qed.

Lemma trim_split s : exists a ws,
  s = a ++ ws /\ spaces ws /\ (forall c, last a = Some c -> isspace c = false).
Proof.
  induction s as [|x s (a & ws & -> & Hw & Ha)] using rev_ind; [by exists [], []; repeat constructor|].
  destruct (isspace x) eqn:Hx.
  - exists a, (ws ++ [x]). rewrite app_assoc. split; [done|]. split; [|done].
    apply Forall_app. split; [done|]. by constructor.
  - exists ((a ++ ws) ++ [x]), []. rewrite app_nil_r. split; [done|]. split; [constructor|].
    intros c. rewrite last_snoc. by intros [= <-].
Qed.

Lemma drop_while_spaces ws a :
  spaces ws -> (forall c, head a = Some c -> isspace c = false) ->
  drop_while isspace (ws ++ a) = a.
Proof.
  intros Hw Ha. destruct a as [|x a]; [rewrite app_nil_r; by apply drop_while_all|].
  apply drop_while_app_stop; [done|]. by apply Ha.
Qed.

Lemma trimmed_head_app a ws :
  trimmed a -> a <> [] -> forall c, head (a ++ ws) = Some c -> isspace c = false.
Proof. destruct a; [done|]. intros [H _] _ c. by apply H. Qed.

(** What the argument extraction computes on a decomposed tail. *)
Lemma extract_args ws1 a ws2 :
  spaces ws1 -> trimmed a -> spaces ws2 ->
  let arg_start := drop_while isspace (ws1 ++ a ++ ws2) in
  take (trim_len arg_start (length arg_start)) arg_start = a /\
  trim_len arg_start (length arg_start) = length a.
Proof.
  intros H1 Ha H2 arg_start. unfold arg_start. destruct (decide (a = [])) as [->|Hne].
  - rewrite drop_while_all by (by apply Forall_app). done.
  - rewrite drop_while_spaces by (done || by apply trimmed_head_app).
    rewrite trim_len_spec by (done || apply Ha). by rewrite take_app_length.
Qed.

(** Every tail decomposes. *)
Lemma tail_split s : exists ws1 a ws2,
  s = ws1 ++ a ++ ws2 /\ spaces ws1 /\ trimmed a /\ spaces ws2.
Proof.
  destruct (trim_split (drop_while isspace s)) as (a & ws2 & E & H2 & Ha).
  exists (take_while isspace s), a, ws2. rewrite <- E, take_drop_while.
  split; [done|]. split; [apply take_while_Forall|]. split; [|done]. split; [|done].
  intros c Hc. destruct a as [|x a]; [done|]. injection Hc as ->. by apply (drop_while_head _ s c (a ++ ws2)).
Qed.

(** The lines that parse to a command [c] with argument [a]. *)
Definition line_parses (line : bytes) (cmd_size args_size : Z) (c a : bytes) : Prop :=
  exists w, c = map toupper w /\ w <> [] /\ (SPACE ∉ w) /\ strlen w < cmd_size /\
    ((line = w /\ a = []) \/
     (exists ws1 ws2, line = w ++ SPACE :: ws1 ++ a ++ ws2
        /\ spaces ws1 /\ trimmed a /\ spaces ws2 /\ strlen a < args_size)).

(** [ftp_parse_command_line] accepts exactly the lines made of a
    non-empty space-free word shorter than the command buffer, optionally
    followed by a space and an argument surrounded by any white space; it
    returns the word in upper case and the argument with both ends trimmed. *)
Theorem parse_command_line_spec line cmd_size args_size c a :
  ftp_parse_command_line (Some line) cmd_size (Some args_size) = Ok (c, Some a)
  <-> line_parses line cmd_size args_size c a.
Proof.
  unfold ftp_parse_command_line, line_parses. split.
  - case_if; [done|]. destruct (strchr line SPACE) as [i|] eqn:E.
    + apply strchr_Some in E as [Hi Hn]. pose proof (lookup_lt_Some _ _ _ Hi) as Hlt.
      destruct (_ || _)%bool eqn:Hc; [done|]. zbool.
      destruct (tail_split (drop (i + 1) line)) as (ws1 & a' & ws2 & Et & Hw1 & Ha & Hw2).
      rewrite Et. destruct (extract_args ws1 a' ws2 Hw1 Ha Hw2) as [-> ->].
      case_if; [done|]. intros [= <- <-]. zbool. exists (take i line).
      split; [done|]. split; [intros E0; apply (f_equal length) in E0; rewrite length_take in E0; simpl in E0; lia|].
      split; [done|]. split; [unfold strlen; rewrite length_take; lia|].
      right. exists ws1, ws2. split; [|done]. rewrite <- Et, Nat.add_1_r. symmetry.
      by apply take_drop_middle.
    + apply strchr_None in E. case_if; [done|]. zbool. intros [= <- <-].
      exists line. rewrite take_ge by done. repeat split; try done; [by intros ->|]. by left.
  - intros (w & -> & Hw & Hs & Hl & Hcase). unfold strlen in *.
    assert (Hw' : 0 < Z.of_nat (length w)) by (destruct w; [done|simpl; lia]).
    destruct (Z.eqb_spec cmd_size 0); [lia|].
    destruct Hcase as [[-> ->]|(ws1 & ws2 & -> & H1 & Ha & H2 & Hla)].
    + rewrite (proj2 (strchr_None _ _) Hs). rewrite take_ge by done.
      destruct (Z.eqb_spec (Z.of_nat (length w)) 0), (Z.leb_spec cmd_size (Z.of_nat (length w)));
        [lia..|done].
    + rewrite strchr_app_l by done.
      destruct (Z.eqb_spec (Z.of_nat (length w)) 0), (Z.leb_spec cmd_size (Z.of_nat (length w)));
        [lia..|]. cbn [orb].
      rewrite (cons_middle SPACE), app_assoc.
      rewrite drop_app_length' by (rewrite length_app; simpl; lia).
      destruct (extract_args ws1 a ws2 H1 Ha H2) as [-> ->].
      destruct (Z.leb_spec args_size (Z.of_nat (length a))); [lia|].
      by rewrite <- app_assoc, take_app_length.
Qed.

(** Case-insensitive names in the table are unique. *)
Lemma command_table_unique : NoDup (map (fun e => map tolower (cmd_name e)) command_table).
Proof. by_compute. Qed.

Lemma find_unique {A B} `{EqDecision B} (key : A -> B) (l : list A) x b :
  NoDup (map key l) ->
  find (fun e => bool_decide (b = key e)) l = Some x <-> x ∈ l /\ key x = b.
Proof.
  induction l as [|y l IH]; intros Hn; simpl; [set_solver|].
  apply NoDup_cons in Hn as [Hy Hn]. destruct (decide (b = key y)) as [->|Hb].
  - rewrite bool_decide_true by done. split; [intros [= <-]; set_solver|].
    rewrite elem_of_cons. intros [[->|Hin] Hk]; [done|]. exfalso. apply Hy.
    rewrite <- Hk. apply list_elem_of_fmap. eauto.
  - rewrite bool_decide_false by done. rewrite IH, elem_of_cons by done. naive_solver.
Qed.

(** [ftp_find_command] returns an entry exactly when the entry is in the
    table and its name equals the given one up to letter case, so the linear
    search never depends on the order of the table. *)
Theorem find_command_spec name e :
  ftp_find_command (Some name) = Some e
  <-> e ∈ command_table /\ map tolower (cmd_name e) = map tolower name.
Proof.
  apply (find_unique (fun e => map tolower (cmd_name e))), command_table_unique.
Qed.

Lemma fmt_reply_code code : exists a b c,
  fmt_d (reply_code code) = [a; b; c] /\ Forall (fun d => isdigit d = true) [a; b; c].
Proof. destruct code; repeat eexists; vm_compute; repeat constructor. Qed.

(** [ftp_format_reply] produces the three-digit code, a space, the
    message and CRLF, fits the buffer with its NUL, and fails exactly when
    the buffer is under 64 bytes or the line would be truncated. *)
Theorem format_reply_spec code message size :
  let msg := default (get_default_message code) message in
  ftp_format_reply code message size
  = (if decide (64 <= size /\ strlen msg + 6 < size)
     then Ok (fmt_d (reply_code code) ++ SPACE :: msg ++ [CR; LF])
     else Err FTP_ERR_INVALID_PARAM) /\
  (forall out, ftp_format_reply code message size = Ok out -> strlen out = strlen msg + 6).
Proof.
  intros msg. unfold ftp_format_reply.
  replace (match message with None => _ | Some m => m end) with msg by (by destruct message).
  destruct (fmt_reply_code code) as (a & b & c & -> & _).
  set (text := _ ++ SPACE :: _).
  assert (strlen text = strlen msg + 6) as Ht
    by (unfold strlen, text; simpl; rewrite length_app; simpl; lia).
  destruct (Z.ltb_spec size 64), (decide (64 <= size /\ strlen msg + 6 < size)); try lia; try done;
    destruct (Z.leb_spec size (strlen text)); try lia; (split; [done|]); try done.
  by intros out [= <-].
Qed.
