(* ===== verification/FtpCrypto.v ===== *)
(** * ChaCha20 session encryption: [src/ftp_crypto.c]

    The block function on 32-bit words, the buffered keystream XOR with its
    context, and the key derivation.  The reference definition is the
    infinite keystream [stream_byte]: byte [n] of the concatenated blocks
    with counters 0, 1, 2, ... modulo 2^32. *)

From S2P Require Import Prelude.

(** ** Block function *)

Definition rotl32 (v n : Z) : Z := Z.lor (u32 (Z.shiftl v n)) (Z.shiftr v (32 - n)).

Definition quarter_round (abcd : Z * Z * Z * Z) : Z * Z * Z * Z :=
  let '(a, b, c, d) := abcd in
  let a := a +u32 b in
  let d := Z.lxor d a in
  let d := rotl32 d 16 in
  let c := c +u32 d in
  let b := Z.lxor b c in
  let b := rotl32 b 12 in
  let a := a +u32 b in
  let d := Z.lxor d a in
  let d := rotl32 d 8 in
  let c := c +u32 d in
  let b := Z.lxor b c in
  let b := rotl32 b 7 in
  (a, b, c, d).

(** [quarter_round(&x[i], &x[j], &x[k], &x[l])] *)
Definition quarter_round_at (i j k l : nat) (x : list Z) : list Z :=
  let '(a, b, c, d) := quarter_round (x !!! i, x !!! j, x !!! k, x !!! l) in
  <[l := d]> (<[k := c]> (<[j := b]> (<[i := a]> x))).

Definition load32_le (p : bytes) : Z :=
  Z.lor (Z.lor (Z.lor (p !!! 0%nat) (Z.shiftl (p !!! 1%nat) 8))
               (Z.shiftl (p !!! 2%nat) 16))
        (Z.shiftl (p !!! 3%nat) 24).

Definition store32_le (v : Z) : bytes :=
  [u8 v; u8 (Z.shiftr v 8); u8 (Z.shiftr v 16); u8 (Z.shiftr v 24)].

Definition double_round (x : list Z) : list Z :=
  let x := quarter_round_at 0 4 8 12 x in
  let x := quarter_round_at 1 5 9 13 x in
  let x := quarter_round_at 2 6 10 14 x in
  let x := quarter_round_at 3 7 11 15 x in
  let x := quarter_round_at 0 5 10 15 x in
  let x := quarter_round_at 1 6 11 12 x in
  let x := quarter_round_at 2 7 8 13 x in
  quarter_round_at 3 4 9 14 x.

Definition chacha20_block (state : list Z) : bytes :=
  let x := Nat.iter 10 double_round state in
  let x := zip_with (fun xi si => xi +u32 si) x state in
  concat (map store32_le x).

(** ** Context *)

Definition SIGMA : list Z := [0x61707865; 0x3320646E; 0x79622D32; 0x6B206574].

Record ftp_crypto_ctx_t := CryptoCtx {
  cc_state : list Z;
  cc_keystream : bytes;
  cc_ks_offset : Z;
  cc_active : Z;
  cc_counter : Z
}.

(** All-zero bytes: the state [memset] and [ftp_crypto_reset] leave. *)
Definition crypto_zero : ftp_crypto_ctx_t :=
  CryptoCtx (replicate 16 0) (replicate 64 0) 0 0 0.

(** The matrix both [ftp_crypto_init] and [ftp_crypto_derive_key] fill. *)
Definition init_state (key nonce : bytes) : list Z :=
  SIGMA
  ++ map (fun i => load32_le (drop (i * 4) key)) (seq 0 8)
  ++ [0; load32_le nonce; load32_le (drop 4 nonce); load32_le (drop 8 nonce)].

Definition ftp_crypto_init (key nonce : bytes) : ftp_crypto_ctx_t :=
  CryptoCtx (init_state key nonce) (replicate 64 0) 64 1 0.

(** Generation of the next block when [ks_offset >= 64]. *)
Definition crypto_refill (ctx : ftp_crypto_ctx_t) : ftp_crypto_ctx_t :=
  let state := <[12%nat := cc_counter ctx]> (cc_state ctx) in
  CryptoCtx state (chacha20_block state) 0 (cc_active ctx) (cc_counter ctx +u32 1).

Fixpoint crypto_xor_loop (fuel : nat) (ctx : ftp_crypto_ctx_t) (p : bytes)
    : bytes * ftp_crypto_ctx_t :=
  match fuel with
  | O => (p, ctx)
  | S fuel' =>
      match p with
      | [] => ([], ctx)
      | _ =>
          let ctx := if 64 <=? cc_ks_offset ctx then crypto_refill ctx else ctx in
          let avail := 64 - cc_ks_offset ctx in
          let chunk := Z.to_nat (Z.min (strlen p) avail) in
          let out := zip_with Z.lxor (take chunk p)
                       (drop (Z.to_nat (cc_ks_offset ctx)) (cc_keystream ctx)) in
          let ctx := CryptoCtx (cc_state ctx) (cc_keystream ctx)
                       (u8 (cc_ks_offset ctx + Z.of_nat chunk)) (cc_active ctx) (cc_counter ctx) in
          let '(rest, ctx) := crypto_xor_loop fuel' ctx (drop chunk p) in
          (out ++ rest, ctx)
      end
  end.

(** Every iteration consumes at least one byte, so the data's length is
    enough fuel. *)
Definition ftp_crypto_xor (ctx : ftp_crypto_ctx_t) (data : bytes) : bytes * ftp_crypto_ctx_t :=
  crypto_xor_loop (length data) ctx data.

Definition ftp_crypto_reset (ctx : ftp_crypto_ctx_t) : ftp_crypto_ctx_t := crypto_zero.

Definition ftp_crypto_derive_key (psk nonce : bytes) : bytes :=
  take 32 (chacha20_block (init_state psk nonce)).

(** ** Reference keystream *)

(** Byte [n] of the stream of a key/nonce matrix. *)
Definition stream_byte (base : list Z) (n : nat) : Z :=
  chacha20_block (<[12%nat := u32 (Z.of_nat (n / 64))]> base) !!! (n mod 64)%nat.

Definition stream_xor (base : list Z) (n : nat) (data : bytes) : bytes :=
  zip_with Z.lxor data (map (stream_byte base) (seq n (length data))).

(** The context has consumed [n] bytes of the stream of [base]. *)
Definition at_pos (base : list Z) (n : nat) (ctx : ftp_crypto_ctx_t) : Prop :=
  length base = 16%nat /\
  (exists c, cc_state ctx = <[12%nat := c]> base) /\
  cc_active ctx = 1 /\
  exists blocks off : nat,
    cc_counter ctx = u32 (Z.of_nat blocks) /\ cc_ks_offset ctx = Z.of_nat off /\
    (off <= 64)%nat /\ (n + 64 = 64 * blocks + off)%nat /\
    ((off < 64)%nat ->
     cc_keystream ctx = chacha20_block (<[12%nat := u32 (Z.of_nat (blocks - 1))]> base)).

(** ** Block lengths *)

Lemma length_quarter_round_at i j k l x : length (quarter_round_at i j k l x) = length x.
Proof.
  unfold quarter_round_at. destruct (quarter_round _) as [[[a b] c] d]. by rewrite !length_insert.
Qed.

Lemma length_double_round x : length (double_round x) = length x.
Proof. unfold double_round. by rewrite !length_quarter_round_at. Qed.

#[local] Opaque double_round.

Lemma length_rounds n x : length (Nat.iter n double_round x) = length x.
Proof. induction n as [|n IH]; simpl; [done|]. by rewrite length_double_round. Qed.

Lemma length_stores (x : list Z) : length (concat (map store32_le x)) = (4 * length x)%nat.
Proof. induction x as [|v x IH]; simpl; [done|]. rewrite IH. lia. Qed.

Lemma length_chacha20_block state : length (chacha20_block state) = (4 * length state)%nat.
Proof.
  unfold chacha20_block. rewrite length_stores, length_zip_with, length_rounds. lia.
Qed.

#[global] Opaque chacha20_block.

Lemma length_init_state key nonce : length (init_state key nonce) = 16%nat.
Proof. done. Qed.

Lemma at_pos_init key nonce : at_pos (init_state key nonce) 0 (ftp_crypto_init key nonce).
Proof.
  split; [done|]. split; [by exists 0|]. split; [done|]. exists 0%nat, 64%nat.
  repeat split; try done; lia.
Qed.

(** ** The buffered XOR produces the reference stream *)

Lemma drop_keystream base n off blocks :
  (off <= 64)%nat -> length base = 16%nat -> (n + 64 = 64 * blocks + off)%nat -> (0 < blocks)%nat ->
  forall k, (k <= 64 - off)%nat ->
  take k (drop off (chacha20_block (<[12%nat := u32 (Z.of_nat (blocks - 1))]> base)))
  = map (stream_byte base) (seq n k).
Proof.
  intros Hoff Hb Hn Hbl k Hk. apply list_eq_same_length with (n := k).
  - by rewrite length_map, length_seq.
  - rewrite length_take, length_drop, length_chacha20_block, length_insert. lia.
  - intros i x y Hi. rewrite lookup_take_lt, lookup_drop by done.
    rewrite list_lookup_fmap, lookup_seq_lt by done. simpl. intros Hx [= <-].
    unfold stream_byte.
    replace ((n + i) / 64)%nat with (blocks - 1)%nat
      by (apply Nat.div_unique with (r := (off + i)%nat); lia).
    replace ((n + i) mod 64)%nat with (off + i)%nat
      by (apply Nat.mod_unique with (q := (blocks - 1)%nat); lia).
    by apply list_lookup_total_correct in Hx.
Qed.

Lemma zip_with_take {A B C} (f : A -> B -> C) l k :
  zip_with f l (take (length l) k) = zip_with f l k.
Proof. revert k. induction l as [|x l IH]; intros [|y k]; simpl; f_equal; auto. Qed.

Lemma stream_xor_app base n p q :
  stream_xor base n (p ++ q) = stream_xor base n p ++ stream_xor base (n + length p) q.
Proof.
  unfold stream_xor. rewrite length_app, seq_app, map_app, zip_with_app; [done|].
  by rewrite length_map, length_seq.
Qed.

Lemma at_pos_refill base n ctx :
  at_pos base n ctx -> cc_ks_offset ctx = 64 ->
  at_pos base n (crypto_refill ctx) /\ cc_ks_offset (crypto_refill ctx) = 0.
Proof.
  intros (Hb & [c Hst] & Hact & blocks & off & Hctr & Hoff & Hle & Hn & _) E.
  split; [|done]. split; [done|]. unfold crypto_refill. simpl.
  rewrite Hst, list_insert_insert_eq, Hctr. split; [by eexists|]. split; [done|].
  exists (S blocks), 0%nat. split; [unfold u32; rewrite Zplus_mod_idemp_l; f_equal; lia|].
  split; [done|]. split; [lia|]. split; [lia|]. intros _. by rewrite Nat.sub_succ, Nat.sub_0_r.
Qed.

(** One iteration on [k] bytes with the block already generated. *)
Lemma at_pos_advance base n ctx p k :
  at_pos base n ctx -> cc_ks_offset ctx < 64 -> k = length p ->
  Z.of_nat k <= 64 - cc_ks_offset ctx ->
  zip_with Z.lxor p (drop (Z.to_nat (cc_ks_offset ctx)) (cc_keystream ctx)) = stream_xor base n p /\
  at_pos base (n + k)
    (CryptoCtx (cc_state ctx) (cc_keystream ctx) (u8 (cc_ks_offset ctx + Z.of_nat k))
       (cc_active ctx) (cc_counter ctx)).
Proof.
  intros (Hb & Hst & Hact & blocks & off & Hctr & Hoff & Hle & Hn & Hks) Hlt -> Hk.
  rewrite Hoff in *. rewrite Nat2Z.id, Hks by lia. split.
  - unfold stream_xor. rewrite <- zip_with_take.
    by rewrite (drop_keystream base n off blocks) by lia.
  - split; [done|]. split; [done|]. split; [done|]. exists blocks, (off + length p)%nat.
    split; [done|]. split; [unfold u8; simpl; rewrite Z.mod_small; lia|].
    split; [lia|]. by split; [lia|].
Qed.

Lemma crypto_xor_loop_stream fuel base n ctx p :
  (length p <= fuel)%nat -> at_pos base n ctx ->
  (crypto_xor_loop fuel ctx p).1 = stream_xor base n p /\
  at_pos base (n + length p) (crypto_xor_loop fuel ctx p).2.
Proof.
  revert n ctx p. induction fuel as [|fuel IH]; intros n ctx p Hf Hp.
  { destruct p; [|simpl in Hf; lia]. by rewrite Nat.add_0_r. }
  destruct p as [|x p']; [by rewrite Nat.add_0_r|].
  simpl crypto_xor_loop. set (p := x :: p') in *.
  assert (0 < length p)%nat as Hne by (unfold p; simpl; lia). clearbody p.
  set (ctx1 := if 64 <=? cc_ks_offset ctx then crypto_refill ctx else ctx).
  assert (at_pos base n ctx1 /\ 0 <= cc_ks_offset ctx1 < 64) as [H1 Ho].
  { pose proof Hp as (_ & _ & _ & blocks & off & _ & Hoff & Hle & _). subst ctx1.
    destruct (Z.leb_spec 64 (cc_ks_offset ctx)).
    - destruct (at_pos_refill base n ctx Hp) as [? ->]; [lia|]. split; [done|lia].
    - split; [done|lia]. }
  clearbody ctx1. set (chunk := Z.to_nat _).
  assert (Hc : (0 < chunk <= length p)%nat /\ Z.of_nat chunk <= 64 - cc_ks_offset ctx1)
    by (unfold chunk, strlen; lia).
  destruct (at_pos_advance base n ctx1 (take chunk p) chunk) as [Hz Hp2]; [done|lia|..].
  { rewrite length_take. lia. }
  { lia. }
  specialize (IH (n + chunk)%nat _ (drop chunk p) ltac:(rewrite length_drop; lia) Hp2).
  destruct (crypto_xor_loop fuel _ (drop chunk p)) as [rest ctx2]. simpl in *.
  destruct IH as [-> IH]. rewrite Hz. split.
  - rewrite <- (take_drop chunk p) at 3. rewrite stream_xor_app, length_take.
    by replace (chunk `min` length p)%nat with chunk by lia.
  - rewrite length_drop in IH.
    by replace (n + length p)%nat with (n + chunk + (length p - chunk))%nat by lia.
Qed.

(** ** Properties *)

(** Processing a sequence of buffers with one context, as the send and
    receive loops of a session do. *)
Fixpoint xor_chunks (ctx : ftp_crypto_ctx_t) (chunks : list bytes) : list bytes :=
  match chunks with
  | [] => []
  | c :: rest => let '(out, ctx) := ftp_crypto_xor ctx c in out :: xor_chunks ctx rest
  end.

Lemma xor_chunks_stream base n ctx chunks :
  at_pos base n ctx -> concat (xor_chunks ctx chunks) = stream_xor base n (concat chunks).
Proof.
  revert n ctx. induction chunks as [|c chunks IH]; intros n ctx Hp; [done|]. simpl.
  destruct (crypto_xor_loop_stream (length c) base n ctx c (le_n _) Hp) as [H1 H2].
  unfold ftp_crypto_xor. destruct (crypto_xor_loop (length c) ctx c) as [out ctx2].
  simpl in *. rewrite stream_xor_app, (IH (n + length c)%nat) by done. by rewrite H1.
Qed.

Lemma stream_xor_involutive base n data : stream_xor base n (stream_xor base n data) = data.
Proof.
  unfold stream_xor at 1. replace (length (stream_xor base n data)) with (length data).
  2: { unfold stream_xor. rewrite length_zip_with, length_map, length_seq. lia. }
  unfold stream_xor. assert (length (map (stream_byte base) (seq n (length data))) = length data)
    as Hl by (by rewrite length_map, length_seq).
  revert Hl. generalize (map (stream_byte base) (seq n (length data))).
  induction data as [|x data IH]; intros [|y k] [=]; simpl; [done|].
  rewrite Z.lxor_assoc, Z.lxor_nilpotent, Z.lxor_0_r. f_equal. auto.
Qed.


(** Decryption inverts encryption across different buffer boundaries: if
    the sender cuts the plaintext one way and the receiver reads the
    ciphertext cut another way, the receiver recovers the plaintext. *)
Theorem crypto_xor_roundtrip key nonce sent received :
  concat (xor_chunks (ftp_crypto_init key nonce) sent) = concat received ->
  concat (xor_chunks (ftp_crypto_init key nonce) received) = concat sent.
Proof.
  pose proof (xor_chunks_stream _ _ _ sent (at_pos_init key nonce)) as Hs.
  pose proof (xor_chunks_stream _ _ _ received (at_pos_init key nonce)) as ->.
  intros E. rewrite Hs in E.
  by rewrite <- E, stream_xor_involutive.
Qed.

Definition test_key : bytes := map Z.of_nat (seq 0 32).
Definition test_nonce : bytes := [0; 0; 0; 9; 0; 0; 0; 0x4a; 0; 0; 0; 0].

Lemma crypto_xor_roundtrip_witness :
  let cipher := concat (xor_chunks (ftp_crypto_init test_key test_nonce)
                          [str "RETR "; str "data.bin"]) in
  concat (xor_chunks (ftp_crypto_init test_key test_nonce) [take 1 cipher; drop 1 cipher])
  = str "RETR data.bin".
Proof.
  apply (crypto_xor_roundtrip test_key test_nonce [str "RETR "; str "data.bin"]).
  vm_compute. reflexivity.
Defined.

(** With the key and nonce of RFC 8439, section 2.3.2, the second block
    of keystream that [ftp_crypto_xor] applies is the published one. *)
Theorem crypto_rfc8439_vector :
  drop 64 (ftp_crypto_xor (ftp_crypto_init test_key test_nonce) (replicate 128 0)).1
  = [0x10; 0xf1; 0xe7; 0xe4; 0xd1; 0x3b; 0x59; 0x15; 0x50; 0x0f; 0xdd; 0x1f; 0xa3; 0x20; 0x71; 0xc4;
     0xc7; 0xd1; 0xf4; 0xc7; 0x33; 0xc0; 0x68; 0x03; 0x04; 0x22; 0xaa; 0x9a; 0xc3; 0xd4; 0x6c; 0x4e;
     0xd2; 0x82; 0x64; 0x46; 0x07; 0x9f; 0xaa; 0x09; 0x14; 0xc2; 0xd7; 0x05; 0xd9; 0x8b; 0x02; 0xa2;
     0xb5; 0x12; 0x9c; 0xd1; 0xde; 0x16; 0x4e; 0xb9; 0xcb; 0xd0; 0x83; 0xe8; 0xa2; 0x50; 0x3c; 0x4e].
Proof. vm_compute. reflexivity. Qed.
