(* ===== verification/Os.v ===== *)
(** * The operating system interface and the effect monad

    Everything the sources ask of the kernel and of the C library's I/O is a
    request of type [sys]; the operating system itself is a parameter, the
    class [OS], that answers each request and changes its own state [W].  The
    answers are unconstrained unless a theorem assumes [SaneOS].

    Effectful code is a function in the state monad [M S A].  A loop whose
    length depends on the environment has a fuel argument; when the fuel runs
    out the computation stops with [None] and keeps the state reached, so an
    invariant of the final state is an invariant of every prefix of the run.
    The requests made are recorded in a trace. *)

From Stdlib Require Import SpecFloat.
From S2P Require Import Prelude CLib.

(** ** Requests *)

(** [struct sockaddr_in], address and port in host byte order. *)
Record sockaddr_in := SockAddr { sin_addr : Z; sin_port : Z }.

#[global] Instance sockaddr_in_eq_dec : EqDecision sockaddr_in.
Proof. solve_decision. Defined.

Definition sockaddr_zero : sockaddr_in := SockAddr 0 0.

(** The fields of [struct stat] the sources read. *)
Record stat_t := Stat { st_mode : Z; st_size : Z; st_mtime : Z; st_dev : Z; st_blocks : Z }.

(** The fields of [struct statvfs] and [struct sysinfo] the sources read. *)
Record statvfs_t := Statvfs { f_bsize : Z; f_frsize : Z; f_blocks : Z; f_bavail : Z }.
Record sysinfo_t := Sysinfo { si_uptime : Z; si_totalram : Z; si_freeram : Z; si_bufferram : Z; si_mem_unit : Z }.

(** The fields of [struct tm] as [gmtime_r] leaves them. *)
Record tm_t := Tm { tm_year : Z; tm_mon : Z; tm_mday : Z; tm_hour : Z; tm_min : Z; tm_sec : Z }.

(** Socket options by name. *)
Inductive sockopt :=
| TCP_NODELAY | TCP_CORK | TCP_KEEPIDLE | TCP_KEEPINTVL | TCP_KEEPCNT
| SO_SNDTIMEO | SO_RCVTIMEO | SO_RCVBUF | SO_SNDBUF | SO_LINGER | SO_KEEPALIVE | SO_REUSEADDR
| SO_ERROR | IPV6_V6ONLY.

(** [struct kevent]; the user data is a pointer into an array of handlers. *)
Record kevent_t := Kevent { kev_ident : Z; kev_filter : Z; kev_flags : Z; kev_udata : option nat }.

(** Cells that two threads share: the atomic fields of the HTTP server's copy
    progress, the flag of a session's copy, and fields of the entries of the
    download table. *)
Inductive shared_cell :=
| CpBytesCopied | CpActive | CpDone | CpError | CpCancel | CpPaused | CpErrorCode | CpErrorErrno
| SessionCopyInProgress
| DlPaused (slot : Z) | DlDownloaded (slot : Z) | DlTotalSize (slot : Z)
| DlError (slot : Z) | DlDone (slot : Z) | DlActive (slot : Z).

Inductive sys : Type -> Type :=
(* sockets *)
| SysSocket (stype : Z) : sys Z
| SysSocket6 (stype : Z) : sys Z                              (* AF_INET6 *)
| SysBind6 (fd : Z) (addr : bytes) (port : Z) : sys Z        (* sockaddr_in6: address and port *)
| SysConnect (fd : Z) (addr : sockaddr_in) : sys Z
| SysBind (fd : Z) (addr : sockaddr_in) : sys Z
| SysListen (fd backlog : Z) : sys Z
| SysAccept (fd : Z) : sys (Z * sockaddr_in)
| SysSelect (fd : Z) (for_write : bool) (timeout_ms : Z) : sys Z
| SysGetsockname (fd : Z) : sys (Z * sockaddr_in)
| SysSetsockopt (fd : Z) (opt : sockopt) (val : Z) : sys Z
| SysGetsockopt (fd : Z) (opt : sockopt) : sys (Z * Z)
| SysSend (fd : Z) (buf : bytes) : sys Z
| SysRecv (fd len : Z) : sys (option bytes)
| SysShutdown (fd : Z) : sys Z
| SysGetaddrinfo (host port : bytes) : sys (option (list sockaddr_in))
| SysFcntlGet (fd : Z) : sys Z                               (* F_GETFL *)
| SysFcntlSet (fd flags : Z) : sys Z                         (* F_SETFL *)
(* files *)
| SysClose (fd : Z) : sys Z
| SysOpen (path : bytes) (flags mode : Z) : sys Z
| SysRead (fd len : Z) : sys (option bytes)
| SysWrite (fd : Z) (buf : bytes) : sys Z
| SysLseek (fd off whence : Z) : sys Z
| SysFstat (fd : Z) : sys (option stat_t)
| SysStat (path : bytes) : sys (option stat_t)
| SysLstat (path : bytes) : sys (option stat_t)
| SysStatvfs (path : bytes) : sys (option statvfs_t)
| SysAccess (path : bytes) (mode : Z) : sys Z
| SysPread (fd len off : Z) : sys (option bytes)
| SysUnlink (path : bytes) : sys Z
| SysRmdir (path : bytes) : sys Z
| SysMkdir (path : bytes) (mode : Z) : sys Z
| SysRename (from to : bytes) : sys Z
| SysFtruncate (fd len : Z) : sys Z
| SysFsync (fd : Z) : sys Z
| SysFadvise (fd off len : Z) : sys Z
| SysRealpath (path : bytes) : sys (option bytes)
| SysOpendir (path : bytes) : sys (option Z)
| SysReaddir (dir : Z) : sys (option (bytes * bool))   (* name, d_type == DT_DIR *)
| SysClosedir (dir : Z) : sys Z
| SysSendfile (out_fd in_fd off count : Z) : sys (Z * Z)
(* buffered files of the C library *)
| SysFopen (path mode : bytes) : sys (option Z)
| SysFclose (file : Z) : sys Z
| SysFseek (file off whence : Z) : sys Z                     (* fseeko *)
| SysFtell (file : Z) : sys Z                                (* ftello *)
| SysFread (file len : Z) : sys bytes                        (* short at the end and on errors *)
| SysFwrite (file : Z) (buf : bytes) : sys Z
| SysFgets (file size : Z) : sys (option bytes)
(* time, memory, threads, logging *)
| SysTime : sys Z
| SysClock : sys (option (Z * Z))
| SysGettimeofday : sys (option (Z * Z))
| SysClockTs : sys (Z * Z)
| SysUsleep (us : Z) : sys unit
| SysGmtime (t : Z) : sys tm_t
| SysMktime (t : tm_t) : sys Z
| SysBufferAcquire : sys bool
| SysBufferRelease : sys unit
| SysMalloc (size : Z) : sys bool
| SysAllocStats : sys (Z * Z * Z)                            (* bytes in use, peak, failures *)
| SysCopyThread (src dst : bytes) (is_move : bool) : sys Z   (* pthread_create of the copy thread *)
| SysWriterThread : sys Z                                    (* pthread_create of the STOR writer *)
| SysThreadJoin : sys unit
| SysEventAdd (fd : Z) : sys Z
| SysEventRemove (fd : Z) : sys Z
| SysKqueue : sys Z
| SysKevent (kq : Z) (changes : list kevent_t) : sys Z       (* no room for events *)
| SysKeventWait (kq max seconds : Z) : sys (option (list kevent_t))
| SysGetpid : sys Z
| SysSpawn : sys Z                                           (* pthread_create of another thread *)
| SysMutexInit : sys Z
| SysCopyInProgress : sys Z
| SysSysinfo : sys (option sysinfo_t)
| SysKill (pid signal : Z) : sys Z
| SysIoctl (fd request : Z) (data : bytes) : sys Z
| SysNotify (text : bytes) : sys unit                        (* pal_notification_send *)
| SysFtpReset : sys (option Z)                               (* pal_network_reset_ftp_stack; None: no server *)
| SysLoad (cell : shared_cell) : sys Z
| SysStore (cell : shared_cell) (v : Z) : sys unit
| SysSchedule : sys bool
| SysDlMessage (slot : Z) (text : bytes) : sys unit          (* error_msg of a download *)
| SysDlSpeed (slot : Z) (speed : spec_float) : sys unit
| SysLog (line : bytes) : sys unit
| SysStderr (line : bytes) : sys unit
| SysStale (len : Z) : sys bytes.                            (* memory the program does not own *)

(** ** The environment *)

(** Answer, [errno] after the call (0: unchanged) and the new state. *)
Class OS (W : Type) := os_step : forall A, sys A -> W -> A * Z * W.
Arguments os_step {W _ A} c w.

(** What POSIX promises of the calls the transfer loops rely on. *)
Class SaneOS (W : Type) {os : OS W} : Prop := {
  recv_le : forall fd len w b e w', 0 <= len ->
    os_step (SysRecv fd len) w = (Some b, e, w') -> strlen b <= len;
  read_le : forall fd len w b e w', 0 <= len ->
    os_step (SysRead fd len) w = (Some b, e, w') -> strlen b <= len;
  send_le : forall fd buf w n e w',
    os_step (SysSend fd buf) w = (n, e, w') -> n <= strlen buf;
  write_le : forall fd buf w n e w',
    os_step (SysWrite fd buf) w = (n, e, w') -> n <= strlen buf;
  write_errno : forall fd buf w n e w',
    os_step (SysWrite fd buf) w = (n, e, w') -> n < 0 -> e <> 0;
  read_errno : forall fd len w e w',
    os_step (SysRead fd len) w = (None, e, w') -> e <> 0
}.

(** A request with its answer. *)
Inductive event :=
| Ev (A : Type) (c : sys A) (r : A).
Arguments Ev {A} c r.

(** ** errno values (Linux) and file constants *)

Definition EPERM : Z := 1.
Definition ENOENT : Z := 2.
Definition EINTR : Z := 4.
Definition EIO : Z := 5.
Definition EBADF : Z := 9.
Definition EAGAIN : Z := 11.
Definition EWOULDBLOCK : Z := 11.
Definition EACCES : Z := 13.
Definition EFAULT : Z := 14.
Definition ESTALE : Z := 116.
Definition EISDIR : Z := 21.
Definition ENFILE : Z := 23.
Definition EMFILE : Z := 24.
Definition ENAMETOOLONG : Z := 36.
Definition EEXIST : Z := 17.
Definition EXDEV : Z := 18.
Definition ENOTDIR : Z := 20.
Definition EINVAL : Z := 22.
Definition ENOSPC : Z := 28.
Definition EROFS : Z := 30.
Definition EPIPE : Z := 32.
Definition ENOTEMPTY : Z := 39.
Definition ECONNRESET : Z := 104.
Definition ETIMEDOUT : Z := 110.

Definition O_RDONLY : Z := 0.
Definition O_WRONLY : Z := 1.
Definition O_CREAT : Z := 64.
Definition O_TRUNC : Z := 512.
Definition O_APPEND : Z := 1024.
Definition O_CLOEXEC : Z := 524288.
Definition SEEK_SET : Z := 0.
Definition SEEK_END : Z := 2.
Definition S_ISDIR (mode : Z) : bool := Z.land mode 61440 =? 16384.
Definition S_ISREG (mode : Z) : bool := Z.land mode 61440 =? 32768.
Definition S_ISLNK (mode : Z) : bool := Z.land mode 61440 =? 40960.

(** ** The monad *)

Definition M (S A : Type) : Type := S -> option A * S.

#[global] Instance M_ret {S} : MRet (M S) := fun A a s => (Some a, s).
#[global] Instance M_bind {S} : MBind (M S) := fun A B k m s =>
  match m s with
  | (Some a, s') => k a s'
  | (None, s') => (None, s')
  end.

(** Out of fuel. *)
Definition diverge {S A} : M S A := fun s => (None, s).
Definition get {S} : M S S := fun s => (Some s, s).
Definition gets {S A} (f : S -> A) : M S A := fun s => (Some (f s), s).
Definition modify {S} (f : S -> S) : M S unit := fun s => (Some tt, f s).

(** The state of a thread that only talks to the system. *)
Record sysst (W : Type) := SysSt {
  os_state : W;
  os_errno : Z;
  os_trace : list event     (* newest first *)
}.
Arguments SysSt {W} _ _ _.
Arguments os_state {W} _.
Arguments os_errno {W} _.
Arguments os_trace {W} _.

Definition sys_call {W} `{OS W} {A} (c : sys A) : M (sysst W) A := fun s =>
  let '(r, e, w) := os_step c (os_state s) in
  (Some r, SysSt w (if e =? 0 then os_errno s else e) (Ev c r :: os_trace s)).

Definition get_errno {W} : M (sysst W) Z := gets os_errno.
Definition set_errno {W} (e : Z) : M (sysst W) unit :=
  modify (fun s => SysSt (os_state s) e (os_trace s)).

(** ** Invariant reasoning *)

(** [hoare I m Q]: the run of [m] from a state in [I] ends in a state in [I],
    also when it is cut short, and a value it returns satisfies [Q]. *)
Definition hoare {S A} (I : S -> Prop) (m : M S A) (Q : A -> Prop) : Prop :=
  forall s, I s -> I (m s).2 /\ forall a, (m s).1 = Some a -> Q a.

Section hoare.
Context {S : Type} (I : S -> Prop).

Lemma hoare_ret {A} (a : A) (Q : A -> Prop) : Q a -> hoare I (mret a) Q.
Proof. intros HQ s Hs. split; [done|]. by intros ? [= <-]. Qed.

Lemma hoare_bind {A B} (m : M S A) (k : A -> M S B) Q R :
  hoare I m Q -> (forall a, Q a -> hoare I (k a) R) -> hoare I (m ≫= k) R.
Proof.
  intros Hm Hk s Hs. destruct (Hm s Hs) as [Hi HQ].
  unfold mbind, M_bind. destruct (m s) as [[a|] s']; simpl in *; [|done].
  apply Hk; auto.
Qed.

Lemma hoare_ret_bind {A B} (a : A) (k : A -> M S B) R :
  hoare I (k a) R -> hoare I (mret a ≫= k) R.
Proof. done. Qed.

Lemma hoare_weaken {A} (m : M S A) Q R :
  hoare I m Q -> (forall a, Q a -> R a) -> hoare I m R.
Proof. intros Hm HQ s Hs. destruct (Hm s Hs) as [Hi Ha]. split; auto. Qed.

Lemma hoare_true {A} (m : M S A) Q : hoare I m Q -> hoare I m (fun _ => True).
Proof. intros H. by eapply hoare_weaken. Qed.

Lemma hoare_diverge {A} Q : hoare I (@diverge S A) Q.
Proof. intros s Hs. by split. Qed.

Lemma hoare_get : hoare I get I.
Proof. intros s Hs. split; [done|]. by intros ? [= <-]. Qed.

Lemma hoare_gets {A} (f : S -> A) (Q : A -> Prop) :
  (forall s, I s -> Q (f s)) -> hoare I (gets f) Q.
Proof. intros H s Hs. split; [done|]. intros ? [= <-]. auto. Qed.

Lemma hoare_modify (f : S -> S) : (forall s, I s -> I (f s)) -> hoare I (modify f) (fun _ => True).
Proof. intros H s Hs. split; simpl; auto. Qed.

End hoare.

(** [wp m Q B s]: the run of [m] from [s] ends in a state in [Q a] when it
    returns [a], and in [B] when it is cut short. *)
Definition wp {S A} (m : M S A) (Q : A -> S -> Prop) (B : S -> Prop) (s : S) : Prop :=
  match m s with (Some a, s') => Q a s' | (None, s') => B s' end.

Section wp.
Context {S : Type}.
Implicit Types B : S -> Prop.

Lemma wp_ret {A} (a : A) (Q : A -> S -> Prop) B s : Q a s -> wp (mret a) Q B s.
Proof. done. Qed.

Lemma wp_bind {A C} (m : M S A) (k : A -> M S C) Q B s :
  wp m (fun a s' => wp (k a) Q B s') B s -> wp (m ≫= k) Q B s.
Proof. unfold wp, mbind, M_bind. by destruct (m s) as [[a|] s']. Qed.

Lemma wp_any {A} (m : M S A) s : wp m (fun _ _ => True) (fun _ => True) s.
Proof. unfold wp. by destruct (m s) as [[a|] s']. Qed.

Lemma wp_mono {A} (m : M S A) Q Q' B B' s :
  wp m Q B s -> (forall a s', Q a s' -> Q' a s') -> (forall s', B s' -> B' s') -> wp m Q' B' s.
Proof. unfold wp. destruct (m s) as [[a|] s']; auto. Qed.

Lemma wp_seq {A C} (m : M S A) (k : A -> M S C) Q R B s :
  wp m Q B s -> (forall a s', Q a s' -> wp (k a) R B s') -> wp (m ≫= k) R B s.
Proof. intros Hm Hk. apply wp_bind. by eapply wp_mono. Qed.

Lemma wp_and {A} (m : M S A) Q Q' B B' s :
  wp m Q B s -> wp m Q' B' s ->
  wp m (fun a s' => Q a s' /\ Q' a s') (fun s' => B s' /\ B' s') s.
Proof. unfold wp. by destruct (m s) as [[a|] s']. Qed.

Lemma wp_hoare {A} (m : M S A) I (R : A -> Prop) Q B s :
  hoare I m R -> I s -> (forall a s', I s' -> R a -> Q a s') -> (forall s', I s' -> B s') ->
  wp m Q B s.
Proof.
  intros Hm Hs HQ HB. destruct (Hm s Hs) as [Hi HR]. unfold wp.
  destruct (m s) as [[a|] s']; simpl in *; auto.
Qed.

Lemma hoare_wp {A} (m : M S A) I (R : A -> Prop) :
  (forall s, I s -> wp m (fun a s' => I s' /\ R a) I s) -> hoare I m R.
Proof.
  intros Hm s Hs. specialize (Hm s Hs). unfold wp in Hm. destruct (m s) as [[a|] s']; [|by split].
  destruct Hm as [Hi HR]. split; [done|]. by intros ? [= <-].
Qed.

End wp.

(** [total m]: [m] always returns. *)
Definition total {S A} (m : M S A) : Prop := forall s, (m s).1 <> None.

Section total.
Context {S : Type}.

Lemma total_ret {A} (a : A) : total (S := S) (mret a).
Proof. done. Qed.

Lemma total_bind {A B} (m : M S A) (k : A -> M S B) : total m -> (forall a, total (k a)) -> total (m ≫= k).
Proof.
  intros Hm Hk s. specialize (Hm s). unfold mbind, M_bind. destruct (m s) as [[a|] s']; [apply Hk | done].
Qed.

Lemma total_modify (f : S -> S) : total (modify f).
Proof. done. Qed.

Lemma total_gets {A} (f : S -> A) : total (gets f).
Proof. done. Qed.

Lemma wp_total {A} (m : M S A) Q B B' s : total m -> wp m Q B s -> wp m Q B' s.
Proof. intros Hm. specialize (Hm s). unfold wp. by destruct (m s) as [[a|] s']. Qed.

End total.

Lemma total_sys_call {W} {os : OS W} {A} (c : sys A) : total (sys_call c).
Proof. intros s. unfold sys_call. by destruct (os_step c (os_state s)) as [[r e] w]. Qed.

Create HintDb total.
#[export] Hint Resolve total_ret total_modify total_gets total_sys_call : total.

(** Walk through code without loops. *)
Ltac tgo :=
  repeat first [ solve [eauto 2 with total] | apply total_bind; [|intros ?] | case_match ].

Lemma wp_sys_call {W} {os : OS W} {A} (c : sys A) Q B s :
  (forall r e w, os_step c (os_state s) = (r, e, w) ->
     Q r (SysSt w (if e =? 0 then os_errno s else e) (Ev c r :: os_trace s))) ->
  wp (sys_call c) Q B s.
Proof.
  intros HQ. unfold wp, sys_call. destruct (os_step c (os_state s)) as [[r e] w]. by apply HQ.
Qed.

(** [emits K m]: the requests [m] makes all satisfy [K]. *)
Definition emits {W A} (K : event -> Prop) (m : M (sysst W) A) : Prop :=
  forall s, exists new, os_trace (m s).2 = new ++ os_trace s /\ Forall K new.

Section emits.
Context {W : Type} {os : OS W} (K : event -> Prop).

Lemma emits_ret {A} (a : A) : emits (W := W) K (mret a).
Proof. intros s. by exists []. Qed.

Lemma emits_diverge {A} : emits (W := W) (A := A) K diverge.
Proof. intros s. by exists []. Qed.

Lemma emits_get_errno : emits (W := W) K get_errno.
Proof. intros s. by exists []. Qed.

Lemma emits_set_errno e : emits (W := W) K (set_errno e).
Proof. intros s. by exists []. Qed.

Lemma emits_bind {A B} (m : M (sysst W) A) (k : A -> M (sysst W) B) :
  emits K m -> (forall a, emits K (k a)) -> emits K (m ≫= k).
Proof.
  intros Hm Hk s. unfold mbind, M_bind. destruct (Hm s) as (n1 & H1 & F1).
  destruct (m s) as [[a|] s1]; simpl in H1; [|by exists n1]. destruct (Hk a s1) as (n2 & H2 & F2).
  exists (n2 ++ n1). rewrite H2, H1, app_assoc. split; [done|]. by apply Forall_app.
Qed.

Lemma emits_call {A} (c : sys A) : (forall r, K (Ev c r)) -> emits K (sys_call c).
Proof.
  intros Hc s. unfold sys_call. destruct (os_step c (os_state s)) as [[r e] w]. exists [Ev c r].
  split; [done|]. by constructor.
Qed.

Lemma wp_emits {A} (m : M (sysst W) A) s :
  emits K m -> wp m (fun _ s' => exists new, os_trace s' = new ++ os_trace s /\ Forall K new) (fun _ => True) s.
Proof. intros Hm. destruct (Hm s) as (new & Ht & Hn). unfold wp. destruct (m s) as [[a|] s']; eauto. Qed.

End emits.

Create HintDb emits.
#[export] Hint Resolve emits_ret emits_diverge emits_get_errno emits_set_errno : emits.

(** Walk through code without loops. *)
Ltac egos side :=
  repeat first [ solve [eauto 2 with emits] | apply emits_call; intros ?; side
               | apply emits_bind; [|intros ?] | case_match ].

(** ** Code with a state of its own

    The state of a component, of type [T], beside the system's: the session
    of an FTP thread, the globals of the HTTP server. *)

Record st (T W : Type) := St { ses : T; sysw : sysst W }.
Arguments St {T W} _ _.
Arguments ses {T W} _.
Arguments sysw {T W} _.

(** A computation that does not touch the component's state. *)
Definition io {T W A} (m : M (sysst W) A) : M (st T W) A := fun s =>
  let '(a, w) := m (sysw s) in (a, St (ses s) w).

(** A computation with a state of its own that starts from [c]. *)
Definition with_state {T W A} (c : T) (m : M (st T W) A) : M (sysst W) (A * T) := fun w =>
  let '(a, s) := m (St c w) in ((fun a => (a, ses s)) <$> a, sysw s).

Definition ask {T W A} (f : T -> A) : M (st T W) A := gets (fun s => f (ses s)).
Definition upd {T W} (f : T -> T) : M (st T W) unit :=
  modify (fun s => St (f (ses s)) (sysw s)).
Definition sysc {T W} `{OS W} {A} (c : sys A) : M (st T W) A := io (sys_call c).

Lemma total_io {T W A} (m : M (sysst W) A) : total m -> total (io (T := T) m).
Proof.
  intros Hm [s w]. specialize (Hm w). unfold io. simpl. by destruct (m w) as [[a|] w'].
Qed.

Lemma total_ask {T W A} (f : T -> A) : total (ask (W := W) f).
Proof. done. Qed.

Lemma total_upd {T W} (f : T -> T) : total (upd (W := W) f).
Proof. done. Qed.

Lemma total_sysc {T W} {os : OS W} {A} (c : sys A) : total (sysc (T := T) c).
Proof. apply total_io, total_sys_call. Qed.

#[export] Hint Resolve total_io total_ask total_upd total_sysc : total.

(** A state invariant made of a component part and a trace part. *)
Definition inv {T W} (J : T -> Prop) (K : event -> Prop) (s : st T W) : Prop :=
  J (ses s) /\ Forall K (os_trace (sysw s)).

Definition io_inv {W} (K : event -> Prop) (s : sysst W) : Prop := Forall K (os_trace s).

Section inv.
Context {T W : Type} {os : OS W} (J : T -> Prop) (K : event -> Prop).

Lemma hoare_io {A} (m : M (sysst W) A) Q :
  hoare (io_inv K) m Q -> hoare (inv J K) (io m) Q.
Proof.
  intros Hm [s w] [HJ HK]. specialize (Hm w HK). unfold io. simpl in *.
  destruct (m w) as [a w']. destruct Hm as [Hi Ha]. split; [by split | auto].
Qed.

Lemma hoare_sys_call {A} (c : sys A) :
  (forall r, K (Ev c r)) -> hoare (io_inv K) (sys_call c) (fun _ => True).
Proof.
  intros HK s Hs. unfold sys_call. destruct (os_step c (os_state s)) as [[r e] w].
  split; [|done]. by constructor.
Qed.

Lemma hoare_sysc {A} (c : sys A) :
  (forall r, K (Ev c r)) -> hoare (inv J K) (sysc c) (fun _ => True).
Proof. intros HK. by apply hoare_io, hoare_sys_call. Qed.

Lemma hoare_ask {A} (f : T -> A) (Q : A -> Prop) :
  (forall s, J s -> Q (f s)) -> hoare (inv (W := W) J K) (ask f) Q.
Proof. intros H. apply hoare_gets. intros s [HJ _]. auto. Qed.

Lemma hoare_upd f : (forall s, J s -> J (f s)) -> hoare (inv (W := W) J K) (upd f) (fun _ => True).
Proof. intros H. apply hoare_modify. intros s [HJ HK]. split; simpl; auto. Qed.

Lemma hoare_get_errno : hoare (io_inv (W := W) K) get_errno (fun _ => True).
Proof. by apply hoare_gets. Qed.

Lemma hoare_set_errno e : hoare (io_inv (W := W) K) (set_errno e) (fun _ => True).
Proof. by apply hoare_modify. Qed.

End inv.

(** Symbolic execution. *)

Lemma wp_io {T W A} (m : M (sysst W) A) Q B (s : st T W) :
  wp m (fun a w => Q a (St (ses s) w)) (fun w => B (St (ses s) w)) (sysw s) -> wp (io m) Q B s.
Proof. unfold wp, io. by destruct (m (sysw s)) as [[a|] w]. Qed.

Lemma wp_ask {T W A} (f : T -> A) Q B (s : st T W) : Q (f (ses s)) s -> wp (ask f) Q B s.
Proof. done. Qed.

Lemma wp_upd {T W} f Q B (s : st T W) : Q tt (St (f (ses s)) (sysw s)) -> wp (upd f) Q B s.
Proof. done. Qed.

Lemma wp_sysc {T W} {os : OS W} {A} (c : sys A) Q B (s : st T W) :
  (forall r e w, os_step c (os_state (sysw s)) = (r, e, w) ->
     Q r (St (ses s) (SysSt w (if e =? 0 then os_errno (sysw s) else e)
                        (Ev c r :: os_trace (sysw s))))) ->
  wp (sysc c) Q B s.
Proof. intros HQ. by apply wp_io, wp_sys_call. Qed.

Lemma wp_set_errno {W} e Q B (s : sysst W) :
  Q tt (SysSt (os_state s) e (os_trace s)) -> wp (set_errno e) Q B s.
Proof. done. Qed.

Lemma wp_with_state {T W A} (c : T) (m : M (st T W) A) Q B w :
  wp m (fun a s => Q (a, ses s) (sysw s)) (fun s => B (sysw s)) (St c w) -> wp (with_state c m) Q B w.
Proof. unfold wp, with_state. by destruct (m (St c w)) as [[a|] s]. Qed.

(** One step of code without loops, and a case distinction. *)
Ltac wp_step :=
  lazymatch goal with
  | |- wp (mret _) _ _ _ => apply wp_ret
  | |- wp (_ ≫= _) _ _ _ => apply wp_bind
  | |- wp (ask _) _ _ _ => apply wp_ask
  | |- wp (upd _) _ _ _ => apply wp_upd
  | |- wp (sysc _) _ _ _ => apply wp_sysc; intros ? ? ? ?
  | |- wp (sys_call _) _ _ _ => apply wp_sys_call; intros ? ? ? ?
  | |- wp (io get_errno) _ _ _ => apply wp_io, wp_ret
  | |- wp get_errno _ _ _ => apply wp_ret
  | |- wp (set_errno _) _ _ _ => apply wp_set_errno
  end; cbv beta.

Ltac wp_case :=
  lazymatch goal with
  | |- wp (if ?b then _ else _) _ _ _ => destruct b eqn:?
  | |- wp (match ?x with _ => _ end) _ _ _ => destruct x eqn:?
  end.

(** ** Delivery *)

(** Bytes an event hands to the kernel for [fd]. *)
Definition event_sent (fd : Z) (e : event) : bytes :=
  match e with
  | @Ev A c r =>
      match c in sys A return A -> bytes with
      | SysSend fd' buf | SysWrite fd' buf =>
          fun n => if (fd' =? fd) && (0 <? n) then take (Z.to_nat n) buf else []
      | _ => fun _ => []
      end r
  end.

(** Bytes a trace hands to the kernel for [fd], oldest first. *)
Fixpoint sent_on (fd : Z) (tr : list event) : bytes :=
  match tr with
  | [] => []
  | e :: tr' => sent_on fd tr' ++ event_sent fd e
  end.

Lemma sent_on_app fd new old : sent_on fd (new ++ old) = sent_on fd old ++ sent_on fd new.
Proof.
  induction new as [|e new IH]; simpl; [by rewrite app_nil_r|]. by rewrite IH, app_assoc.
Qed.

(** Bytes a trace received from [fd], oldest first, and whether it saw the
    end of the stream. *)
Definition event_received (fd : Z) (e : event) : bytes :=
  match e with
  | @Ev A c r =>
      match c in sys A return A -> bytes with
      | SysRecv fd' _ => fun r => if fd' =? fd then default [] r else []
      | _ => fun _ => []
      end r
  end.

Fixpoint recv_on (fd : Z) (tr : list event) : bytes :=
  match tr with
  | [] => []
  | e :: tr' => recv_on fd tr' ++ event_received fd e
  end.

(** The same for [read]. *)
Definition event_read (fd : Z) (e : event) : bytes :=
  match e with
  | @Ev A c r =>
      match c in sys A return A -> bytes with
      | SysRead fd' _ => fun r => if fd' =? fd then default [] r else []
      | _ => fun _ => []
      end r
  end.

Fixpoint read_on (fd : Z) (tr : list event) : bytes :=
  match tr with
  | [] => []
  | e :: tr' => read_on fd tr' ++ event_read fd e
  end.

Definition event_eof (fd : Z) (e : event) : bool :=
  match e with
  | @Ev A c r =>
      match c in sys A return A -> bool with
      | SysRecv fd' _ => fun r => (fd' =? fd) && match r with Some [] => true | _ => false end
      | _ => fun _ => false
      end r
  end.

Definition eof_on (fd : Z) (tr : list event) : bool := existsb (event_eof fd) tr.

Definition event_read_eof (fd : Z) (e : event) : bool :=
  match e with
  | @Ev A c r =>
      match c in sys A return A -> bool with
      | SysRead fd' _ => fun r => (fd' =? fd) && match r with Some [] => true | _ => false end
      | _ => fun _ => false
      end r
  end.

Definition read_eof_on (fd : Z) (tr : list event) : bool := existsb (event_read_eof fd) tr.

(** Bytes of foreign memory a trace has read. *)
Definition foreign_bytes (tr : list event) : Z :=
  foldr (fun e n => match e with
                    | @Ev A c r => match c in sys A return Z with SysStale len => len | _ => 0 end
                    end + n) 0 tr.

(** What a run of the loop from trace [old] has done: sent a prefix of
    [rest], all of it when it returns [len]; it returns nothing but [len]
    and -1. *)
Definition send_ok {W} (fd : Z) (rest : bytes) (len : Z) (old : list event)
    (out : option Z * sysst W) : Prop :=
  exists new k, os_trace out.2 = new ++ old /\ sent_on fd new = take k rest /\
    forall r, out.1 = Some r -> (r = len /\ sent_on fd new = rest) \/ r = -1.

Lemma send_ok_silent {W} fd rest len evs old (out : option Z * sysst W) :
  sent_on fd evs = [] -> send_ok fd rest len (evs ++ old) out -> send_ok fd rest len old out.
Proof.
  intros He (new & k & Ht & Hs & Hr). exists (new ++ evs), k.
  rewrite sent_on_app, He, <- app_assoc. done.
Qed.

Lemma send_ok_stop {W} fd rest len old (s : sysst W) :
  os_trace s = old -> send_ok fd rest len old (Some (-1), s).
Proof.
  intros <-. exists [], 0%nat. split; [done|]. split; [done|]. intros r [= <-]. by right.
Qed.

Lemma sent_on_fail fd fd' buf n :
  n <= 0 -> sent_on fd [Ev (SysSend fd' buf) n] = [] /\ sent_on fd [Ev (SysWrite fd' buf) n] = [].
Proof. intros Hn. simpl. destruct (Z.ltb_spec 0 n); [lia|]. by rewrite andb_false_r. Qed.

Lemma sent_on_ok fd buf n : 0 < n ->
  sent_on fd [Ev (SysSend fd buf) n] = take (Z.to_nat n) buf /\
  sent_on fd [Ev (SysWrite fd buf) n] = take (Z.to_nat n) buf.
Proof. intros Hn. simpl. rewrite Z.eqb_refl. by destruct (Z.ltb_spec 0 n); [|lia]. Qed.

(** One accepted call followed by a run on what is left. *)
Lemma send_ok_step {W} fd rest len n e old (out : option Z * sysst W) :
  sent_on fd [e] = take n rest ->
  send_ok fd (drop n rest) len (e :: old) out -> send_ok fd rest len old out.
Proof.
  intros He (new & k & Ht & Hs & Hr). exists (new ++ [e]), (n + k)%nat.
  rewrite sent_on_app, He. split; [by rewrite Ht, <- app_assoc|].
  split; [rewrite Hs; apply take_take_drop|].
  intros r Hr'. destruct (Hr r Hr') as [[-> Hd]|]; [|by right]. left. by rewrite Hd, take_drop.
Qed.

(** ** A concrete system

    A small deterministic kernel for evaluating the definitions: scripted
    answers for [recv], [read], [stat] and [readdir], success for the rest. *)

Record toy := Toy {
  toy_recv : list (option bytes * Z);         (* answers of recv, with errno *)
  toy_read : list bytes;                      (* answers of read *)
  toy_stat : list (bytes * stat_t);           (* the files that exist *)
  toy_dir : list (bytes * bool);              (* answers of readdir *)
  toy_sched : list bool                       (* who moves next; then the writer *)
}.

Definition toy_lookup (w : toy) (p : bytes) : option stat_t :=
  snd <$> find (fun e => bool_decide (e.1 = p)) (toy_stat w).

(** At most [len] bytes of a scripted answer. *)
Definition clip (len : Z) (b : bytes) : bytes := take (Z.to_nat (Z.min len (strlen b))) b.

Lemma clip_le len b : 0 <= len -> strlen (clip len b) <= len.
Proof. intros Hl. unfold clip, strlen. rewrite length_take. lia. Qed.

Definition toy_step {A} (c : sys A) (w : toy) : A * Z * toy :=
  match c in sys A return A * Z * toy with
  | SysSocket _ | SysSocket6 _ => (10, 0, w)
  | SysBind6 _ _ _ => (0, 0, w)
  | SysConnect _ _ | SysBind _ _ | SysListen _ _ | SysSetsockopt _ _ _ | SysShutdown _ => (0, 0, w)
  | SysAccept _ => ((11, sockaddr_zero), 0, w)
  | SysSelect _ _ _ => (1, 0, w)
  | SysGetsockname _ => ((0, SockAddr 2130706433 40000), 0, w)
  | SysGetsockopt _ _ => ((0, 0), 0, w)
  | SysSend _ buf | SysWrite _ buf => (strlen buf, 0, w)
  | SysRecv _ len =>
      match toy_recv w with
      | [] => (Some [], 0, w)
      | (r, e) :: q =>
          (clip len <$> r, e, Toy q (toy_read w) (toy_stat w) (toy_dir w) (toy_sched w))
      end
  | SysClose _ => (0, 0, w)
  | SysOpen _ _ _ => (12, 0, w)
  | SysRead _ len =>
      match toy_read w with
      | [] => (Some [], 0, w)
      | r :: q =>
          (Some (clip len r), 0, Toy (toy_recv w) q (toy_stat w) (toy_dir w) (toy_sched w))
      end
  | SysLseek _ off _ => (off, 0, w)
  | SysFstat _ => (Some (Stat 33188 4 0 0 0), 0, w)
  | SysStat p => match toy_lookup w p with
                 | Some st => (Some st, 0, w)
                 | None => (None, ENOENT, w)
                 end
  | SysLstat p => match toy_lookup w p with
                  | Some st => (Some st, 0, w)
                  | None => (None, ENOENT, w)
                  end
  | SysStatvfs _ => (None, ENOENT, w)
  | SysAccess p _ => match toy_lookup w p with Some _ => (0, 0, w) | None => (-1, ENOENT, w) end
  | SysPread _ len _ =>
      match toy_read w with
      | [] => (Some [], 0, w)
      | r :: q =>
          (Some (clip len r), 0, Toy (toy_recv w) q (toy_stat w) (toy_dir w) (toy_sched w))
      end
  | SysEventAdd _ | SysEventRemove _ => (0, 0, w)
  | SysKqueue => (14, 0, w)
  | SysKevent _ _ => (0, 0, w)
  | SysKeventWait _ _ _ => (Some [], 0, w)
  | SysGetpid => (77, 0, w)
  | SysUnlink _ | SysRmdir _ | SysMkdir _ _ | SysRename _ _ | SysFtruncate _ _ | SysFsync _ =>
      (0, 0, w)
  | SysFadvise _ _ _ => (0, 0, w)
  | SysRealpath p => (Some p, 0, w)
  | SysOpendir _ => (Some 13, 0, w)
  | SysReaddir _ =>
      match toy_dir w with
      | [] => (None, 0, w)
      | n :: q => (Some n, 0, Toy (toy_recv w) (toy_read w) (toy_stat w) q (toy_sched w))
      end
  | SysClosedir _ => (0, 0, w)
  | SysSendfile _ _ off count => ((count, off + count), 0, w)
  | SysFopen _ _ => (None, ENOENT, w)
  | SysFclose _ | SysFseek _ _ _ => (0, 0, w)
  | SysFtell _ => (0, 0, w)
  | SysFread _ _ => ([], 0, w)
  | SysFwrite _ buf => (strlen buf, 0, w)
  | SysFgets _ _ => (None, 0, w)
  | SysTime => (1000, 0, w)
  | SysClock => (Some (0, 1), 0, w)
  | SysGettimeofday => (Some (0, 1), 0, w)
  | SysClockTs => ((0, 1), 0, w)
  | SysUsleep _ => (tt, 0, w)
  | SysGmtime _ => (Tm 126 1 13 0 0 0, 0, w)
  | SysMktime _ => (0, 0, w)
  | SysBufferAcquire => (true, 0, w)
  | SysBufferRelease => (tt, 0, w)
  | SysMalloc _ => (true, 0, w)
  | SysAllocStats => ((0, 0, 0), 0, w)
  | SysCopyThread _ _ _ => (0, 0, w)
  | SysWriterThread => (0, 0, w)
  | SysThreadJoin => (tt, 0, w)
  | SysSpawn => (0, 0, w)
  | SysMutexInit => (0, 0, w)
  | SysCopyInProgress => (0, 0, w)
  | SysSysinfo => (None, 0, w)
  | SysKill _ _ => (0, 0, w)
  | SysIoctl _ _ _ => (-1, EINVAL, w)
  | SysNotify _ => (tt, 0, w)
  | SysFtpReset => (None, 0, w)
  | SysLoad _ => (0, 0, w)
  | SysStore _ _ => (tt, 0, w)
  | SysSchedule =>
      match toy_sched w with
      | [] => (false, 0, w)
      | b :: q => (b, 0, Toy (toy_recv w) (toy_read w) (toy_stat w) (toy_dir w) q)
      end
  | SysGetaddrinfo _ _ => (Some [SockAddr 2130706433 80], 0, w)
  | SysFcntlGet _ => (2, 0, w)
  | SysFcntlSet _ _ => (0, 0, w)
  | SysDlMessage _ _ => (tt, 0, w)
  | SysDlSpeed _ _ => (tt, 0, w)
  | SysLog _ => (tt, 0, w)
  | SysStderr _ => (tt, 0, w)
  | SysStale len => (replicate (Z.to_nat len) 63, 0, w)
  end.

#[global] Instance toy_os : OS toy := @toy_step.

#[global] Instance toy_sane : SaneOS toy.
Proof.
  split; intros fd l w; unfold os_step, toy_os, toy_step.
  - intros b e w' Hl. destruct (toy_recv w) as [|[[r|] e'] q]; intros [=]; subst; simpl.
    + unfold strlen. simpl. lia.
    + by apply clip_le.
  - intros b e w' Hl. destruct (toy_read w) as [|r q]; intros [=]; subst; simpl.
    + unfold strlen. simpl. lia.
    + by apply clip_le.
  - by intros n e w' [= <- _ _].
  - by intros n e w' [= <- _ _].
  - intros n e w' [= <- _ _]. unfold strlen. lia.
  - intros e w'. by destruct (toy_read w).
Qed.

Definition toy_init : sysst toy := SysSt (Toy [] [] [] [] []) 0 [].
