(* ===== verification/PalNetwork.v ===== *)
(** * Socket helpers: [src/pal_network.c]

    The functions the FTP core calls, for the Linux branches of the
    conditional compilation, without socket telemetry
    ([FTP_SOCKET_TELEMETRY] is 0). *)

From S2P Require Import Prelude CLib FtpTypes Os.

(** ** Pure address helpers *)

Definition pal_sockaddr_to_ip (addr : option sockaddr_in) (size : Z) : res bytes :=
  match addr with
  | None => Err FTP_ERR_INVALID_PARAM
  | Some addr =>
      if size <? INET_ADDRSTRLEN then Err FTP_ERR_INVALID_PARAM
      else Ok (inet_ntop (sin_addr addr))
  end.

Definition pal_sockaddr_get_port (addr : option sockaddr_in) : Z :=
  match addr with None => 0 | Some addr => sin_port addr end.

Definition pal_make_sockaddr (ip : option bytes) (port : Z) : res sockaddr_in :=
  match ip with
  | None => Err FTP_ERR_INVALID_PARAM
  | Some ip =>
      if port =? 0 then Err FTP_ERR_INVALID_PARAM
      else match inet_pton ip with
           | None => Err FTP_ERR_INVALID_PARAM
           | Some a => Ok (SockAddr a port)
           end
  end.

Section net.
Context {W : Type} `{OS W}.
Abbreviation io := (M (sysst W)).

(** ** Options *)

Definition pal_socket_set_timeouts (fd recv_timeout_ms send_timeout_ms : Z) : io ftp_error_t :=
  if fd <? 0 then mret FTP_ERR_INVALID_PARAM
  else
    r ← sys_call (SysSetsockopt fd SO_RCVTIMEO (recv_timeout_ms * 1000));
    if r <? 0 then mret FTP_ERR_SOCKET_SEND
    else
      r ← sys_call (SysSetsockopt fd SO_SNDTIMEO (send_timeout_ms * 1000));
      if r <? 0 then mret FTP_ERR_SOCKET_SEND else mret FTP_OK.

Definition pal_socket_configure (fd : Z) : io ftp_error_t :=
  if fd <? 0 then mret FTP_ERR_INVALID_PARAM
  else
    _ ← sys_call (SysSetsockopt fd TCP_NODELAY 1);
    _ ← sys_call (SysSetsockopt fd SO_SNDBUF FTP_TCP_SNDBUF);
    _ ← sys_call (SysSetsockopt fd SO_RCVBUF FTP_TCP_RCVBUF);
    _ ← sys_call (SysSetsockopt fd SO_KEEPALIVE 1);
    _ ← sys_call (SysSetsockopt fd TCP_KEEPIDLE FTP_TCP_KEEPIDLE);
    _ ← sys_call (SysSetsockopt fd TCP_KEEPINTVL FTP_TCP_KEEPINTVL);
    _ ← sys_call (SysSetsockopt fd TCP_KEEPCNT FTP_TCP_KEEPCNT);
    mret FTP_OK.

Definition pal_socket_cork (fd : Z) : io unit :=
  _ ← sys_call (SysSetsockopt fd TCP_CORK 1); mret tt.

Definition pal_socket_uncork (fd : Z) : io unit :=
  _ ← sys_call (SysSetsockopt fd TCP_CORK 0); mret tt.

Definition pal_socket_configure_data (fd : Z) : io ftp_error_t :=
  if fd <? 0 then mret FTP_ERR_INVALID_PARAM
  else
    _ ← sys_call (SysSetsockopt fd TCP_NODELAY 0);
    _ ← pal_socket_set_timeouts fd FTP_DATA_IO_TIMEOUT_MS FTP_DATA_IO_TIMEOUT_MS;
    _ ← sys_call (SysSetsockopt fd SO_LINGER FTP_DATA_LINGER_TIMEOUT_S);
    _ ← sys_call (SysSetsockopt fd SO_KEEPALIVE 1);
    _ ← sys_call (SysSetsockopt fd TCP_KEEPIDLE FTP_TCP_KEEPIDLE);
    _ ← sys_call (SysSetsockopt fd TCP_KEEPINTVL FTP_TCP_KEEPINTVL);
    _ ← sys_call (SysSetsockopt fd TCP_KEEPCNT FTP_TCP_KEEPCNT);
    mret FTP_OK.

Definition pal_socket_set_reuseaddr (fd : Z) : io ftp_error_t :=
  if fd <? 0 then mret FTP_ERR_INVALID_PARAM
  else
    r ← sys_call (SysSetsockopt fd SO_REUSEADDR 1);
    if r <? 0 then mret FTP_ERR_SOCKET_SEND else mret FTP_OK.

(** ** Sending *)

(** The [while (total < length)] loop; [rest] is [buffer + total]. *)
Fixpoint send_all_loop (fuel : nat) (fd : Z) (rest : bytes) (length : Z) : io Z :=
  match fuel with
  | O => diverge
  | S fuel' =>
      match rest with
      | [] => mret length
      | _ =>
          n ← sys_call (SysSend fd rest);
          if 0 <? n then send_all_loop fuel' fd (drop (Z.to_nat n) rest) length
          else if n =? 0 then _ ← set_errno EPIPE; mret (-1)
          else
            e ← get_errno;
            if e =? EINTR then send_all_loop fuel' fd rest length
            else if (e =? EAGAIN) || (e =? EWOULDBLOCK) then
              _ ← sys_call (SysUsleep 1000); send_all_loop fuel' fd rest length
            else mret (-1)
      end
  end.

Definition pal_send_all (fuel : nat) (fd : Z) (buffer : bytes) : io Z :=
  if strlen buffer =? 0 then _ ← set_errno EINVAL; mret (-1)
  else if fd <? 0 then _ ← set_errno EBADF; mret (-1)
  else send_all_loop fuel fd buffer (strlen buffer).

Definition pal_network_get_primary_ip (size : Z) : io (res bytes) :=
  if size <? INET_ADDRSTRLEN then mret (Err FTP_ERR_INVALID_PARAM)
  else
    fd ← sys_call (SysSocket 2);
    if fd <? 0 then mret (Err FTP_ERR_SOCKET_CREATE)
    else
      r ← sys_call (SysConnect fd (SockAddr 134744072 53));
      if r <? 0 then
        _ ← sys_call (SysClose fd); mret (Err FTP_ERR_SOCKET_CREATE)
      else
        '(r, local) ← sys_call (SysGetsockname fd);
        if r <? 0 then
          _ ← sys_call (SysClose fd); mret (Err FTP_ERR_INVALID_PARAM)
        else
          _ ← sys_call (SysClose fd);
          mret (pal_sockaddr_to_ip (Some local) size).

End net.

(** ** Delivery *)

Section delivery.
Context {W : Type} {os : OS W}.

Lemma send_all_loop_sent fuel fd rest len s :
  send_ok fd rest len (os_trace s) (send_all_loop fuel fd rest len s).
Proof.
  revert rest s. induction fuel as [|fuel IH]; intros rest s; [by exists [], 0%nat|].
  destruct rest as [|x rest'].
  { exists [], 0%nat. split; [done|]. split; [done|]. intros r [= <-]. by left. }
  simpl send_all_loop. set (rest := x :: rest'). clearbody rest. clear x rest'.
  unfold mbind, M_bind, sys_call.
  destruct (os_step (SysSend fd rest) (os_state s)) as [[n e] w].
  destruct (Z.ltb_spec 0 n) as [Hpos|Hneg].
  - eapply send_ok_step; [apply (proj1 (sent_on_ok fd rest n Hpos)) | apply IH].
  - apply (send_ok_silent _ _ _ [Ev (SysSend fd rest) n]); [by apply sent_on_fail|].
    destruct (n =? 0); [by apply send_ok_stop|]. cbn [get_errno gets os_errno].
    generalize (if e =? 0 then os_errno s else e) as e1. intros e1.
    destruct (e1 =? EINTR); [apply IH|].
    destruct ((e1 =? EAGAIN) || (e1 =? EWOULDBLOCK)); [|by apply send_ok_stop].
    destruct (os_step (SysUsleep 1000) _) as [[u e'] w'].
    apply (send_ok_silent _ _ _ [Ev (SysUsleep 1000) u]); [done|]. apply IH.
Qed.

(** [pal_send_all] delivers in order and all or nothing is reported: for
    every behaviour of [send], what the kernel accepted on the socket is a
    prefix of the buffer, and the full length is returned only when the whole
    buffer was accepted, once and in order; any other return value is -1. *)
Theorem send_all_in_order fuel fd buf s :
  let out := pal_send_all fuel fd buf s in
  exists new k, os_trace out.2 = new ++ os_trace s /\ sent_on fd new = take k buf /\
    forall r, out.1 = Some r -> (r = strlen buf /\ sent_on fd new = buf) \/ r = -1.
Proof.
  intros out. unfold out, pal_send_all.
  case_match; [by apply send_ok_stop|]. case_match; [by apply send_ok_stop|].
  apply send_all_loop_sent.
Qed.

(** The kernel always takes at least one byte and never more than offered. *)
Definition send_progress (fd : Z) : Prop :=
  forall buf w, buf <> [] ->
    1 <= (os_step (SysSend fd buf) w).1.1 <= strlen buf.

Lemma send_all_loop_complete fd fuel rest len s :
  send_progress fd -> (length rest < fuel)%nat ->
  (send_all_loop fuel fd rest len s).1 = Some len.
Proof.
  intros Hp. revert rest s. induction fuel as [|fuel IH]; intros rest s Hf; [lia|].
  destruct rest as [|x rest']; [done|].
  simpl send_all_loop. set (rest := x :: rest') in *.
  assert (rest <> []) as Hne by done. clearbody rest.
  unfold mbind, M_bind, sys_call. specialize (Hp rest (os_state s) Hne).
  destruct (os_step (SysSend fd rest) (os_state s)) as [[n e] w]. simpl in Hp.
  destruct (Z.ltb_spec 0 n); [|lia]. apply IH. rewrite length_drop. unfold strlen in Hp. lia.
Qed.


End delivery.

