(* ===== verification/PalFileio.v ===== *)
(** * File access: [src/pal_fileio.c] and [src/pal_filesystem.c]

    The single-file operations and the virtual file node, for the generic
    POSIX branches.  Functions that return a descriptor or a negative
    [ftp_error_t] value return a [Z]. *)

From S2P Require Import Prelude CLib FtpTypes Os.

Definition PAL_FILE_WRITE_CHUNK_MAX : Z := 262144.

Section fileio.
Context {W : Type} `{OS W}.
Abbreviation io := (M (sysst W)).

(** ** pal_fileio.c *)

Definition pal_file_open (path : option bytes) (flags mode : Z) : io Z :=
  match path with
  | None => _ ← set_errno EINVAL; mret (err_code FTP_ERR_INVALID_PARAM)
  | Some path =>
      if FTP_PATH_MAX <=? strlen path then
        _ ← set_errno ENAMETOOLONG; mret (err_code FTP_ERR_PATH_TOO_LONG)
      else
        fd ← sys_call (SysOpen path flags mode);
        if fd <? 0 then
          e ← get_errno;
          mret (err_code
            (if e =? ENOENT then FTP_ERR_NOT_FOUND
             else if (e =? EACCES) || (e =? EPERM) then FTP_ERR_PERMISSION
             else if (e =? EMFILE) || (e =? ENFILE) then FTP_ERR_OUT_OF_MEMORY
             else FTP_ERR_FILE_OPEN))
        else mret fd
  end.

Definition pal_file_close (fd : Z) : io ftp_error_t :=
  if fd <? 0 then mret FTP_ERR_INVALID_PARAM
  else
    r ← sys_call (SysClose fd);
    if r <? 0 then
      e ← get_errno;
      if negb (e =? EINTR) then mret FTP_ERR_FILE_WRITE else mret FTP_OK
    else mret FTP_OK.

Definition pal_file_stat (path : option bytes) : io (res stat_t) :=
  match path with
  | None => mret (Err FTP_ERR_INVALID_PARAM)
  | Some path =>
      st ← sys_call (SysStat path);
      match st with
      | None =>
          e ← get_errno;
          mret (Err (if e =? ENOENT then FTP_ERR_NOT_FOUND
                     else if e =? EACCES then FTP_ERR_PERMISSION
                     else FTP_ERR_FILE_STAT))
      | Some st => mret (Ok st)
      end
  end.

Definition pal_file_fstat (fd : Z) : io (res stat_t) :=
  if fd <? 0 then mret (Err FTP_ERR_INVALID_PARAM)
  else
    st ← sys_call (SysFstat fd);
    mret (match st with None => Err FTP_ERR_FILE_STAT | Some st => Ok st end).

(** [read]: [None] is -1, [Some []] is 0 (end of file). *)
Definition pal_file_read (fd count : Z) : io (option bytes) :=
  if (fd <? 0) || (count =? 0) then _ ← set_errno EINVAL; mret None
  else sys_call (SysRead fd count).

Definition pal_file_write (fd : Z) (buffer : bytes) : io Z :=
  if (fd <? 0) || (strlen buffer =? 0) then _ ← set_errno EINVAL; mret (-1)
  else sys_call (SysWrite fd buffer).

(** [rest] is [p + total]. *)
Fixpoint write_all_loop (fuel : nat) (fd : Z) (rest : bytes) (count : Z) : io Z :=
  match fuel with
  | O => diverge
  | S fuel' =>
      match rest with
      | [] => mret count
      | _ =>
          let remaining := strlen rest in
          let chunk := if PAL_FILE_WRITE_CHUNK_MAX <? remaining
                       then PAL_FILE_WRITE_CHUNK_MAX else remaining in
          n ← sys_call (SysWrite fd (take (Z.to_nat chunk) rest));
          if 0 <? n then write_all_loop fuel' fd (drop (Z.to_nat n) rest) count
          else if n =? 0 then _ ← set_errno ENOSPC; mret (-1)
          else
            e ← get_errno;
            if e =? EINTR then write_all_loop fuel' fd rest count else mret (-1)
      end
  end.

Definition pal_file_write_all (fuel : nat) (fd : Z) (buffer : bytes) : io Z :=
  if (fd <? 0) || (strlen buffer =? 0) then _ ← set_errno EINVAL; mret (-1)
  else write_all_loop fuel fd buffer (strlen buffer).

Definition pal_file_seek (fd offset whence : Z) : io Z :=
  if fd <? 0 then _ ← set_errno EINVAL; mret (-1)
  else sys_call (SysLseek fd offset whence).

Definition pal_file_truncate (fd len : Z) : io ftp_error_t :=
  if (fd <? 0) || (len <? 0) then mret FTP_ERR_INVALID_PARAM
  else
    r ← sys_call (SysFtruncate fd len);
    if r <? 0 then mret FTP_ERR_FILE_WRITE else mret FTP_OK.

Definition pal_file_delete (path : option bytes) : io ftp_error_t :=
  match path with
  | None => mret FTP_ERR_INVALID_PARAM
  | Some path =>
      r ← sys_call (SysUnlink path);
      if r <? 0 then
        e ← get_errno;
        mret (if e =? ENOENT then FTP_ERR_NOT_FOUND
              else if (e =? EACCES) || (e =? EPERM) then FTP_ERR_PERMISSION
              else if e =? EISDIR then FTP_ERR_INVALID_PARAM
              else FTP_ERR_FILE_WRITE)
      else mret FTP_OK
  end.

Definition pal_file_rename (old_path new_path : option bytes) : io ftp_error_t :=
  match old_path, new_path with
  | Some old_path, Some new_path =>
      r ← sys_call (SysRename old_path new_path);
      if r <? 0 then
        e ← get_errno;
        mret (if e =? ENOENT then FTP_ERR_NOT_FOUND
              else if (e =? EACCES) || (e =? EPERM) then FTP_ERR_PERMISSION
              else if e =? EXDEV then FTP_ERR_CROSS_DEVICE
              else FTP_ERR_FILE_WRITE)
      else mret FTP_OK
  | _, _ => mret FTP_ERR_INVALID_PARAM
  end.

Definition pal_dir_create (path : option bytes) (mode : Z) : io ftp_error_t :=
  match path with
  | None => mret FTP_ERR_INVALID_PARAM
  | Some path =>
      r ← sys_call (SysMkdir path mode);
      if r <? 0 then
        e ← get_errno;
        mret (if e =? EEXIST then FTP_ERR_DIR_EXISTS
              else if (e =? EACCES) || (e =? EPERM) then FTP_ERR_PERMISSION
              else if e =? ENOENT then FTP_ERR_NOT_FOUND
              else FTP_ERR_FILE_WRITE)
      else mret FTP_OK
  end.

Definition pal_dir_remove (path : option bytes) : io ftp_error_t :=
  match path with
  | None => mret FTP_ERR_INVALID_PARAM
  | Some path =>
      r ← sys_call (SysRmdir path);
      if r <? 0 then
        e ← get_errno;
        mret (if e =? ENOENT then FTP_ERR_NOT_FOUND
              else if (e =? EACCES) || (e =? EPERM) then FTP_ERR_PERMISSION
              else if e =? ENOTEMPTY then FTP_ERR_INVALID_PARAM
              else if e =? ENOTDIR then FTP_ERR_INVALID_PARAM
              else FTP_ERR_FILE_WRITE)
      else mret FTP_OK
  end.

(** 1, 0 or a negative error code. *)
Definition pal_path_exists (path : option bytes) : io Z :=
  match path with
  | None => mret (err_code FTP_ERR_INVALID_PARAM)
  | Some path =>
      st ← sys_call (SysStat path);
      match st with
      | Some _ => mret 1
      | None => e ← get_errno; mret (if e =? ENOENT then 0 else err_code FTP_ERR_FILE_STAT)
      end
  end.

Definition pal_path_is_directory (path : option bytes) : io Z :=
  match path with
  | None => mret (err_code FTP_ERR_INVALID_PARAM)
  | Some path =>
      st ← sys_call (SysStat path);
      match st with
      | None => mret (err_code FTP_ERR_FILE_STAT)
      | Some st => mret (if S_ISDIR (st_mode st) then 1 else 0)
      end
  end.

Definition pal_path_is_file (path : option bytes) : io Z :=
  match path with
  | None => mret (err_code FTP_ERR_INVALID_PARAM)
  | Some path =>
      st ← sys_call (SysStat path);
      match st with
      | None => mret (err_code FTP_ERR_FILE_STAT)
      | Some st => mret (if S_ISREG (st_mode st) then 1 else 0)
      end
  end.

(** The Linux branch; the second component is [*offset] afterwards. *)
Definition pal_sendfile (sock_fd file_fd offset count : Z) : io (Z * Z) :=
  if (sock_fd <? 0) || (file_fd <? 0) then _ ← set_errno EINVAL; mret (-1, offset)
  else if offset <? 0 then _ ← set_errno EINVAL; mret (-1, offset)
  else if count =? 0 then mret (0, offset)
  else sys_call (SysSendfile sock_fd file_fd offset count).

(** ** pal_filesystem.c *)

Definition VFS_CAP_SENDFILE : Z := 1.
Definition VFS_CAP_STREAM_ONLY : Z := 2.

Record vfs_stat_t := VfsStat { vs_mode : Z; vs_size : Z; vs_mtime : Z }.

Record vfs_node_t := VfsNode { vn_caps : Z; vn_fd : Z; vn_size : Z; vn_offset : Z }.

Definition vfs_stat (path : option bytes) : io (res vfs_stat_t) :=
  match path with
  | None => mret (Err FTP_ERR_INVALID_PARAM)
  | Some path =>
      r ← pal_file_stat (Some path);
      mret (match r with
            | Err e => Err e
            | Ok st => Ok (VfsStat (u32 (st_mode st)) (u64 (st_size st)) (st_mtime st))
            end)
  end.

Definition vfs_open (path : option bytes) : io (res vfs_node_t) :=
  match path with
  | None => mret (Err FTP_ERR_INVALID_PARAM)
  | Some path =>
      fd ← pal_file_open (Some path) O_RDONLY 0;
      if fd <? 0 then mret (Err FTP_ERR_FILE_OPEN)
      else
        st ← pal_file_fstat fd;
        match st with
        | Err _ => _ ← pal_file_close fd; mret (Err FTP_ERR_FILE_STAT)
        | Ok st => mret (Ok (VfsNode VFS_CAP_SENDFILE fd (u64 (st_size st)) 0))
        end
  end.

Definition vfs_close (node : vfs_node_t) : io vfs_node_t :=
  if 0 <=? vn_fd node then
    _ ← pal_file_close (vn_fd node);
    mret (VfsNode (vn_caps node) (-1) (vn_size node) (vn_offset node))
  else mret node.

Definition vfs_set_offset (node : vfs_node_t) (offset : Z) : io vfs_node_t :=
  let node := VfsNode (vn_caps node) (vn_fd node) (vn_size node) offset in
  if 0 <=? vn_fd node then
    _ ← pal_file_seek (vn_fd node) offset SEEK_SET; mret node
  else mret node.

Definition vfs_read (node : vfs_node_t) (length : Z) : io (option bytes * vfs_node_t) :=
  if length =? 0 then _ ← set_errno EINVAL; mret (None, node)
  else if vn_fd node <? 0 then _ ← set_errno EBADF; mret (None, node)
  else
    d ← pal_file_read (vn_fd node) length;
    match d with
    | Some b =>
        mret (d, VfsNode (vn_caps node) (vn_fd node) (vn_size node)
                   (if 0 <? strlen b then vn_offset node +u64 strlen b else vn_offset node))
    | None => mret (d, node)
    end.

Definition vfs_get_caps (node : vfs_node_t) : Z := vn_caps node.
Definition vfs_get_size (node : vfs_node_t) : Z := vn_size node.

End fileio.

(** ** Properties *)

Section write_all.
Context {W : Type} `{SaneOS W}.

Lemma write_all_loop_sent fuel fd rest count s :
  send_ok fd rest count (os_trace s) (write_all_loop fuel fd rest count s).
Proof.
  revert rest s. induction fuel as [|fuel IH]; intros rest s; [by exists [], 0%nat|].
  destruct rest as [|x rest'].
  { exists [], 0%nat. split; [done|]. split; [done|]. intros r [= <-]. by left. }
  simpl write_all_loop. set (rest := x :: rest'). clearbody rest. clear x rest'.
  set (chunk := if _ <? _ then _ else _). unfold mbind, M_bind, sys_call.
  destruct (os_step (SysWrite fd (take (Z.to_nat chunk) rest)) (os_state s)) as [[n e] w] eqn:E.
  apply write_le in E as Hn. destruct (Z.ltb_spec 0 n) as [Hpos|Hneg].
  - apply (send_ok_step _ _ _ (Z.to_nat n) (Ev (SysWrite fd (take (Z.to_nat chunk) rest)) n));
      [|apply IH].
    destruct (sent_on_ok fd (take (Z.to_nat chunk) rest) n Hpos) as [_ ->].
    rewrite take_take. f_equal. unfold strlen in Hn. rewrite length_take in Hn. lia.
  - apply (send_ok_silent _ _ _ [Ev (SysWrite fd (take (Z.to_nat chunk) rest)) n]);
      [by apply (sent_on_fail fd fd)|].
    destruct (n =? 0); [by apply send_ok_stop|]. cbn [get_errno gets os_errno].
    destruct (_ =? EINTR); [apply IH | by apply send_ok_stop].
Qed.

(** [pal_file_write_all] writes in order: for every POSIX-conforming
    [write], what reached the descriptor is a prefix of the buffer, and the
    full length is returned only when all of it was written, once and in
    order, in pieces of at most PAL_FILE_WRITE_CHUNK_MAX bytes; every failure
    is -1. *)
Theorem write_all_in_order fuel fd buf s :
  let out := pal_file_write_all fuel fd buf s in
  exists new k, os_trace out.2 = new ++ os_trace s /\ sent_on fd new = take k buf /\
    forall r, out.1 = Some r -> (r = strlen buf /\ sent_on fd new = buf) \/ r = -1.
Proof.
  intros out. unfold out, pal_file_write_all.
  case_match; [by apply send_ok_stop|]. apply write_all_loop_sent.
Qed.

End write_all.

Lemma write_all_in_order_witness :
  exists new k, os_trace (pal_file_write_all 4 12 (str "data") toy_init).2 = new ++ []
    /\ sent_on 12 new = take k (str "data") /\
    forall r, (pal_file_write_all 4 12 (str "data") toy_init).1 = Some r ->
      (r = 4 /\ sent_on 12 new = str "data") \/ r = -1.
Proof. apply (write_all_in_order 4 12 (str "data") toy_init). Defined.
