(* ===== verification/FtpState.v ===== *)
(** * Session state: [ftp_session_t] of [include/ftp_types.h]

    The record, its field updates and the state monad of a session thread,
    the session together with the system state. *)

From S2P Require Import Prelude CLib FtpTypes FtpCrypto Os.

Record ftp_session_stats_t := Stats {
  bytes_sent : Z;
  bytes_received : Z;
  files_sent : Z;
  files_received : Z;
  commands_processed : Z;
  errors : Z
}.

Record ftp_session_t := Session {
  ctrl_fd : Z;
  ctrl_addr : sockaddr_in;
  data_fd : Z;
  pasv_fd : Z;
  data_addr : sockaddr_in;
  data_mode : ftp_data_mode_t;
  state : ftp_session_state_t;
  transfer_type : ftp_transfer_type_t;
  transfer_mode : ftp_transfer_mode_t;
  file_structure : ftp_file_structure_t;
  restart_offset : Z;
  root_path : bytes;
  cwd : bytes;
  rename_from : bytes;
  copy_from : bytes;
  copy_in_progress : Z;
  copy_thread_valid : Z;
  copy_is_move : Z;
  auth_attempts : Z;
  authenticated : Z;
  user_ok : Z;
  ctrl_rxbuf : bytes;
  ctrl_rx_len : Z;
  ctrl_rx_off : Z;
  session_id : Z;
  connect_time : Z;
  last_activity : Z;
  rl_tokens : Z;
  rl_last_ns : Z;
  crypto : ftp_crypto_ctx_t;
  client_ip : bytes;
  client_port : Z;
  stats : ftp_session_stats_t
}.

Definition set_ctrl_fd (v : Z) (s : ftp_session_t) : ftp_session_t :=
  Session v (ctrl_addr s) (data_fd s) (pasv_fd s) (data_addr s) (data_mode s) (state s)
    (transfer_type s) (transfer_mode s) (file_structure s) (restart_offset s) (root_path s)
    (cwd s) (rename_from s) (copy_from s) (copy_in_progress s) (copy_thread_valid s)
    (copy_is_move s) (auth_attempts s) (authenticated s) (user_ok s) (ctrl_rxbuf s)
    (ctrl_rx_len s) (ctrl_rx_off s) (session_id s) (connect_time s) (last_activity s)
    (rl_tokens s) (rl_last_ns s) (crypto s) (client_ip s) (client_port s) (stats s).

Definition set_ctrl_addr (v : sockaddr_in) (s : ftp_session_t) : ftp_session_t :=
  Session (ctrl_fd s) v (data_fd s) (pasv_fd s) (data_addr s) (data_mode s) (state s)
    (transfer_type s) (transfer_mode s) (file_structure s) (restart_offset s) (root_path s)
    (cwd s) (rename_from s) (copy_from s) (copy_in_progress s) (copy_thread_valid s)
    (copy_is_move s) (auth_attempts s) (authenticated s) (user_ok s) (ctrl_rxbuf s)
    (ctrl_rx_len s) (ctrl_rx_off s) (session_id s) (connect_time s) (last_activity s)
    (rl_tokens s) (rl_last_ns s) (crypto s) (client_ip s) (client_port s) (stats s).

Definition set_data_fd (v : Z) (s : ftp_session_t) : ftp_session_t :=
  Session (ctrl_fd s) (ctrl_addr s) v (pasv_fd s) (data_addr s) (data_mode s) (state s)
    (transfer_type s) (transfer_mode s) (file_structure s) (restart_offset s) (root_path s)
    (cwd s) (rename_from s) (copy_from s) (copy_in_progress s) (copy_thread_valid s)
    (copy_is_move s) (auth_attempts s) (authenticated s) (user_ok s) (ctrl_rxbuf s)
    (ctrl_rx_len s) (ctrl_rx_off s) (session_id s) (connect_time s) (last_activity s)
    (rl_tokens s) (rl_last_ns s) (crypto s) (client_ip s) (client_port s) (stats s).

Definition set_pasv_fd (v : Z) (s : ftp_session_t) : ftp_session_t :=
  Session (ctrl_fd s) (ctrl_addr s) (data_fd s) v (data_addr s) (data_mode s) (state s)
    (transfer_type s) (transfer_mode s) (file_structure s) (restart_offset s) (root_path s)
    (cwd s) (rename_from s) (copy_from s) (copy_in_progress s) (copy_thread_valid s)
    (copy_is_move s) (auth_attempts s) (authenticated s) (user_ok s) (ctrl_rxbuf s)
    (ctrl_rx_len s) (ctrl_rx_off s) (session_id s) (connect_time s) (last_activity s)
    (rl_tokens s) (rl_last_ns s) (crypto s) (client_ip s) (client_port s) (stats s).

Definition set_data_addr (v : sockaddr_in) (s : ftp_session_t) : ftp_session_t :=
  Session (ctrl_fd s) (ctrl_addr s) (data_fd s) (pasv_fd s) v (data_mode s) (state s)
    (transfer_type s) (transfer_mode s) (file_structure s) (restart_offset s) (root_path s)
    (cwd s) (rename_from s) (copy_from s) (copy_in_progress s) (copy_thread_valid s)
    (copy_is_move s) (auth_attempts s) (authenticated s) (user_ok s) (ctrl_rxbuf s)
    (ctrl_rx_len s) (ctrl_rx_off s) (session_id s) (connect_time s) (last_activity s)
    (rl_tokens s) (rl_last_ns s) (crypto s) (client_ip s) (client_port s) (stats s).

Definition set_data_mode (v : ftp_data_mode_t) (s : ftp_session_t) : ftp_session_t :=
  Session (ctrl_fd s) (ctrl_addr s) (data_fd s) (pasv_fd s) (data_addr s) v (state s)
    (transfer_type s) (transfer_mode s) (file_structure s) (restart_offset s) (root_path s)
    (cwd s) (rename_from s) (copy_from s) (copy_in_progress s) (copy_thread_valid s)
    (copy_is_move s) (auth_attempts s) (authenticated s) (user_ok s) (ctrl_rxbuf s)
    (ctrl_rx_len s) (ctrl_rx_off s) (session_id s) (connect_time s) (last_activity s)
    (rl_tokens s) (rl_last_ns s) (crypto s) (client_ip s) (client_port s) (stats s).

Definition set_state (v : ftp_session_state_t) (s : ftp_session_t) : ftp_session_t :=
  Session (ctrl_fd s) (ctrl_addr s) (data_fd s) (pasv_fd s) (data_addr s) (data_mode s) v
    (transfer_type s) (transfer_mode s) (file_structure s) (restart_offset s) (root_path s)
    (cwd s) (rename_from s) (copy_from s) (copy_in_progress s) (copy_thread_valid s)
    (copy_is_move s) (auth_attempts s) (authenticated s) (user_ok s) (ctrl_rxbuf s)
    (ctrl_rx_len s) (ctrl_rx_off s) (session_id s) (connect_time s) (last_activity s)
    (rl_tokens s) (rl_last_ns s) (crypto s) (client_ip s) (client_port s) (stats s).

Definition set_transfer_type (v : ftp_transfer_type_t) (s : ftp_session_t) : ftp_session_t :=
  Session (ctrl_fd s) (ctrl_addr s) (data_fd s) (pasv_fd s) (data_addr s) (data_mode s)
    (state s) v (transfer_mode s) (file_structure s) (restart_offset s) (root_path s) (cwd s)
    (rename_from s) (copy_from s) (copy_in_progress s) (copy_thread_valid s) (copy_is_move s)
    (auth_attempts s) (authenticated s) (user_ok s) (ctrl_rxbuf s) (ctrl_rx_len s)
    (ctrl_rx_off s) (session_id s) (connect_time s) (last_activity s) (rl_tokens s)
    (rl_last_ns s) (crypto s) (client_ip s) (client_port s) (stats s).

Definition set_transfer_mode (v : ftp_transfer_mode_t) (s : ftp_session_t) : ftp_session_t :=
  Session (ctrl_fd s) (ctrl_addr s) (data_fd s) (pasv_fd s) (data_addr s) (data_mode s)
    (state s) (transfer_type s) v (file_structure s) (restart_offset s) (root_path s) (cwd s)
    (rename_from s) (copy_from s) (copy_in_progress s) (copy_thread_valid s) (copy_is_move s)
    (auth_attempts s) (authenticated s) (user_ok s) (ctrl_rxbuf s) (ctrl_rx_len s)
    (ctrl_rx_off s) (session_id s) (connect_time s) (last_activity s) (rl_tokens s)
    (rl_last_ns s) (crypto s) (client_ip s) (client_port s) (stats s).

Definition set_file_structure (v : ftp_file_structure_t) (s : ftp_session_t) : ftp_session_t :=
  Session (ctrl_fd s) (ctrl_addr s) (data_fd s) (pasv_fd s) (data_addr s) (data_mode s)
    (state s) (transfer_type s) (transfer_mode s) v (restart_offset s) (root_path s) (cwd s)
    (rename_from s) (copy_from s) (copy_in_progress s) (copy_thread_valid s) (copy_is_move s)
    (auth_attempts s) (authenticated s) (user_ok s) (ctrl_rxbuf s) (ctrl_rx_len s)
    (ctrl_rx_off s) (session_id s) (connect_time s) (last_activity s) (rl_tokens s)
    (rl_last_ns s) (crypto s) (client_ip s) (client_port s) (stats s).

Definition set_restart_offset (v : Z) (s : ftp_session_t) : ftp_session_t :=
  Session (ctrl_fd s) (ctrl_addr s) (data_fd s) (pasv_fd s) (data_addr s) (data_mode s)
    (state s) (transfer_type s) (transfer_mode s) (file_structure s) v (root_path s) (cwd s)
    (rename_from s) (copy_from s) (copy_in_progress s) (copy_thread_valid s) (copy_is_move s)
    (auth_attempts s) (authenticated s) (user_ok s) (ctrl_rxbuf s) (ctrl_rx_len s)
    (ctrl_rx_off s) (session_id s) (connect_time s) (last_activity s) (rl_tokens s)
    (rl_last_ns s) (crypto s) (client_ip s) (client_port s) (stats s).

Definition set_root_path (v : bytes) (s : ftp_session_t) : ftp_session_t :=
  Session (ctrl_fd s) (ctrl_addr s) (data_fd s) (pasv_fd s) (data_addr s) (data_mode s)
    (state s) (transfer_type s) (transfer_mode s) (file_structure s) (restart_offset s) v
    (cwd s) (rename_from s) (copy_from s) (copy_in_progress s) (copy_thread_valid s)
    (copy_is_move s) (auth_attempts s) (authenticated s) (user_ok s) (ctrl_rxbuf s)
    (ctrl_rx_len s) (ctrl_rx_off s) (session_id s) (connect_time s) (last_activity s)
    (rl_tokens s) (rl_last_ns s) (crypto s) (client_ip s) (client_port s) (stats s).

Definition set_cwd (v : bytes) (s : ftp_session_t) : ftp_session_t :=
  Session (ctrl_fd s) (ctrl_addr s) (data_fd s) (pasv_fd s) (data_addr s) (data_mode s)
    (state s) (transfer_type s) (transfer_mode s) (file_structure s) (restart_offset s)
    (root_path s) v (rename_from s) (copy_from s) (copy_in_progress s) (copy_thread_valid s)
    (copy_is_move s) (auth_attempts s) (authenticated s) (user_ok s) (ctrl_rxbuf s)
    (ctrl_rx_len s) (ctrl_rx_off s) (session_id s) (connect_time s) (last_activity s)
    (rl_tokens s) (rl_last_ns s) (crypto s) (client_ip s) (client_port s) (stats s).

Definition set_rename_from (v : bytes) (s : ftp_session_t) : ftp_session_t :=
  Session (ctrl_fd s) (ctrl_addr s) (data_fd s) (pasv_fd s) (data_addr s) (data_mode s)
    (state s) (transfer_type s) (transfer_mode s) (file_structure s) (restart_offset s)
    (root_path s) (cwd s) v (copy_from s) (copy_in_progress s) (copy_thread_valid s)
    (copy_is_move s) (auth_attempts s) (authenticated s) (user_ok s) (ctrl_rxbuf s)
    (ctrl_rx_len s) (ctrl_rx_off s) (session_id s) (connect_time s) (last_activity s)
    (rl_tokens s) (rl_last_ns s) (crypto s) (client_ip s) (client_port s) (stats s).

Definition set_copy_from (v : bytes) (s : ftp_session_t) : ftp_session_t :=
  Session (ctrl_fd s) (ctrl_addr s) (data_fd s) (pasv_fd s) (data_addr s) (data_mode s)
    (state s) (transfer_type s) (transfer_mode s) (file_structure s) (restart_offset s)
    (root_path s) (cwd s) (rename_from s) v (copy_in_progress s) (copy_thread_valid s)
    (copy_is_move s) (auth_attempts s) (authenticated s) (user_ok s) (ctrl_rxbuf s)
    (ctrl_rx_len s) (ctrl_rx_off s) (session_id s) (connect_time s) (last_activity s)
    (rl_tokens s) (rl_last_ns s) (crypto s) (client_ip s) (client_port s) (stats s).

Definition set_copy_in_progress (v : Z) (s : ftp_session_t) : ftp_session_t :=
  Session (ctrl_fd s) (ctrl_addr s) (data_fd s) (pasv_fd s) (data_addr s) (data_mode s)
    (state s) (transfer_type s) (transfer_mode s) (file_structure s) (restart_offset s)
    (root_path s) (cwd s) (rename_from s) (copy_from s) v (copy_thread_valid s) (copy_is_move s)
    (auth_attempts s) (authenticated s) (user_ok s) (ctrl_rxbuf s) (ctrl_rx_len s)
    (ctrl_rx_off s) (session_id s) (connect_time s) (last_activity s) (rl_tokens s)
    (rl_last_ns s) (crypto s) (client_ip s) (client_port s) (stats s).

Definition set_copy_thread_valid (v : Z) (s : ftp_session_t) : ftp_session_t :=
  Session (ctrl_fd s) (ctrl_addr s) (data_fd s) (pasv_fd s) (data_addr s) (data_mode s)
    (state s) (transfer_type s) (transfer_mode s) (file_structure s) (restart_offset s)
    (root_path s) (cwd s) (rename_from s) (copy_from s) (copy_in_progress s) v (copy_is_move s)
    (auth_attempts s) (authenticated s) (user_ok s) (ctrl_rxbuf s) (ctrl_rx_len s)
    (ctrl_rx_off s) (session_id s) (connect_time s) (last_activity s) (rl_tokens s)
    (rl_last_ns s) (crypto s) (client_ip s) (client_port s) (stats s).

Definition set_copy_is_move (v : Z) (s : ftp_session_t) : ftp_session_t :=
  Session (ctrl_fd s) (ctrl_addr s) (data_fd s) (pasv_fd s) (data_addr s) (data_mode s)
    (state s) (transfer_type s) (transfer_mode s) (file_structure s) (restart_offset s)
    (root_path s) (cwd s) (rename_from s) (copy_from s) (copy_in_progress s)
    (copy_thread_valid s) v (auth_attempts s) (authenticated s) (user_ok s) (ctrl_rxbuf s)
    (ctrl_rx_len s) (ctrl_rx_off s) (session_id s) (connect_time s) (last_activity s)
    (rl_tokens s) (rl_last_ns s) (crypto s) (client_ip s) (client_port s) (stats s).

Definition set_auth_attempts (v : Z) (s : ftp_session_t) : ftp_session_t :=
  Session (ctrl_fd s) (ctrl_addr s) (data_fd s) (pasv_fd s) (data_addr s) (data_mode s)
    (state s) (transfer_type s) (transfer_mode s) (file_structure s) (restart_offset s)
    (root_path s) (cwd s) (rename_from s) (copy_from s) (copy_in_progress s)
    (copy_thread_valid s) (copy_is_move s) v (authenticated s) (user_ok s) (ctrl_rxbuf s)
    (ctrl_rx_len s) (ctrl_rx_off s) (session_id s) (connect_time s) (last_activity s)
    (rl_tokens s) (rl_last_ns s) (crypto s) (client_ip s) (client_port s) (stats s).

Definition set_authenticated (v : Z) (s : ftp_session_t) : ftp_session_t :=
  Session (ctrl_fd s) (ctrl_addr s) (data_fd s) (pasv_fd s) (data_addr s) (data_mode s)
    (state s) (transfer_type s) (transfer_mode s) (file_structure s) (restart_offset s)
    (root_path s) (cwd s) (rename_from s) (copy_from s) (copy_in_progress s)
    (copy_thread_valid s) (copy_is_move s) (auth_attempts s) v (user_ok s) (ctrl_rxbuf s)
    (ctrl_rx_len s) (ctrl_rx_off s) (session_id s) (connect_time s) (last_activity s)
    (rl_tokens s) (rl_last_ns s) (crypto s) (client_ip s) (client_port s) (stats s).

Definition set_user_ok (v : Z) (s : ftp_session_t) : ftp_session_t :=
  Session (ctrl_fd s) (ctrl_addr s) (data_fd s) (pasv_fd s) (data_addr s) (data_mode s)
    (state s) (transfer_type s) (transfer_mode s) (file_structure s) (restart_offset s)
    (root_path s) (cwd s) (rename_from s) (copy_from s) (copy_in_progress s)
    (copy_thread_valid s) (copy_is_move s) (auth_attempts s) (authenticated s) v (ctrl_rxbuf s)
    (ctrl_rx_len s) (ctrl_rx_off s) (session_id s) (connect_time s) (last_activity s)
    (rl_tokens s) (rl_last_ns s) (crypto s) (client_ip s) (client_port s) (stats s).

Definition set_ctrl_rxbuf (v : bytes) (s : ftp_session_t) : ftp_session_t :=
  Session (ctrl_fd s) (ctrl_addr s) (data_fd s) (pasv_fd s) (data_addr s) (data_mode s)
    (state s) (transfer_type s) (transfer_mode s) (file_structure s) (restart_offset s)
    (root_path s) (cwd s) (rename_from s) (copy_from s) (copy_in_progress s)
    (copy_thread_valid s) (copy_is_move s) (auth_attempts s) (authenticated s) (user_ok s) v
    (ctrl_rx_len s) (ctrl_rx_off s) (session_id s) (connect_time s) (last_activity s)
    (rl_tokens s) (rl_last_ns s) (crypto s) (client_ip s) (client_port s) (stats s).

Definition set_ctrl_rx_len (v : Z) (s : ftp_session_t) : ftp_session_t :=
  Session (ctrl_fd s) (ctrl_addr s) (data_fd s) (pasv_fd s) (data_addr s) (data_mode s)
    (state s) (transfer_type s) (transfer_mode s) (file_structure s) (restart_offset s)
    (root_path s) (cwd s) (rename_from s) (copy_from s) (copy_in_progress s)
    (copy_thread_valid s) (copy_is_move s) (auth_attempts s) (authenticated s) (user_ok s)
    (ctrl_rxbuf s) v (ctrl_rx_off s) (session_id s) (connect_time s) (last_activity s)
    (rl_tokens s) (rl_last_ns s) (crypto s) (client_ip s) (client_port s) (stats s).

Definition set_ctrl_rx_off (v : Z) (s : ftp_session_t) : ftp_session_t :=
  Session (ctrl_fd s) (ctrl_addr s) (data_fd s) (pasv_fd s) (data_addr s) (data_mode s)
    (state s) (transfer_type s) (transfer_mode s) (file_structure s) (restart_offset s)
    (root_path s) (cwd s) (rename_from s) (copy_from s) (copy_in_progress s)
    (copy_thread_valid s) (copy_is_move s) (auth_attempts s) (authenticated s) (user_ok s)
    (ctrl_rxbuf s) (ctrl_rx_len s) v (session_id s) (connect_time s) (last_activity s)
    (rl_tokens s) (rl_last_ns s) (crypto s) (client_ip s) (client_port s) (stats s).

Definition set_session_id (v : Z) (s : ftp_session_t) : ftp_session_t :=
  Session (ctrl_fd s) (ctrl_addr s) (data_fd s) (pasv_fd s) (data_addr s) (data_mode s)
    (state s) (transfer_type s) (transfer_mode s) (file_structure s) (restart_offset s)
    (root_path s) (cwd s) (rename_from s) (copy_from s) (copy_in_progress s)
    (copy_thread_valid s) (copy_is_move s) (auth_attempts s) (authenticated s) (user_ok s)
    (ctrl_rxbuf s) (ctrl_rx_len s) (ctrl_rx_off s) v (connect_time s) (last_activity s)
    (rl_tokens s) (rl_last_ns s) (crypto s) (client_ip s) (client_port s) (stats s).

Definition set_connect_time (v : Z) (s : ftp_session_t) : ftp_session_t :=
  Session (ctrl_fd s) (ctrl_addr s) (data_fd s) (pasv_fd s) (data_addr s) (data_mode s)
    (state s) (transfer_type s) (transfer_mode s) (file_structure s) (restart_offset s)
    (root_path s) (cwd s) (rename_from s) (copy_from s) (copy_in_progress s)
    (copy_thread_valid s) (copy_is_move s) (auth_attempts s) (authenticated s) (user_ok s)
    (ctrl_rxbuf s) (ctrl_rx_len s) (ctrl_rx_off s) (session_id s) v (last_activity s)
    (rl_tokens s) (rl_last_ns s) (crypto s) (client_ip s) (client_port s) (stats s).

Definition set_last_activity (v : Z) (s : ftp_session_t) : ftp_session_t :=
  Session (ctrl_fd s) (ctrl_addr s) (data_fd s) (pasv_fd s) (data_addr s) (data_mode s)
    (state s) (transfer_type s) (transfer_mode s) (file_structure s) (restart_offset s)
    (root_path s) (cwd s) (rename_from s) (copy_from s) (copy_in_progress s)
    (copy_thread_valid s) (copy_is_move s) (auth_attempts s) (authenticated s) (user_ok s)
    (ctrl_rxbuf s) (ctrl_rx_len s) (ctrl_rx_off s) (session_id s) (connect_time s) v
    (rl_tokens s) (rl_last_ns s) (crypto s) (client_ip s) (client_port s) (stats s).

Definition set_rl_tokens (v : Z) (s : ftp_session_t) : ftp_session_t :=
  Session (ctrl_fd s) (ctrl_addr s) (data_fd s) (pasv_fd s) (data_addr s) (data_mode s)
    (state s) (transfer_type s) (transfer_mode s) (file_structure s) (restart_offset s)
    (root_path s) (cwd s) (rename_from s) (copy_from s) (copy_in_progress s)
    (copy_thread_valid s) (copy_is_move s) (auth_attempts s) (authenticated s) (user_ok s)
    (ctrl_rxbuf s) (ctrl_rx_len s) (ctrl_rx_off s) (session_id s) (connect_time s)
    (last_activity s) v (rl_last_ns s) (crypto s) (client_ip s) (client_port s) (stats s).

Definition set_rl_last_ns (v : Z) (s : ftp_session_t) : ftp_session_t :=
  Session (ctrl_fd s) (ctrl_addr s) (data_fd s) (pasv_fd s) (data_addr s) (data_mode s)
    (state s) (transfer_type s) (transfer_mode s) (file_structure s) (restart_offset s)
    (root_path s) (cwd s) (rename_from s) (copy_from s) (copy_in_progress s)
    (copy_thread_valid s) (copy_is_move s) (auth_attempts s) (authenticated s) (user_ok s)
    (ctrl_rxbuf s) (ctrl_rx_len s) (ctrl_rx_off s) (session_id s) (connect_time s)
    (last_activity s) (rl_tokens s) v (crypto s) (client_ip s) (client_port s) (stats s).

Definition set_crypto (v : ftp_crypto_ctx_t) (s : ftp_session_t) : ftp_session_t :=
  Session (ctrl_fd s) (ctrl_addr s) (data_fd s) (pasv_fd s) (data_addr s) (data_mode s)
    (state s) (transfer_type s) (transfer_mode s) (file_structure s) (restart_offset s)
    (root_path s) (cwd s) (rename_from s) (copy_from s) (copy_in_progress s)
    (copy_thread_valid s) (copy_is_move s) (auth_attempts s) (authenticated s) (user_ok s)
    (ctrl_rxbuf s) (ctrl_rx_len s) (ctrl_rx_off s) (session_id s) (connect_time s)
    (last_activity s) (rl_tokens s) (rl_last_ns s) v (client_ip s) (client_port s) (stats s).

Definition set_client_ip (v : bytes) (s : ftp_session_t) : ftp_session_t :=
  Session (ctrl_fd s) (ctrl_addr s) (data_fd s) (pasv_fd s) (data_addr s) (data_mode s)
    (state s) (transfer_type s) (transfer_mode s) (file_structure s) (restart_offset s)
    (root_path s) (cwd s) (rename_from s) (copy_from s) (copy_in_progress s)
    (copy_thread_valid s) (copy_is_move s) (auth_attempts s) (authenticated s) (user_ok s)
    (ctrl_rxbuf s) (ctrl_rx_len s) (ctrl_rx_off s) (session_id s) (connect_time s)
    (last_activity s) (rl_tokens s) (rl_last_ns s) (crypto s) v (client_port s) (stats s).

Definition set_client_port (v : Z) (s : ftp_session_t) : ftp_session_t :=
  Session (ctrl_fd s) (ctrl_addr s) (data_fd s) (pasv_fd s) (data_addr s) (data_mode s)
    (state s) (transfer_type s) (transfer_mode s) (file_structure s) (restart_offset s)
    (root_path s) (cwd s) (rename_from s) (copy_from s) (copy_in_progress s)
    (copy_thread_valid s) (copy_is_move s) (auth_attempts s) (authenticated s) (user_ok s)
    (ctrl_rxbuf s) (ctrl_rx_len s) (ctrl_rx_off s) (session_id s) (connect_time s)
    (last_activity s) (rl_tokens s) (rl_last_ns s) (crypto s) (client_ip s) v (stats s).

Definition set_stats (v : ftp_session_stats_t) (s : ftp_session_t) : ftp_session_t :=
  Session (ctrl_fd s) (ctrl_addr s) (data_fd s) (pasv_fd s) (data_addr s) (data_mode s)
    (state s) (transfer_type s) (transfer_mode s) (file_structure s) (restart_offset s)
    (root_path s) (cwd s) (rename_from s) (copy_from s) (copy_in_progress s)
    (copy_thread_valid s) (copy_is_move s) (auth_attempts s) (authenticated s) (user_ok s)
    (ctrl_rxbuf s) (ctrl_rx_len s) (ctrl_rx_off s) (session_id s) (connect_time s)
    (last_activity s) (rl_tokens s) (rl_last_ns s) (crypto s) (client_ip s) (client_port s) v.

Definition set_bytes_sent (v : Z) (x : ftp_session_stats_t) : ftp_session_stats_t :=
  Stats v (bytes_received x) (files_sent x) (files_received x) (commands_processed x) (errors x).

Definition set_bytes_received (v : Z) (x : ftp_session_stats_t) : ftp_session_stats_t :=
  Stats (bytes_sent x) v (files_sent x) (files_received x) (commands_processed x) (errors x).

Definition set_files_sent (v : Z) (x : ftp_session_stats_t) : ftp_session_stats_t :=
  Stats (bytes_sent x) (bytes_received x) v (files_received x) (commands_processed x) (errors x).

Definition set_files_received (v : Z) (x : ftp_session_stats_t) : ftp_session_stats_t :=
  Stats (bytes_sent x) (bytes_received x) (files_sent x) v (commands_processed x) (errors x).

Definition set_commands_processed (v : Z) (x : ftp_session_stats_t) : ftp_session_stats_t :=
  Stats (bytes_sent x) (bytes_received x) (files_sent x) (files_received x) v (errors x).

Definition set_errors (v : Z) (x : ftp_session_stats_t) : ftp_session_stats_t :=
  Stats (bytes_sent x) (bytes_received x) (files_sent x) (files_received x)
    (commands_processed x) v.

(** The state [memset(session, 0, ...)] leaves.  The enumerations whose zero
    is not an enumerator ([transfer_type] and its kin) hold their default;
    they are assigned before any use. *)
Definition session_memset : ftp_session_t :=
  Session 0 sockaddr_zero 0 0 sockaddr_zero FTP_DATA_MODE_NONE FTP_STATE_INIT
    FTP_TYPE_BINARY FTP_MODE_STREAM FTP_STRU_FILE 0 [] [] [] [] 0 0 0 0 0 0
    (replicate 512 0) 0 0 0 0 0 0 0 crypto_zero [] 0 (Stats 0 0 0 0 0 0).

(** A free slot of the pool, as [ftp_server_init] prepares it. *)
Definition session_slot : ftp_session_t :=
  set_pasv_fd (-1) (set_data_fd (-1) (set_ctrl_fd (-1) session_memset)).

(** The session thread's monad: [M (st ftp_session_t W)]. *)
Definition sm (W A : Type) : Type := M (st ftp_session_t W) A.

Definition log_line {W} `{OS W} (line : bytes) : M (st ftp_session_t W) unit := sysc (SysLog line).

(** Steps of symbolic execution, and of its case distinctions. *)
Ltac wp_step :=
  lazymatch goal with
  | |- wp (log_line _) _ _ _ => apply wp_sysc; intros ? ? ? ?; cbv beta
  | _ => Os.wp_step
  end.
