(* ===== verification/FtpResolve.v ===== *)
(** * Path resolution against the file system: [ftp_path_resolve]

    The one function of [src/ftp_path.c] that asks the system: it combines
    the session's working directory with a client path, normalises, checks
    the root, and follows symbolic links with [realpath]. *)

From S2P Require Import Prelude CLib FtpTypes FtpPath Os PalFileio FtpState.

Section resolve.
Context {W : Type} `{OS W}.

(** From [char dir_buf[FTP_PATH_MAX]] on: the path does not exist, resolve
    its directory.  [output] is the normalised path. *)
Definition resolve_missing (root : bytes) (output : bytes) (size : Z) : M (sysst W) (res bytes) :=
  match ftp_path_dirname (Some output) FTP_PATH_MAX with
  | Err _ => mret (Ok output)
  | Ok dir_buf =>
      match ftp_path_basename (Some output) FTP_PATH_MAX with
      | Err _ => mret (Ok output)
      | Ok base_buf =>
          ex ← pal_path_exists (Some dir_buf);
          if negb (ex =? 1) then mret (Ok output)
          else
            rp ← sys_call (SysRealpath dir_buf);
            match rp with
            | None => mret (Ok output)
            | Some dir_real =>
                let joined := dir_real ++ SLASH :: base_buf in
                if FTP_PATH_MAX <=? strlen joined then mret (Err FTP_ERR_PATH_TOO_LONG)
                else
                  match ftp_path_normalize (Some joined) size with
                  | Err e => mret (Err e)
                  | Ok output =>
                      if negb (ftp_path_is_within_root (Some output) (Some root) =? 1)
                      then mret (Err FTP_ERR_PATH_INVALID) else mret (Ok output)
                  end
            end
      end
  end.

(** From the [pal_path_exists] test on. *)
Definition resolve_real (root : bytes) (output : bytes) (size : Z) : M (sysst W) (res bytes) :=
  ex ← pal_path_exists (Some output);
  if ex =? 1 then
    rp ← sys_call (SysRealpath output);
    match rp with
    | Some real_buf =>
        if strlen real_buf + 1 <=? size then
          if negb (ftp_path_is_within_root (Some real_buf) (Some root) =? 1)
          then mret (Err FTP_ERR_PATH_INVALID) else mret (Ok real_buf)
        else mret (Ok output)
    | None => mret (Ok output)
    end
  else resolve_missing root output size.

Definition ftp_path_resolve (s : ftp_session_t) (path : option bytes) (size : Z)
    : M (sysst W) (res bytes) :=
  match path with
  | None => mret (Err FTP_ERR_INVALID_PARAM)
  | Some path =>
      if size <? FTP_PATH_MAX then mret (Err FTP_ERR_INVALID_PARAM)
      else
        let path_len := strlen path in
        if FTP_PATH_MAX <=? path_len then mret (Err FTP_ERR_PATH_TOO_LONG)
        else
          let temp :=
            if (0 <? path_len) && (path !!! 0%nat =? SLASH) then Ok path
            else if FTP_PATH_MAX <=? strlen (cwd s) + path_len + 2 then Err FTP_ERR_PATH_TOO_LONG
            else Ok (cwd s ++ SLASH :: path) in
          match temp with
          | Err e => mret (Err e)
          | Ok temp =>
              match ftp_path_normalize (Some temp) size with
              | Err e => mret (Err e)
              | Ok output =>
                  if negb (ftp_path_is_within_root (Some output) (Some (root_path s)) =? 1)
                  then mret (Err FTP_ERR_PATH_INVALID)
                  else resolve_real (root_path s) output size
              end
          end
  end.

End resolve.

(** ** Requests that act on the file system *)

(** The paths a request reads or changes the contents of.  [stat] and
    [realpath] only inspect names. *)
Definition fs_paths (e : event) : list bytes :=
  match e with
  | @Ev A c _ =>
      match c with
      | SysOpen p _ _ | SysUnlink p | SysRmdir p | SysMkdir p _ | SysOpendir p => [p]
      | SysRename p q | SysCopyThread p q _ => [p; q]
      | _ => []
      end
  end.

(** String-level confinement, as the code checks it. *)
Definition within (root p : bytes) : Prop :=
  ftp_path_is_within_root (Some p) (Some root) = 1.

(** ** Rules for invariants *)

Ltac hoare_if :=
  match goal with
  | |- hoare _ (if ?b then _ else _) _ => destruct b eqn:?
  | |- hoare _ (match ?x with _ => _ end) _ => destruct x eqn:?
  end.

Create HintDb hoare.
#[export] Hint Resolve hoare_diverge hoare_get_errno hoare_set_errno : hoare.

(** One step of a proof that a computation keeps an invariant whose trace
    part accepts the request. *)
Ltac hoare_step :=
  match goal with
  | |- hoare _ (mret _) _ => apply hoare_ret
  | |- hoare _ (_ ≫= _) _ => eapply hoare_bind; [|intros ? ?]
  | |- hoare _ (let '(_, _) := ?x in _) _ => destruct x
  | |- hoare _ (if _ then _ else _) _ => hoare_if
  | |- hoare _ (match _ with _ => _ end) _ => hoare_if
  | |- hoare (io_inv _) (sys_call _) _ => apply hoare_sys_call
  | |- hoare (inv _ _) (io _) _ => apply hoare_io
  | |- hoare (inv _ _) (sysc _) _ => apply hoare_sysc
  | |- hoare _ _ _ => solve [eauto with hoare]
  end.

Section confined.
Context {W : Type} {os : OS W} (K : event -> Prop).

(** The trace part says nothing about requests that name no path. *)
Hypothesis K_pure : forall e, fs_paths e = [] -> K e.

Lemma hoare_pal_path_exists p : hoare (io_inv (W := W) K) (pal_path_exists p) (fun _ => True).
Proof. unfold pal_path_exists. repeat (hoare_step || done). intros r. by apply K_pure. Qed.

Lemma hoare_resolve_missing root output size :
  within root output ->
  hoare (io_inv (W := W) K) (resolve_missing root output size)
    (fun r => forall p, r = Ok p -> within root p).
Proof.
  intros Ho. unfold resolve_missing.
  repeat match goal with
  | |- hoare _ (pal_path_exists _) _ => apply hoare_pal_path_exists
  | _ => hoare_step
  end; try congruence.
  - intros r. by apply K_pure.
  - intros p [= <-]. unfold within. by zbool.
Qed.

Lemma hoare_resolve s path size :
  hoare (io_inv (W := W) K) (ftp_path_resolve s path size)
    (fun r => forall p, r = Ok p -> within (root_path s) p).
Proof.
  unfold ftp_path_resolve, resolve_real.
  repeat match goal with
  | |- hoare _ (pal_path_exists _) _ => apply hoare_pal_path_exists
  | |- hoare _ (resolve_missing _ _ _) _ => apply hoare_resolve_missing
  | _ => hoare_step
  end; try congruence; try (intros r; by apply K_pure);
    try (intros p [= <-]); unfold within; by zbool.
Qed.

End confined.

(** ** Properties *)

(** POSIX: the name [realpath] returns is absolute, without '.', '..',
    repeated or trailing separators, and shorter than PATH_MAX. *)
Class RealpathOS (W : Type) {os : OS W} : Prop :=
  realpath_canonical : forall p w q,
    (os_step (SysRealpath p) w).1.1 = Some q -> canonical q /\ strlen q < FTP_PATH_MAX.

(** Any run, with a fact about the value returned. *)
Abbreviation returns m Q := (hoare (fun _ => True) m Q).

Lemma returns_sys_call {W} {os : OS W} {A} (c : sys A) (Q : A -> Prop) :
  (forall w, Q (os_step c w).1.1) -> returns (sys_call c) Q.
Proof.
  intros HQ s _. split; [done|]. unfold sys_call. specialize (HQ (os_state s)).
  destruct (os_step c (os_state s)) as [[r e] w]. by intros a [= <-].
Qed.

Lemma returns_any {S A} (m : M S A) : returns m (fun _ => True).
Proof. by intros s. Qed.

Lemma basename_no_nul p size b :
  no_nul p -> ftp_path_basename (Some p) size = Ok b -> no_nul b.
Proof.
  unfold ftp_path_basename. intros Hp. case_if; [done|]. case_if; [done|]. intros [= <-].
  case_match; [|done]. by apply Forall_drop.
Qed.

Lemma canonical_no_nul p : canonical p -> no_nul p.
Proof. intros (cs & -> & Hg). by apply no_nul_render. Qed.

Lemma normalize_canonical path size out :
  no_nul path -> 0 < size -> ftp_path_normalize (Some path) size = Ok out ->
  canonical out /\ strlen out < size.
Proof.
  intros Hn Hs H. apply normalize_Ok_inv in H as (cs & -> & _ & [Hk _] & Hl); [|done..].
  split; [by exists cs | done].
Qed.

Section canonical.
Context {W : Type} {os : OS W} {Hrp : RealpathOS W}.

Definition good_result (size : Z) (r : res bytes) : Prop :=
  forall p, r = Ok p -> canonical p /\ strlen p < size.

Lemma returns_realpath p :
  returns (sys_call (W := W) (SysRealpath p))
    (fun r => forall q, r = Some q -> canonical q /\ strlen q < FTP_PATH_MAX).
Proof. apply returns_sys_call. intros w q. apply realpath_canonical. Qed.

Lemma returns_resolve_missing root output size :
  0 < size -> good_result size (Ok output) ->
  returns (resolve_missing (W := W) root output size) (good_result size).
Proof.
  intros Hsz Ho. unfold resolve_missing.
  destruct (ftp_path_dirname _ _); [|by apply hoare_ret].
  destruct (ftp_path_basename _ _) as [base|] eqn:Eb; [|by apply hoare_ret].
  eapply hoare_bind; [apply returns_any|]. intros ex _. hoare_if; [by apply hoare_ret|].
  eapply hoare_bind; [apply returns_realpath|]. intros [dir|] Hdir; [|by apply hoare_ret].
  hoare_if; [by apply hoare_ret|].
  destruct (ftp_path_normalize _ size) as [out|] eqn:En; [|by apply hoare_ret].
  hoare_if; apply hoare_ret; [done|]. intros p [= <-].
  destruct (Hdir dir eq_refl) as [Hd _]. apply (normalize_canonical _ _ _) in En; [done| |done].
  apply no_nul_app. split; [by apply canonical_no_nul|]. constructor; [done|].
  eapply basename_no_nul; [|exact Eb]. by apply canonical_no_nul, Ho.
Qed.

Lemma returns_resolve s path size :
  no_nul (cwd s) -> no_nul path ->
  returns (ftp_path_resolve (W := W) s (Some path) size) (good_result size).
Proof.
  intros Hc Hp. unfold ftp_path_resolve. hoare_if; [by apply hoare_ret|]. zbool.
  assert (0 < size) as Hsz by (unfold FTP_PATH_MAX in *; lia).
  hoare_if; [by apply hoare_ret|].
  match goal with |- hoare _ (match ?t with _ => _ end) _ => set (temp := t) end.
  assert (Ht : forall t, temp = Ok t -> no_nul t).
  { intros t. subst temp. repeat case_if; intros [= <-]; [done|].
    apply no_nul_app. split; [done|]. by constructor. }
  destruct temp as [t|]; [|by apply hoare_ret]. specialize (Ht t eq_refl).
  destruct (ftp_path_normalize (Some t) size) as [out|] eqn:En; [|by apply hoare_ret].
  apply normalize_canonical in En; [|done..].
  hoare_if; [by apply hoare_ret|]. unfold resolve_real.
  assert (good_result size (Ok out)) as Ho by (intros p [= <-]; done).
  eapply hoare_bind; [apply returns_any|]. intros ex _.
  hoare_if; [|by apply returns_resolve_missing].
  eapply hoare_bind; [apply returns_realpath|]. intros [real|] Hr; [|by apply hoare_ret].
  hoare_if; [|by apply hoare_ret]. zbool.
  hoare_if; apply hoare_ret; [done|]. intros p [= <-]. split; [by apply Hr | lia].
Qed.

(** C7: [ftp_path_resolve] confines clients to the root.  For every state of
    the file system, symbolic links included, a path it accepts is canonical,
    fits the buffer and lies at or below the session's root, provided the
    root itself is canonical and [realpath] returns canonical names. *)
Theorem resolve_confined s path size w p :
  canonical (root_path s) -> no_nul (cwd s) -> no_nul path ->
  (ftp_path_resolve (W := W) s (Some path) size w).1 = Some (Ok p) ->
  canonical p /\ strlen p < size /\ below (root_path s) p.
Proof.
  intros Hroot Hc Hp Hr.
  destruct (returns_resolve s path size Hc Hp w I) as [_ Hg].
  destruct (Hg _ Hr p eq_refl) as [Hcan Hl]. split; [done|]. split; [done|].
  destruct (hoare_resolve (W := W) (fun _ => True) ltac:(done) s (Some path) size w) as [_ Hw].
  { by apply Forall_true. }
  specialize (Hw _ Hr p eq_refl). destruct Hroot as (rs & Er & Hrs), Hcan as (ps & -> & Hps).
  rewrite Er in *. by apply within_root_below.
Qed.

End canonical.

(** A system without symbolic links: [realpath] normalises. *)
#[local] Instance nolinks_os : OS toy := fun A c w =>
  match c in sys A return A * Z * toy with
  | SysRealpath p =>
      (if decide (no_nul p) then
         match ftp_path_normalize (Some p) FTP_PATH_MAX with Ok q => Some q | Err _ => None end
       else None, ENOENT, w)
  | c => toy_step c w
  end.

#[export] Instance nolinks_realpath : RealpathOS (os := nolinks_os) toy.
Proof.
  intros p w q. unfold os_step, nolinks_os. cbn [fst].
  destruct (decide (no_nul p)) as [Hp|]; [|done].
  destruct (ftp_path_normalize _ _) as [r|] eqn:E; [|done]. intros [= <-].
  by apply (normalize_canonical p FTP_PATH_MAX).
Qed.

Lemma resolve_confined_witness :
  canonical (str "/srv/pub/x") /\ strlen (str "/srv/pub/x") < 4096
  /\ below (str "/srv") (str "/srv/pub/x").
Proof.
  apply (resolve_confined (W := toy) (set_cwd (str "/srv/pub") (set_root_path (str "/srv") session_slot))
           (str "a/../x") 4096
           (SysSt (Toy [] [] [(str "/srv/pub/x", Stat 33188 4 0 0 0)] [] []) 0 [])
           (str "/srv/pub/x")).
  - exists [str "srv"]. split; [reflexivity | by_compute].
  - by_compute.
  - by_compute.
  - vm_compute. reflexivity.
Defined.
