(* ===== verification/FtpSession.v ===== *)
(** * Sessions: [src/ftp_session.c]

    The session thread: initialisation, replies, the data connection, the
    buffered command reader, command dispatch and the main loop.  The command
    handlers are an interface here ([Handlers]); [FtpCommands] implements
    it. *)

From S2P Require Import Prelude CLib FtpTypes FtpPath FtpProtocol FtpCrypto.
From S2P Require Import Os PalNetwork PalFileio FtpState FtpResolve.

Definition FTP_TRANSFER_RATE_LIMIT_BPS : Z := 0.
Definition FTP_TRANSFER_RATE_BURST_BYTES : Z := 0.

(** The command table's function pointers. *)
Class Handlers (W : Type) := run_handler : handler -> option bytes -> M (st ftp_session_t W) ftp_error_t.

Section session.
Context {W : Type} `{OS W}.
Context (fuel : nat).
Abbreviation sm := (M (st ftp_session_t W)).

(** ** Replies *)

Definition ftp_session_send_reply (code : ftp_reply_code_t) (message : option bytes)
    : sm ftp_error_t :=
  fd ← ask ctrl_fd;
  if fd <? 0 then mret FTP_ERR_SOCKET_SEND
  else
    match ftp_format_reply code message FTP_REPLY_BUFFER_SIZE with
    | Err e => mret e
    | Ok buffer =>
        sent ← io (pal_send_all fuel fd buffer);
        if negb (sent =? strlen buffer) then mret FTP_ERR_SOCKET_SEND else mret FTP_OK
    end.

(** The lines but the last one go out as 'CODE-text'. *)
Fixpoint multiline_loop (fd : Z) (code : ftp_reply_code_t) (lines : list bytes) : sm ftp_error_t :=
  match lines with
  | [] => mret FTP_OK
  | l :: rest =>
      let sep := match rest with [] => SPACE | _ => 45 end in
      let text := fmt_d (reply_code code) ++ sep :: l ++ [CR; LF] in
      if FTP_REPLY_BUFFER_SIZE <=? strlen text then mret FTP_ERR_INVALID_PARAM
      else
        sent ← io (pal_send_all fuel fd text);
        if negb (sent =? strlen text) then mret FTP_ERR_SOCKET_SEND
        else multiline_loop fd code rest
  end.

Definition ftp_session_send_multiline_reply (code : ftp_reply_code_t) (lines : list bytes)
    : sm ftp_error_t :=
  match lines with
  | [] => mret FTP_ERR_INVALID_PARAM
  | _ =>
      fd ← ask ctrl_fd;
      if fd <? 0 then mret FTP_ERR_SOCKET_SEND else multiline_loop fd code lines
  end.

(** ** Data connection *)

Fixpoint wait_fd_loop (n : nat) (fd : Z) (for_write : bool) (timeout_ms : Z) : M (sysst W) Z :=
  match n with
  | O => diverge
  | S n' =>
      rc ← sys_call (SysSelect fd for_write timeout_ms);
      if rc =? 0 then _ ← set_errno ETIMEDOUT; mret 0
      else if rc <? 0 then
        e ← get_errno;
        if e =? EINTR then wait_fd_loop n' fd for_write timeout_ms else mret rc
      else mret rc
  end.

Definition wait_fd_ready (fd : Z) (for_write : bool) (timeout_ms : Z) : M (sysst W) Z :=
  if fd <? 0 then _ ← set_errno EBADF; mret (-1)
  else wait_fd_loop fuel fd for_write timeout_ms.

(** Nanoseconds of [clock_gettime(CLOCK_MONOTONIC)], else of [gettimeofday],
    else 0. *)
Definition monotonic_ns : M (sysst W) Z :=
  ts ← sys_call SysClock;
  match ts with
  | Some (sec, nsec) => mret (u64 (u64 (sec * 1000000000) + nsec))
  | None =>
      tv ← sys_call SysGettimeofday;
      match tv with
      | Some (sec, usec) => mret (u64 (u64 (sec * 1000000000) + u64 (usec * 1000)))
      | None => mret 0
      end
  end.

(** Refill of the token bucket at time [now]. *)
Definition rl_refill (rate cap now : Z) (s : ftp_session_t) : ftp_session_t :=
  let elapsed := now -u64 rl_last_ns s in
  let add := u64 (elapsed * rate) / 1000000000 in
  let s := set_rl_last_ns now s in
  if 0 <? add then
    let t := rl_tokens s +u64 add in
    set_rl_tokens (if cap <? t then cap else t) s
  else s.

(** [while (session->rl_tokens < need)] *)
Fixpoint rl_wait (n : nat) (rate cap need : Z) : sm unit :=
  match n with
  | O => diverge
  | S n' =>
      s ← ask id;
      if rl_tokens s <? need then
        let missing := need -u64 rl_tokens s in
        let wait_ns := u64 (u64 (missing * 1000000000) + rate - 1) / rate in
        let wait_us := (wait_ns +u64 999) / 1000 in
        let wait_us := if 500000 <? wait_us then 500000 else wait_us in
        _ ← sysc (SysUsleep wait_us);
        now ← io monotonic_ns;
        if negb (now =? 0) && (rl_last_ns s <? now) then
          _ ← upd (rl_refill rate cap now);
          rl_wait n' rate cap need
        else mret tt
      else mret tt
  end.

Definition rate_limit_with (rate burst nbytes : Z) : sm unit :=
  if nbytes =? 0 then mret tt
  else if rate =? 0 then mret tt
  else
    let cap := if negb (burst =? 0) then burst else rate in
    now ← io monotonic_ns;
    if now =? 0 then mret tt
    else
      s ← ask id;
      _ ← (if rl_last_ns s =? 0 then upd (fun s => set_rl_tokens cap (set_rl_last_ns now s))
           else if rl_last_ns s <? now then upd (rl_refill rate cap now)
           else mret tt);
      _ ← rl_wait fuel rate cap nbytes;
      upd (fun s => set_rl_tokens (if nbytes <=? rl_tokens s then rl_tokens s - nbytes else 0) s).

Definition rate_limit (nbytes : Z) : sm unit :=
  rate_limit_with FTP_TRANSFER_RATE_LIMIT_BPS FTP_TRANSFER_RATE_BURST_BYTES nbytes.

(** Both branches end here: configure the socket and note the transfer. *)
Definition open_data_finish : sm ftp_error_t :=
  fd ← ask data_fd;
  _ ← io (pal_socket_configure_data fd);
  _ ← upd (fun s => if decide (state s = FTP_STATE_TERMINATING) then s
                    else set_state FTP_STATE_TRANSFERRING s);
  mret FTP_OK.

Definition open_data_active : sm ftp_error_t :=
  fd ← sysc (SysSocket 1);
  if fd <? 0 then mret FTP_ERR_SOCKET_CREATE
  else
    _ ← sysc (SysSetsockopt fd SO_SNDTIMEO 3000000);
    _ ← sysc (SysSetsockopt fd SO_RCVBUF FTP_TCP_RCVBUF);
    addr ← ask data_addr;
    _ ← log_line (str "[DBG] ACTIVE connect to " ++ inet_ntop (sin_addr addr) ++ COLON
                  :: fmt_u (sin_port addr) ++ str " ...");
    r ← sysc (SysConnect fd addr);
    if r <? 0 then
      e ← io get_errno;
      _ ← log_line (str "[DBG] ACTIVE connect FAILED errno=" ++ fmt_d e);
      _ ← sysc (SysClose fd);
      mret FTP_ERR_SOCKET_SEND
    else
      _ ← log_line (str "[DBG] ACTIVE connect OK");
      _ ← upd (set_data_fd fd);
      open_data_finish.

Definition open_data_passive : sm ftp_error_t :=
  pfd ← ask pasv_fd;
  if pfd <? 0 then mret FTP_ERR_INVALID_PARAM
  else
    ready ← io (wait_fd_ready pfd false FTP_DATA_CONNECT_TIMEOUT_MS);
    if ready <=? 0 then
      _ ← sysc (SysClose pfd);
      _ ← upd (set_pasv_fd (-1));
      mret FTP_ERR_TIMEOUT
    else
      '(fd, _) ← sysc (SysAccept pfd);
      if fd <? 0 then mret FTP_ERR_SOCKET_ACCEPT
      else
        _ ← upd (set_data_fd fd);
        _ ← sysc (SysClose pfd);
        _ ← upd (set_pasv_fd (-1));
        '(r, current) ← sysc (SysGetsockopt fd SO_RCVBUF);
        let current_rcvbuf := if negb (r =? 0) then 0 else current in
        _ ← (if current_rcvbuf <? FTP_TCP_RCVBUF
             then sysc (SysSetsockopt fd SO_RCVBUF (FTP_TCP_RCVBUF * 2)) else mret 0);
        open_data_finish.

Definition ftp_session_open_data_connection : sm ftp_error_t :=
  mode ← ask data_mode;
  match mode with
  | FTP_DATA_MODE_NONE => mret FTP_ERR_INVALID_PARAM
  | FTP_DATA_MODE_ACTIVE => open_data_active
  | FTP_DATA_MODE_PASSIVE => open_data_passive
  end.

Definition ftp_session_close_data_connection : sm unit :=
  dfd ← ask data_fd;
  _ ← (if 0 <=? dfd then _ ← sysc (SysClose dfd); upd (set_data_fd (-1)) else mret tt);
  pfd ← ask pasv_fd;
  _ ← (if 0 <=? pfd then _ ← sysc (SysClose pfd); upd (set_pasv_fd (-1)) else mret tt);
  _ ← upd (fun s => set_restart_offset 0 (set_data_mode FTP_DATA_MODE_NONE s));
  upd (fun s => if decide (state s = FTP_STATE_TERMINATING) then s
                else set_state (if negb (authenticated s =? 0) then FTP_STATE_AUTHENTICATED
                                else FTP_STATE_CONNECTED) s).

(** Activity time and byte counter after a successful send. *)
Definition note_sent (n : Z) : sm unit :=
  t ← sysc SysTime;
  upd (fun s => set_stats (set_bytes_sent (bytes_sent (stats s) +u64 n) (stats s))
                  (set_last_activity t s)).

(** The encrypting send loop, in scratch pieces of 4096 bytes. *)
Fixpoint send_crypto_loop (n : nat) (fd : Z) (src : bytes) (total : Z) : sm (Z * bool) :=
  match n with
  | O => diverge
  | S n' =>
      match src with
      | [] => mret (total, true)
      | _ =>
          let chunk := if strlen src <? 4096 then strlen src else 4096 in
          ctx ← ask crypto;
          let '(scratch, ctx) := ftp_crypto_xor ctx (take (Z.to_nat chunk) src) in
          _ ← upd (set_crypto ctx);
          sent ← io (pal_send_all fuel fd scratch);
          if sent <=? 0 then mret (if 0 <? total then total else sent, false)
          else send_crypto_loop n' fd (drop (Z.to_nat chunk) src) (total + sent)
      end
  end.

Definition ftp_session_send_data (buffer : bytes) : sm Z :=
  if strlen buffer =? 0 then mret (err_code FTP_ERR_INVALID_PARAM)
  else
    fd ← ask data_fd;
    if fd <? 0 then mret (err_code FTP_ERR_SOCKET_SEND)
    else
      _ ← rate_limit (strlen buffer);
      ctx ← ask crypto;
      if negb (cc_active ctx =? 0) then
        '(total, done) ← send_crypto_loop (S (length buffer)) fd buffer 0;
        if (done : bool) then _ ← note_sent total; mret total else mret total
      else
        sent ← io (pal_send_all fuel fd buffer);
        if 0 <? sent then _ ← note_sent sent; mret sent else mret sent.

(** [recv] on the data connection: [inl] is the error code or -1, [inr] the
    decrypted bytes (none at end of stream). *)
Definition ftp_session_recv_data (length : Z) : sm (Z + bytes) :=
  if length =? 0 then mret (inl (err_code FTP_ERR_INVALID_PARAM))
  else
    fd ← ask data_fd;
    if fd <? 0 then mret (inl (err_code FTP_ERR_SOCKET_RECV))
    else
      received ← sysc (SysRecv fd length);
      match received with
      | None => mret (inl (-1))
      | Some [] => mret (inr [])
      | Some b =>
          ctx ← ask crypto;
          let '(b, ctx) := if negb (cc_active ctx =? 0) then ftp_crypto_xor ctx b else (b, ctx) in
          _ ← upd (set_crypto ctx);
          t ← sysc SysTime;
          _ ← upd (set_last_activity t);
          _ ← rate_limit (strlen b);
          _ ← upd (fun s => set_stats
                 (set_bytes_received (bytes_received (stats s) +u64 strlen b) (stats s)) s);
          mret (inr b)
      end.
(** ** Command reader *)

(** Outcome of the [for] loop over the buffered input. *)
Inductive scan_result :=
| ScanLine (rx_off rx_len : Z) (line : bytes)      (* a complete line, terminator removed *)
| ScanTooLong (rx_off rx_len : Z)                  (* end of an over-long line *)
| ScanMore (rx_off rx_len : Z) (out : bytes) (too_long : bool).

(** [chars] are [ctrl_rxbuf[i .. ctrl_rx_len)]; [out] is [buffer[0 .. out_len)]. *)
Fixpoint scan_chars (chars : bytes) (i rx_off rx_len : Z) (out : bytes) (too_long : bool) (size : Z)
    : scan_result :=
  match chars with
  | [] => ScanMore rx_off rx_len out too_long
  | c :: chars' =>
      let '(out, too_long) :=
        if too_long then (out, true)
        else if strlen out <? size - 1 then (out ++ [c], false) else (out, true) in
      if c =? LF then
        let consume := i + 1 in
        let '(rx_off, rx_len) := if rx_len <=? consume then (0, 0) else (consume, rx_len) in
        let out_len := length out in
        if too_long then ScanTooLong rx_off rx_len
        else if (2 <=? strlen out) && (out !!! (out_len - 2)%nat =? CR)
                && (out !!! (out_len - 1)%nat =? LF)
        then ScanLine rx_off rx_len (take (out_len - 2) out)
        else if (1 <=? strlen out) && (out !!! (out_len - 1)%nat =? LF)
        then ScanLine rx_off rx_len (take (out_len - 1) out)
        else if rx_len =? 0 then ScanMore rx_off rx_len [] too_long
        else scan_chars chars' (i + 1) rx_off rx_len [] too_long size
      else scan_chars chars' (i + 1) rx_off rx_len out too_long size
  end.

(** The [while (1)] loop; the result is the return value and the buffer. *)
Fixpoint read_command_loop (n : nat) (out : bytes) (too_long : bool) (size : Z) : sm (Z * bytes) :=
  match n with
  | O => diverge
  | S n' =>
      s ← ask id;
      let off := ctrl_rx_off s in
      let len := ctrl_rx_len s in
      let chars := take (Z.to_nat (len - off)) (drop (Z.to_nat off) (ctrl_rxbuf s)) in
      match scan_chars chars off off len out too_long size with
      | ScanLine off len line =>
          _ ← upd (fun s => set_ctrl_rx_len len (set_ctrl_rx_off off s));
          mret (strlen line, line)
      | ScanTooLong off len =>
          _ ← upd (fun s => set_ctrl_rx_len len (set_ctrl_rx_off off s));
          _ ← ftp_session_send_reply FTP_REPLY_500_SYNTAX_ERROR (Some (str "Command too long."));
          mret (err_code FTP_ERR_PROTOCOL, [])
      | ScanMore off len out too_long =>
          let out := if too_long then [] else out in
          let '(off, len) := if len <=? off then (0, 0) else (off, len) in
          _ ← upd (fun s => set_ctrl_rx_len len (set_ctrl_rx_off off s));
          r ← sysc (SysRecv (ctrl_fd s) FTP_CMD_BUFFER_SIZE);
          match r with
          | Some [] => mret (0, [])
          | None =>
              e ← io get_errno;
              if e =? EINTR then read_command_loop n' out too_long size
              else if (e =? EAGAIN) || (e =? EWOULDBLOCK)
              then mret (err_code FTP_ERR_TIMEOUT, [])
              else mret (err_code FTP_ERR_SOCKET_RECV, [])
          | Some b =>
              _ ← upd (fun s => set_ctrl_rx_len (u16 (strlen b)) (set_ctrl_rx_off 0
                     (set_ctrl_rxbuf (b ++ drop (length b) (ctrl_rxbuf s)) s)));
              read_command_loop n' out too_long size
          end
      end
  end.

Definition ftp_session_read_command (size : Z) : sm (Z * bytes) :=
  fd ← ask ctrl_fd;
  if fd <? 0 then mret (err_code FTP_ERR_SOCKET_RECV, [])
  else if size <? FTP_CMD_BUFFER_SIZE then mret (err_code FTP_ERR_INVALID_PARAM, [])
  else read_command_loop fuel [] false size.

(** ** Command dispatch *)

(** The commands accepted before login. *)
Definition pre_auth_commands : list bytes :=
  [str "USER"; str "PASS"; str "QUIT"; str "NOOP"; str "FEAT"; str "SYST"; str "AUTH";
   str "OPTS"; str "CLNT"].

Context `{Handlers W}.

Definition ftp_session_process_command (line : option bytes) : sm Z :=
  match line with
  | None => mret (err_code FTP_ERR_INVALID_PARAM)
  | Some line =>
      match ftp_parse_command_line (Some line) 64 (Some FTP_CMD_BUFFER_SIZE) with
      | Err _ => _ ← ftp_session_send_reply FTP_REPLY_500_SYNTAX_ERROR None; mret 0
      | Ok (command, args) =>
          match ftp_find_command (Some command) with
          | None =>
              _ ← ftp_session_send_reply FTP_REPLY_500_SYNTAX_ERROR (Some (str "Unknown command."));
              mret 0
          | Some cmd =>
              auth ← ask authenticated;
              if (auth =? 0) && forallb (fun c => negb (streq command c)) pre_auth_commands then
                _ ← ftp_session_send_reply FTP_REPLY_530_NOT_LOGGED_IN
                      (Some (str "Please login with USER and PASS."));
                mret 0
              else
                let cmd_args := match args with Some (c :: t) => Some (c :: t) | _ => None end in
                if negb (bool_decide (ftp_validate_command_args (Some cmd) cmd_args = FTP_OK)) then
                  _ ← ftp_session_send_reply FTP_REPLY_501_SYNTAX_ARGS None; mret 0
                else
                  err ← run_handler (cmd_handler cmd) cmd_args;
                  _ ← log_line (command ++ SPACE :: fmt_d (err_code err));
                  _ ← (if decide (err = FTP_OK) then mret FTP_OK
                       else
                         _ ← upd (fun s => set_stats (set_errors (errors (stats s) +u64 1) (stats s)) s);
                         if decide (err = FTP_ERR_NOT_FOUND)
                         then ftp_session_send_reply FTP_REPLY_550_FILE_ERROR None
                         else if decide (err = FTP_ERR_PERMISSION)
                         then ftp_session_send_reply FTP_REPLY_550_FILE_ERROR
                                (Some (str "Permission denied."))
                         else mret FTP_OK);
                  if streq command (str "QUIT") then mret 1 else mret 0
          end
      end
  end.

(** ** Lifecycle *)

(** The session's storage is the state's [ses]; the mutex is not modelled. *)
Definition ftp_session_init (fd : Z) (client_addr : option sockaddr_in) (id : Z)
    (root : option bytes) : sm ftp_error_t :=
  match client_addr, root with
  | Some client_addr, Some root =>
      if fd <? 0 then mret FTP_ERR_INVALID_PARAM
      else
        _ ← upd (fun _ => set_ctrl_addr client_addr (set_ctrl_fd fd session_memset));
        _ ← io (pal_socket_set_timeouts fd FTP_CTRL_IO_TIMEOUT_MS FTP_CTRL_IO_TIMEOUT_MS);
        _ ← sysc (SysSetsockopt fd TCP_NODELAY 1);
        _ ← upd (fun s => set_data_mode FTP_DATA_MODE_NONE (set_pasv_fd (-1) (set_data_fd (-1) s)));
        _ ← upd (set_state FTP_STATE_CONNECTED);
        _ ← upd (fun s => set_restart_offset 0 (set_file_structure FTP_STRU_FILE
                   (set_transfer_mode FTP_MODE_STREAM (set_transfer_type FTP_TYPE_BINARY s))));
        if FTP_PATH_MAX <=? strlen root then mret FTP_ERR_PATH_TOO_LONG
        else
          _ ← upd (fun s => set_cwd root (set_root_path root s));
          ex ← io (pal_path_exists (Some root));
          _ ← (if ex =? 1 then
                 rp ← sysc (SysRealpath root);
                 match rp with
                 | Some real_buf =>
                     if strlen real_buf <? FTP_PATH_MAX
                     then upd (fun s => set_cwd real_buf (set_root_path real_buf s)) else mret tt
                 | None => mret tt
                 end
               else mret tt);
          _ ← upd (fun s => set_copy_thread_valid 0 (set_copy_in_progress 0
                     (set_copy_from [] (set_rename_from [] s))));
          _ ← upd (fun s => set_user_ok 0 (set_authenticated 0 (set_auth_attempts 0 s)));
          _ ← upd (fun s => set_ctrl_rx_off 0 (set_ctrl_rx_len 0 s));
          now ← sysc SysTime;
          _ ← upd (fun s => set_last_activity now (set_connect_time now (set_session_id id s)));
          _ ← upd (fun s => set_rl_last_ns 0 (set_rl_tokens 0 s));
          _ ← upd (fun s => set_crypto (ftp_crypto_reset (crypto s)) s);
          let ip := match pal_sockaddr_to_ip (Some client_addr) INET_ADDRSTRLEN with
                    | Ok ip => ip
                    | Err _ => str "unknown"
                    end in
          _ ← upd (fun s => set_client_port (pal_sockaddr_get_port (Some client_addr))
                     (set_client_ip ip s));
          _ ← upd (set_stats (Stats 0 0 0 0 0 0));
          mret FTP_OK
  | _, _ => mret FTP_ERR_INVALID_PARAM
  end.

Definition ftp_session_cleanup : sm unit :=
  _ ← upd (set_state FTP_STATE_TERMINATING);
  valid ← ask copy_thread_valid;
  _ ← (if negb (valid =? 0) then sysc SysThreadJoin else mret tt);
  _ ← ftp_session_close_data_connection;
  fd ← ask ctrl_fd;
  _ ← (if 0 <=? fd then _ ← sysc (SysClose fd); upd (set_ctrl_fd (-1)) else mret tt);
  upd (fun s => set_crypto (ftp_crypto_reset (crypto s)) s).

(** The command loop of the thread; the idle test is at its head. *)
Fixpoint session_loop (n : nat) : sm unit :=
  match n with
  | O => diverge
  | S n' =>
      now ← sysc SysTime;
      last ← ask last_activity;
      if negb (now =? -1) && (last <? now) && (FTP_SESSION_TIMEOUT <? now - last) then
        _ ← ftp_session_send_reply FTP_REPLY_421_SERVICE_UNAVAIL (Some (str "Idle timeout."));
        log_line (str "IDLE_TIMEOUT")
      else
        '(r, buffer) ← ftp_session_read_command FTP_CMD_BUFFER_SIZE;
        if r =? 0 then mret tt
        else if r <? 0 then
          if r =? err_code FTP_ERR_TIMEOUT then session_loop n'
          else if r =? err_code FTP_ERR_PROTOCOL then session_loop n'
          else mret tt
        else
          t ← sysc SysTime;
          _ ← upd (set_last_activity t);
          result ← ftp_session_process_command (Some (cstr_of buffer));
          if result <? 0 then mret tt
          else
            _ ← upd (fun s => set_stats
                   (set_commands_processed (commands_processed (stats s) +u64 1) (stats s)) s);
            if result =? 1 then mret tt else session_loop n'
  end.

Definition ftp_session_thread : sm unit :=
  _ ← ftp_session_send_reply FTP_REPLY_220_SERVICE_READY None;
  _ ← log_line (str "CONNECT");
  _ ← session_loop fuel;
  _ ← ftp_session_cleanup;
  log_line (str "DISCONNECT").

End session.
