(* ===== verification/FtpCommands.v ===== *)
(** * Control, navigation, file-management and information commands of
    [src/ftp_commands.c]

    One definition per handler; the arguments are what
    [ftp_session_process_command] passes ([None] for NULL).  Listings,
    transfers and data-connection commands are in [FtpListing],
    [FtpTransfer] and [FtpDataCmds]. *)

From S2P Require Import Prelude CLib FtpTypes FtpPath FtpProtocol FtpCrypto.
From S2P Require Import Os PalNetwork PalFileio FtpState FtpResolve.
From S2P Require Import FtpSession.

Definition DQUOTE : Z := 34.

(** ** Formatting helpers *)

(** [mode & S_IFMT == S_IFDIR] *)
Definition mlsx_type_from_mode (mode : Z) : bytes :=
  if S_ISDIR mode then str "dir" else str "file".

(** [strftime("%Y%m%d%H%M%S")] of the broken-down time. *)
Definition fmt_tm (tm : tm_t) : bytes :=
  fmt_d (1900 + tm_year tm) ++ fmt_0d 2 (1 + tm_mon tm) ++ fmt_0d 2 (tm_mday tm)
  ++ fmt_0d 2 (tm_hour tm) ++ fmt_0d 2 (tm_min tm) ++ fmt_0d 2 (tm_sec tm).

(** The client's view of a server path: the part below the root. *)
Definition ftp_path_to_client_path (s : ftp_session_t) (resolved : option bytes) (size : Z)
    : res bytes :=
  match resolved with
  | None => Err FTP_ERR_INVALID_PARAM
  | Some resolved =>
      if size <? 2 then Err FTP_ERR_PATH_TOO_LONG
      else if streq (root_path s) (str "/") then
        if size <? strlen resolved + 1 then Err FTP_ERR_PATH_TOO_LONG else Ok resolved
      else
        let root_len := length (root_path s) in
        if negb (strneq resolved (root_path s) root_len) then Err FTP_ERR_PATH_INVALID
        else
          let suffix := drop root_len resolved in
          match suffix with
          | [] => Ok (str "/")
          | c :: _ =>
              if c =? SLASH then
                if size <? strlen suffix + 1 then Err FTP_ERR_PATH_TOO_LONG else Ok suffix
              else
                let out := SLASH :: suffix in
                if size <=? strlen out then Err FTP_ERR_PATH_TOO_LONG else Ok out
          end
  end.

Definition DIR_PERM : Z := 511.

Definition FTP_CRYPTO_PSK : bytes :=
  [0x7A; 0x46; 0x54; 0x50; 0x44; 0x2D; 0x43; 0x68; 0x61; 0x43; 0x68;
   0x61; 0x32; 0x30; 0x2D; 0x4B; 0x65; 0x79; 0x2D; 0x44; 0x65; 0x66;
   0x61; 0x75; 0x6C; 0x74; 0x21; 0x40; 0x23; 0x24; 0x25; 0x5E].

Definition nibble_to_hex (n : Z) : Z := if n <? 10 then 48 + n else 97 + (n - 10).

(** The hexadecimal text of a nonce. *)
Definition hex_of (nonce : bytes) : bytes :=
  concat (map (fun b => [nibble_to_hex (Z.land (Z.shiftr b 4) 15); nibble_to_hex (Z.land b 15)]) nonce).

(** The fallback generator: [len] bytes from a 64-bit seed. *)
Fixpoint lcg_bytes (len : nat) (seed : Z) : bytes :=
  match len with
  | O => []
  | S n =>
      let seed := u64 (seed * 6364136223846793005 + 1442695040888963407) in
      u8 (Z.shiftr seed 33) :: lcg_bytes n seed
  end.

(** The detail text of a failed rename. *)
Definition rename_detail (err : ftp_error_t) : bytes :=
  match err with
  | FTP_ERR_NOT_FOUND => str "Source not found."
  | FTP_ERR_PERMISSION => str "Permission denied."
  | FTP_ERR_PATH_TOO_LONG => str "Path too long."
  | FTP_ERR_OUT_OF_MEMORY => str "Out of memory."
  | FTP_ERR_DIR_OPEN => str "Cannot open directory."
  | FTP_ERR_FILE_OPEN => str "Cannot open file."
  | FTP_ERR_FILE_READ => str "Read error during copy."
  | _ => snprintf_buf 64 (str "Rename failed (err=" ++ fmt_d (err_code err) ++ str ").")
  end.

Definition feature_lines : list bytes :=
  [str "Extensions supported:"; str " SIZE"; str " MDTM"; str " REST STREAM"; str " APPE";
   str " EPSV"; str " UTF8"; str " MLSD"; str " MLST type*;size*;modify*;unix.mode*;";
   str " XCRYPT"; str " CPFR"; str " CPTO"; str " COPY"; str "End"].

Definition help_lines : list bytes :=
  [str "Supported commands:"; str " USER PASS QUIT NOOP CWD CDUP PWD"; str " LIST NLST MLSD MLST";
   str " RETR STOR APPE REST"; str " DELE RMD MKD RNFR RNTO"; str " PORT PASV SIZE MDTM STAT";
   str " SYST FEAT HELP TYPE MODE STRU"; str "End"].

Section commands.
Context {W : Type} `{OS W}.
Context (fuel : nat).
Abbreviation sm := (M (st ftp_session_t W)).
Abbreviation reply code msg := (ftp_session_send_reply fuel code (Some msg)).
Abbreviation reply_default code := (ftp_session_send_reply fuel code None).

(** [ftp_path_resolve(session, args, resolved, sizeof(resolved))] *)
Definition resolve (path : option bytes) : sm (res bytes) :=
  s ← ask id; io (ftp_path_resolve s path FTP_PATH_MAX).

Definition send_control_raw (payload : option bytes) : sm ftp_error_t :=
  match payload with
  | None => mret FTP_ERR_INVALID_PARAM
  | Some payload =>
      fd ← ask ctrl_fd;
      if fd <? 0 then mret FTP_ERR_SOCKET_SEND
      else if strlen payload =? 0 then mret FTP_OK
      else
        sent ← io (pal_send_all fuel fd payload);
        if negb (sent =? strlen payload) then mret FTP_ERR_SOCKET_SEND
        else
          t ← sysc SysTime;
          _ ← upd (set_last_activity t);
          mret FTP_OK
  end.

Definition mlsx_format_modify_time (mtime : Z) : sm bytes :=
  tm ← sysc (SysGmtime mtime); mret (fmt_tm tm).

Definition mlsx_format_line (st : vfs_stat_t) (display_name : bytes) (leading_space : bool)
    (size : Z) : sm (res bytes) :=
  timebuf ← mlsx_format_modify_time (vs_mtime st);
  let size_value := if S_ISDIR (vs_mode st) then 0 else vs_size st in
  let mode_value := Z.land (vs_mode st) 4095 in
  let line := (if leading_space then str " " else []) ++ str "type="
    ++ mlsx_type_from_mode (vs_mode st) ++ str ";size=" ++ fmt_u size_value
    ++ str ";modify=" ++ timebuf ++ str ";unix.mode=" ++ fmt_04o mode_value
    ++ str "; " ++ display_name ++ [CR; LF] in
  mret (if size <=? strlen line then Err FTP_ERR_PATH_TOO_LONG else Ok line).

(** ** Authentication and control *)

Definition cmd_USER (args : option bytes) : sm ftp_error_t :=
  match args with
  | None => mret FTP_ERR_INVALID_PARAM
  | Some _ =>
      _ ← upd (fun s => set_state FTP_STATE_AUTHENTICATED (set_auth_attempts 0
             (set_authenticated 1 (set_user_ok 1 s))));
      reply_default FTP_REPLY_230_LOGGED_IN
  end.

Definition cmd_PASS (args : option bytes) : sm ftp_error_t :=
  _ ← upd (fun s => set_state FTP_STATE_AUTHENTICATED (set_auth_attempts 0 (set_authenticated 1 s)));
  reply_default FTP_REPLY_230_LOGGED_IN.

Definition cmd_QUIT (args : option bytes) : sm ftp_error_t := reply_default FTP_REPLY_221_GOODBYE.

Definition cmd_NOOP (args : option bytes) : sm ftp_error_t := reply_default FTP_REPLY_200_OK.

(** ** Navigation *)

Definition cmd_CWD (args : option bytes) : sm ftp_error_t :=
  match args with
  | None => mret FTP_ERR_INVALID_PARAM
  | Some args =>
      r ← resolve (Some args);
      match r with
      | Err _ => reply FTP_REPLY_550_FILE_ERROR (str "Invalid path.")
      | Ok resolved =>
          is_dir ← io (pal_path_is_directory (Some resolved));
          if negb (is_dir =? 1) then reply FTP_REPLY_550_FILE_ERROR (str "Not a directory.")
          else if FTP_PATH_MAX <=? strlen resolved
          then reply FTP_REPLY_550_FILE_ERROR (str "Path too long.")
          else
            _ ← upd (set_cwd resolved);
            reply FTP_REPLY_250_FILE_ACTION_OK (str "Directory changed.")
      end
  end.

Definition cmd_CDUP (args : option bytes) : sm ftp_error_t := cmd_CWD (Some (str "..")).

Definition cmd_PWD (args : option bytes) : sm ftp_error_t :=
  d ← ask cwd;
  let text := DQUOTE :: d ++ DQUOTE :: str " is current directory." in
  if FTP_REPLY_BUFFER_SIZE <=? strlen text then mret FTP_ERR_INVALID_PARAM
  else reply FTP_REPLY_257_PATH_CREATED text.

(** ** File management *)

Definition cmd_REST (args : option bytes) : sm ftp_error_t :=
  match args with
  | None => mret FTP_ERR_INVALID_PARAM
  | Some args =>
      let '(offset, rest) := strtoll args in
      if negb (streq rest []) || (offset <? 0)
      then reply FTP_REPLY_501_SYNTAX_ARGS (str "Invalid offset.")
      else
        _ ← upd (set_restart_offset offset);
        reply FTP_REPLY_350_PENDING (str "Restart position accepted.")
  end.

Definition cmd_DELE (args : option bytes) : sm ftp_error_t :=
  match args with
  | None => mret FTP_ERR_INVALID_PARAM
  | Some args =>
      r ← resolve (Some args);
      match r with
      | Err _ => reply FTP_REPLY_550_FILE_ERROR (str "Invalid path.")
      | Ok resolved =>
          err ← io (pal_file_delete (Some resolved));
          if decide (err = FTP_OK) then reply FTP_REPLY_250_FILE_ACTION_OK (str "File deleted.")
          else reply FTP_REPLY_550_FILE_ERROR (str "Cannot delete file.")
      end
  end.

Definition cmd_RMD (args : option bytes) : sm ftp_error_t :=
  match args with
  | None => mret FTP_ERR_INVALID_PARAM
  | Some args =>
      r ← resolve (Some args);
      match r with
      | Err _ => reply FTP_REPLY_550_FILE_ERROR (str "Invalid path.")
      | Ok resolved =>
          err ← io (pal_dir_remove (Some resolved));
          if decide (err = FTP_OK)
          then reply FTP_REPLY_250_FILE_ACTION_OK (str "Directory removed.")
          else reply FTP_REPLY_550_FILE_ERROR (str "Cannot remove directory.")
      end
  end.

Definition mkd_created (resolved : bytes) : sm ftp_error_t :=
  let text := DQUOTE :: resolved ++ DQUOTE :: str " created." in
  if FTP_REPLY_BUFFER_SIZE <=? strlen text
  then reply FTP_REPLY_257_PATH_CREATED (str "Directory created.")
  else reply FTP_REPLY_257_PATH_CREATED text.

Definition cmd_MKD (args : option bytes) : sm ftp_error_t :=
  match args with
  | None => mret FTP_ERR_INVALID_PARAM
  | Some args =>
      r ← resolve (Some args);
      match r with
      | Err _ => reply FTP_REPLY_550_FILE_ERROR (str "Invalid path.")
      | Ok resolved =>
          err ← io (pal_dir_create (Some resolved) DIR_PERM);
          if decide (err = FTP_OK) then mkd_created resolved
          else if decide (err = FTP_ERR_DIR_EXISTS) then
            is_dir ← io (pal_path_is_directory (Some resolved));
            if is_dir =? 1 then mkd_created resolved
            else reply FTP_REPLY_550_FILE_ERROR (str "Cannot create directory.")
          else reply FTP_REPLY_550_FILE_ERROR (str "Cannot create directory.")
      end
  end.

Definition cmd_RNFR (args : option bytes) : sm ftp_error_t :=
  match args with
  | None => mret FTP_ERR_INVALID_PARAM
  | Some args =>
      r ← resolve (Some args);
      match r with
      | Err _ => reply FTP_REPLY_550_FILE_ERROR (str "Invalid path.")
      | Ok resolved =>
          ex ← io (pal_path_exists (Some resolved));
          if negb (ex =? 1) then reply FTP_REPLY_550_FILE_ERROR (str "File not found.")
          else if FTP_PATH_MAX <=? strlen resolved
          then reply FTP_REPLY_550_FILE_ERROR (str "Path too long.")
          else
            _ ← upd (set_rename_from resolved);
            reply FTP_REPLY_350_PENDING (str "Ready for RNTO.")
      end
  end.

(** ** Background copy *)

(** The flag is cleared by the copy thread when it is done: while it is set,
    the system decides whether the thread has finished. *)
Definition read_copy_in_progress : sm Z :=
  f ← ask copy_in_progress;
  if f =? 0 then mret 0
  else
    running ← sysc SysCopyInProgress;
    if running =? 0 then _ ← upd (set_copy_in_progress 0); mret 0 else mret 1.

(** Starting the thread; the copy itself is [PalCopy]'s. *)
Definition start_copy_thread (src_resolved dst_resolved : bytes) (is_move : bool) : sm ftp_error_t :=
  ok ← sysc (SysMalloc 8208);
  if negb (ok : bool) then reply FTP_REPLY_451_LOCAL_ERROR (str "Memory allocation failed.")
  else
    _ ← upd (set_copy_in_progress 1);
    valid ← ask copy_thread_valid;
    _ ← (if negb (valid =? 0) then sysc SysThreadJoin else mret tt);
    rc ← sysc (SysCopyThread src_resolved dst_resolved is_move);
    if negb (rc =? 0) then
      _ ← upd (fun s => set_copy_thread_valid 0 (set_copy_in_progress 0 s));
      reply FTP_REPLY_451_LOCAL_ERROR (str "Failed to create background thread.")
    else
      _ ← upd (set_copy_thread_valid 1);
      reply FTP_REPLY_250_FILE_ACTION_OK
        (if is_move then str "Move started in background." else str "Copy started in background.").

Definition start_async_copy (src_ftp_path dst_ftp_path : bytes) (is_move : bool) : sm ftp_error_t :=
  busy ← read_copy_in_progress;
  if negb (busy =? 0)
  then reply FTP_REPLY_450_FILE_UNAVAILABLE (str "Operation already in progress.")
  else
    r ← resolve (Some src_ftp_path);
    match r with
    | Err _ => reply FTP_REPLY_550_FILE_ERROR (str "Invalid path.")
    | Ok src_resolved =>
        r ← resolve (Some dst_ftp_path);
        match r with
        | Err _ => reply FTP_REPLY_550_FILE_ERROR (str "Invalid path.")
        | Ok dst_resolved =>
            if streq src_resolved dst_resolved
            then reply FTP_REPLY_553_FILENAME_INVALID (str "Source and destination are the same.")
            else start_copy_thread src_resolved dst_resolved is_move
        end
    end.

Definition cmd_RNTO (args : option bytes) : sm ftp_error_t :=
  match args with
  | None => mret FTP_ERR_INVALID_PARAM
  | Some args =>
      from ← ask rename_from;
      match from with
      | [] => reply FTP_REPLY_503_BAD_SEQUENCE (str "RNFR required first.")
      | _ =>
          r ← resolve (Some args);
          match r with
          | Err _ =>
              _ ← upd (set_rename_from []);
              reply FTP_REPLY_550_FILE_ERROR (str "Invalid path.")
          | Ok resolved =>
              err ← io (pal_file_rename (Some from) (Some resolved));
              if decide (err = FTP_ERR_CROSS_DEVICE) then
                async_err ← start_async_copy from args true;
                _ ← upd (set_rename_from []);
                mret async_err
              else
                _ ← upd (set_rename_from []);
                if decide (err = FTP_OK)
                then reply FTP_REPLY_250_FILE_ACTION_OK (str "File renamed.")
                else reply FTP_REPLY_550_FILE_ERROR (rename_detail err)
          end
      end
  end.

Definition cmd_CPFR (args : option bytes) : sm ftp_error_t :=
  match args with
  | None => mret FTP_ERR_INVALID_PARAM
  | Some [] => reply FTP_REPLY_501_SYNTAX_ARGS (str "Syntax: CPFR <path>")
  | Some args =>
      r ← resolve (Some args);
      match r with
      | Err _ => reply FTP_REPLY_550_FILE_ERROR (str "Invalid source path.")
      | Ok resolved =>
          ex ← io (pal_path_exists (Some resolved));
          if ex =? 0 then reply FTP_REPLY_550_FILE_ERROR (str "Source does not exist.")
          else
            _ ← upd (set_copy_from (take (Z.to_nat (FTP_PATH_MAX - 1)) args));
            reply FTP_REPLY_350_PENDING (str "File exists, ready for destination name.")
      end
  end.

Definition cmd_CPTO (args : option bytes) : sm ftp_error_t :=
  match args with
  | None => mret FTP_ERR_INVALID_PARAM
  | Some [] => reply FTP_REPLY_501_SYNTAX_ARGS (str "Syntax: CPTO <path>")
  | Some args =>
      from ← ask copy_from;
      match from with
      | [] => reply FTP_REPLY_503_BAD_SEQUENCE (str "Bad sequence of commands (use CPFR first).")
      | _ =>
          result ← start_async_copy from args false;
          _ ← upd (set_copy_from []);
          mret result
      end
  end.

Definition cmd_COPY (args : option bytes) : sm ftp_error_t :=
  match args with
  | None => mret FTP_ERR_INVALID_PARAM
  | Some args =>
      match strchr args SPACE with
      | None => reply FTP_REPLY_501_SYNTAX_ARGS (str "Syntax: COPY <src> <dst>")
      | Some src_len =>
          if FTP_PATH_MAX <=? Z.of_nat src_len
          then reply FTP_REPLY_501_SYNTAX_ARGS (str "Paths too long.")
          else
            let src_arg := take src_len args in
            match drop_while (fun c => c =? SPACE) (drop (src_len + 1) args) with
            | [] => reply FTP_REPLY_501_SYNTAX_ARGS (str "Syntax: COPY <src> <dst>")
            | dst_start =>
                start_async_copy src_arg (take (Z.to_nat (FTP_PATH_MAX - 1)) dst_start) false
            end
      end
  end.

(** ** Feature negotiation and information *)

Definition cmd_OPTS (args : option bytes) : sm ftp_error_t :=
  match args with
  | None => reply FTP_REPLY_501_SYNTAX_ARGS (str "OPTS requires an argument.")
  | Some args =>
      let upper := map toupper (take 63 args) in
      if strneq upper (str "UTF8") 4
         && ((strlen upper =? 4) || streq (drop 4 upper) (str " ON"))
      then reply FTP_REPLY_200_OK (str "UTF8 mode enabled.")
      else if strneq upper (str "MLST") 4 then reply FTP_REPLY_200_OK (str "MLST OPTS set.")
      else reply FTP_REPLY_501_SYNTAX_ARGS (str "Option not recognized.")
  end.

Definition cmd_SITE (args : option bytes) : sm ftp_error_t :=
  match args with
  | None | Some [] => reply FTP_REPLY_501_SYNTAX_ARGS (str "SITE requires a command.")
  | Some args =>
      let upper := map toupper (take 5 args) in
      if strneq upper (str "CHMOD") 5
      then reply FTP_REPLY_200_OK (str "CHMOD command successful.")
      else reply FTP_REPLY_502_NOT_IMPLEMENTED (str "SITE command not supported.")
  end.

Definition cmd_CLNT (args : option bytes) : sm ftp_error_t := reply FTP_REPLY_200_OK (str "Noted.").

Definition cmd_SIZE (args : option bytes) : sm ftp_error_t :=
  match args with
  | None => mret FTP_ERR_INVALID_PARAM
  | Some args =>
      r ← resolve (Some args);
      match r with
      | Err _ => reply FTP_REPLY_550_FILE_ERROR (str "Invalid path.")
      | Ok resolved =>
          sr ← io (vfs_stat (Some resolved));
          match sr with
          | Err _ => reply FTP_REPLY_550_FILE_ERROR (str "File not found.")
          | Ok vst => reply FTP_REPLY_213_FILE_STATUS (snprintf_buf 64 (fmt_u (vs_size vst)))
          end
      end
  end.

Definition cmd_MDTM (args : option bytes) : sm ftp_error_t :=
  match args with
  | None => mret FTP_ERR_INVALID_PARAM
  | Some args =>
      r ← resolve (Some args);
      match r with
      | Err _ => reply FTP_REPLY_550_FILE_ERROR (str "Invalid path.")
      | Ok resolved =>
          sr ← io (pal_file_stat (Some resolved));
          match sr with
          | Err _ => reply FTP_REPLY_550_FILE_ERROR (str "File not found.")
          | Ok fst =>
              tm ← sysc (SysGmtime (st_mtime fst));
              reply FTP_REPLY_213_FILE_STATUS (snprintf_buf 32
                (fmt_0d 4 (tm_year tm + 1900) ++ fmt_0d 2 (tm_mon tm + 1) ++ fmt_0d 2 (tm_mday tm)
                 ++ fmt_0d 2 (tm_hour tm) ++ fmt_0d 2 (tm_min tm) ++ fmt_0d 2 (tm_sec tm)))
          end
      end
  end.

Definition cmd_STAT (args : option bytes) : sm ftp_error_t :=
  reply FTP_REPLY_211_SYSTEM_STATUS (str "Server status OK.").

Definition cmd_SYST (args : option bytes) : sm ftp_error_t := reply_default FTP_REPLY_215_SYSTEM_TYPE.

Definition cmd_FEAT (args : option bytes) : sm ftp_error_t :=
  ftp_session_send_multiline_reply fuel FTP_REPLY_211_SYSTEM_STATUS feature_lines.

Definition cmd_HELP (args : option bytes) : sm ftp_error_t :=
  ftp_session_send_multiline_reply fuel FTP_REPLY_214_HELP help_lines.

(** ** Transfer parameters *)

Definition cmd_TYPE (args : option bytes) : sm ftp_error_t :=
  match args with
  | None => mret FTP_ERR_INVALID_PARAM
  | Some args =>
      let c := args !!! 0%nat in
      if (c =? 65) || (c =? 97) then
        _ ← upd (set_transfer_type FTP_TYPE_ASCII); reply FTP_REPLY_200_OK (str "Type set.")
      else if (c =? 73) || (c =? 105) then
        _ ← upd (set_transfer_type FTP_TYPE_BINARY); reply FTP_REPLY_200_OK (str "Type set.")
      else reply FTP_REPLY_504_NOT_IMPL_PARAM (str "Type not supported.")
  end.

Definition cmd_MODE (args : option bytes) : sm ftp_error_t :=
  match args with
  | None => mret FTP_ERR_INVALID_PARAM
  | Some args =>
      let c := args !!! 0%nat in
      if (c =? 83) || (c =? 115) then
        _ ← upd (set_transfer_mode FTP_MODE_STREAM);
        reply FTP_REPLY_200_OK (str "Mode set to Stream.")
      else reply FTP_REPLY_504_NOT_IMPL_PARAM (str "Only Stream mode supported.")
  end.

Definition cmd_STRU (args : option bytes) : sm ftp_error_t :=
  match args with
  | None => mret FTP_ERR_INVALID_PARAM
  | Some args =>
      let c := args !!! 0%nat in
      if (c =? 70) || (c =? 102) then
        _ ← upd (set_file_structure FTP_STRU_FILE);
        reply FTP_REPLY_200_OK (str "Structure set to File.")
      else reply FTP_REPLY_504_NOT_IMPL_PARAM (str "Only File structure supported.")
  end.

(** ** Encryption *)

Definition generate_nonce (len : nat) : sm bytes :=
  fd ← io (pal_file_open (Some (str "/dev/urandom")) O_RDONLY 0);
  r ← (if 0 <=? fd then
         d ← io (pal_file_read fd (Z.of_nat len));
         _ ← io (pal_file_close fd);
         mret (match d with Some b => if strlen b =? Z.of_nat len then Some b else None | None => None end)
       else mret None);
  match r with
  | Some b => mret b
  | None =>
      '(sec, nsec) ← sysc SysClockTs;
      mret (lcg_bytes len (u64 (u64 (sec * 1000000000) + nsec)))
  end.

Definition cmd_AUTH (args : option bytes) : sm ftp_error_t :=
  match args with
  | None => mret FTP_ERR_INVALID_PARAM
  | Some args =>
      if negb (streq args (str "XCRYPT")) && negb (streq args (str "xcrypt"))
      then reply FTP_REPLY_504_NOT_IMPL_PARAM (str "Unsupported AUTH mechanism.")
      else
        ctx ← ask crypto;
        if negb (cc_active ctx =? 0)
        then reply FTP_REPLY_503_BAD_SEQUENCE (str "Already encrypted.")
        else
          nonce ← generate_nonce 12;
          let session_key := ftp_crypto_derive_key FTP_CRYPTO_PSK nonce in
          err ← reply FTP_REPLY_234_AUTH_OK (snprintf_buf 64 (str "XCRYPT " ++ hex_of nonce));
          _ ← (if decide (err = FTP_OK) then
                 _ ← upd (set_crypto (ftp_crypto_init session_key nonce));
                 log_line (str "CRYPTO_ON")
               else mret tt);
          mret err
  end.

End commands.
