(* ===== verification/FtpDataCmds.v ===== *)
(** * Data-connection commands of [src/ftp_commands.c]: PORT, PASV, EPSV *)

From S2P Require Import Prelude CLib FtpTypes FtpProtocol Os PalNetwork.
From S2P Require Import PalFileio FtpState FtpResolve FtpSession FtpCommands.

(** The address a PORT argument denotes: dotted-quad text and port. *)
Definition port_ip (h1 h2 h3 h4 : Z) : bytes :=
  fmt_u h1 ++ DOT :: fmt_u h2 ++ DOT :: fmt_u h3 ++ DOT :: fmt_u h4.

(** '(h1,h2,h3,h4,p1,p2)' of a 227 reply. *)
Definition pasv_text (ip port : Z) : bytes :=
  fmt_u (Z.land (Z.shiftr ip 24) 255) ++ 44 :: fmt_u (Z.land (Z.shiftr ip 16) 255)
  ++ 44 :: fmt_u (Z.land (Z.shiftr ip 8) 255) ++ 44 :: fmt_u (Z.land ip 255)
  ++ 44 :: fmt_u (Z.land (Z.shiftr port 8) 255) ++ 44 :: fmt_u (Z.land port 255).

Section datacmds.
Context {W : Type} `{OS W}.
Context (fuel : nat).
Abbreviation sm := (M (st ftp_session_t W)).
Abbreviation reply code msg := (ftp_session_send_reply fuel code (Some msg)).

(** ** PORT *)

(** [pal_make_sockaddr(ip, port, &session->data_addr)], which clears the
    structure before it converts the address. *)
Definition set_data_sockaddr (ip : bytes) (port : Z) : sm ftp_error_t :=
  if port =? 0 then mret FTP_ERR_INVALID_PARAM
  else
    _ ← upd (set_data_addr sockaddr_zero);
    match pal_make_sockaddr (Some ip) port with
    | Err e => mret e
    | Ok addr => _ ← upd (set_data_addr addr); mret FTP_OK
    end.

Definition cmd_PORT (args : option bytes) : sm ftp_error_t :=
  match args with
  | None => mret FTP_ERR_INVALID_PARAM
  | Some args =>
      match scan_u_list 6 args with
      | Some [h1; h2; h3; h4; p1; p2] =>
          if (255 <? h1) || (255 <? h2) || (255 <? h3) || (255 <? h4) || (255 <? p1) || (255 <? p2)
          then reply FTP_REPLY_501_SYNTAX_ARGS (str "Invalid PORT values.")
          else
            let ip := port_ip h1 h2 h3 h4 in
            let port := u16 (Z.lor (Z.shiftl p1 8) p2) in
            _ ← log_line (str "[DBG] PORT target: " ++ ip ++ COLON :: fmt_u port);
            err ← set_data_sockaddr ip port;
            if negb (bool_decide (err = FTP_OK))
            then reply FTP_REPLY_501_SYNTAX_ARGS (str "Invalid address.")
            else
              cip ← ask client_ip;
              if negb (streq ip cip) then
                _ ← log_line (str "[SEC] PORT IP mismatch: client=" ++ cip ++ str " port=" ++ ip
                              ++ str " (rejected)");
                reply FTP_REPLY_501_SYNTAX_ARGS (str "PORT address mismatch.")
              else
                _ ← upd (set_data_mode FTP_DATA_MODE_ACTIVE);
                reply FTP_REPLY_200_OK (str "PORT command successful.")
      | _ => reply FTP_REPLY_501_SYNTAX_ARGS (str "Invalid PORT format.")
      end
  end.

(** ** PASV and EPSV *)

(** The local address of the control connection, else the primary address,
    else 0. *)
Definition passive_local_ip : sm Z :=
  cfd ← ask ctrl_fd;
  '(r, local) ← sysc (SysGetsockname cfd);
  let ip := if r =? 0 then sin_addr local else 0 in
  if ip =? 0 then
    p ← io (pal_network_get_primary_ip INET_ADDRSTRLEN);
    mret (match p with
          | Ok ip_str => match inet_pton ip_str with Some a => a | None => 0 end
          | Err _ => 0
          end)
  else mret ip.

(** What cmd_PASV and cmd_EPSV share: close an old listener, create, bind and
    listen.  [inl] is the reply already sent on failure, [inr] the local
    address and the bound address. *)
Definition passive_listen : sm (ftp_error_t + Z * sockaddr_in) :=
  pfd ← ask pasv_fd;
  _ ← (if 0 <=? pfd then _ ← sysc (SysClose pfd); upd (set_pasv_fd (-1)) else mret tt);
  fd ← sysc (SysSocket 1);
  if fd <? 0 then
    e ← reply FTP_REPLY_425_CANT_OPEN_DATA (str "Cannot create socket."); mret (inl e)
  else
    _ ← io (pal_socket_set_reuseaddr fd);
    _ ← sysc (SysSetsockopt fd SO_RCVBUF FTP_TCP_RCVBUF);
    ip ← passive_local_ip;
    r ← sysc (SysBind fd (SockAddr ip 0));
    if r <? 0 then
      _ ← sysc (SysClose fd);
      e ← reply FTP_REPLY_425_CANT_OPEN_DATA (str "Bind failed."); mret (inl e)
    else
      r ← sysc (SysListen fd 1);
      if r <? 0 then
        _ ← sysc (SysClose fd);
        e ← reply FTP_REPLY_425_CANT_OPEN_DATA (str "Listen failed."); mret (inl e)
      else
        '(r, pasv_addr) ← sysc (SysGetsockname fd);
        if r <? 0 then
          _ ← sysc (SysClose fd);
          e ← reply FTP_REPLY_425_CANT_OPEN_DATA (str "Cannot get socket name."); mret (inl e)
        else
          _ ← upd (fun s => set_data_mode FTP_DATA_MODE_PASSIVE (set_pasv_fd fd s));
          mret (inr (ip, pasv_addr)).

Definition cmd_PASV (args : option bytes) : sm ftp_error_t :=
  l ← passive_listen;
  match l with
  | inl e => mret e
  | inr (ip, pasv_addr) =>
      let ip := if ip =? 0 then sin_addr pasv_addr else ip in
      reply FTP_REPLY_227_PASV_MODE (snprintf_buf FTP_REPLY_BUFFER_SIZE
        (str "Entering Passive Mode (" ++ pasv_text ip (sin_port pasv_addr) ++ str ")."))
  end.

Definition cmd_EPSV (args : option bytes) : sm ftp_error_t :=
  l ← passive_listen;
  match l with
  | inl e => mret e
  | inr (_, pasv_addr) =>
      reply FTP_REPLY_229_EPSV_MODE (snprintf_buf FTP_REPLY_BUFFER_SIZE
        (str "Entering Extended Passive Mode (|||" ++ fmt_u (sin_port pasv_addr) ++ str "|)."))
  end.

End datacmds.
