(* ===== verification/FtpListing.v ===== *)
(** * Directory listings of [src/ftp_commands.c]: LIST, NLST, MLSD, MLST

    [FTP_LIST_SAFE_MODE] is 0 in the modelled build, so every entry is
    examined with [stat]. *)

From S2P Require Import Prelude CLib FtpTypes FtpPath FtpProtocol FtpCrypto.
From S2P Require Import Os PalNetwork PalFileio FtpState FtpResolve.
From S2P Require Import FtpSession FtpCommands.

(** [%b] in the C locale. *)
Definition month_name (m : Z) : bytes :=
  match m with
  | 0 => str "Jan" | 1 => str "Feb" | 2 => str "Mar" | 3 => str "Apr"
  | 4 => str "May" | 5 => str "Jun" | 6 => str "Jul" | 7 => str "Aug"
  | 8 => str "Sep" | 9 => str "Oct" | 10 => str "Nov" | 11 => str "Dec"
  | _ => str "?"
  end.

Definition perm_char (mode bit c : Z) : Z := if negb (Z.land mode bit =? 0) then c else 45.

(** The ten permission characters of an 'ls -l' line. *)
Definition perms_of (mode : Z) : bytes :=
  [if S_ISDIR mode then 100 else 45;
   perm_char mode 256 114; perm_char mode 128 119; perm_char mode 64 120;
   perm_char mode 32 114; perm_char mode 16 119; perm_char mode 8 120;
   perm_char mode 4 114; perm_char mode 2 119; perm_char mode 1 120].

(** The [st] used when an entry cannot be examined. *)
Definition fallback_stat (is_dir : bool) : vfs_stat_t :=
  VfsStat (if is_dir then 16384 else 32768) 0 0.

Section listing.
Context {W : Type} `{OS W}.
Context (fuel : nat).
Abbreviation sm := (M (st ftp_session_t W)).
Abbreviation reply code msg := (ftp_session_send_reply fuel code (Some msg)).
Abbreviation reply_default code := (ftp_session_send_reply fuel code None).

(** [snprintf(fullpath, ..., "%s/%s", path, d_name)] and [vfs_stat]. *)
Definition entry_stat (path d_name : bytes) (is_dir : bool) : sm vfs_stat_t :=
  let fullpath := path ++ SLASH :: d_name in
  if strlen fullpath <? FTP_PATH_MAX then
    r ← io (vfs_stat (Some fullpath));
    mret (match r with Ok vst => vst | Err _ => fallback_stat is_dir end)
  else mret (fallback_stat is_dir).

(** One line of LIST ([detailed]) or NLST; [None] when it does not fit. *)
Definition listing_line (path d_name : bytes) (is_dir detailed : bool) : sm (option bytes) :=
  if detailed then
    vst ← entry_stat path d_name is_dir;
    tm ← sysc (SysGmtime (vs_mtime vst));
    let time_str := month_name (tm_mon tm) ++ SPACE :: fmt_0d 2 (tm_mday tm) ++ SPACE
      :: fmt_0d 2 (tm_hour tm) ++ COLON :: fmt_0d 2 (tm_min tm) in
    let line := perms_of (vs_mode vst) ++ str " 1 ftp ftp " ++ fmt_10d (s64 (vs_size vst))
      ++ SPACE :: time_str ++ SPACE :: d_name ++ [CR; LF] in
    mret (if FTP_LIST_LINE_SIZE <=? strlen line then None else Some line)
  else
    let line := d_name ++ [CR; LF] in
    mret (if FTP_LIST_LINE_SIZE <=? strlen line then None else Some line).

Fixpoint listing_loop (n : nat) (dir : Z) (path : bytes) (detailed : bool) : sm unit :=
  match n with
  | O => diverge
  | S n' =>
      entry ← sysc (SysReaddir dir);
      match entry with
      | None => mret tt
      | Some (d_name, is_dir) =>
          if streq d_name (str ".") || streq d_name (str "..")
          then listing_loop n' dir path detailed
          else
            line ← listing_line path d_name is_dir detailed;
            match line with
            | None => listing_loop n' dir path detailed
            | Some line =>
                _ ← ftp_session_send_data fuel line;
                listing_loop n' dir path detailed
            end
      end
  end.

Definition send_directory_listing (path : bytes) (detailed : bool) : sm ftp_error_t :=
  d ← sysc (SysOpendir path);
  match d with
  | None => mret FTP_ERR_DIR_OPEN
  | Some dir =>
      _ ← listing_loop fuel dir path detailed;
      _ ← sysc (SysClosedir dir);
      mret FTP_OK
  end.

(** From the pacing delay on, for LIST and NLST. *)
Definition list_transfer (resolved : bytes) (detailed : bool) : sm ftp_error_t :=
  _ ← sysc (SysUsleep 50000);
  err ← send_directory_listing resolved detailed;
  _ ← ftp_session_close_data_connection;
  if decide (err = FTP_OK) then reply_default FTP_REPLY_226_TRANSFER_COMPLETE
  else reply FTP_REPLY_451_LOCAL_ERROR (str "Error reading directory.").

Definition cmd_LIST (args : option bytes) : sm ftp_error_t :=
  d ← ask cwd;
  r ← resolve (Some (default d args));
  match r with
  | Err _ => reply FTP_REPLY_550_FILE_ERROR (str "Invalid path.")
  | Ok resolved =>
      _ ← log_line (str "[DBG] LIST: opening data connection...");
      err ← ftp_session_open_data_connection fuel;
      if negb (bool_decide (err = FTP_OK)) then
        _ ← log_line (str "[DBG] LIST: data conn FAILED err=" ++ fmt_d (err_code err));
        reply_default FTP_REPLY_425_CANT_OPEN_DATA
      else
        _ ← log_line (str "[DBG] LIST: data conn OK, sending 150");
        _ ← reply_default FTP_REPLY_150_FILE_OK;
        list_transfer resolved true
  end.

Definition cmd_NLST (args : option bytes) : sm ftp_error_t :=
  d ← ask cwd;
  r ← resolve (Some (default d args));
  match r with
  | Err _ => reply FTP_REPLY_550_FILE_ERROR (str "Invalid path.")
  | Ok resolved =>
      err ← ftp_session_open_data_connection fuel;
      if negb (bool_decide (err = FTP_OK)) then reply_default FTP_REPLY_425_CANT_OPEN_DATA
      else
        _ ← reply_default FTP_REPLY_150_FILE_OK;
        list_transfer resolved false
  end.

Fixpoint mlsd_loop (n : nat) (dir : Z) (resolved : bytes) : sm unit :=
  match n with
  | O => diverge
  | S n' =>
      entry ← sysc (SysReaddir dir);
      match entry with
      | None => mret tt
      | Some (d_name, is_dir) =>
          if streq d_name (str ".") || streq d_name (str "..") then mlsd_loop n' dir resolved
          else
            vst ← entry_stat resolved d_name is_dir;
            line ← mlsx_format_line vst d_name false FTP_LIST_LINE_SIZE;
            match line with
            | Ok line => _ ← ftp_session_send_data fuel line; mlsd_loop n' dir resolved
            | Err _ => mlsd_loop n' dir resolved
            end
      end
  end.

Definition cmd_MLSD (args : option bytes) : sm ftp_error_t :=
  d ← ask cwd;
  r ← resolve (Some (default d args));
  match r with
  | Err _ => reply FTP_REPLY_550_FILE_ERROR (str "Invalid path.")
  | Ok resolved =>
      err ← ftp_session_open_data_connection fuel;
      if negb (bool_decide (err = FTP_OK)) then reply_default FTP_REPLY_425_CANT_OPEN_DATA
      else
        _ ← reply_default FTP_REPLY_150_FILE_OK;
        _ ← sysc (SysUsleep 50000);
        d ← sysc (SysOpendir resolved);
        _ ← (match d with
             | Some dir =>
                 _ ← mlsd_loop fuel dir resolved;
                 _ ← sysc (SysClosedir dir);
                 mret tt
             | None => mret tt
             end);
        _ ← ftp_session_close_data_connection;
        reply_default FTP_REPLY_226_TRANSFER_COMPLETE
  end.

Definition cmd_MLST (args : option bytes) : sm ftp_error_t :=
  d ← ask cwd;
  r ← resolve (Some (match args with Some (c :: t) => c :: t | _ => d end));
  match r with
  | Err _ => reply FTP_REPLY_550_FILE_ERROR (str "Invalid path.")
  | Ok resolved =>
      sr ← io (vfs_stat (Some resolved));
      match sr with
      | Err _ => reply FTP_REPLY_550_FILE_ERROR (str "File not found.")
      | Ok vst =>
          s ← ask id;
          match ftp_path_to_client_path s (Some resolved) FTP_PATH_MAX with
          | Err _ => reply FTP_REPLY_550_FILE_ERROR (str "Invalid path.")
          | Ok client_path =>
              line ← mlsx_format_line vst client_path true FTP_LIST_LINE_SIZE;
              match line with
              | Err _ => reply FTP_REPLY_451_LOCAL_ERROR (str "MLST formatting failed.")
              | Ok listing_line =>
                  let text := str "250-Listing " ++ client_path ++ [CR; LF] in
                  if FTP_REPLY_BUFFER_SIZE <=? strlen text
                  then reply FTP_REPLY_451_LOCAL_ERROR (str "MLST formatting failed.")
                  else
                    err ← send_control_raw fuel (Some text);
                    if negb (bool_decide (err = FTP_OK)) then mret err
                    else
                      err ← send_control_raw fuel (Some listing_line);
                      if negb (bool_decide (err = FTP_OK)) then mret err
                      else send_control_raw fuel (Some (str "250 End" ++ [CR; LF]))
              end
          end
      end
  end.

End listing.
