(* ===== verification/FtpTransfer.v ===== *)
(** * File transfers of [src/ftp_commands.c]: RETR, STOR, APPE

    RETR alternates kernel [sendfile] bursts with a read/send loop.  STOR
    receives with one thread and writes with another through two buffers; the
    two threads are run step by step, the system choosing which one moves
    ([SysSchedule]).  The log line's megabyte figure (a floating-point
    rendering of the byte count) is left out. *)

From S2P Require Import Prelude CLib FtpTypes FtpPath FtpProtocol FtpCrypto.
From S2P Require Import Os PalNetwork PalFileio FtpState FtpResolve.
From S2P Require Import FtpSession FtpCommands.

Definition FTP_RETR_SENDFILE_CHUNK : Z := 2 * 1024 * 1024.
Definition FTP_SENDFILE_EAGAIN_RETRIES : Z := 256.
Definition FTP_SENDFILE_EAGAIN_SLEEP_US : Z := 500.
Definition SENDFILE_COOLDOWN_BYTES : Z := 4194304.
Definition FILE_PERM : Z := 438.

Section transfer.
Context {W : Type} `{OS W}.
Context (fuel : nat).
Abbreviation sm := (M (st ftp_session_t W)).
Abbreviation reply code msg := (ftp_session_send_reply fuel code (Some msg)).
Abbreviation reply_default code := (ftp_session_send_reply fuel code None).

(** ** RETR *)

(** The local variables of the transfer loop. *)
Record retr_t := Retr {
  rt_remaining : Z;
  rt_bytes_sent : Z;
  rt_offset : Z;
  rt_node : vfs_node_t;
  rt_use_sendfile : bool
}.

Definition retr_chunk (remaining : Z) : Z :=
  if FTP_RETR_SENDFILE_CHUNK <? remaining then FTP_RETR_SENDFILE_CHUNK else remaining.

(** Accounting after [sent] bytes went out through [sendfile]; [offset] is
    the file offset after them. *)
Definition retr_sent (t : retr_t) (sent offset : Z) : sm retr_t :=
  now ← sysc SysTime;
  _ ← upd (fun s => set_stats (set_bytes_sent (bytes_sent (stats s) +u64 sent) (stats s))
                      (set_last_activity now s));
  _ ← (if (0 <=? vn_fd (rt_node t)) && (0 <=? offset - sent)
       then sysc (SysFadvise (vn_fd (rt_node t)) (offset - sent) sent) else mret 0);
  mret (Retr (rt_remaining t -u64 sent) (rt_bytes_sent t +u64 sent) offset (rt_node t)
          (rt_use_sendfile t)).

(** The retries after a [sendfile] that sent nothing: the bytes of the first
    one that succeeds, or [None]; and the file offset. *)
Fixpoint sendfile_retry (n : nat) (r : Z) (dfd ffd offset remaining : Z) : sm (option Z * Z) :=
  match n with
  | O => diverge
  | S n' =>
      if FTP_SENDFILE_EAGAIN_RETRIES <=? r then mret (None, offset)
      else
        _ ← sysc (SysUsleep FTP_SENDFILE_EAGAIN_SLEEP_US);
        '(r_sent, offset) ← io (pal_sendfile dfd ffd offset (retr_chunk remaining));
        if 0 <? r_sent then mret (Some r_sent, offset)
        else
          e ← io get_errno;
          if (r_sent <? 0) && (e =? EINTR)
          then sendfile_retry n' r dfd ffd offset remaining
          else sendfile_retry n' (r + 1) dfd ffd offset remaining
  end.

Definition set_offset (t : retr_t) (offset : Z) : retr_t :=
  Retr (rt_remaining t) (rt_bytes_sent t) offset (rt_node t) (rt_use_sendfile t).

(** [vfs_set_offset(&node, offset)] before leaving the burst. *)
Definition retr_seek (t : retr_t) (use_sendfile : bool) : sm retr_t :=
  node ← io (vfs_set_offset (rt_node t) (rt_offset t));
  mret (Retr (rt_remaining t) (rt_bytes_sent t) (rt_offset t) node use_sendfile).

(** The [sendfile] burst: the inner [while (remaining > 0U)]. *)
Fixpoint sendfile_burst (n : nat) (dfd : Z) (t : retr_t) (sf_sent_any : bool) : sm retr_t :=
  match n with
  | O => diverge
  | S n' =>
      if rt_remaining t <=? 0 then mret t
      else
        '(sent, offset) ←
           io (pal_sendfile dfd (vn_fd (rt_node t)) (rt_offset t) (retr_chunk (rt_remaining t)));
        let t := set_offset t offset in
        if sent <=? 0 then
          e ← io get_errno;
          if (sent <? 0) && (e =? EINTR) then sendfile_burst n' dfd t sf_sent_any
          else if (sent <? 0) && ((e =? EIO) || (e =? ESTALE) || (e =? EBADF) || (e =? EFAULT))
          then retr_seek t false
          else
            '(recovered, offset) ←
               sendfile_retry fuel 0 dfd (vn_fd (rt_node t)) (rt_offset t) (rt_remaining t);
            match recovered with
            | Some r_sent =>
                t ← retr_sent t r_sent offset; sendfile_burst n' dfd t true
            | None =>
                retr_seek (set_offset t offset) (if sf_sent_any then rt_use_sendfile t else false)
            end
        else
          t ← retr_sent t sent offset; sendfile_burst n' dfd t true
  end.

(** The read/send loop; the result says whether it ended in an error. *)
Fixpoint read_phase (n : nat) (t : retr_t) (cooldown_left file_size : Z) : sm (retr_t * bool) :=
  match n with
  | O => diverge
  | S n' =>
      if (rt_remaining t <=? 0) || (cooldown_left <=? 0) then mret (t, false)
      else
        let want := if rt_remaining t <? FTP_STREAM_BUFFER_SIZE
                    then rt_remaining t else FTP_STREAM_BUFFER_SIZE in
        let want := if cooldown_left <? want then cooldown_left else want in
        '(d, node) ← io (vfs_read (rt_node t) want);
        let t := Retr (rt_remaining t) (rt_bytes_sent t) (rt_offset t) node (rt_use_sendfile t) in
        match d with
        | None =>
            e ← io get_errno;
            if e =? EINTR then read_phase n' t cooldown_left file_size else mret (t, true)
        | Some [] => mret (t, true)
        | Some b =>
            sent ← ftp_session_send_data fuel b;
            if negb (sent =? strlen b) then
              mret (Retr 1 (rt_bytes_sent t) (rt_offset t) node (rt_use_sendfile t), true)
            else
              let remaining := rt_remaining t -u64 strlen b in
              now ← sysc SysTime;
              _ ← upd (set_last_activity now);
              let evict := file_size - remaining - sent in
              _ ← (if (0 <=? vn_fd node) && (0 <=? evict)
                   then sysc (SysFadvise (vn_fd node) evict sent) else mret 0);
              read_phase n' (Retr remaining (rt_bytes_sent t +u64 sent) (rt_offset t) node
                               (rt_use_sendfile t))
                (cooldown_left - strlen b) file_size
        end
  end.

(** [can_retry_sf] *)
Definition can_retry_sendfile (t : retr_t) : bool :=
  negb (Z.land (vfs_get_caps (rt_node t)) VFS_CAP_SENDFILE =? 0) && rt_use_sendfile t
  && (0 <? rt_bytes_sent t) && (SENDFILE_COOLDOWN_BYTES <? rt_remaining t).

(** The outer loop; [have_buf] is [buf != NULL]. *)
Fixpoint retr_loop (n : nat) (t : retr_t) (have_buf : bool) (file_size : Z) : sm (retr_t * bool) :=
  match n with
  | O => diverge
  | S n' =>
      if rt_remaining t <=? 0 then mret (t, have_buf)
      else
        dfd ← ask data_fd;
        t ← (if rt_use_sendfile t then
               _ ← io (pal_socket_cork dfd);
               t ← sendfile_burst fuel dfd t false;
               _ ← io (pal_socket_uncork dfd);
               mret t
             else mret t);
        if rt_remaining t =? 0 then mret (t, have_buf)
        else
          have_buf ← (if have_buf then mret true else sysc SysBufferAcquire);
          if negb (have_buf : bool) then
            mret (Retr 1 (rt_bytes_sent t) (rt_offset t) (rt_node t) (rt_use_sendfile t), false)
          else
            let can_retry_sf := can_retry_sendfile t in
            let cooldown_left := if can_retry_sf then SENDFILE_COOLDOWN_BYTES else rt_remaining t in
            _ ← io (pal_socket_cork dfd);
            '(t, read_error) ← read_phase fuel t cooldown_left file_size;
            _ ← io (pal_socket_uncork dfd);
            if (read_error : bool) then mret (t, true)
            else if can_retry_sf && (0 <? rt_remaining t) then
              retr_loop n' (Retr (rt_remaining t) (rt_bytes_sent t) (file_size - rt_remaining t)
                              (rt_node t) true) true file_size
            else retr_loop n' t true file_size
  end.

(** From the transfer configuration on: the data connection is open. *)
Definition retr_transfer (resolved : bytes) (node : vfs_node_t) (offset file_size : Z)
    : sm ftp_error_t :=
  let use_sendfile := negb (Z.land (vfs_get_caps node) VFS_CAP_SENDFILE =? 0)
                      && (FTP_TRANSFER_RATE_LIMIT_BPS =? 0) in
  _ ← log_line (snprintf_buf 256 (str "[RETR] file=" ++ resolved ++ str " size=" ++ fmt_u file_size
        ++ str " sendfile=" ++ fmt_d (if use_sendfile then 1 else 0) ++ str " chunk="
        ++ fmt_u FTP_RETR_SENDFILE_CHUNK));
  ctx ← ask crypto;
  let use_sendfile := if negb (cc_active ctx =? 0) then false else use_sendfile in
  '(t, have_buf) ← retr_loop fuel (Retr (file_size -u64 offset) 0 offset node use_sendfile)
                     false file_size;
  _ ← (if (have_buf : bool) then sysc SysBufferRelease else mret tt);
  _ ← io (vfs_close (rt_node t));
  _ ← ftp_session_close_data_connection;
  _ ← upd (set_restart_offset 0);
  if rt_remaining t =? 0 then
    _ ← upd (fun s => set_stats (set_files_sent (files_sent (stats s) +u64 1) (stats s)) s);
    _ ← log_line (str "RETR_OK");
    _ ← sysc SysClock;
    _ ← log_line (str "[RETR] complete: bytes=" ++ fmt_u (rt_bytes_sent t));
    reply_default FTP_REPLY_226_TRANSFER_COMPLETE
  else
    _ ← log_line (str "RETR_FAIL");
    reply FTP_REPLY_426_TRANSFER_ABORTED (str "Transfer failed.").

(** The checks on an open node, the 150 reply and the data connection. *)
Definition retr_open (resolved : bytes) (node : vfs_node_t) : sm ftp_error_t :=
  let file_size := vfs_get_size node in
  sr ← io (vfs_stat (Some resolved));
  let not_regular := match sr with Ok vst => negb (S_ISREG (vs_mode vst)) | Err _ => false end in
  if (not_regular : bool) then
    _ ← io (vfs_close node);
    _ ← upd (set_restart_offset 0);
    reply FTP_REPLY_550_FILE_ERROR (str "Not a regular file.")
  else
    offset ← ask restart_offset;
    if (offset <? 0) || (file_size <? u64 offset) then
      _ ← io (vfs_close node);
      _ ← upd (set_restart_offset 0);
      reply FTP_REPLY_550_FILE_ERROR (str "Invalid offset.")
    else
      node ← io (vfs_set_offset node offset);
      _ ← reply_default FTP_REPLY_150_FILE_OK;
      err ← ftp_session_open_data_connection fuel;
      if negb (bool_decide (err = FTP_OK)) then
        _ ← io (vfs_close node);
        reply_default FTP_REPLY_425_CANT_OPEN_DATA
      else retr_transfer resolved node offset file_size.

Definition cmd_RETR (args : option bytes) : sm ftp_error_t :=
  match args with
  | None => mret FTP_ERR_INVALID_PARAM
  | Some args =>
      r ← resolve (Some args);
      match r with
      | Err _ => reply FTP_REPLY_550_FILE_ERROR (str "Invalid path.")
      | Ok resolved =>
          nr ← io (vfs_open (Some resolved));
          match nr with
          | Err _ => reply FTP_REPLY_550_FILE_ERROR (str "Cannot open file.")
          | Ok node => retr_open resolved node
          end
      end
  end.

(** ** Receiving into a file *)

(** How a receive loop ended. *)
Record recv_result := RecvResult {
  rr_ok : bool;
  rr_fail_stage : Z;     (* 1 = no buffer, 2 = recv error, 3 = write error *)
  rr_errno : Z;
  rr_total : Z
}.

(** The single-buffer loop of STOR's fallbacks and of APPE. *)
Fixpoint recv_write_loop (n : nat) (fd total : Z) : sm recv_result :=
  match n with
  | O => diverge
  | S n' =>
      r ← ftp_session_recv_data fuel FTP_STREAM_BUFFER_SIZE;
      match r with
      | inl _ =>
          e ← io get_errno;
          if e =? EINTR then recv_write_loop n' fd total
          else mret (RecvResult false 2 e total)
      | inr [] => mret (RecvResult true 0 0 total)
      | inr b =>
          written ← io (pal_file_write_all fuel fd b);
          if negb (written =? strlen b) then
            e ← io get_errno; mret (RecvResult false 3 e total)
          else
            now ← sysc SysTime;
            _ ← upd (set_last_activity now);
            recv_write_loop n' fd (total +u64 strlen b)
      end
  end.

(** ** The double-buffered writer *)

(** [stor_pipe_t]: a buffer's contents is its valid part, so [len[i]] is its
    length; an index 0/1 is a [bool]. *)
Record stor_pipe_t := Pipe {
  sp_buf0 : bytes;
  sp_buf1 : bytes;
  sp_active : bool;
  sp_error : Z;
  sp_done : bool;
  sp_written : Z
}.

Definition sp_buf (p : stor_pipe_t) (i : bool) : bytes := if i then sp_buf1 p else sp_buf0 p.

Definition set_buf (i : bool) (b : bytes) (p : stor_pipe_t) : stor_pipe_t :=
  if i then Pipe (sp_buf0 p) b (sp_active p) (sp_error p) (sp_done p) (sp_written p)
  else Pipe b (sp_buf1 p) (sp_active p) (sp_error p) (sp_done p) (sp_written p).

(** Where the receiving thread is: about to take the lock, asleep on
    [cv_free], receiving into a buffer, handing a filled buffer over, at
    [recv_done], or in [pthread_join]. *)
Inductive prod_pc :=
| PLock
| PSleep
| PRecv (fill_idx : bool)
| PHand (fill_idx : bool) (data : bytes)
| PStop
| PJoin.

(** Where the writer is: about to test under the lock, asleep on [cv_ready],
    writing a buffer without the lock, about to book the result, or gone. *)
Inductive writer_pc :=
| WLock
| WSleep
| WWrite (drain : bool)
| WBook (drain : bool) (write_ok : bool) (err : Z)
| WExit.

Record pipe_sys := PipeSys {
  ps_pipe : stor_pipe_t;
  ps_prod : prod_pc;
  ps_writer : writer_pc;
  ps_result : recv_result
}.

(** [pthread_cond_signal] *)
Definition signal_ready (w : writer_pc) : writer_pc := match w with WSleep => WLock | _ => w end.
Definition signal_free (p : prod_pc) : prod_pc := match p with PSleep => PLock | _ => p end.

(** One step of the receiving thread; every lock-protected region is one
    step. *)
Definition prod_step (x : pipe_sys) : sm pipe_sys :=
  let p := ps_pipe x in
  let r := ps_result x in
  let goto pc := PipeSys p pc (ps_writer x) r in
  match ps_prod x with
  | PLock =>
      match sp_buf p (sp_active p) with
      | _ :: _ => mret (if negb (sp_error p =? 0) then goto PStop else goto PSleep)
      | [] => mret (if negb (sp_error p =? 0) then goto PStop else goto (PRecv (sp_active p)))
      end
  | PSleep => mret x
  | PRecv i =>
      d ← ftp_session_recv_data fuel FTP_STREAM_BUFFER_SIZE;
      match d with
      | inl _ =>
          e ← io get_errno;
          if e =? EINTR then mret (goto PLock)
          else mret (PipeSys p PStop (ps_writer x) (RecvResult false 2 e (rr_total r)))
      | inr [] => mret (goto PStop)
      | inr b =>
          now ← sysc SysTime;
          _ ← upd (set_last_activity now);
          mret (PipeSys p (PHand i b) (ps_writer x)
                  (RecvResult (rr_ok r) (rr_fail_stage r) (rr_errno r) (rr_total r +u64 strlen b)))
      end
  | PHand i b =>
      let p' := set_buf i b p in
      let p' := Pipe (sp_buf0 p') (sp_buf1 p') (negb i) (sp_error p') (sp_done p') (sp_written p') in
      mret (PipeSys p' PLock (signal_ready (ps_writer x)) r)
  | PStop =>
      let p' := Pipe (sp_buf0 p) (sp_buf1 p) (sp_active p) (sp_error p) true (sp_written p) in
      mret (PipeSys p' PJoin (signal_ready (ps_writer x)) r)
  | PJoin => mret x
  end.

(** One step of [stor_writer_thread]. *)
Definition writer_step (fd : Z) (x : pipe_sys) : sm pipe_sys :=
  let p := ps_pipe x in
  let goto pc := PipeSys p (ps_prod x) pc (ps_result x) in
  match ps_writer x with
  | WLock =>
      match sp_buf p (negb (sp_active p)) with
      | [] => mret (if sp_done p then goto WExit else goto WSleep)
      | _ => mret (goto (WWrite (negb (sp_active p))))
      end
  | WSleep => mret x
  | WWrite drain =>
      let data := sp_buf p drain in
      w ← io (pal_file_write_all fuel fd data);
      e ← io get_errno;
      mret (goto (WBook drain (w =? strlen data) e))
  | WBook drain write_ok e =>
      let n := strlen (sp_buf p drain) in
      let p' := set_buf drain [] p in
      let p' := if write_ok
                then Pipe (sp_buf0 p') (sp_buf1 p') (sp_active p') (sp_error p') (sp_done p')
                       (sp_written p' +u64 n)
                else Pipe (sp_buf0 p') (sp_buf1 p') (sp_active p') e (sp_done p') (sp_written p') in
      mret (PipeSys p' (signal_free (ps_prod x)) (if write_ok then WLock else WExit) (ps_result x))
  | WExit => mret x
  end.

(** Both threads are through: the receiver waits in [pthread_join] and the
    writer has returned. *)
Definition pipe_finished (x : pipe_sys) : bool :=
  match ps_prod x, ps_writer x with PJoin, WExit => true | _, _ => false end.

Fixpoint pipe_run (n : nat) (fd : Z) (x : pipe_sys) : sm pipe_sys :=
  match n with
  | O => diverge
  | S n' =>
      if pipe_finished x then mret x
      else
        who ← sysc SysSchedule;
        x ← (if (who : bool) then prod_step x else writer_step fd x);
        pipe_run n' fd x
  end.

Definition pipe_init : pipe_sys :=
  PipeSys (Pipe [] [] false 0 false 0) PLock WLock (RecvResult true 0 0 0).

(** The double-buffered path of STOR once the writer thread runs. *)
Definition stor_double (fd : Z) : sm recv_result :=
  x ← pipe_run fuel fd pipe_init;
  let r := ps_result x in
  mret (if negb (sp_error (ps_pipe x) =? 0)
        then RecvResult false 3 (sp_error (ps_pipe x)) (rr_total r) else r).

(** ** STOR and APPE *)

(** '/dir/.zftpd.tmp.basename' *)
Definition stor_tmp_path (resolved : bytes) : bytes :=
  snprintf_buf FTP_PATH_MAX
    (match strrchr resolved SLASH with
     | Some dir_len => take dir_len resolved ++ str "/.zftpd.tmp." ++ drop (dir_len + 1) resolved
     | None => str ".zftpd.tmp." ++ resolved
     end).

Definition fail_detail (r : recv_result) : bytes :=
  snprintf_buf 128
    (if rr_fail_stage r =? 2
     then str "Transfer failed: network receive error (errno=" ++ fmt_d (rr_errno r) ++ str ")."
     else if rr_fail_stage r =? 3
     then str "Transfer failed: disk write error (errno=" ++ fmt_d (rr_errno r) ++ str ")."
     else str "Transfer failed.").

(** [unlink] of what a failed upload created: the temporary file; the build
    modelled writes resumed uploads in place and leaves them. *)
Definition stor_discard (use_atomic : bool) (tmp_path : bytes) : sm unit :=
  if use_atomic then _ ← sysc (SysUnlink tmp_path); mret tt else mret tt.

(** Acquire the buffers and receive, with one or two of them. *)
Definition stor_receive (fd : Z) : sm recv_result :=
  buf0 ← sysc SysBufferAcquire;
  buf1 ← sysc SysBufferAcquire;
  if negb (buf0 : bool) || negb (buf1 : bool) then
    if (buf0 : bool) || (buf1 : bool) then
      r ← recv_write_loop fuel fd 0;
      _ ← sysc SysBufferRelease;
      mret r
    else mret (RecvResult false 1 0 0)
  else
    rc ← sysc SysWriterThread;
    r ← (if negb (rc =? 0) then recv_write_loop fuel fd 0 else stor_double fd);
    _ ← sysc SysBufferRelease;
    _ ← sysc SysBufferRelease;
    mret r.

(** From the flush on. *)
Definition stor_finish (fd : Z) (use_atomic : bool) (tmp_path resolved : bytes) (r : recv_result)
    : sm ftp_error_t :=
  _ ← (if rr_ok r then _ ← sysc (SysFsync fd); mret tt else mret tt);
  _ ← io (pal_file_close fd);
  _ ← ftp_session_close_data_connection;
  _ ← upd (set_restart_offset 0);
  if rr_ok r then
    renamed ← (if use_atomic then sysc (SysRename tmp_path resolved) else mret 0);
    if negb (renamed =? 0) then
      _ ← sysc (SysUnlink tmp_path);
      reply FTP_REPLY_451_LOCAL_ERROR (str "Rename to final path failed.")
    else
      _ ← upd (fun s => set_stats (set_files_received (files_received (stats s) +u64 1) (stats s)) s);
      _ ← log_line (str "STOR_OK");
      reply_default FTP_REPLY_226_TRANSFER_COMPLETE
  else
    _ ← stor_discard use_atomic tmp_path;
    _ ← log_line (str "STOR_FAIL");
    reply FTP_REPLY_426_TRANSFER_ABORTED (fail_detail r).

(** The file is open: seek, reply 150, open the data connection, receive. *)
Definition stor_opened (fd : Z) (use_atomic : bool) (tmp_path resolved : bytes) : sm ftp_error_t :=
  offset ← ask restart_offset;
  pos ← (if 0 <? offset then sysc (SysLseek fd offset SEEK_SET) else mret 0);
  if pos <? 0 then
    _ ← io (pal_file_close fd);
    _ ← stor_discard use_atomic tmp_path;
    _ ← upd (set_restart_offset 0);
    reply FTP_REPLY_451_LOCAL_ERROR (str "Seek failed.")
  else
    _ ← reply_default FTP_REPLY_150_FILE_OK;
    err ← ftp_session_open_data_connection fuel;
    if negb (bool_decide (err = FTP_OK)) then
      _ ← io (pal_file_close fd);
      _ ← stor_discard use_atomic tmp_path;
      _ ← upd (set_restart_offset 0);
      reply_default FTP_REPLY_425_CANT_OPEN_DATA
    else
      r ← stor_receive fd;
      stor_finish fd use_atomic tmp_path resolved r.

Definition cmd_STOR (args : option bytes) : sm ftp_error_t :=
  match args with
  | None => mret FTP_ERR_INVALID_PARAM
  | Some args =>
      r ← resolve (Some args);
      match r with
      | Err _ =>
          _ ← upd (set_restart_offset 0);
          reply FTP_REPLY_550_FILE_ERROR (str "Invalid path.")
      | Ok resolved =>
          offset ← ask restart_offset;
          let use_atomic := offset =? 0 in
          let tmp_path := if use_atomic then stor_tmp_path resolved else [] in
          let write_path := if use_atomic then tmp_path else resolved in
          let open_flags := Z.lor (Z.lor O_WRONLY O_CREAT) (if offset =? 0 then O_TRUNC else 0) in
          fd ← io (pal_file_open (Some write_path) open_flags FILE_PERM);
          if fd <? 0 then
            _ ← stor_discard use_atomic tmp_path;
            _ ← upd (set_restart_offset 0);
            reply FTP_REPLY_550_FILE_ERROR (str "Cannot create file.")
          else stor_opened fd use_atomic tmp_path resolved
      end
  end.

(** APPE from the data connection on. *)
Definition appe_receive (fd : Z) : sm ftp_error_t :=
  buf ← sysc SysBufferAcquire;
  r ← (if (buf : bool) then recv_write_loop fuel fd 0 else mret (RecvResult false 1 0 0));
  _ ← (if rr_ok r then _ ← sysc (SysFsync fd); mret tt else mret tt);
  _ ← io (pal_file_close fd);
  _ ← (if (buf : bool) then sysc SysBufferRelease else mret tt);
  _ ← ftp_session_close_data_connection;
  _ ← upd (set_restart_offset 0);
  if rr_ok r then
    _ ← log_line (str "APPE_OK");
    reply_default FTP_REPLY_226_TRANSFER_COMPLETE
  else
    _ ← log_line (str "APPE_FAIL");
    reply FTP_REPLY_426_TRANSFER_ABORTED (fail_detail r).

Definition cmd_APPE (args : option bytes) : sm ftp_error_t :=
  match args with
  | None => mret FTP_ERR_INVALID_PARAM
  | Some args =>
      r ← resolve (Some args);
      match r with
      | Err _ =>
          _ ← upd (set_restart_offset 0);
          reply FTP_REPLY_550_FILE_ERROR (str "Invalid path.")
      | Ok resolved =>
          offset ← ask restart_offset;
          let open_flags := Z.lor (Z.lor O_WRONLY O_CREAT) (if offset =? 0 then O_APPEND else 0) in
          fd ← io (pal_file_open (Some resolved) open_flags FILE_PERM);
          if fd <? 0 then
            _ ← upd (set_restart_offset 0);
            reply FTP_REPLY_550_FILE_ERROR (str "Cannot open file.")
          else
            pos ← (if 0 <? offset then sysc (SysLseek fd offset SEEK_SET) else mret 0);
            if pos <? 0 then
              _ ← io (pal_file_close fd);
              _ ← upd (set_restart_offset 0);
              reply FTP_REPLY_451_LOCAL_ERROR (str "Seek failed.")
            else
              _ ← reply_default FTP_REPLY_150_FILE_OK;
              err ← ftp_session_open_data_connection fuel;
              if negb (bool_decide (err = FTP_OK)) then
                _ ← io (pal_file_close fd);
                _ ← upd (set_restart_offset 0);
                reply_default FTP_REPLY_425_CANT_OPEN_DATA
              else appe_receive fd
      end
  end.

End transfer.
