(* ===== verification/FtpDispatch.v ===== *)
(** * The command table's handlers *)

From S2P Require Import Prelude CLib FtpTypes FtpPath FtpProtocol FtpCrypto.
From S2P Require Import Os PalNetwork PalFileio FtpState FtpResolve.
From S2P Require Import FtpSession FtpCommands FtpDataCmds FtpListing.
From S2P Require Import FtpTransfer.

(** The function each table entry points to. *)
Definition dispatch {W} `{OS W} (fuel : nat) (h : handler) : option bytes -> M (st ftp_session_t W) ftp_error_t :=
  match h with
  | H_USER => cmd_USER fuel | H_PASS => cmd_PASS fuel | H_QUIT => cmd_QUIT fuel
  | H_NOOP => cmd_NOOP fuel | H_CWD => cmd_CWD fuel | H_CDUP => cmd_CDUP fuel
  | H_PWD => cmd_PWD fuel | H_LIST => cmd_LIST fuel | H_NLST => cmd_NLST fuel
  | H_MLSD => cmd_MLSD fuel | H_MLST => cmd_MLST fuel | H_RETR => cmd_RETR fuel
  | H_STOR => cmd_STOR fuel | H_APPE => cmd_APPE fuel | H_REST => cmd_REST fuel
  | H_DELE => cmd_DELE fuel | H_RMD => cmd_RMD fuel | H_MKD => cmd_MKD fuel
  | H_RNFR => cmd_RNFR fuel | H_RNTO => cmd_RNTO fuel | H_CPFR => cmd_CPFR fuel
  | H_CPTO => cmd_CPTO fuel | H_COPY => cmd_COPY fuel | H_PORT => cmd_PORT fuel
  | H_PASV => cmd_PASV fuel | H_EPSV => cmd_EPSV fuel | H_OPTS => cmd_OPTS fuel
  | H_SITE => cmd_SITE fuel | H_CLNT => cmd_CLNT fuel | H_SIZE => cmd_SIZE fuel
  | H_MDTM => cmd_MDTM fuel | H_STAT => cmd_STAT fuel | H_SYST => cmd_SYST fuel
  | H_FEAT => cmd_FEAT fuel | H_HELP => cmd_HELP fuel | H_TYPE => cmd_TYPE fuel
  | H_MODE => cmd_MODE fuel | H_STRU => cmd_STRU fuel | H_AUTH => cmd_AUTH fuel
  end.
