(* ===== verification/FtpInv.v ===== *)
(** * Invariants of a session over all its functions

    Every function of the session that names no path keeps every invariant
    made of a property of the stored paths and a property of the requests
    that accepts those naming no path; the functions that do name one keep it
    if the invariant accepts that request.  The confinement, authentication
    and upload theorems are instances. *)

From S2P Require Import Prelude CLib FtpTypes FtpPath FtpProtocol FtpCrypto.
From S2P Require Import Os PalNetwork PalFileio FtpState FtpResolve.
From S2P Require Import FtpSession FtpCommands FtpDataCmds FtpListing.
From S2P Require Import FtpTransfer.

(** A property of the paths a session stores: root, working directory,
    rename source, copy source. *)
Definition ses_paths (P : bytes -> bytes -> bytes -> bytes -> Prop) (s : ftp_session_t) : Prop :=
  P (root_path s) (cwd s) (rename_from s) (copy_from s).

(** A property of requests that accepts those that act on no path. *)
Class Quiet (K : event -> Prop) : Prop := quiet : forall e, fs_paths e = [] -> K e.

(** Automation: walk through a computation, applying the rule for each
    construct; function lemmas come from the [hoare] database. *)
Ltac hstep :=
  lazymatch goal with
  | |- hoare _ (mret _) _ => apply hoare_ret
  | |- hoare _ diverge _ => apply hoare_diverge
  | |- hoare _ (mret _ ≫= _) _ => apply hoare_ret_bind
  | |- hoare _ (_ ≫= _) _ =>
      first [ eapply hoare_bind; [solve [eauto 2 with hoare_val]|intros ? ?]
            | apply hoare_bind with (Q := fun _ => True); [|intros ? _] ]
  | |- hoare (inv _ _) (upd _) _ => apply hoare_upd; intros ? ?
  | |- hoare (inv _ _) (ask _) _ => apply hoare_ask; intros ? ?
  | |- hoare (inv _ _) (sysc _) _ => apply hoare_sysc; intros ?
  | |- hoare (inv _ _) (log_line _) _ => apply hoare_sysc; intros ?
  | |- hoare (io_inv _) (sys_call _) _ => apply hoare_sys_call; intros ?
  | |- hoare (io_inv _) get_errno _ => apply hoare_get_errno
  | |- hoare (io_inv _) (set_errno _) _ => apply hoare_set_errno
  | |- hoare _ (if _ then _ else _) _ => hoare_if
  | |- hoare _ (match _ with _ => _ end) _ => hoare_if
  | |- hoare _ (let '(_, _) := _ in _) _ => hoare_if
  | |- hoare (inv _ _) (io _) _ => apply hoare_io
  end.

Create HintDb hoare_val.

Ltac hside :=
  try solve [ exact I | assumption | done
            | by apply quiet | eauto 6 with hoare
            | repeat case_match; done ].

Ltac hgo := repeat (first [ solve [eauto 2 with hoare] | hstep ]); hside.

Section generic.
Context {W : Type} {os : OS W} (fuel : nat).
Context (P : bytes -> bytes -> bytes -> bytes -> Prop) (K : event -> Prop) {HK : Quiet K}.
Abbreviation J := (ses_paths P).
Abbreviation keeps m := (hoare (inv (W := W) J K) m (fun _ => True)).
Abbreviation io_keeps m := (hoare (io_inv (W := W) K) m (fun _ => True)).

Lemma io_set_timeouts fd a b : io_keeps (pal_socket_set_timeouts fd a b).
Proof. unfold pal_socket_set_timeouts. hgo. Qed.

Lemma io_send_all_loop n fd rest len : io_keeps (send_all_loop n fd rest len).
Proof. revert rest. induction n as [|n IH]; intros rest; simpl; hgo; apply IH. Qed.

#[local] Hint Resolve io_set_timeouts io_send_all_loop : hoare.

Lemma io_send_all fd buf : io_keeps (pal_send_all fuel fd buf).
Proof. unfold pal_send_all. hgo. Qed.

Lemma io_configure_data fd : io_keeps (pal_socket_configure_data fd).
Proof. unfold pal_socket_configure_data. hgo. Qed.

Lemma io_cork fd : io_keeps (pal_socket_cork fd).
Proof. unfold pal_socket_cork. hgo. Qed.

Lemma io_uncork fd : io_keeps (pal_socket_uncork fd).
Proof. unfold pal_socket_uncork. hgo. Qed.

Lemma io_reuseaddr fd : io_keeps (pal_socket_set_reuseaddr fd).
Proof. unfold pal_socket_set_reuseaddr. hgo. Qed.

Lemma io_primary_ip size : io_keeps (pal_network_get_primary_ip size).
Proof. unfold pal_network_get_primary_ip. hgo. Qed.

Lemma io_path_exists p : io_keeps (pal_path_exists p).
Proof. unfold pal_path_exists. hgo. Qed.

Lemma io_is_directory p : io_keeps (pal_path_is_directory p).
Proof. unfold pal_path_is_directory. hgo. Qed.

Lemma io_file_close fd : io_keeps (pal_file_close fd).
Proof. unfold pal_file_close. hgo. Qed.

Lemma io_file_stat p : io_keeps (pal_file_stat p).
Proof. unfold pal_file_stat. hgo. Qed.

Lemma io_file_fstat fd : io_keeps (pal_file_fstat fd).
Proof. unfold pal_file_fstat. hgo. Qed.

Lemma io_file_read fd n : io_keeps (pal_file_read fd n).
Proof. unfold pal_file_read. hgo. Qed.

Lemma io_write_all_loop n fd rest count : io_keeps (write_all_loop n fd rest count).
Proof. revert rest. induction n as [|n IH]; intros rest; simpl; hgo; apply IH. Qed.

Lemma io_file_seek fd off whence : io_keeps (pal_file_seek fd off whence).
Proof. unfold pal_file_seek. hgo. Qed.

Lemma io_sendfile sfd ffd off count : io_keeps (pal_sendfile sfd ffd off count).
Proof. unfold pal_sendfile. hgo. Qed.

Lemma io_wait_fd_loop n fd w t : io_keeps (wait_fd_loop n fd w t).
Proof. induction n as [|n IH]; simpl; hgo. Qed.

Lemma io_monotonic_ns : io_keeps monotonic_ns.
Proof. unfold monotonic_ns. hgo. Qed.

#[local] Hint Resolve io_send_all io_configure_data io_cork io_uncork io_reuseaddr io_primary_ip
  io_path_exists io_is_directory io_file_close io_file_stat io_file_fstat io_file_read
  io_write_all_loop io_file_seek io_sendfile io_wait_fd_loop io_monotonic_ns : hoare.

Lemma io_write_all fd buf : io_keeps (pal_file_write_all fuel fd buf).
Proof. unfold pal_file_write_all. hgo. Qed.

Lemma io_wait_fd_ready fd w t : io_keeps (wait_fd_ready fuel fd w t).
Proof. unfold wait_fd_ready. hgo. Qed.

Lemma io_vfs_stat p : io_keeps (vfs_stat p).
Proof. unfold vfs_stat. hgo. Qed.

Lemma io_vfs_close node : io_keeps (vfs_close node).
Proof. unfold vfs_close. hgo. Qed.

Lemma io_vfs_set_offset node off : io_keeps (vfs_set_offset node off).
Proof. unfold vfs_set_offset. hgo. Qed.

Lemma io_vfs_read node len : io_keeps (vfs_read node len).
Proof. unfold vfs_read. hgo. Qed.

(** The operations on a path need the trace part to accept their request. *)

Lemma io_file_open p flags mode :
  (forall r, K (Ev (SysOpen p flags mode) r)) -> io_keeps (pal_file_open (Some p) flags mode).
Proof. intros Hp. unfold pal_file_open. hgo. Qed.

#[local] Hint Resolve io_write_all io_wait_fd_ready io_vfs_stat io_vfs_close io_vfs_set_offset
  io_vfs_read io_file_open : hoare.

Lemma io_vfs_open p :
  (forall r, K (Ev (SysOpen p O_RDONLY 0) r)) -> io_keeps (vfs_open (Some p)).
Proof. intros Hp. unfold vfs_open. hgo. Qed.

Lemma io_file_delete p :
  (forall r, K (Ev (SysUnlink p) r)) -> io_keeps (pal_file_delete (Some p)).
Proof. intros Hp. unfold pal_file_delete. hgo. Qed.

Lemma io_file_rename p q :
  (forall r, K (Ev (SysRename p q) r)) -> io_keeps (pal_file_rename (Some p) (Some q)).
Proof. intros Hp. unfold pal_file_rename. hgo. Qed.

Lemma io_dir_create p mode :
  (forall r, K (Ev (SysMkdir p mode) r)) -> io_keeps (pal_dir_create (Some p) mode).
Proof. intros Hp. unfold pal_dir_create. hgo. Qed.

Lemma io_dir_remove p :
  (forall r, K (Ev (SysRmdir p) r)) -> io_keeps (pal_dir_remove (Some p)).
Proof. intros Hp. unfold pal_dir_remove. hgo. Qed.

#[local] Hint Resolve io_vfs_open io_file_delete io_file_rename io_dir_create io_dir_remove :
  hoare.

Lemma keeps_send_reply code msg : keeps (ftp_session_send_reply fuel code msg).
Proof. unfold ftp_session_send_reply. hgo. Qed.

Lemma keeps_multiline_loop fd code lines : keeps (multiline_loop fuel fd code lines).
Proof. induction lines as [|l lines IH]; cbn [multiline_loop]; hgo. Qed.

#[local] Hint Resolve keeps_send_reply keeps_multiline_loop : hoare.

Lemma keeps_multiline code lines : keeps (ftp_session_send_multiline_reply fuel code lines).
Proof. unfold ftp_session_send_multiline_reply. hgo. Qed.

Lemma ses_ok_refill rate cap now s : J s -> J (rl_refill rate cap now s).
Proof. intros Hs. unfold rl_refill. by case_if. Qed.

#[local] Hint Resolve ses_ok_refill : hoare.

Lemma keeps_rl_wait n rate cap need : keeps (rl_wait n rate cap need).
Proof. induction n as [|n IH]; cbn [rl_wait]; hgo. Qed.

#[local] Hint Resolve keeps_multiline keeps_rl_wait : hoare.

Lemma keeps_rate_limit n : keeps (rate_limit fuel n).
Proof. unfold rate_limit, rate_limit_with. hgo. Qed.

Lemma keeps_open_finish : keeps open_data_finish.
Proof. unfold open_data_finish. hgo. Qed.

#[local] Hint Resolve keeps_rate_limit keeps_open_finish : hoare.

Lemma keeps_open_active : keeps open_data_active.
Proof. unfold open_data_active. hgo. Qed.

Lemma keeps_open_passive : keeps (open_data_passive fuel).
Proof. unfold open_data_passive. hgo. Qed.

#[local] Hint Resolve keeps_open_active keeps_open_passive : hoare.

Lemma keeps_open_data : keeps (ftp_session_open_data_connection fuel).
Proof. unfold ftp_session_open_data_connection. hgo. Qed.

Lemma keeps_close_data : keeps ftp_session_close_data_connection.
Proof. unfold ftp_session_close_data_connection. hgo. Qed.

Lemma keeps_note_sent n : keeps (note_sent n).
Proof. unfold note_sent. hgo. Qed.

Lemma keeps_send_crypto_loop n fd src total : keeps (send_crypto_loop fuel n fd src total).
Proof.
  revert src total. induction n as [|n IH]; intros src total; cbn [send_crypto_loop]; hgo; apply IH.
Qed.

#[local] Hint Resolve keeps_open_data keeps_close_data keeps_note_sent keeps_send_crypto_loop :
  hoare.

Lemma keeps_send_data buf : keeps (ftp_session_send_data fuel buf).
Proof. unfold ftp_session_send_data. hgo. Qed.

Lemma keeps_recv_data len : keeps (ftp_session_recv_data fuel len).
Proof. unfold ftp_session_recv_data. hgo. Qed.

Lemma keeps_read_loop n out tl size : keeps (read_command_loop fuel n out tl size).
Proof.
  revert out tl. induction n as [|n IH]; intros out tl; cbn [read_command_loop]; hgo; apply IH.
Qed.

#[local] Hint Resolve keeps_send_data keeps_recv_data keeps_read_loop : hoare.

Lemma keeps_read_command size : keeps (ftp_session_read_command fuel size).
Proof. unfold ftp_session_read_command. hgo. Qed.

Lemma keeps_cleanup : keeps ftp_session_cleanup.
Proof. unfold ftp_session_cleanup. hgo. Qed.

#[local] Hint Resolve keeps_read_command keeps_cleanup : hoare.

Lemma keeps_send_control_raw p : keeps (send_control_raw fuel p).
Proof. unfold send_control_raw. hgo. Qed.

Lemma keeps_mlsx_line vst name sp size : keeps (mlsx_format_line vst name sp size).
Proof. unfold mlsx_format_line, mlsx_format_modify_time. hgo. Qed.

#[local] Hint Resolve keeps_send_control_raw keeps_mlsx_line : hoare.

Lemma keeps_copy_flag : keeps read_copy_in_progress.
Proof. unfold read_copy_in_progress. hgo. Qed.

#[local] Hint Resolve keeps_copy_flag : hoare.

Lemma keeps_nonce n :
  (forall r, K (Ev (SysOpen (str "/dev/urandom") O_RDONLY 0) r)) -> keeps (generate_nonce n).
Proof. intros Hk. unfold generate_nonce. hgo. Qed.

#[local] Hint Resolve keeps_nonce : hoare.

Lemma keeps_entry_stat path name d : keeps (entry_stat path name d).
Proof. unfold entry_stat. hgo. Qed.

#[local] Hint Resolve keeps_entry_stat : hoare.

Lemma keeps_listing_line path name d l : keeps (listing_line path name d l).
Proof. unfold listing_line. hgo. Qed.

#[local] Hint Resolve keeps_listing_line : hoare.

Lemma keeps_listing_loop n dir path l : keeps (listing_loop fuel n dir path l).
Proof. induction n as [|n IH]; cbn [listing_loop]; hgo. Qed.

Lemma keeps_mlsd_loop n dir path : keeps (mlsd_loop fuel n dir path).
Proof. induction n as [|n IH]; cbn [mlsd_loop]; hgo. Qed.

#[local] Hint Resolve keeps_listing_loop keeps_mlsd_loop : hoare.

Lemma keeps_data_sockaddr ip port : keeps (set_data_sockaddr ip port).
Proof. unfold set_data_sockaddr. hgo. Qed.

Lemma keeps_local_ip : keeps passive_local_ip.
Proof. unfold passive_local_ip. hgo. Qed.

#[local] Hint Resolve keeps_data_sockaddr keeps_local_ip : hoare.

Lemma keeps_passive_listen : keeps (passive_listen fuel).
Proof. unfold passive_listen. hgo. Qed.

#[local] Hint Resolve keeps_passive_listen : hoare.

Lemma keeps_retr_sent t a b : keeps (retr_sent t a b).
Proof. unfold retr_sent. hgo. Qed.

Lemma keeps_sendfile_retry n r a b c d : keeps (sendfile_retry n r a b c d).
Proof. revert r c. induction n as [|n IH]; intros r c; cbn [sendfile_retry]; hgo; apply IH. Qed.

Lemma keeps_retr_seek t b : keeps (retr_seek t b).
Proof. unfold retr_seek. hgo. Qed.

#[local] Hint Resolve keeps_retr_sent keeps_sendfile_retry keeps_retr_seek : hoare.

Lemma keeps_burst n dfd t b : keeps (sendfile_burst fuel n dfd t b).
Proof. revert t b. induction n as [|n IH]; intros t b; cbn [sendfile_burst]; hgo; apply IH. Qed.

Lemma keeps_read_phase n t c f : keeps (read_phase fuel n t c f).
Proof. revert t c. induction n as [|n IH]; intros t c; cbn [read_phase]; hgo; apply IH. Qed.

#[local] Hint Resolve keeps_burst keeps_read_phase : hoare.

Lemma keeps_retr_loop n t b f : keeps (retr_loop fuel n t b f).
Proof. revert t b. induction n as [|n IH]; intros t b; cbn [retr_loop]; hgo; apply IH. Qed.

#[local] Hint Resolve keeps_retr_loop : hoare.

Lemma keeps_retr_transfer p node off size : keeps (retr_transfer fuel p node off size).
Proof. unfold retr_transfer. hgo. Qed.

#[local] Hint Resolve keeps_retr_transfer : hoare.

Lemma keeps_retr_open p node : keeps (retr_open fuel p node).
Proof. unfold retr_open. hgo. Qed.

#[local] Hint Resolve keeps_retr_open : hoare.

Lemma keeps_recv_write n fd total : keeps (recv_write_loop fuel n fd total).
Proof. revert total. induction n as [|n IH]; intros total; cbn [recv_write_loop]; hgo; apply IH. Qed.

Lemma keeps_prod_step x : keeps (prod_step fuel x).
Proof. unfold prod_step. hgo. Qed.

Lemma keeps_writer_step fd x : keeps (writer_step fuel fd x).
Proof. unfold writer_step. hgo. Qed.

#[local] Hint Resolve keeps_recv_write keeps_prod_step keeps_writer_step : hoare.

Lemma keeps_pipe_run n fd x : keeps (pipe_run fuel n fd x).
Proof. revert x. induction n as [|n IH]; intros x; cbn [pipe_run]; hgo; apply IH. Qed.

#[local] Hint Resolve keeps_pipe_run : hoare.

Lemma keeps_stor_receive fd : keeps (stor_receive fuel fd).
Proof. unfold stor_receive, stor_double. hgo. Qed.

Lemma keeps_stor_discard b p :
  (b = true -> forall r, K (Ev (SysUnlink p) r)) -> keeps (stor_discard b p).
Proof. intros Hp. unfold stor_discard. destruct b; hgo. Qed.

#[local] Hint Resolve keeps_stor_receive keeps_stor_discard : hoare.

Lemma keeps_appe_receive fd : keeps (appe_receive fuel fd).
Proof. unfold appe_receive. hgo. Qed.

#[local] Hint Resolve keeps_appe_receive : hoare.

End generic.

#[export] Hint Resolve io_set_timeouts io_send_all_loop io_send_all io_configure_data io_cork
  io_uncork io_reuseaddr io_primary_ip io_path_exists io_is_directory io_file_close io_file_stat
  io_file_fstat io_file_read io_write_all_loop io_file_seek io_sendfile io_wait_fd_loop
  io_monotonic_ns io_write_all io_wait_fd_ready io_vfs_stat io_vfs_close io_vfs_set_offset
  io_vfs_read io_file_open io_vfs_open io_file_delete io_file_rename io_dir_create io_dir_remove
  keeps_send_reply keeps_multiline_loop keeps_multiline ses_ok_refill keeps_rl_wait
  keeps_rate_limit keeps_open_finish keeps_open_active keeps_open_passive keeps_open_data
  keeps_close_data keeps_note_sent keeps_send_crypto_loop keeps_send_data keeps_recv_data
  keeps_read_loop keeps_read_command keeps_cleanup keeps_send_control_raw keeps_mlsx_line
  keeps_copy_flag keeps_nonce keeps_entry_stat keeps_listing_line keeps_listing_loop
  keeps_mlsd_loop keeps_data_sockaddr keeps_local_ip keeps_passive_listen keeps_retr_sent
  keeps_sendfile_retry keeps_retr_seek keeps_burst keeps_read_phase keeps_retr_loop
  keeps_retr_transfer keeps_retr_open keeps_recv_write keeps_prod_step keeps_writer_step
  keeps_pipe_run keeps_stor_receive keeps_stor_discard keeps_appe_receive : hoare.
#[export] Hint Extern 0 (Quiet _) => apply _ : hoare.
