(* ===== verification/FtpConfine.v ===== *)
(** * Confinement: every command stays inside the root

    The invariant of a session thread over all its commands, for every
    behaviour of the operating system: the working directory and the pending
    rename source stay inside the root, and every request that opens,
    creates, removes, renames, lists or copies names a path inside the root
    (the two exceptions are named by [allowed]). *)

From S2P Require Import Prelude CLib FtpTypes FtpPath FtpProtocol FtpCrypto.
From S2P Require Import Os PalNetwork PalFileio FtpState FtpResolve.
From S2P Require Import FtpSession FtpCommands FtpDataCmds FtpListing.
From S2P Require Import FtpTransfer FtpDispatch FtpInv.

(** A canonical path at or below the root that fits its buffer. *)
Definition inside (root p : bytes) : Prop :=
  canonical p /\ strlen p < FTP_PATH_MAX /\ below root p.

(** Session part: the root is fixed; the stored paths are inside it; the
    copy source is kept as the client wrote it. *)
Definition paths_ok (root root_path cwd rename_from copy_from : bytes) : Prop :=
  root_path = root /\ inside root cwd /\
  (rename_from = [] \/ inside root rename_from) /\ no_nul copy_from.

Definition ses_ok (root : bytes) : ftp_session_t -> Prop := ses_paths (paths_ok root).

(** The paths a session may act on: inside the root; the random device; the
    temporary file next to an upload whose target is inside the root. *)
Definition allowed (root p : bytes) : Prop :=
  inside root p \/ p = str "/dev/urandom" \/ exists q, inside root q /\ p = stor_tmp_path q.

(** A command argument is a C string. *)
Definition arg_ok (args : option bytes) : Prop :=
  match args with Some a => no_nul a | None => True end.

Definition ev_ok (root : bytes) (e : event) : Prop := Forall (allowed root) (fs_paths e).

#[export] Instance ev_ok_quiet root : Quiet (ev_ok root).
Proof. intros e He. unfold ev_ok. rewrite He. constructor. Qed.

Section confine.
Context {W : Type} {os : OS W} {Hrp : RealpathOS W} (fuel : nat) (root : bytes).
Hypothesis Hroot : canonical root.
Abbreviation J := (ses_paths (paths_ok root)).
Abbreviation K := (ev_ok root).
Abbreviation keeps m := (hoare (inv (W := W) J K) m (fun _ => True)).
Abbreviation io_keeps m := (hoare (io_inv (W := W) K) m (fun _ => True)).

(** ** Requests and stored paths *)

Lemma ev_ok_one e p : fs_paths e = [p] -> allowed root p -> K e.
Proof. intros He Hp. unfold ev_ok. rewrite He. by apply Forall_singleton. Qed.

Lemma ev_ok_two e p q : fs_paths e = [p; q] -> allowed root p -> allowed root q -> K e.
Proof. intros He Hp Hq. unfold ev_ok. rewrite He. by apply Forall_cons_2, Forall_singleton. Qed.

Lemma urandom_allowed : allowed root (str "/dev/urandom").
Proof. right. by left. Qed.

#[local] Hint Extern 2 (ev_ok _ _) =>
  first [eapply ev_ok_one; [reflexivity|] | eapply ev_ok_two; [reflexivity| |]] : hoare.
#[local] Hint Resolve urandom_allowed : hoare.

Lemma within_allowed p : inside root p -> allowed root p.
Proof. by left. Qed.

#[local] Hint Resolve within_allowed : hoare.

Lemma inside_no_nul p : inside root p -> no_nul p.
Proof. intros [Hp _]. by apply canonical_no_nul. Qed.

(** What [resolve] returns is inside the root. *)
Lemma keeps_resolve path :
  no_nul path ->
  hoare (inv (W := W) J K) (resolve (Some path)) (fun r => forall p, r = Ok p -> inside root p).
Proof.
  intros Hp. unfold resolve. eapply hoare_bind; [apply (hoare_ask J K id J); auto|].
  intros s (Hr & Hc & _). apply hoare_io. intros w Hw.
  destruct (hoare_resolve (W := W) K quiet s (Some path) FTP_PATH_MAX w Hw) as [Hw' Hin].
  split; [done|]. intros r Er p ->.
  destruct (returns_resolve s path FTP_PATH_MAX (inside_no_nul _ Hc) Hp w I) as [_ Hg].
  destruct (Hg _ Er p eq_refl) as [Hcan Hl]. split; [done|]. split; [done|].
  specialize (Hin _ Er p eq_refl). rewrite Hr in Hin.
  destruct Hroot as (rs & Er' & Hrs), Hcan as (ps & -> & Hps).
  rewrite Er' in *. by apply within_root_below.
Qed.

(** The working directory and the copy source are C strings. *)
Lemma keeps_ask_cwd : hoare (inv (W := W) J K) (ask cwd) no_nul.
Proof. apply hoare_ask. intros s (_ & Hc & _). by apply inside_no_nul. Qed.

Lemma keeps_ask_copy_from : hoare (inv (W := W) J K) (ask copy_from) no_nul.
Proof. apply hoare_ask. by intros s (_ & _ & _ & Hf). Qed.

#[local] Hint Resolve keeps_resolve keeps_ask_cwd keeps_ask_copy_from : hoare_val.
#[local] Hint Extern 1 (no_nul _) =>
  match goal with
  | H : no_nul ?x |- no_nul ?x => exact H
  | H : arg_ok _ |- _ => exact H
  | |- no_nul [] => constructor
  | H : arg_ok ?o |- no_nul (default _ ?o) => destruct o; assumption
  end : hoare_val hoare.

(** ** Commands *)

#[local] Hint Extern 1 (inside _ ?p) =>
  match goal with H : forall q, Ok p = Ok q -> inside _ q |- _ => exact (H p eq_refl) end : hoare.

Lemma ses_ok_cwd p s : inside root p -> J s -> J (set_cwd p s).
Proof. by intros Hp (Hr & _ & Hf & Hn). Qed.

Lemma ses_ok_rename p s : inside root p -> J s -> J (set_rename_from p s).
Proof. intros Hp (Hr & Hc & _ & Hn). repeat split; try done; try apply Hc. by right. Qed.

Lemma ses_ok_rename_none s : J s -> J (set_rename_from [] s).
Proof. intros (Hr & Hc & _ & Hn). repeat split; try done; try apply Hc. by left. Qed.

Lemma ses_ok_copy p s : no_nul p -> J s -> J (set_copy_from p s).
Proof. by intros Hp (Hr & Hc & Hf & _). Qed.

#[local] Hint Resolve ses_ok_copy ses_ok_cwd ses_ok_rename ses_ok_rename_none : hoare.

Lemma keeps_CWD args : arg_ok args -> keeps (cmd_CWD fuel args).
Proof. intros Ha. unfold cmd_CWD. hgo. Qed.

#[local] Hint Resolve keeps_CWD : hoare.

Lemma keeps_copy_thread p q mv :
  inside root p -> inside root q -> keeps (start_copy_thread fuel p q mv).
Proof. intros Hp Hq. unfold start_copy_thread. hgo. Qed.

#[local] Hint Resolve keeps_copy_thread : hoare.

Lemma keeps_async_copy p q mv :
  no_nul p -> no_nul q -> keeps (start_async_copy fuel p q mv).
Proof. intros Hp Hq. unfold start_async_copy. hgo. Qed.

#[local] Hint Resolve keeps_async_copy : hoare.

(** The rename source stored by RNFR is inside the root when RNTO reads it. *)
Lemma keeps_ask_rename :
  hoare (inv (W := W) J K) (ask rename_from) (fun p => p = [] \/ inside root p).
Proof. apply hoare_ask. by intros s (_ & _ & Hf & _). Qed.

#[local] Hint Resolve keeps_ask_rename : hoare_val.

Lemma keeps_RNTO args : arg_ok args -> keeps (cmd_RNTO fuel args).
Proof.
  intros Ha. unfold cmd_RNTO. hgo; (destruct H as [|H]; [done|]).
  - apply io_file_rename. intros r. eapply ev_ok_two; [done| |]; left; [done | by apply H0].
  - apply keeps_async_copy; [by apply inside_no_nul | done].
Qed.

(** ** Listings *)

#[local] Hint Resolve keeps_RNTO : hoare.

Lemma keeps_listing path l : inside root path -> keeps (send_directory_listing fuel path l).
Proof. intros Hp. unfold send_directory_listing. hgo. Qed.

#[local] Hint Resolve keeps_listing : hoare.

Lemma keeps_list_transfer path l : inside root path -> keeps (list_transfer fuel path l).
Proof. intros Hp. unfold list_transfer. hgo. Qed.

#[local] Hint Resolve keeps_list_transfer : hoare.

Lemma keeps_MLSD args : arg_ok args -> keeps (cmd_MLSD fuel args).
Proof. intros Ha. unfold cmd_MLSD. hgo. Qed.

(** ** Data-connection commands *)

#[local] Hint Resolve keeps_MLSD : hoare.

(** ** Transfers *)

Lemma keeps_RETR args : arg_ok args -> keeps (cmd_RETR fuel args).
Proof. intros Ha. unfold cmd_RETR. hgo. Qed.

#[local] Hint Resolve keeps_RETR : hoare.

Lemma tmp_allowed p : inside root p -> allowed root (stor_tmp_path p).
Proof. intros Hp. right; right. by exists p. Qed.

Lemma keeps_discard atomic tmp :
  (atomic = true -> allowed root tmp) -> keeps (stor_discard atomic tmp).
Proof. intros Ht. apply keeps_stor_discard. intros Ha r. eapply ev_ok_one; auto. Qed.

#[local] Hint Resolve keeps_discard : hoare.

Lemma keeps_stor_finish fd atomic tmp p r :
  (atomic = true -> allowed root tmp) -> inside root p ->
  keeps (stor_finish fuel fd atomic tmp p r).
Proof. intros Ht Hp. unfold stor_finish. destruct atomic; hgo. Qed.

#[local] Hint Resolve keeps_stor_finish : hoare.

Lemma keeps_stor_opened fd atomic tmp p :
  (atomic = true -> allowed root tmp) -> inside root p ->
  keeps (stor_opened fuel fd atomic tmp p).
Proof. intros Ht Hp. unfold stor_opened. hgo. Qed.

#[local] Hint Resolve keeps_stor_opened tmp_allowed : hoare.

Lemma keeps_STOR args : arg_ok args -> keeps (cmd_STOR fuel args).
Proof.
  intros Ha. unfold cmd_STOR. hgo; destruct (a1 =? 0); cbv iota; eauto 6 with hoare.
  - by apply keeps_discard.
  - apply keeps_stor_opened; [done | auto].
Qed.

#[local] Hint Resolve keeps_STOR : hoare.

Lemma keeps_APPE args : arg_ok args -> keeps (cmd_APPE fuel args).
Proof. intros Ha. unfold cmd_APPE. hgo. Qed.

#[local] Hint Resolve keeps_APPE : hoare.

Lemma no_nul_take n l : no_nul l -> no_nul (take n l).
Proof. apply Forall_take. Qed.

Lemma no_nul_drop_while f l : no_nul l -> no_nul (drop_while f l).
Proof. intros Hl. induction Hl as [|c l Hc Hl IH]; simpl; [constructor|]. case_if; [done|]. by constructor. Qed.

Lemma keeps_COPY args : arg_ok args -> keeps (cmd_COPY fuel args).
Proof.
  intros Ha. unfold cmd_COPY. hgo. apply keeps_async_copy; apply no_nul_take; [done|].
  match goal with E : drop_while _ _ = _ |- _ => rewrite <- E end.
  by apply no_nul_drop_while, Forall_drop.
Qed.

Lemma keeps_CPFR args : arg_ok args -> keeps (cmd_CPFR fuel args).
Proof. intros Ha. unfold cmd_CPFR. hgo. apply ses_ok_copy; [by apply no_nul_take | done]. Qed.

Lemma keeps_MLST args : arg_ok args -> keeps (cmd_MLST fuel args).
Proof. intros Ha. unfold cmd_MLST. destruct args as [[|c t]|]; hgo. Qed.

#[local] Hint Resolve keeps_COPY keeps_CPFR keeps_MLST : hoare.

(** ** Every handler *)

Create HintDb cmds.
#[local] Hint Unfold cmd_USER cmd_PASS cmd_QUIT cmd_NOOP cmd_CDUP cmd_PWD cmd_LIST cmd_NLST cmd_REST
  cmd_DELE cmd_RMD cmd_MKD mkd_created cmd_RNFR cmd_CPTO cmd_PORT cmd_PASV cmd_EPSV cmd_OPTS cmd_SITE cmd_CLNT
  cmd_SIZE cmd_MDTM cmd_STAT cmd_SYST cmd_FEAT cmd_HELP cmd_TYPE cmd_MODE cmd_STRU cmd_AUTH : cmds.

Lemma keeps_dispatch h args : arg_ok args -> keeps (dispatch fuel h args).
Proof.
  intros Ha. destruct h; cbn [dispatch]; auto with hoare; autounfold with cmds; hgo.
  apply keeps_CWD. by_compute.
Qed.

(** ** The command loop *)

Lemma parse_no_nul line n m c a :
  no_nul line -> ftp_parse_command_line (Some line) n m = Ok (c, a) -> arg_ok a.
Proof.
  intros Hl. unfold ftp_parse_command_line. repeat case_match; intros [= _ <-]; try done.
  - by apply no_nul_take, no_nul_drop_while, Forall_drop.
  - constructor.
Qed.

#[local] Instance handlers : Handlers W := dispatch fuel.

Lemma keeps_process_command line : no_nul line -> keeps (ftp_session_process_command fuel (Some line)).
Proof.
  intros Hl. unfold ftp_session_process_command, run_handler, handlers. hgo.
  apply keeps_dispatch.
  match goal with E : ftp_parse_command_line _ _ _ = _ |- _ => apply parse_no_nul in E as Ha; [|done] end.
  repeat case_match; done.
Qed.

Lemma keeps_session_loop n : keeps (session_loop fuel n).
Proof.
  induction n as [|n IH]; cbn [session_loop]; hgo.
  apply keeps_process_command, cstr_of_no_nul.
Qed.

#[local] Hint Resolve keeps_session_loop : hoare.

Lemma keeps_thread : keeps (ftp_session_thread fuel).
Proof. unfold ftp_session_thread. hgo. Qed.

End confine.

(** ** From the accepted connection on *)

(** What the accept loop does with a connection: initialise the session and
    run its thread. *)
Definition session_life {W} `{OS W} (fuel : nat) (fd : Z) (client_addr : sockaddr_in) (id : Z)
    (root : bytes) : M (st ftp_session_t W) unit :=
  err ← ftp_session_init fd (Some client_addr) id (Some root);
  if decide (err = FTP_OK) then ftp_session_thread (H0 := dispatch fuel) fuel else mret tt.

Section life.
Context {W : Type} {os : OS W} {Hrp : RealpathOS W} (root : bytes).
Hypothesis Hroot : canonical root.
Hypothesis Hlen : strlen root < FTP_PATH_MAX.

(** The roots a session may get: the configured one or what it resolves to. *)
Definition root_of (r : bytes) : Prop :=
  (r = root \/ exists w : W, (os_step (SysRealpath root) w).1.1 = Some r) /\
  canonical r /\ strlen r < FTP_PATH_MAX.

Definition silent (e : event) : Prop := fs_paths e = [].

Definition born (s : st ftp_session_t W) : Prop :=
  root_of (root_path (ses s)) /\ cwd (ses s) = root_path (ses s) /\
  rename_from (ses s) = [] /\ copy_from (ses s) = [] /\ Forall silent (os_trace (sysw s)).

Lemma born_intro s r :
  root_of r -> root_path (ses s) = r -> cwd (ses s) = r -> rename_from (ses s) = [] ->
  copy_from (ses s) = [] -> Forall silent (os_trace (sysw s)) -> born s.
Proof. intros Hr <- Hc Hf Hn Ht. by repeat split; try apply Hr. Qed.

(** Straight-line code that asks for no path. *)
Definition quiet {A} (m : M (sysst W) A) : Prop :=
  forall s, Forall silent (os_trace s) ->
    wp m (fun _ s' => Forall silent (os_trace s')) (fun _ => False) s.

Lemma quiet_timeouts fd a b : quiet (pal_socket_set_timeouts fd a b).
Proof.
  intros s Hs. unfold pal_socket_set_timeouts.
  repeat first [wp_step | wp_case]; cbn [os_trace]; by repeat apply Forall_cons_2.
Qed.

Lemma quiet_exists p : quiet (pal_path_exists p).
Proof.
  intros s Hs. unfold pal_path_exists.
  repeat first [wp_step | wp_case]; cbn [os_trace]; by repeat apply Forall_cons_2.
Qed.

Lemma wp_quiet {A} (m : M (sysst W) A) Q (s : st ftp_session_t W) :
  quiet m -> Forall silent (os_trace (sysw s)) ->
  (forall a w, Forall silent (os_trace w) -> Q a (St (ses s) w)) -> wp (io m) Q (fun _ => False) s.
Proof. intros Hm Hs HQ. eapply wp_io, wp_mono; [by apply Hm| |done]. eauto. Qed.

Lemma init_born fd addr id s :
  0 <= fd -> Forall silent (os_trace (sysw s)) ->
  wp (ftp_session_init fd (Some addr) id (Some root)) (fun err s' => err = FTP_OK /\ born s')
    (fun _ => False) s.
Proof.
  intros Hfd Hs. unfold ftp_session_init.
  destruct (Z.ltb_spec fd 0); [lia|]. destruct (Z.leb_spec FTP_PATH_MAX (strlen root)); [lia|].
  assert (root_of root) as Hr by (repeat split; auto).
  do 3 wp_step. apply wp_quiet; [apply quiet_timeouts|done|]. intros _ w1 Hw1. cbv beta.
  do 10 wp_step. wp_step. apply wp_quiet; [apply quiet_exists| by apply Forall_cons_2|].
  intros ex w2 Hw2. cbv beta. wp_step. eapply wp_mono with
    (Q := fun _ s' => root_of (root_path (ses s')) /\ cwd (ses s') = root_path (ses s')
                      /\ Forall silent (os_trace (sysw s'))) (B := fun _ => False); [| |done].
  - repeat first [wp_step | wp_case]; (split; [|split; [reflexivity|by repeat apply Forall_cons_2]]);
      try exact Hr.
    match goal with E : os_step (SysRealpath root) ?w = _ |- _ => 
      pose proof (realpath_canonical root w) as Hcan; rewrite E in Hcan;
      split; [right; exists w; by rewrite E | by apply Hcan] end.
  - intros _ s2 (Hr2 & Hc2 & Ht2). repeat wp_step. split; [done|].
    apply (born_intro _ _ Hr2); [done|exact Hc2|done..|]. by apply Forall_cons_2.
Qed.


End life.

