(* ===== verification/FtpUpload.v ===== *)
(** * Uploads

    The temporary file of [STOR] and what happens to the destination. *)

From S2P Require Import Prelude CLib FtpTypes FtpPath FtpProtocol FtpCrypto.
From S2P Require Import Os PalNetwork PalFileio FtpState FtpResolve.
From S2P Require Import FtpSession FtpCommands FtpTransfer FtpDispatch FtpInv.
From S2P Require Import FtpConfine.

(** ** The temporary file of an upload *)

Lemma snprintf_fits size s : strlen s < size -> snprintf_buf size s = s.
Proof. intros Hl. unfold snprintf_buf, strlen in *. apply take_ge. lia. Qed.

Lemma stor_tmp_render ds c :
  SLASH ∉ c -> strlen (render (ds ++ [c])) + 11 < FTP_PATH_MAX ->
  stor_tmp_path (render (ds ++ [c])) = render (ds ++ [str ".zftpd.tmp." ++ c]).
Proof.
  intros Hc Hl. rewrite !concat_comps_app in *. unfold stor_tmp_path. rewrite strrchr_app by done.
  set (pre := concat (map (cons SLASH) ds)) in *.
  assert (drop (length pre + 1) (pre ++ SLASH :: c) = c) as ->.
  { rewrite cons_middle, app_assoc. apply drop_app_length'. by rewrite length_app. }
  rewrite take_app_length. apply snprintf_fits. unfold strlen in *. rewrite !length_app in *. simpl in *. lia.
Qed.

Lemma good_tmp c : good_comp c -> good_comp (str ".zftpd.tmp." ++ c).
Proof.
  intros (Hne & Hs & _ & _ & Hn). split; [discriminate|].
  split; [|split; [discriminate|split; [discriminate|]]].
  - rewrite not_elem_of_app. split; [by_compute | done].
  - apply no_nul_app. split; [by_compute | done].
Qed.

Lemma below_render rs ps :
  Forall good_comp rs -> Forall good_comp ps -> below (render rs) (render ps) <-> exists qs, ps = rs ++ qs.
Proof.
  intros Hr Hp. split.
  - intros (rs' & qs & Er & Ep & Hr' & Hq). apply render_inj in Er as <-; [|done..].
    apply render_inj in Ep; [by exists qs|done|by apply Forall_app].
  - intros (qs & ->). apply Forall_app in Hp as [_ Hq]. by exists rs, qs.
Qed.

(** The temporary file of an upload stays inside the root exactly when the
    upload's target is not the root itself.  [STOR] of the root directory's
    own name creates and truncates a file in the root's parent directory. *)
Theorem stor_tmp_inside_iff root q :
  canonical root -> inside root q -> strlen q + 11 < FTP_PATH_MAX ->
  below root (stor_tmp_path q) <-> q <> root \/ root = str "/".
Proof.
  intros Hroot (_ & _ & (rs & ps & -> & -> & Hr & Hp)) Hl.
  destruct (decide (ps = [])) as [->|Hne].
  - rewrite app_nil_r in *. destruct (decide (rs = [])) as [->|Hne].
    { split; [by right|]. intros _. by exists [], [str ".zftpd.tmp."]; repeat split; try by_compute. }
    destruct (exists_last Hne) as (ds & c & ->). apply Forall_app in Hr as [Hd Hc'].
    pose proof (Forall_inv Hc') as Hc. rewrite stor_tmp_render by (apply Hc || done).
    rewrite below_render; [|apply Forall_app; auto using Forall_singleton..]; [|split; [done|]; apply Forall_singleton, good_tmp, Hc].
    split.
    + intros (qs & Eq). rewrite <- app_assoc in Eq. apply app_inv_head in Eq.
      simpl in Eq. injection Eq as Ec _. apply (f_equal length) in Ec. simpl in Ec. lia.
    + intros [?|E]; [done|]. apply (render_inj _ []) in E; [by destruct ds| |constructor].
      by apply Forall_app.
  - destruct (exists_last Hne) as (ds & c & ->). rewrite app_assoc in *. apply Forall_app in Hp as [Hd Hc'].
    pose proof (Forall_inv Hc') as Hc. rewrite stor_tmp_render by (apply Hc || done).
    split; [intros _; left|].
    + intros E. apply render_inj in E; [|auto using Forall_app_2..|done].
      apply (f_equal length) in E. rewrite !length_app in E. simpl in E. lia.
    + intros _. apply below_render; [done| |exists (ds ++ [str ".zftpd.tmp." ++ c]); by rewrite app_assoc].
      repeat apply Forall_app_2; try done. apply Forall_singleton, good_tmp, Hc.
Qed.

Lemma stor_tmp_inside_iff_witness :
  below (str "/srv") (stor_tmp_path (str "/srv/a"))
  <-> str "/srv/a" <> str "/srv" \/ str "/srv" = str "/".
Proof.
  apply (stor_tmp_inside_iff (str "/srv") (str "/srv/a")).
  - exists [str "srv"]. split; [reflexivity | by_compute].
  - split; [exists [str "srv"; str "a"]; split; [reflexivity | by_compute] |].
    split; [by_compute|]. exists [str "srv"], [str "a"]. repeat split; by_compute.
  - by_compute.
Defined.

(** ** What is received is what is written *)

(** The plaintext of a received byte string, and the context that decrypts
    what comes after [k] bytes of it: no encryption, or the stream of a key
    and nonce from a position on. *)
Definition cipher : Type := option (list Z * nat).

Definition decode (cph : cipher) (r : bytes) : bytes :=
  match cph with None => r | Some (base, n) => stream_xor base n r end.

Definition crypto_at (cph : cipher) (k : nat) (ctx : ftp_crypto_ctx_t) : Prop :=
  match cph with None => cc_active ctx = 0 | Some (base, n) => at_pos base (n + k) ctx end.

(** Decrypting one more buffer, as [ftp_session_recv_data] does it. *)
Lemma decode_step cph r b ctx :
  crypto_at cph (length r) ctx ->
  let out := if negb (cc_active ctx =? 0) then ftp_crypto_xor ctx b else (b, ctx) in
  decode cph (r ++ b) = decode cph r ++ out.1 /\ crypto_at cph (length (r ++ b)) out.2 /\
  length out.1 = length b.
Proof.
  intros Hc. destruct cph as [[base n]|]; simpl in *.
  - pose proof Hc as (_ & _ & Ha & _). rewrite Ha. simpl.
    destruct (crypto_xor_loop_stream (length b) base (n + length r) ctx b (le_n _) Hc) as [H1 H2].
    unfold ftp_crypto_xor. rewrite H1, stream_xor_app, length_app, Nat.add_assoc.
    split; [done|]. split; [done|]. unfold stream_xor.
    rewrite length_zip_with, length_map, length_seq. lia.
  - rewrite Hc. done.
Qed.

Section integrity.
Context {W : Type} {os : OS W} {Hos : SaneOS W} (fuel : nat).
Context (dfd fd : Z) (cph : cipher) (old : list event).

(** Since trace [old]: [r] was received, [w] written, [eof] the end seen. *)
Definition moved (r w : bytes) (eof : bool) (s : sysst W) : Prop :=
  exists new, os_trace s = new ++ old /\ recv_on dfd new = r /\ sent_on fd new = w /\
    eof_on dfd new = eof.

(** The same with the session: [d] is the plaintext received. *)
Definition flow (d w : bytes) (eof : bool) (s : st ftp_session_t W) : Prop :=
  exists r, moved r w eof (sysw s) /\ d = decode cph r /\ data_fd (ses s) = dfd /\
    crypto_at cph (length r) (crypto (ses s)).

Lemma moved_step r w eof s s' e :
  moved r w eof s -> os_trace s' = e :: os_trace s ->
  moved (r ++ event_received dfd e) (w ++ event_sent fd e) (event_eof dfd e || eof) s'.
Proof.
  intros (new & Ht & <- & <- & <-) Ht'. exists (e :: new). by rewrite Ht', Ht.
Qed.

(** An event that moves no data. *)
Lemma moved_quiet r w eof s s' e :
  moved r w eof s -> os_trace s' = e :: os_trace s ->
  event_received dfd e = [] -> event_sent fd e = [] -> event_eof dfd e = false -> moved r w eof s'.
Proof.
  intros Hm Ht Er Es Ee. pose proof (moved_step _ _ _ _ _ _ Hm Ht) as H.
  by rewrite Er, Es, Ee, !app_nil_r in H.
Qed.

(** The build modelled has no rate limit. *)
Lemma rate_limit_off n : rate_limit (W := W) fuel n = mret tt.
Proof. unfold rate_limit, rate_limit_with. by case_if. Qed.

Lemma recv_data_flow d w eof len s :
  flow d w eof s ->
  wp (ftp_session_recv_data fuel len)
    (fun r s' => match r with
                 | inl _ => flow d w eof s'
                 | inr b => flow (d ++ b) w (bool_decide (b = []) || eof) s'
                 end) (fun _ => False) s.
Proof.
  intros (r & Hm & -> & Hf & Hc). unfold ftp_session_recv_data.
  wp_case; [by apply wp_ret; exists r|]. wp_step. wp_step. wp_case; [by apply wp_ret; exists r|].
  wp_step. wp_step. pose proof (moved_step _ _ _ _
    (SysSt w0 (if e =? 0 then os_errno (sysw s) else e)
       (Ev (SysRecv (data_fd (ses s)) len) r0 :: os_trace (sysw s))) _ Hm eq_refl) as Hm'.
  simpl in Hm'. rewrite Hf, Z.eqb_refl, app_nil_r in Hm'. rewrite Hf.
  destruct r0 as [[|x b]|]; simpl in Hm'; rewrite ?app_nil_r in Hm'.
  - apply wp_ret. exists r. by rewrite app_nil_r.
  - wp_step. wp_step. destruct (decode_step cph r (x :: b) _ Hc) as (E1 & E2 & E3).
    cbn [ses]. destruct (if negb _ then _ else _) as [b' ctx']. simpl in E1, E2, E3.
    rewrite rate_limit_off. repeat wp_step. exists (r ++ x :: b).
    rewrite E1, bool_decide_false by (by intros ->). split; [|done].
    by eapply moved_quiet; [exact Hm'|..].
  - apply wp_ret. by exists r.
Qed.

Lemma write_loop_flow n rest count r w eof s :
  moved r w eof s ->
  wp (write_all_loop n fd rest count)
    (fun res s' => (res = count /\ moved r (w ++ rest) eof s') \/
                   (res = -1 /\ os_errno s' <> 0)) (fun _ => True) s.
Proof.
  revert rest w s. induction n as [|n IH]; intros rest w s Hm; [done|].
  cbn [write_all_loop]. destruct rest as [|x rest']; [apply wp_ret; left; by rewrite app_nil_r|].
  set (rest := x :: rest'). clearbody rest. set (chunk := if _ <? _ then _ else _).
  wp_step. wp_step. rename H into E.
  pose proof (moved_step _ _ _ _
    (SysSt w0 (if e =? 0 then os_errno s else e)
       (Ev (SysWrite fd (take (Z.to_nat chunk) rest)) r0 :: os_trace s)) _ Hm eq_refl) as Hm'.
  simpl in Hm'. rewrite Z.eqb_refl, app_nil_r in Hm'. simpl in Hm'.
  apply write_le in E as Hn. unfold strlen in Hn. rewrite length_take in Hn. wp_case.
  - eapply wp_mono; [apply IH; exact Hm'| |done].
    intros res s' [[-> Hs]|]; [|by right]. left. split; [done|].
    rewrite take_take, <- app_assoc in Hs. replace (_ `min` _)%nat with (Z.to_nat r0) in Hs by lia.
    by rewrite take_drop in Hs.
  - rewrite app_nil_r in Hm'. wp_case.
    + repeat wp_step. by right.
    + wp_step. wp_step. zbool. pose proof (write_errno _ _ _ _ _ _ E ltac:(lia)) as He.
      destruct (Z.eqb_spec e 0); [done|]. wp_case; [by apply IH|]. apply wp_ret. by right.
Qed.

Lemma write_all_flow b r w eof s :
  moved r w eof s ->
  wp (pal_file_write_all fuel fd b)
    (fun res s' => if res =? strlen b then moved r (w ++ b) eof s' else os_errno s' <> 0)
    (fun _ => True) s.
Proof.
  intros Hm. unfold pal_file_write_all. wp_case.
  - repeat wp_step. unfold strlen. by destruct (Z.eqb_spec (-1) (Z.of_nat (length b))); [lia|].
  - eapply wp_mono; [by apply write_loop_flow| |done]. intros res s' [[-> Hs]|[-> He]].
    + by rewrite Z.eqb_refl.
    + unfold strlen. by destruct (Z.eqb_spec (-1) (Z.of_nat (length b))); [lia|].
Qed.

(** The clock and the activity stamp move no data. *)
Lemma flow_activity d w eof s now o e :
  flow d w eof s ->
  flow d w eof (St (set_last_activity now (ses s)) (SysSt o e (Ev SysTime now :: os_trace (sysw s)))).
Proof.
  intros (r & Hm & Hd & Hf & Hc). exists r. split; [|done]. by eapply moved_quiet; [exact Hm|..].
Qed.

Lemma flow_quiet d w eof s e o err :
  flow d w eof s ->
  event_received dfd e = [] -> event_sent fd e = [] -> event_eof dfd e = false ->
  flow d w eof (St (ses s) (SysSt o err (e :: os_trace (sysw s)))).
Proof.
  intros (r & Hm & Hr) E1 E2 E3. exists r. split; [|done]. by eapply moved_quiet; [exact Hm|..].
Qed.

Lemma recv_write_flow n total d eof s :
  flow d d eof s ->
  wp (recv_write_loop fuel n fd total)
    (fun r s' => rr_ok r = true -> exists d, flow d d true s') (fun _ => True) s.
Proof.
  revert total d eof s. induction n as [|n IH]; intros total d eof s Hs; [done|].
  cbn [recv_write_loop]. wp_step.
  eapply wp_mono; [by apply recv_data_flow| |done]. intros [c|b] s1 Hs1; cbv beta.
  - repeat wp_step. wp_case; [by eapply IH|]. by wp_step.
  - destruct b as [|x b]; [wp_step; rewrite app_nil_r in Hs1; eauto|].
    set (c := x :: b) in *. assert (c <> []) as Hc by done. clearbody c.
    rewrite (bool_decide_false _ Hc) in Hs1. destruct Hs1 as (r & Hm & Hd & Hf & Hk).
    wp_step. apply wp_io. eapply wp_mono; [by apply write_all_flow| |done].
    intros res w' Hw. cbv beta in *. destruct (res =? strlen c); simpl negb; cbv iota; repeat wp_step.
    + eapply IH. apply (flow_activity _ _ _ (St (ses s1) w')). by exists r.
    + done.
Qed.

End integrity.

(** ** The two-buffer pipe *)

Definition handed (x : pipe_sys) : bytes :=
  match ps_prod x with PHand _ b => b | _ => [] end.

Definition waiting (x : pipe_sys) : Prop := ps_prod x = PLock \/ ps_prod x = PSleep.

(** The transfer will be reported as failed. *)
Definition failed (x : pipe_sys) : Prop :=
  (sp_error (ps_pipe x) <> 0 /\ ps_writer x = WExit) \/ rr_ok (ps_result x) = false \/
  exists k e, ps_writer x = WBook k false e /\ e <> 0.

(** The receiver waits for a buffer that the writer never looks at. *)
Definition stuck (x : pipe_sys) : Prop :=
  let p := ps_pipe x in
  sp_error p = 0 /\ waiting x /\ sp_done p = false /\ sp_buf p (sp_active p) <> [] /\
  match ps_writer x with
  | WLock | WSleep => True
  | WWrite k => k = negb (sp_active p)
  | WBook k ok _ => k = negb (sp_active p) /\ ok = true
  | WExit => False
  end.

(** The regular states: what was received is what was written, then the
    buffer being drained, then the buffer waiting, then the one in hand. *)
Definition regular (x : pipe_sys) (d w : bytes) (eof : bool) : Prop :=
  let p := ps_pipe x in
  let a := sp_active p in
  sp_error p = 0 /\ sp_done p = (match ps_prod x with PJoin => true | _ => false end) /\
  match ps_prod x with
  | PRecv i => i = a
  | PHand i b => i = a /\ b <> []
  | PStop | PJoin => eof = true
  | _ => True
  end /\
  match ps_writer x with
  | WLock | WSleep => sp_buf p a = [] /\ d = w ++ sp_buf p (negb a) ++ handed x
  | WWrite k =>
      sp_buf p k <> [] /\
      ((k = negb a /\ sp_buf p a = [] /\ d = w ++ sp_buf p (negb a) ++ handed x) \/
       (k = a /\ waiting x /\ d = w ++ sp_buf p a ++ sp_buf p (negb a)))
  | WBook k ok _ =>
      sp_buf p k <> [] /\ ok = true /\
      ((k = negb a /\ sp_buf p a = [] /\ d = w ++ handed x) \/
       (k = a /\ waiting x /\ d = w ++ sp_buf p (negb a)))
  | WExit => ps_prod x = PJoin /\ d = w
  end.

Section pipe.
Context {W : Type} {os : OS W} {Hos : SaneOS W} (fuel : nat).
Context (dfd fd : Z) (cph : cipher) (old : list event).
Abbreviation flow := (flow (W := W) dfd fd cph old).

(** A failed write leaves a non-zero [errno]. *)
Lemma write_all_errno b (s : sysst W) :
  wp (pal_file_write_all fuel fd b) (fun res s' => res = strlen b \/ os_errno s' <> 0)
    (fun _ => True) s.
Proof.
  eapply wp_mono; [apply (write_all_flow fuel dfd fd (os_trace s) b [] [] false); by exists []| |done].
  intros res s' H. cbv beta in H. destruct (Z.eqb_spec res (strlen b)); auto.
Qed.

Definition pipe_ok (x : pipe_sys) (s : st ftp_session_t W) : Prop :=
  failed x \/ stuck x \/ exists d w eof, regular x d w eof /\ flow d w eof s.

Lemma prod_step_failed x s :
  failed x -> wp (prod_step fuel x) (fun x' _ => failed x') (fun _ => True) s.
Proof.
  intros Hx. unfold prod_step.
  assert (forall pc, failed (PipeSys (ps_pipe x) pc (ps_writer x) (ps_result x))) as Hpc by done.
  destruct (ps_prod x) as [| |i|i b| |]; try (repeat wp_case; apply wp_ret; by repeat case_if).
  - wp_step. eapply wp_mono; [apply wp_any| |done]. intros [c|b] s1 _; cbv beta.
    + repeat wp_step. wp_case; wp_step; [done|]. right. by left.
    + wp_case; repeat wp_step; [done|]. done.
  - wp_step. destruct Hx as [[He Hw]|[Hr|(k & e & Hw & He)]].
    + left. simpl. rewrite Hw. by destruct i.
    + right. by left.
    + right. right. exists k, e. simpl. by rewrite Hw.
  - wp_step. destruct Hx as [[He Hw]|[Hr|(k & e & Hw & He)]].
    + left. simpl. by rewrite Hw.
    + right. by left.
    + right. right. exists k, e. simpl. by rewrite Hw.
Qed.

Lemma writer_step_failed x s :
  failed x -> wp (writer_step fuel fd x) (fun x' _ => failed x') (fun _ => True) s.
Proof.
  intros [[He Hw]|[Hr|(k & e & Hw & He)]]; unfold writer_step.
  - rewrite Hw. apply wp_ret. by left.
  - destruct (ps_writer x) as [| |k|k ok e|].
    + repeat wp_case; wp_step; repeat case_if; right; by left.
    + wp_step. right. by left.
    + wp_step. eapply wp_mono; [apply wp_any| |done]. intros r s1 _. repeat wp_step. right. by left.
    + wp_step. right. by left.
    + wp_step. right. by left.
  - rewrite Hw. wp_step. left. done.
Qed.

Lemma prod_step_stuck x s :
  stuck x -> wp (prod_step fuel x) (fun x' _ => stuck x') (fun _ => True) s.
Proof.
  intros (He & Hp & Hd & Hb & Hw). unfold prod_step. destruct Hp as [Hp|Hp]; rewrite Hp.
  - destruct (sp_buf _ _) eqn:Eb; [done|]. wp_step. rewrite He. unfold stuck. simpl.
    rewrite Eb. by repeat split; [|right|..].
  - wp_step. by repeat split; [|right|..].
Qed.

Lemma writer_step_stuck x s :
  stuck x -> wp (writer_step fuel fd x) (fun x' _ => failed x' \/ stuck x') (fun _ => True) s.
Proof.
  intros (He & Hp & Hd & Hb & Hw). unfold writer_step. destruct (ps_writer x) as [| |k|k ok e|] eqn:Ew.
  - repeat wp_case; wp_step; rewrite ?Hd; right; by repeat split.
  - wp_step. right. repeat split; try done. by rewrite Ew.
  - wp_step. apply wp_io. eapply wp_mono; [apply write_all_errno| |done].
    intros r w' Hr. repeat wp_step. destruct (Z.eqb_spec r (strlen (sp_buf (ps_pipe x) k))).
    + right. by repeat split.
    + left. right. right. eexists _, _. split; [done|]. by destruct Hr.
  - wp_step. destruct Hw as [-> ->]. right. unfold stuck. simpl.
    destruct (sp_active (ps_pipe x)) eqn:Ea; simpl; rewrite Ea; repeat split; try done.
    all: left; simpl; by destruct Hp as [-> | ->].
  - done.
Qed.

(** Case analysis on a state with its components named. *)
Ltac pipe_crush :=
  unfold regular, stuck, waiting, handed, sp_buf in *; cbn in *; destruct_and?; simplify_eq/=;
  repeat match goal with
  | b : bool |- _ => destruct b; cbn in *
  end; destruct_and?; destruct_or?; destruct_and?; simplify_eq/=;
  rewrite ?app_nil_r, <- ?app_assoc in *; try done; try naive_solver.

Lemma prod_step_regular x d w eof s :
  regular x d w eof -> flow d w eof s ->
  wp (prod_step fuel x) (fun x' s' => pipe_ok x' s') (fun _ => True) s.
Proof.
  destruct x as [[b0 b1 a err dn wr] pc wpc r]. intros Hx Hf. unfold prod_step. cbn [ps_prod ps_pipe ps_writer ps_result].
  destruct pc as [| |i|i b| |].
  - assert (err = 0) as -> by apply Hx. simpl. unfold sp_buf. cbn [sp_buf0 sp_buf1].
    destruct (if a then b1 else b0) as [|c l] eqn:Eb; wp_step; right; right; exists d, w, eof; (split; [|done]).
    + destruct wpc; pipe_crush.
    + destruct wpc; pipe_crush.
  - wp_step. right; right. by exists d, w, eof.
  - wp_step. eapply wp_mono; [by apply recv_data_flow| |done]. intros [c|b] s1 Hs1; cbv beta.
    + repeat wp_step. wp_case; wp_step.
      * right; right. exists d, w, eof. split; [|done]. destruct wpc; pipe_crush.
      * left. right. by left.
    + destruct b as [|y b].
      * wp_step. rewrite app_nil_r in Hs1. right; right. eexists _, _, _. split; [|exact Hs1]. destruct wpc; pipe_crush.
      * repeat wp_step. right; right. eexists _, _, _.
        split; [|apply (flow_activity _ _ _ _ _ _ _ s1); exact Hs1]. destruct wpc; pipe_crush.
  - wp_step. destruct wpc as [| |k|k ok e|].
    + destruct (decide ((if a then b0 else b1) = [])) as [Eb|Eb].
      * right; right. exists d, w, eof. split; [|done]. pipe_crush.
      * right; left. pipe_crush.
    + destruct (decide ((if a then b0 else b1) = [])) as [Eb|Eb].
      * right; right. exists d, w, eof. split; [|done]. pipe_crush.
      * right; left. pipe_crush.
    + right; right. exists d, w, eof. split; [|done]. pipe_crush.
    + right; right. exists d, w, eof. split; [|done]. pipe_crush.
    + pipe_crush.
  - wp_step. right; right. exists d, w, eof. split; [|done]. destruct wpc; pipe_crush.
  - wp_step. right; right. by exists d, w, eof.
Qed.

Lemma writer_step_regular x d w eof s :
  regular x d w eof -> flow d w eof s ->
  wp (writer_step fuel fd x) (fun x' s' => pipe_ok x' s') (fun _ => True) s.
Proof.
  destruct x as [[b0 b1 a err dn wr] pc wpc r]. intros Hx Hf. unfold writer_step.
  cbn [ps_prod ps_pipe ps_writer ps_result]. destruct wpc as [| |k|k ok e|].
  - simpl. unfold sp_buf. cbn [sp_buf0 sp_buf1]. destruct (if negb a then b1 else b0) eqn:Eb; wp_step;
      right; right; exists d, w, eof; (split; [|done]).
    + destruct dn; destruct pc; pipe_crush.
    + destruct pc; pipe_crush.
  - wp_step. right; right. by exists d, w, eof.
  - destruct Hf as (r' & Hm & Hd & Hf & Hc). wp_step. apply wp_io.
    eapply wp_mono; [by apply write_all_flow| |done]. intros res w' Hr. cbv beta in Hr. repeat wp_step.
    destruct (res =? _).
    + right; right. eexists _, _, _. split; [|exists r'; done].
      destruct pc; pipe_crush.
    + left; right; right. by eexists _, _.
  - wp_step. right; right. exists d, w, eof. split; [|done]. destruct pc; pipe_crush.
  - wp_step. right; right. by exists d, w, eof.
Qed.

Lemma pipe_run_ok n x s :
  pipe_ok x s ->
  wp (pipe_run fuel n fd x) (fun x' s' => pipe_finished x' = true /\ pipe_ok x' s') (fun _ => True) s.
Proof.
  revert x s. induction n as [|n IH]; intros x s Hx; [done|]. cbn [pipe_run].
  wp_case; [by wp_step|]. wp_step. wp_step. wp_step.
  assert (pipe_ok x (St (ses s) (SysSt w (if e =? 0 then os_errno (sysw s) else e)
             (Ev SysSchedule r :: os_trace (sysw s))))) as Hx'.
  { destruct Hx as [Hx|[Hx|(d & w' & eof & Hx & (r' & Hm & Hf))]]; [by left|by right; left|].
    right; right. exists d, w', eof. split; [done|]. exists r'. split; [|done].
    by eapply moved_quiet; [exact Hm|..]. }
  eapply wp_mono with (Q := fun x' s' => pipe_ok x' s'); [|apply IH|done]. clear IH Heqb.
  destruct Hx' as [Hx'|[Hx'|(d & w' & eof & Hx' & Hf)]]; wp_case.
  - eapply wp_mono; [by apply prod_step_failed| |done]. by left.
  - eapply wp_mono; [by apply writer_step_failed| |done]. by left.
  - eapply wp_mono; [by apply prod_step_stuck| |done]. right; by left.
  - eapply wp_mono; [by apply writer_step_stuck| |done]. intros ? ? [|]; [by left | right; by left].
  - by eapply prod_step_regular.
  - by eapply writer_step_regular.
Qed.

Lemma stor_double_flow d s :
  flow d d false s ->
  wp (stor_double fuel fd) (fun r s' => rr_ok r = true -> exists d, flow d d true s') (fun _ => True) s.
Proof.
  intros Hs. unfold stor_double. wp_step. eapply wp_mono; [apply pipe_run_ok| |done].
  - right; right. exists d, d, false. split; [|done]. split; [done|]. split; [done|]. split; [done|].
    by rewrite app_nil_r.
  - intros x s' [Hfin Hx]. wp_step. case_if; [done|]. intros Hok. zbool.
    unfold pipe_finished in Hfin. destruct (ps_prod x) eqn:Ep; try done.
    destruct (ps_writer x) eqn:Ew; try done.
    destruct Hx as [[[? _]|[?|(? & ? & ? & _)]]|[Hx|(d' & w' & eof & Hx & Hf)]]; try congruence.
    + destruct Hx as (_ & [?|?] & _); congruence.
    + destruct Hx as (_ & _ & Heof & Hw). rewrite Ep in Heof. rewrite Ew in Hw. destruct Hw as [_ ->].
      exists w'. by rewrite <- Heof.
Qed.

End pipe.

Section stor.
Context {W : Type} {os : OS W} {Hos : SaneOS W} (fuel : nat) (fd : Z).

Lemma stor_receive_flow dfd cph old d s :
  flow dfd fd cph old d d false s ->
  wp (stor_receive fuel fd)
    (fun r s' => rr_ok r = true -> exists d, flow dfd fd cph old d d true s') (fun _ => True) s.
Proof.
  intros Hs. unfold stor_receive. do 4 wp_step.
  match goal with |- wp _ _ _ ?s' => assert (flow dfd fd cph old d d false s') as Hs1 end.
  { by do 2 (apply flow_quiet; [|done..]). }
  wp_case; [wp_case; [|by wp_step]; wp_step|do 2 wp_step; wp_step].
  - eapply wp_mono; [by eapply recv_write_flow| |done]. intros res s1 Hr. repeat wp_step.
    intros Hok. destruct (Hr Hok) as [d' Hd']. exists d'. by apply flow_quiet.
  - eapply wp_mono with (Q := fun r s' => rr_ok r = true -> exists d, flow dfd fd cph old d d true s').
    + wp_case; [eapply recv_write_flow|eapply stor_double_flow]; by apply flow_quiet.
    + intros res s1 Hr. repeat wp_step. intros Hok. destruct (Hr Hok) as [d' Hd'].
      exists d'. by do 2 (apply (flow_quiet dfd fd cph old d' d' true (St _ _)); [|done..]).
    + done.
Qed.

(** C2: an upload that [STOR] accepts is complete and in order.  Whichever
    path it takes (two buffers and a writer thread under any schedule, or one
    buffer), if the receiving part reports success then the bytes written to
    the file are exactly the bytes received on the data connection,
    decrypted, in the order they came, up to the peer's end of stream. *)
Theorem stor_receive_integrity cph s r s' :
  crypto_at cph 0 (crypto (ses s)) ->
  stor_receive fuel fd s = (Some r, s') -> rr_ok r = true ->
  let dfd := data_fd (ses s) in
  exists new, os_trace (sysw s') = new ++ os_trace (sysw s) /\
    sent_on fd new = decode cph (recv_on dfd new) /\ eof_on dfd new = true.
Proof.
  intros Hc Hr Hok dfd.
  pose proof (stor_receive_flow dfd cph (os_trace (sysw s)) (decode cph []) s) as Hw.
  unfold wp in Hw. rewrite Hr in Hw. destruct Hw as (d & r' & (new & Ht & Er & Es & Ee) & Hd & _);
    [|done|].
  - exists []. split; [exists []; by destruct cph as [[? ?]|]|]. done.
  - exists new. by rewrite Ht, Er, Es, Ee.
Qed.

End stor.

Lemma stor_receive_integrity_witness :
  let s := St (set_data_fd 11 session_slot)
              (SysSt (Toy [(Some (str "ab"), 0); (Some (str "c"), 0)] [] [] []
                        [true; true; true; false; false; false; true; true; true; false; false; false;
                         true; true; true; false]) 0 []) in
  exists new, os_trace (sysw (stor_receive 40 12 s).2) = new ++ [] /\
    sent_on 12 new = recv_on 11 new /\ eof_on 11 new = true.
Proof.
  apply (stor_receive_integrity 40 12 None
           (St (set_data_fd 11 session_slot)
              (SysSt (Toy [(Some (str "ab"), 0); (Some (str "c"), 0)] [] [] []
                        [true; true; true; false; false; false; true; true; true; false; false; false;
                         true; true; true; false]) 0 []))
           (RecvResult true 0 0 3)).
  - reflexivity.
  - vm_compute. reflexivity.
  - reflexivity.
Defined.

(** ** A schedule on which the pipe stops for good *)

Section deadlock.
Context {W : Type} {os : OS W} (fuel : nat) (fd : Z).

(** [k] steps of the two threads. *)
Fixpoint pipe_steps (k : nat) (x : pipe_sys) : M (st ftp_session_t W) pipe_sys :=
  match k with
  | O => mret x
  | S k' =>
      if pipe_finished x then diverge
      else
        who ← sysc SysSchedule;
        x ← (if (who : bool) then prod_step fuel x else writer_step fuel fd x);
        pipe_steps k' x
  end.

Definition asleep (x : pipe_sys) : Prop := ps_prod x = PSleep /\ ps_writer x = WSleep.

Lemma asleep_forever n x s : asleep x -> (pipe_run fuel n fd x s).1 = None.
Proof.
  intros [Hp Hw]. revert s. induction n as [|n IH]; intros s; [done|]. cbn [pipe_run].
  unfold pipe_finished. rewrite Hp. unfold mbind, M_bind, sysc, io, sys_call.
  destruct (os_step SysSchedule _) as [[[|] e] w]; cbn.
  - unfold prod_step. rewrite Hp. apply IH.
  - unfold writer_step. rewrite Hw. apply IH.
Qed.

Lemma pipe_steps_asleep k x s x' s' n :
  pipe_steps k x s = (Some x', s') -> asleep x' -> (pipe_run fuel n fd x s).1 = None.
Proof.
  revert x s n. induction k as [|k IH]; intros x s n.
  - intros [= -> ->]. apply asleep_forever.
  - destruct n as [|n]; [done|]. cbn [pipe_steps pipe_run]. destruct (pipe_finished x); [done|].
    unfold mbind, M_bind. destruct (sysc SysSchedule s) as [[who|] s1]; [|done].
    set (step := if who then prod_step fuel x else writer_step fuel fd x).
    destruct (step s1) as [[x1|] s2]; [|done]. apply IH.
Qed.

End deadlock.

(** C26: the two-buffer pipe of [STOR] can deadlock, and has then written the
    data out of order.  The receiver fills both buffers before the writer
    first takes the lock; the swap has brought the active index back to the
    first buffer, so the writer drains the second one and then both threads
    wait for each other: the receiver for the first buffer to be free, the
    writer for the second one to be filled.  However the threads are scheduled
    from there, the transfer never ends. *)
Theorem stor_pipe_deadlock rest :
  let s := St (set_data_fd 11 session_slot)
              (SysSt (Toy [(Some (str "first"), 0); (Some (str "second"), 0)] [] [] []
                        ([true; true; true; true; true; true; false; false; false; false; true] ++ rest))
                 0 []) in
  exists x s', pipe_steps 40 12 11 pipe_init s = (Some x, s') /\ asleep x /\
    recv_on 11 (os_trace (sysw s')) = str "firstsecond" /\
    sent_on 12 (os_trace (sysw s')) = str "second" /\
    forall n, (pipe_run 40 n 12 pipe_init s).1 = None.
Proof.
  intros s. eexists _, _. split; [vm_compute; reflexivity|]. split; [done|]. split; [reflexivity|].
  split; [reflexivity|]. intros n. eapply (pipe_steps_asleep 40 12 11); [vm_compute; reflexivity|done].
Qed.

(** ** The destination during an upload *)

(** A request of a fresh upload to [q]: nothing on disk, or its temporary
    file, or the final rename. *)
Definition upload_ev (q : bytes) (e : event) : Prop :=
  fs_paths e = [] \/ fs_paths e = [stor_tmp_path q] \/
  exists r, e = Ev (SysRename (stor_tmp_path q) q) r.

#[export] Instance upload_ev_quiet q : Quiet (upload_ev q).
Proof. intros e He. by left. Qed.

Section atomic.
Context {W : Type} {os : OS W} (fuel : nat) (q : bytes).
Abbreviation keeps m :=
  (hoare (inv (W := W) (ses_paths (fun _ _ _ _ => True)) (upload_ev q)) m (fun _ => True)).

Lemma upload_ev_tmp e : fs_paths e = [stor_tmp_path q] -> upload_ev q e.
Proof. intros He. right. by left. Qed.

Lemma upload_ev_rename r : upload_ev q (Ev (SysRename (stor_tmp_path q) q) r).
Proof. right. right. by exists r. Qed.

#[local] Hint Extern 2 (upload_ev _ _) =>
  first [by apply upload_ev_tmp | apply upload_ev_rename] : hoare.

Lemma upload_discard : keeps (stor_discard true (stor_tmp_path q)).
Proof. apply keeps_stor_discard. intros _ r. by apply upload_ev_tmp. Qed.

#[local] Hint Resolve upload_discard : hoare.

Lemma upload_finish fd r : keeps (stor_finish fuel fd true (stor_tmp_path q) q r).
Proof. unfold stor_finish. hgo. Qed.

#[local] Hint Resolve upload_finish : hoare.

Lemma upload_opened fd : keeps (stor_opened fuel fd true (stor_tmp_path q) q).
Proof. unfold stor_opened. hgo. Qed.

#[local] Hint Resolve upload_opened : hoare.

(** What [cmd_STOR] does once the path is resolved to [q]. *)
Lemma upload_open flags :
  keeps (fd ← io (pal_file_open (Some (stor_tmp_path q)) flags FILE_PERM);
         if fd <? 0 then
           _ ← stor_discard true (stor_tmp_path q);
           _ ← upd (set_restart_offset 0);
           ftp_session_send_reply fuel FTP_REPLY_550_FILE_ERROR (Some (str "Cannot create file."))
         else stor_opened fuel fd true (stor_tmp_path q) q).
Proof. hgo. Qed.

End atomic.

(** C16: a fresh upload never damages the file it replaces.  A [STOR] with no
    restart offset either asks nothing of the disk, or has one resolved
    target [q] and the only requests it makes are on the temporary file of
    [q], except for the final rename of that file to [q]: up to that rename the
    destination is untouched, whatever fails. *)
Theorem stor_atomic {W} {os : OS W} fuel args (s : st ftp_session_t W) :
  restart_offset (ses s) = 0 -> os_trace (sysw s) = [] ->
  exists q, Forall (upload_ev q) (os_trace (sysw (cmd_STOR fuel args s).2)).
Proof.
  intros Ho Ht. 
  cut (wp (cmd_STOR fuel args) (fun _ s' => exists q, Forall (upload_ev q) (os_trace (sysw s')))
         (fun s' => exists q, Forall (upload_ev q) (os_trace (sysw s'))) s).
  { unfold wp. by destruct (cmd_STOR fuel args s) as [[r|] s']. }
  unfold cmd_STOR. destruct args as [args|]; [|wp_step; exists []; by rewrite Ht].
  wp_step. unfold resolve. do 2 wp_step. apply wp_io.
  eapply wp_hoare with (I := io_inv (fun e => fs_paths e = []));
    [apply (hoare_resolve (fun e => fs_paths e = [])); auto| | |].
  { unfold io_inv. by rewrite Ht. }
  2: { intros w Hw. exists []. eapply Forall_impl; [exact Hw|]. by left. }
  intros [q|e] w Hw _.
  - wp_step. wp_step. cbn [ses]. rewrite Ho. cbv iota zeta.
    eapply wp_hoare; [apply (upload_open fuel q)| | |].
    + split; [done|]. eapply Forall_impl; [exact Hw|]. by left.
    + intros ? s' [_ Hs'] _. by exists q.
    + intros s' [_ Hs']. by exists q.
  - eapply wp_hoare with (I := inv (ses_paths (fun _ _ _ _ => True)) (upload_ev [])).
    + hgo.
    + split; [done|]. eapply Forall_impl; [exact Hw|]. by left.
    + intros ? s' [_ Hs'] _. by exists [].
    + intros s' [_ Hs']. by exists [].
Qed.

Lemma stor_atomic_witness :
  let s := St (set_cwd (str "/srv") (set_root_path (str "/srv") session_slot))
              (SysSt (Toy [(Some (str "data"), 0)] [] [(str "/srv", Stat 16877 0 0 0 0)] [] []) 0 []) in
  exists q, Forall (upload_ev q) (os_trace (sysw (cmd_STOR 100 (Some (str "f")) s).2)).
Proof.
  apply (stor_atomic 100 (Some (str "f"))
           (St (set_cwd (str "/srv") (set_root_path (str "/srv") session_slot))
              (SysSt (Toy [(Some (str "data"), 0)] [] [(str "/srv", Stat 16877 0 0 0 0)] [] []) 0 []))).
  - reflexivity.
  - reflexivity.
Defined.
