(* ===== verification/FtpAuth.v ===== *)
(** * The login gate

    What a client that has not logged in can make the server do. *)

From S2P Require Import Prelude CLib FtpTypes FtpPath FtpProtocol FtpCrypto.
From S2P Require Import Os PalNetwork PalFileio FtpState FtpResolve.
From S2P Require Import FtpSession FtpCommands FtpDataCmds FtpListing.
From S2P Require Import FtpTransfer FtpDispatch FtpInv.

(** Requests that act on no file but the random device. *)
Definition off_disk (e : event) : Prop := Forall (eq (str "/dev/urandom")) (fs_paths e).

#[export] Instance off_disk_quiet : Quiet off_disk.
Proof. intros e He. unfold off_disk. rewrite He. constructor. Qed.

(** The handlers of the commands allowed before login. *)
Definition pre_auth_handler (h : handler) : bool :=
  match h with
  | H_USER | H_PASS | H_QUIT | H_NOOP | H_FEAT | H_SYST | H_AUTH | H_OPTS | H_CLNT => true
  | _ => false
  end.

Lemma pre_auth_find command cmd :
  ftp_find_command (Some command) = Some cmd ->
  forallb (fun c => negb (streq command c)) pre_auth_commands = false ->
  pre_auth_handler (cmd_handler cmd) = true.
Proof.
  intros Hf Hc. apply not_true_iff_false in Hc. rewrite forallb_forall in Hc.
  assert (exists c, In c pre_auth_commands /\ command = c) as (c & Hin & ->).
  { destruct (decide (In command pre_auth_commands)) as [Hi|Hn]; [eauto|].
    exfalso. apply Hc. intros c Hi. destruct (streq command c) eqn:E; [|done].
    apply streq_true in E as ->. done. }
  repeat destruct Hin as [<-|Hin]; try done; vm_compute in Hf; by injection Hf as <-.
Qed.

Section gate.
Context {W : Type} {os : OS W} (fuel : nat).
Context (P : bytes -> bytes -> bytes -> bytes -> Prop).
Abbreviation keeps m := (hoare (inv (W := W) (ses_paths P) off_disk) m (fun _ => True)).

Lemma urandom_off_disk r : off_disk (Ev (SysOpen (str "/dev/urandom") O_RDONLY 0) r).
Proof. by apply Forall_singleton. Qed.

#[local] Hint Resolve urandom_off_disk : hoare.

Lemma keeps_pre_auth h args :
  pre_auth_handler h = true -> keeps (dispatch fuel h args).
Proof.
  destruct h; try discriminate; intros _; cbn [dispatch];
    unfold cmd_USER, cmd_PASS, cmd_QUIT, cmd_NOOP, cmd_FEAT, cmd_SYST, cmd_AUTH, cmd_OPTS, cmd_CLNT; hgo.
Qed.

#[local] Instance gate_handlers : Handlers W := dispatch fuel.

Lemma process_gate line s :
  authenticated (ses s) = 0 -> inv (ses_paths P) off_disk s ->
  inv (ses_paths P) off_disk (ftp_session_process_command fuel line s).2.
Proof.
  intros Ha Hi.
  cut (wp (ftp_session_process_command fuel line) (fun _ => inv (ses_paths P) off_disk)
         (inv (ses_paths P) off_disk) s).
  { unfold wp. by destruct (ftp_session_process_command fuel line s) as [[r|] s']. }
  assert (forall A (m : M (st ftp_session_t W) A), keeps m -> wp m (fun _ => inv (ses_paths P) off_disk)
            (inv (ses_paths P) off_disk) s) as Hk.
  { intros A m Hm. by eapply wp_hoare. }
  unfold ftp_session_process_command. destruct line as [line|]; [|by wp_step].
  destruct (ftp_parse_command_line _ _ _) as [[command args]|]; [|apply Hk; hgo].
  destruct (ftp_find_command (Some command)) as [cmd|] eqn:Ef; [|apply Hk; hgo].
  wp_step. wp_step. rewrite Ha. cbn [Z.eqb andb].
  destruct (forallb _ _) eqn:Ep; apply Hk; [hgo|]. pose proof (pre_auth_find _ _ Ef Ep).
  unfold run_handler, gate_handlers. hgo. by apply keeps_pre_auth.
Qed.

End gate.

(** C10: the login gate.  Whatever line an unauthenticated client sends, the
    server acts on no file or directory (it may read the random device, for
    the encryption nonce), and the session's root, working directory, pending
    rename and copy sources stay as they were. *)
Theorem login_gate {W} {os : OS W} fuel line (s : st ftp_session_t W) :
  authenticated (ses s) = 0 -> Forall off_disk (os_trace (sysw s)) ->
  let s' := (ftp_session_process_command (H0 := dispatch fuel) fuel line s).2 in
  Forall off_disk (os_trace (sysw s')) /\
  root_path (ses s') = root_path (ses s) /\ cwd (ses s') = cwd (ses s) /\
  rename_from (ses s') = rename_from (ses s) /\ copy_from (ses s') = copy_from (ses s).
Proof.
  intros Ha Ht s'.
  destruct (process_gate fuel (fun r c f k => r = root_path (ses s) /\ c = cwd (ses s) /\
    f = rename_from (ses s) /\ k = copy_from (ses s)) line s Ha) as [Hp Hk]; [done|].
  by split.
Qed.

Lemma login_gate_witness :
  let s := St (set_cwd (str "/srv") session_slot) toy_init in
  let s' := (ftp_session_process_command (H0 := dispatch 100) 100 (Some (str "DELE x")) s).2 in
  Forall off_disk (os_trace (sysw s')) /\
  root_path (ses s') = [] /\ cwd (ses s') = str "/srv" /\
  rename_from (ses s') = [] /\ copy_from (ses s') = [].
Proof.
  apply (login_gate 100 (Some (str "DELE x")) (St (set_cwd (str "/srv") session_slot) toy_init)).
  - reflexivity.
  - constructor.
Defined.
