(* ===== verification/FtpReader.v ===== *)
(** * The command reader

    [ftp_session_read_command] against a control connection that delivers a
    byte stream in pieces: it returns the lines of the stream, one per call,
    however the pieces are cut.  Then the runs in which an interrupted or
    timed-out [recv] breaks this. *)

From S2P Require Import Prelude CLib FtpTypes FtpPath FtpProtocol FtpCrypto.
From S2P Require Import Os PalNetwork PalFileio FtpState FtpSession.

(** A connected peer: [incoming fd w] is what it has sent and the server has
    not yet read; [recv] returns a non-empty piece of it. *)
Class Peer (W : Type) {os : OS W} := {
  incoming : Z -> W -> bytes;
  peer_recv : forall fd len w, 0 < len -> incoming fd w <> [] ->
    exists b e w', os_step (SysRecv fd len) w = (Some b, e, w') /\ b <> [] /\
      strlen b <= len /\ incoming fd w = b ++ incoming fd w'
}.

(** The bytes received and not yet scanned. *)
Definition unscanned (s : ftp_session_t) : bytes :=
  take (Z.to_nat (ctrl_rx_len s - ctrl_rx_off s)) (drop (Z.to_nat (ctrl_rx_off s)) (ctrl_rxbuf s)).

Definition rx_ok (s : ftp_session_t) : Prop :=
  length (ctrl_rxbuf s) = Z.to_nat FTP_CMD_BUFFER_SIZE /\
  0 <= ctrl_rx_off s <= ctrl_rx_len s /\ ctrl_rx_len s <= FTP_CMD_BUFFER_SIZE.

(** A line without its terminator: one CR before the LF is dropped. *)
Definition strip_cr (raw : bytes) : bytes :=
  if decide (last raw = Some CR) then take (length raw - 1) raw else raw.

Lemma scan_more chars i off len out size :
  LF ∉ chars -> strlen (out ++ chars) <= size - 1 ->
  scan_chars chars i off len out false size = ScanMore off len (out ++ chars) false.
Proof.
  revert i out. induction chars as [|c chars IH]; intros i out Hn Hl; [by rewrite app_nil_r|].
  apply not_elem_of_cons in Hn as [Hc Hn]. cbn [scan_chars].
  unfold strlen in *. rewrite length_app in Hl. simpl in Hl.
  destruct (Z.ltb_spec (Z.of_nat (length out)) (size - 1)); [|lia].
  destruct (Z.eqb_spec c LF); [congruence|]. rewrite IH, <- app_assoc; [done..|].
  rewrite !length_app. simpl. lia.
Qed.

Lemma strip_line raw :
  let out := raw ++ [LF] in
  (if (2 <=? strlen out) && (out !!! (length out - 2)%nat =? CR) then take (length out - 2) out
   else take (length out - 1) out) = strip_cr raw.
Proof.
  unfold strip_cr, strlen. destruct (decide (raw = [])) as [->|Hne]; [done|].
  destruct (exists_last Hne) as (pre & x & ->). clear Hne. rewrite last_snoc, <- app_assoc.
  cbv zeta. rewrite !length_app. cbn [app length].
  replace (length pre + (1 + 1) - 2)%nat with (length pre) by lia.
  replace (length pre + 1 - 1)%nat with (length pre) by lia.
  destruct (Z.leb_spec 2 (Z.of_nat (length pre + (1 + 1)))); [|lia]. cbn [andb].
  rewrite lookup_total_middle, !take_app_length. destruct (Z.eqb_spec x CR) as [->|Hx].
  - by rewrite decide_True.
  - rewrite decide_False by congruence. rewrite (cons_middle x pre [LF]), app_assoc.
    by rewrite take_app_length' by (rewrite length_app; simpl; lia).
Qed.

Lemma scan_line chars rest i off len out size :
  LF ∉ chars -> strlen (out ++ chars) + 1 <= size - 1 ->
  let consume := i + strlen chars + 1 in
  scan_chars (chars ++ LF :: rest) i off len out false size =
  (if len <=? consume then ScanLine 0 0 (strip_cr (out ++ chars))
   else ScanLine consume len (strip_cr (out ++ chars))).
Proof.
  revert i out. induction chars as [|c chars IH]; intros i out Hn Hl.
  - cbn [scan_chars app]. rewrite app_nil_r in *.
    destruct (Z.ltb_spec (strlen out) (size - 1)); [|lia]. rewrite Z.eqb_refl.
    pose proof (strip_line out) as Hs. cbv zeta in Hs |- *. rewrite <- Hs.
    assert (((out ++ [LF]) !!! (length (out ++ [LF]) - 1)%nat =? LF) = true) as Hlf.
    { rewrite length_app. simpl. replace (length out + 1 - 1)%nat with (length out) by lia.
      by rewrite lookup_total_middle. }
    rewrite Hlf, !andb_true_r. replace (1 <=? strlen (out ++ [LF])) with true.
    2: { unfold strlen. rewrite length_app. simpl. symmetry. apply Z.leb_le. lia. }
    replace (i + strlen [] + 1) with (i + 1) by (unfold strlen; simpl; lia).
    destruct (len <=? i + 1); by destruct (_ && _).
  - apply not_elem_of_cons in Hn as [Hc Hn]. cbn [scan_chars app].
    unfold strlen in *. rewrite length_app in Hl. simpl in Hl.
    destruct (Z.ltb_spec (Z.of_nat (length out)) (size - 1)); [|lia].
    destruct (Z.eqb_spec c LF); [congruence|].
    rewrite IH; [|done|rewrite !length_app; simpl; lia]. rewrite <- app_assoc. simpl length.
    by replace (i + 1 + Z.of_nat (length chars) + 1) with (i + Z.of_nat (S (length chars)) + 1) by lia.
Qed.

(** ** The loop *)

Lemma unscanned_length s : rx_ok s -> length (unscanned s) = Z.to_nat (ctrl_rx_len s - ctrl_rx_off s).
Proof.
  intros (Hb & Ho & Hl). unfold unscanned. rewrite length_take, length_drop, Hb. lia.
Qed.

(** The read position after a line of [k] bytes. *)
Lemma unscanned_consume s k t raw off len :
  rx_ok s -> unscanned s = raw ++ t -> k = strlen raw ->
  (off, len) = (if ctrl_rx_len s <=? ctrl_rx_off s + k then (0, 0)
                else (ctrl_rx_off s + k, ctrl_rx_len s)) ->
  rx_ok (set_ctrl_rx_len len (set_ctrl_rx_off off s)) /\
  unscanned (set_ctrl_rx_len len (set_ctrl_rx_off off s)) = t.
Proof.
  intros Hs Hu -> E. pose proof (unscanned_length s Hs) as Hlen. destruct Hs as (Hb & Ho & Hl).
  rewrite Hu, length_app in Hlen. unfold strlen in E.
  destruct (Z.leb_spec (ctrl_rx_len s) (ctrl_rx_off s + Z.of_nat (length raw))); injection E as -> ->.
  - split; [repeat split; simpl; done || lia|]. unfold unscanned. simpl.
    destruct t; [done|]. simpl in Hlen. lia.
  - split; [repeat split; simpl; done || lia|]. unfold unscanned in *. cbn.
    apply (f_equal (drop (length raw))) in Hu. rewrite drop_app_length in Hu. rewrite <- Hu.
    replace (Z.to_nat (ctrl_rx_off s + _)) with (Z.to_nat (ctrl_rx_off s) + length raw)%nat by lia.
    rewrite <- drop_drop, take_drop_commute. f_equal. f_equal. lia.
Qed.

(** The buffer after a [recv] of [b]. *)
Definition rx_filled (b : bytes) (s : ftp_session_t) : ftp_session_t :=
  set_ctrl_rx_len (u16 (strlen b)) (set_ctrl_rx_off 0
    (set_ctrl_rxbuf (b ++ drop (length b) (ctrl_rxbuf s)) s)).

Lemma rx_filled_ok b s :
  length (ctrl_rxbuf s) = Z.to_nat FTP_CMD_BUFFER_SIZE -> strlen b <= FTP_CMD_BUFFER_SIZE ->
  rx_ok (rx_filled b s) /\ unscanned (rx_filled b s) = b.
Proof.
  intros Hb Hl. unfold FTP_CMD_BUFFER_SIZE, strlen in *.
  assert (u16 (strlen b) = strlen b) as E by (apply Z.mod_small; unfold strlen; lia).
  unfold rx_filled. rewrite E. unfold strlen. split.
  - unfold rx_ok, FTP_CMD_BUFFER_SIZE. cbn [ctrl_rxbuf ctrl_rx_off ctrl_rx_len set_ctrl_rx_len
      set_ctrl_rx_off set_ctrl_rxbuf]. rewrite length_app, length_drop, Hb. lia.
  - unfold unscanned. cbn. rewrite Z.sub_0_r, Nat2Z.id. apply take_app_length.
Qed.

Section reader.
Context {W : Type} {os : OS W} {peer : Peer W} (fuel : nat).

(** What is left of the control stream. *)
Definition control_stream (s : st ftp_session_t W) : bytes :=
  unscanned (ses s) ++ incoming (ctrl_fd (ses s)) (os_state (sysw s)).

(** One call that reads [line] and leaves [rest]. *)
Definition reads (s : st ftp_session_t W) (line rest : bytes) (r : Z * bytes) (s' : st ftp_session_t W) : Prop :=
  r = (strlen line, line) /\ rx_ok (ses s') /\ ctrl_fd (ses s') = ctrl_fd (ses s) /\
  control_stream s' = rest.

Lemma read_loop_line n raw rest out size s :
  rx_ok (ses s) -> (length (incoming (ctrl_fd (ses s)) (os_state (sysw s))) < n)%nat ->
  control_stream s = raw ++ LF :: rest -> LF ∉ raw -> strlen (out ++ raw) + 1 <= size - 1 ->
  wp (read_command_loop fuel n out false size) (reads s (strip_cr (out ++ raw)) rest)
    (fun _ => False) s.
Proof.
  revert raw out s. induction n as [|n IH]; intros raw out s Hs Hn Hst Hlf Hl; [lia|].
  cbn [read_command_loop]. wp_step. wp_step. change (id (ses s)) with (ses s). cbv zeta.
  fold (unscanned (ses s)). unfold control_stream in Hst.
  set (inc := incoming _ _) in *.
  assert ((exists t, unscanned (ses s) = raw ++ LF :: t /\ rest = t ++ inc) \/
          exists raw2, raw = unscanned (ses s) ++ raw2 /\ inc = raw2 ++ LF :: rest) as Hcase.
  { apply app_eq_inv in Hst as [(k & Hu & Hk)|(k & Hr & Hk)]; [|eauto].
    destruct k as [|c k]; [right; exists []; by rewrite app_nil_r in *|].
    injection Hk as <- ->. left. by exists k. }
  destruct Hcase as [(t & Hu & ->)|(raw2 & -> & Hinc)].
  - rewrite Hu, scan_line by done.
    destruct (unscanned_consume (ses s) (strlen raw + 1) t (raw ++ [LF])) with
      (off := if ctrl_rx_len (ses s) <=? ctrl_rx_off (ses s) + (strlen raw + 1) then 0
              else ctrl_rx_off (ses s) + (strlen raw + 1))
      (len := if ctrl_rx_len (ses s) <=? ctrl_rx_off (ses s) + (strlen raw + 1) then 0
              else ctrl_rx_len (ses s)) as [Hok Hun]; [done|by rewrite Hu, <- app_assoc| |by case_if|].
    { unfold strlen. rewrite length_app. simpl. lia. }
    rewrite Z.add_assoc in Hok, Hun. destruct (_ <=? _); repeat wp_step;
      (split; [done|]; split; [done|]; split; [done|]); unfold control_stream; cbn [ses sysw os_state];
      by rewrite Hun.
  - assert (strlen (out ++ unscanned (ses s)) <= size - 1) as Hfit.
    { unfold strlen in *. rewrite !length_app in *. lia. }
    apply not_elem_of_app in Hlf as [Hl1 Hl2]. rewrite scan_more by done.
    match goal with |- context [let '(_, _) := ?p in _] => destruct p as [off1 len1] end.
    wp_step. wp_step. wp_step.
    destruct (peer_recv (ctrl_fd (ses s)) FTP_CMD_BUFFER_SIZE (os_state (sysw s))) as
      (b & e & w' & Estep & Hb & Hbl & Hinc'); [done|fold inc; rewrite Hinc; by destruct raw2|].
    apply wp_sysc. cbn [sysw]. rewrite Estep. intros r e' w'' [= <- <- <-].
    destruct b as [|c b]; [done|]. set (b' := c :: b) in *.
    assert (0 < length b')%nat as Hpos by (unfold b'; simpl; lia). clearbody b'. clear c b Hb.
    wp_step. wp_step. destruct (rx_filled_ok b' (set_ctrl_rx_len len1 (set_ctrl_rx_off off1 (ses s))))
      as [Hok Hun]; [apply Hs|done|].
    fold inc in Hinc'. rewrite Hinc' in Hinc, Hn. rewrite length_app in Hn. rewrite app_assoc in *.
    eapply wp_mono; [apply (IH raw2); [exact Hok| | |done|done]|done|done].
    + cbn [sysw os_state]. simpl. lia.
    + unfold control_stream. cbn [sysw os_state ses].
      fold (rx_filled b' (set_ctrl_rx_len len1 (set_ctrl_rx_off off1 (ses s)))). by rewrite Hun.
Qed.


End reader.

(** A peer whose bytes arrive three at a time. *)
#[local] Instance stream_os : OS bytes := fun A c w =>
  match c in sys A return A * Z * bytes with
  | SysRecv _ len => let n := Z.to_nat (Z.min 3 len) in (Some (take n w), 0, drop n w)
  | c => let '(r, e, _) := toy_step c (os_state toy_init) in (r, e, w)
  end.

#[local] Instance stream_peer : Peer bytes.
Proof.
  refine {| incoming := fun _ w => w |}. intros fd len w Hl Hw.
  eexists _, _, _. split; [reflexivity|]. split; [|split].
  - intros E. apply Hw. apply (f_equal length) in E. rewrite length_take in E.
    destruct w; [done|]. simpl in E. lia.
  - unfold strlen. rewrite length_take. lia.
  - symmetry. apply take_drop.
Defined.


(** ** Interrupted reads *)

(** A control connection on which [recv] gives the scripted answers. *)
Definition reader_on (script : list (option bytes * Z)) : st ftp_session_t toy :=
  St (set_ctrl_fd 7 session_slot) (SysSt (Toy script [] [] [] []) 0 []).

Definition read_line (s : st ftp_session_t toy) : option (Z * bytes) :=
  (ftp_session_read_command 30 FTP_CMD_BUFFER_SIZE s).1.

(** What an interrupted or timed-out [recv] does to a command.  A [recv]
    interrupted in the middle of a line makes the reader scan the buffered
    part again, so that part is read twice; a timeout in the middle of a line
    that came in more than one piece loses all pieces but the last; and an
    empty line is returned as length 0, the value that means that the peer
    has closed the connection. *)
Theorem read_command_interrupted :
  read_line (reader_on [(Some (str "NO"), 0); (None, EINTR); (Some (str "OP" ++ [CR; LF]), 0)])
    = Some (6, str "NONOOP") /\
  (let s := reader_on [(Some (str "US"), 0); (Some (str "ER"), 0); (None, EAGAIN);
                       (Some (str " ftp" ++ [CR; LF]), 0)] in
   read_line s = Some (err_code FTP_ERR_TIMEOUT, []) /\
   read_line (ftp_session_read_command 30 FTP_CMD_BUFFER_SIZE s).2 = Some (6, str "ER ftp")) /\
  read_line (reader_on [(Some ([CR; LF] ++ str "NOOP" ++ [CR; LF]), 0)]) = Some (0, []) /\
  read_line (reader_on []) = Some (0, []).
Proof. repeat split; vm_compute; reflexivity. Qed.
