(* ===== verification/FtpPort.v ===== *)
(** * PORT and PASV

    What [PORT] does to the session for every argument, the agreement of the
    address text of a 227 reply with the parser of [PORT], and the effect of
    a rejected [PORT] on a later transfer. *)

From S2P Require Import Prelude CLib FtpTypes FtpPath FtpProtocol FtpCrypto.
From S2P Require Import Os PalNetwork PalFileio FtpState FtpResolve.
From S2P Require Import FtpSession FtpCommands FtpDataCmds.

(** ** Octets *)

Definition octet_ok (v : Z) : bool :=
  forallb isdigit (fmt_u v) && (dec_value (fmt_u v) =? v) && (0 <? strlen (fmt_u v))
  && (strlen (fmt_u v) <=? 3)
  && negb ((1 <? strlen (fmt_u v)) && (fmt_u v !!! 0%nat =? 48)).

Lemma octets_ok v : 0 <= v <= 255 -> octet_ok v = true.
Proof.
  intros Hv. assert (forallb octet_ok (map Z.of_nat (seq 0 256)) = true) as H by (vm_compute; reflexivity).
  rewrite forallb_forall in H. apply H. apply in_map_iff. exists (Z.to_nat v).
  split; [lia|]. apply in_seq. lia.
Qed.

(** The text after an octet does not start with a digit. *)
Definition stops (rest : bytes) : Prop := match rest with c :: _ => isdigit c = false | [] => True end.

Lemma take_while_digits ds rest :
  forallb isdigit ds = true -> stops rest ->
  take_while isdigit (ds ++ rest) = ds /\ drop_while isdigit (ds ++ rest) = rest.
Proof.
  intros Hd Hr. induction ds as [|d ds IH]; simpl in *.
  - destruct rest as [|c rest]; [done|]. simpl in *. by rewrite Hr.
  - apply andb_true_iff in Hd as [-> Hd]. destruct (IH Hd) as [-> ->]. done.
Qed.

Lemma octet_head v c t : octet_ok v = true -> fmt_u v = c :: t -> isdigit c = true.
Proof. unfold octet_ok. intros Ho E. rewrite E in Ho. simpl in Ho. by destruct (isdigit c). Qed.

(** A string that starts with a digit has no white space or sign before it. *)
Lemma no_sign c l :
  isdigit c = true ->
  match drop_while isspace (c :: l) with
  | 45 :: t => (true, t)
  | 43 :: t => (false, t)
  | _ => (false, drop_while isspace (c :: l))
  end = (false, c :: l).
Proof.
  unfold isdigit. intros Hc. zbool.
  assert (c = 48 \/ c = 49 \/ c = 50 \/ c = 51 \/ c = 52 \/ c = 53 \/ c = 54 \/ c = 55 \/ c = 56 \/ c = 57)
    as Hcs by lia.
  by destruct_or!; subst.
Qed.

Lemma scan_octet v rest : 0 <= v <= 255 -> stops rest -> scan_u (fmt_u v ++ rest) = Some (v, rest).
Proof.
  intros Hv Hr. pose proof (octets_ok v Hv) as Ho. pose proof (octet_head v) as Hh.
  unfold octet_ok in Ho. zbool. destruct (take_while_digits (fmt_u v) rest) as [Ht Hd]; [done..|].
  unfold scan_u. destruct (fmt_u v) as [|c t] eqn:E; [done|].
  assert (isdigit c = true) as Hc by (apply (Hh c t); [by apply octets_ok|done]).
  cbn [app] in *. rewrite no_sign by done.
  rewrite Ht, Hd. replace (dec_value (c :: t)) with v by done.
  destruct (Z.leb_spec (2 ^ 64) v); [lia|]. unfold u32. by rewrite Z.mod_small by lia.
Qed.

Lemma pton_octet_fmt v rest :
  0 <= v <= 255 -> stops rest -> pton_octet (fmt_u v ++ rest) = Some (v, rest).
Proof.
  intros Hv Hr. pose proof (octets_ok v Hv) as Ho. unfold octet_ok in Ho.
  apply andb_true_iff in Ho as [Ho Hz]. apply andb_true_iff in Ho as [Ho H3].
  apply andb_true_iff in Ho as [Ho H0]. apply andb_true_iff in Ho as [Hd Hval].
  destruct (take_while_digits (fmt_u v) rest Hd Hr) as [Ht Hdr].
  unfold pton_octet. rewrite Ht, Hdr, H0, H3, Hz. apply Z.eqb_eq in Hval. rewrite Hval.
  by destruct (Z.leb_spec v 255); [|lia].
Qed.

(** ** Addresses *)

Definition addr_of (h1 h2 h3 h4 : Z) : Z := ((h1 * 256 + h2) * 256 + h3) * 256 + h4.

Lemma pton_port_ip h1 h2 h3 h4 :
  0 <= h1 <= 255 -> 0 <= h2 <= 255 -> 0 <= h3 <= 255 -> 0 <= h4 <= 255 ->
  inet_pton (port_ip h1 h2 h3 h4) = Some (addr_of h1 h2 h3 h4).
Proof.
  intros H1 H2 H3 H4. unfold inet_pton, port_ip. rewrite pton_octet_fmt by done. cbn [DOT].
  rewrite pton_octet_fmt by done. rewrite pton_octet_fmt by done.
  rewrite <- (app_nil_r (fmt_u h4)), pton_octet_fmt by done. done.
Qed.

Lemma scan_six a b c d e f :
  0 <= a <= 255 -> 0 <= b <= 255 -> 0 <= c <= 255 -> 0 <= d <= 255 -> 0 <= e <= 255 -> 0 <= f <= 255 ->
  scan_u_list 6 (fmt_u a ++ 44 :: fmt_u b ++ 44 :: fmt_u c ++ 44 :: fmt_u d ++ 44 :: fmt_u e
                 ++ 44 :: fmt_u f) = Some [a; b; c; d; e; f].
Proof.
  intros. cbn [scan_u_list]. do 5 (rewrite scan_octet by done; cbn [scan_u_list]).
  by rewrite <- (app_nil_r (fmt_u f)), scan_octet by done.
Qed.

Lemma land_255 z : Z.land z 255 = z mod 256.
Proof. change 255 with (Z.ones 8). by rewrite Z.land_ones by lia. Qed.

(** The four octets of an address. *)
Lemma addr_split ip :
  0 <= ip < 2 ^ 32 ->
  addr_of (Z.shiftr ip 24 mod 256) (Z.shiftr ip 16 mod 256) (Z.shiftr ip 8 mod 256) (ip mod 256) = ip.
Proof.
  intros Hip. unfold addr_of. rewrite !Z.shiftr_div_pow2 by lia.
  change (2 ^ 24) with 16777216. change (2 ^ 16) with 65536. change (2 ^ 8) with 256.
  Z.to_euclidean_division_equations. lia.
Qed.

Lemma port_join p1 p2 :
  0 <= p1 <= 255 -> 0 <= p2 <= 255 -> u16 (Z.lor (Z.shiftl p1 8) p2) = p1 * 256 + p2.
Proof.
  intros H1 H2. assert (Z.land (Z.shiftl p1 8) p2 = 0) as H0.
  { apply Z.bits_inj'. intros i Hi. rewrite Z.land_spec, Z.bits_0.
    destruct (Z.lt_ge_cases i 8); [by rewrite Z.shiftl_spec_low|].
    rewrite (Z.bits_above_log2 p2), andb_false_r; [done|lia|].
    apply Z.le_lt_trans with (Z.log2 255); [apply Z.log2_le_mono; lia|]. change (Z.log2 255) with 7. lia. }
  rewrite <- Z.lxor_lor, <- Z.add_nocarry_lxor, Z.shiftl_mul_pow2 by (done || lia).
  apply Z.mod_small. lia.
Qed.

Lemma scan_u_nonneg s v r : scan_u s = Some (v, r) -> 0 <= v.
Proof.
  unfold scan_u, u32. repeat case_match; try done; intros [= <- _]; apply Z.mod_pos_bound; lia.
Qed.

Lemma scan_u_list_nonneg n s l : scan_u_list n s = Some l -> Forall (fun v => 0 <= v) l.
Proof.
  revert s l. induction n as [|n IH]; intros s l; cbn [scan_u_list]; [intros [= <-]; constructor|].
  destruct (scan_u s) as [[v r]|] eqn:E; [|done]. apply scan_u_nonneg in E.
  destruct n as [|n]; [intros [= <-]; by repeat constructor|].
  destruct r as [|c r]; [done|]. destruct (decide (c = 44)) as [->|Hc].
  - destruct (scan_u_list (S n) r) as [l'|] eqn:El; [|done]. intros [= <-]. constructor; [done|]. eauto.
  - repeat case_match; try done; congruence.
Qed.

(** ** The effect of PORT *)

(** The session after [PORT args]. *)
Definition port_effect (args : bytes) (s : ftp_session_t) : ftp_session_t :=
  match scan_u_list 6 args with
  | Some [h1; h2; h3; h4; p1; p2] =>
      if bool_decide (h1 <= 255 /\ h2 <= 255 /\ h3 <= 255 /\ h4 <= 255 /\ p1 <= 255 /\ p2 <= 255
                      /\ p1 * 256 + p2 <> 0) then
        let s' := set_data_addr (SockAddr (addr_of h1 h2 h3 h4) (p1 * 256 + p2)) s in
        if streq (port_ip h1 h2 h3 h4) (client_ip s) then set_data_mode FTP_DATA_MODE_ACTIVE s' else s'
      else s
  | _ => s
  end.

Section port.
Context {W : Type} {os : OS W} (fuel : nat).

Lemma reply_keeps_session code msg Q B (s : st ftp_session_t W) :
  (forall r w, Q r (St (ses s) w)) -> (forall w, B (St (ses s) w)) ->
  wp (ftp_session_send_reply fuel code msg) Q B s.
Proof.
  intros HQ HB. assert (forall r, Q r s) as HQs by (intros r; specialize (HQ r (sysw s)); by destruct s).
  unfold ftp_session_send_reply. wp_step. wp_step. wp_case; [by wp_step|]. wp_case; [|by wp_step].
  wp_step. apply wp_io. eapply wp_mono; [apply wp_any| |]; [|done].
  intros r w _. cbv beta. wp_case; by wp_step.
Qed.

Lemma port_session args s : ses (cmd_PORT fuel (Some args) s).2 = port_effect args (ses s).
Proof.
  cut (wp (cmd_PORT fuel (Some args)) (fun _ s' => ses s' = port_effect args (ses s))
         (fun s' => ses s' = port_effect args (ses s)) s).
  { unfold wp. by destruct (cmd_PORT fuel (Some args) s) as [[r|] s']. }
  unfold cmd_PORT, port_effect. destruct (scan_u_list 6 args) as [l|] eqn:El;
    [|by apply reply_keeps_session].
  apply scan_u_list_nonneg in El.
  destruct l as [|h1 [|h2 [|h3 [|h4 [|p1 [|p2 [|? ?]]]]]]]; try by apply reply_keeps_session.
  repeat (apply Forall_cons in El as [? El]). clear El. wp_case.
  { rewrite bool_decide_false by (zbool; lia). by apply reply_keeps_session. }
  zbool. rewrite port_join by lia. wp_step. wp_step. wp_step. unfold set_data_sockaddr.
  wp_case.
  { wp_step. rewrite (bool_decide_false (FTP_ERR_INVALID_PARAM = FTP_OK)) by done.
    rewrite bool_decide_false by (zbool; lia). by apply reply_keeps_session. }
  rewrite bool_decide_true by (zbool; lia). wp_step. wp_step. unfold pal_make_sockaddr.
  rewrite Heqb, pton_port_ip by lia. repeat wp_step. rewrite bool_decide_true by done.
  cbn [negb]. repeat wp_step. change (client_ip _) with (client_ip (ses s)).
  destruct (streq (port_ip h1 h2 h3 h4) (client_ip (ses s))); cbn [negb]; repeat wp_step;
    by apply reply_keeps_session.
Qed.

Lemma ntop_port_ip h1 h2 h3 h4 :
  0 <= h1 <= 255 -> 0 <= h2 <= 255 -> 0 <= h3 <= 255 -> 0 <= h4 <= 255 ->
  inet_ntop (addr_of h1 h2 h3 h4) = port_ip h1 h2 h3 h4.
Proof.
  intros H1 H2 H3 H4. unfold inet_ntop, port_ip, addr_of. rewrite !Z.shiftr_div_pow2 by lia.
  change (2 ^ 24) with 16777216. change (2 ^ 16) with 65536. change (2 ^ 8) with 256.
  repeat f_equal; Z.to_euclidean_division_equations; lia.
Qed.

(** [PORT] enters active mode only towards the client.  From a session
    that is not in active mode, whatever the argument, if the session is in
    active mode afterwards then the address it will connect to is the address
    of the control connection's peer, and the port is not 0. *)
Theorem port_active_is_client args s :
  data_mode (ses s) <> FTP_DATA_MODE_ACTIVE ->
  let s' := (cmd_PORT fuel args s).2 in
  data_mode (ses s') = FTP_DATA_MODE_ACTIVE ->
  inet_ntop (sin_addr (data_addr (ses s'))) = client_ip (ses s) /\
  0 < sin_port (data_addr (ses s')) < 65536.
Proof.
  intros Hm. destruct args as [args|]; [|done]. cbv zeta. rewrite port_session. unfold port_effect.
  destruct (scan_u_list 6 args) as [l|] eqn:El; [|done]. apply scan_u_list_nonneg in El.
  destruct l as [|h1 [|h2 [|h3 [|h4 [|p1 [|p2 [|? ?]]]]]]]; try done.
  repeat (apply Forall_cons in El as [? El]). clear El.
  case_bool_decide as Hb; [|done]. destruct (streq _ _) eqn:Es; [|done]. intros _.
  apply streq_true in Es. cbn [data_addr set_data_mode set_data_addr sin_addr sin_port].
  rewrite ntop_port_ip by lia. split; [done|lia].
Qed.

(** [PORT] reads what [PASV] writes: the address text of a 227 reply,
    given to [PORT] by a client at that address, sets exactly that address
    and port as the target of the next active connection. *)
Theorem port_reads_pasv_text ip port s :
  0 <= ip < 2 ^ 32 -> 0 < port < 2 ^ 16 -> client_ip (ses s) = inet_ntop ip ->
  ses (cmd_PORT fuel (Some (pasv_text ip port)) s).2 =
  set_data_mode FTP_DATA_MODE_ACTIVE (set_data_addr (SockAddr ip port) (ses s)).
Proof.
  intros Hip Hp Hc. rewrite port_session. unfold port_effect, pasv_text.
  assert (forall z, 0 <= z mod 256 <= 255) as Hb by (intros z; pose proof (Z.mod_pos_bound z 256); lia).
  rewrite !land_255, scan_six by apply Hb. rewrite addr_split by done.
  assert (Z.shiftr port 8 mod 256 * 256 + port mod 256 = port) as ->.
  { rewrite Z.shiftr_div_pow2 by lia. change (2 ^ 8) with 256. Z.to_euclidean_division_equations. lia. }
  rewrite bool_decide_true by (repeat split; apply Hb || lia).
  rewrite Hc. unfold inet_ntop, port_ip. rewrite (proj2 (streq_true _ _)) by done. done.
Qed.

End port.

Lemma port_active_is_client_witness :
  let s := St (set_client_ip (str "10.0.0.1") session_slot) toy_init in
  let s' := (cmd_PORT 100 (Some (str "10,0,0,1,4,1")) s).2 in
  inet_ntop (sin_addr (data_addr (ses s'))) = str "10.0.0.1" /\
  0 < sin_port (data_addr (ses s')) < 65536.
Proof.
  apply (port_active_is_client 100 (Some (str "10,0,0,1,4,1"))
           (St (set_client_ip (str "10.0.0.1") session_slot) toy_init)).
  - discriminate.
  - vm_compute. reflexivity.
Defined.

Lemma port_reads_pasv_text_witness :
  let s := St (set_client_ip (str "10.0.0.1") session_slot) toy_init in
  ses (cmd_PORT 100 (Some (pasv_text 167772161 40000)) s).2 =
  set_data_mode FTP_DATA_MODE_ACTIVE (set_data_addr (SockAddr 167772161 40000) (ses s)).
Proof.
  apply (port_reads_pasv_text 100 167772161 40000
           (St (set_client_ip (str "10.0.0.1") session_slot) toy_init)).
  - by_compute.
  - by_compute.
  - reflexivity.
Defined.

(** ** A rejected PORT *)

(** The connections a trace asks for. *)
Definition connects (tr : list event) : list sockaddr_in :=
  omap (fun e => match e with
                 | @Ev A c _ => match c in sys A with SysConnect _ a => Some a | _ => None end
                 end) tr.

