(* ===== verification/FtpDownload.v ===== *)
(** * Downloads

    What [RETR] delivers, over its alternation of [sendfile] bursts and
    read/send phases, for every pattern of short counts, interruptions and
    fallbacks. *)

From S2P Require Import Prelude CLib FtpTypes FtpPath FtpProtocol FtpCrypto.
From S2P Require Import Os PalNetwork PalFileio FtpState FtpResolve.
From S2P Require Import FtpSession FtpCommands FtpTransfer FtpUpload.

(** Requests that move the read position of a descriptor. *)
Definition repositions (fd : Z) {A} (c : sys A) : bool :=
  match c with
  | SysRead fd' _ => fd' =? fd
  | SysLseek fd' _ _ => fd' =? fd
  | _ => false
  end.

(** POSIX and Linux on an open regular file [ffd] with contents [content]
    that nobody changes: [read] returns what is at the position and advances
    it, [lseek] sets it, [sendfile] with an offset reports what it moved and
    leaves the position alone. *)
Class FileOS (W : Type) {os : OS W} (ffd : Z) (content : bytes) := {
  fpos : W -> Z;
  file_read : forall len w r e w', 0 < len -> 0 <= fpos w ->
    os_step (SysRead ffd len) w = (r, e, w') ->
    match r with
    | Some b => b = slice content (fpos w) (strlen b) /\ strlen b <= len /\ fpos w' = fpos w + strlen b
    | None => fpos w' = fpos w
    end;
  file_lseek : forall off w r e w', 0 <= off ->
    os_step (SysLseek ffd off SEEK_SET) w = (r, e, w') -> fpos w' = off;
  file_sendfile : forall dfd off count w n off' e w',
    os_step (SysSendfile dfd ffd off count) w = ((n, off'), e, w') ->
    (0 < n <= count /\ off' = off + n) \/ (n <= 0 /\ off' = off);
  file_frame : forall A (c : sys A) w r e w',
    repositions ffd c = false -> os_step c w = (r, e, w') -> fpos w' = fpos w
}.

Section download.
Context {W : Type} {os : OS W} (fuel : nat).
Context (dfd ffd : Z) (content : bytes) {file : FileOS W ffd content}.
Context (old : list event) (start : Z).
Hypothesis Hstart : 0 <= start.

(** Bytes an event delivers to the data connection. *)
Definition event_delivered (e : event) : bytes :=
  match e with
  | @Ev A c r =>
      match c in sys A return A -> bytes with
      | SysSend fd buf => fun n => if (fd =? dfd) && (0 <? n) then take (Z.to_nat n) buf else []
      | SysSendfile fd f off _ =>
          fun r => if (fd =? dfd) && (f =? ffd) && (0 <? r.1) then slice content off r.1 else []
      | _ => fun _ => []
      end r
  end.

Fixpoint delivered (tr : list event) : bytes :=
  match tr with
  | [] => []
  | e :: tr' => delivered tr' ++ event_delivered e
  end.

(** Since trace [old] the data connection got [d]; the read position is [p]. *)
Definition got (d : bytes) (p : Z) (s : sysst W) : Prop :=
  fpos (os_state s) = p /\ exists new, os_trace s = new ++ old /\ delivered new = d.

Lemma got_event d p s {A} (c : sys A) r e w err :
  got d p s -> os_step c (os_state s) = (r, e, w) -> repositions ffd c = false ->
  got (d ++ event_delivered (Ev c r)) p (SysSt w err (Ev c r :: os_trace s)).
Proof.
  intros [Hp (new & Ht & <-)] Hs Hc. split; [by rewrite (file_frame _ c _ _ _ _ Hc Hs)|].
  exists (Ev c r :: new). by rewrite Ht.
Qed.

(** A request that neither delivers nor repositions. *)
Definition still {A} (c : sys A) : bool :=
  negb (repositions ffd c) && match c with SysSend _ _ | SysSendfile _ _ _ _ => false | _ => true end.

Lemma hoare_still d p {A} (c : sys A) :
  still c = true -> hoare (got d p) (sys_call c) (fun _ => True).
Proof.
  intros Hc. apply hoare_wp. intros s Hs. apply wp_sys_call. intros r e w Hr. split; [|done].
  unfold still in Hc. apply andb_true_iff in Hc as [Hc Hq]. apply negb_true_iff in Hc.
  pose proof (got_event d p s c r e w (if e =? 0 then os_errno s else e) Hs Hr Hc) as Hg.
  replace (event_delivered (Ev c r)) with (@nil Z) in Hg by (by destruct c). by rewrite app_nil_r in Hg.
Qed.

(** The state of a download: [k] is the file offset reached, everything from
    [start] to it has been delivered; [p] is the read position. *)
Definition dl (k p : Z) (s : st ftp_session_t W) : Prop :=
  got (slice content start (k - start)) p (sysw s) /\ start <= k /\
  data_fd (ses s) = dfd /\ cc_active (crypto (ses s)) = 0.

Lemma dl_io k p {A} (m : M (sysst W) A) :
  (forall d p, hoare (got d p) m (fun _ => True)) -> hoare (dl k p) (io m) (fun _ => True).
Proof.
  intros Hm s (Hg & Hk & Hr). destruct (Hm _ _ _ Hg) as [Hg' _]. unfold io.
  destruct (m (sysw s)) as [r w]. by split.
Qed.

Lemma dl_upd k p f :
  (forall s, data_fd (f s) = data_fd s /\ crypto (f s) = crypto s) ->
  hoare (dl k p) (upd f) (fun _ => True).
Proof.
  intros Hf s (Hg & Hk & Hd & Hc). destruct (Hf (ses s)) as [E1 E2].
  split; [|done]. split; [done|]. simpl. by rewrite E1, E2.
Qed.

Lemma dl_sysc k p {A} (c : sys A) : still c = true -> hoare (dl k p) (sysc c) (fun _ => True).
Proof. intros Hc. apply dl_io. intros d q. by apply hoare_still. Qed.

Lemma send_loop_got n rest len d p s :
  got d p s ->
  wp (send_all_loop n dfd rest len) (fun r s' => r = -1 \/ (r = len /\ got (d ++ rest) p s'))
    (fun _ => True) s.
Proof.
  revert rest d s. induction n as [|n IH]; intros rest d s Hg; [done|]. cbn [send_all_loop].
  destruct rest as [|x rest']; [wp_step; right; by rewrite app_nil_r|].
  set (rest := x :: rest'). clearbody rest. wp_step. wp_step.
  pose proof (got_event d p s _ _ _ _ (if e =? 0 then os_errno s else e) Hg H eq_refl) as Hg'.
  simpl in Hg'. rewrite Z.eqb_refl in Hg'. simpl in Hg'. wp_case.
  - eapply wp_mono; [by apply IH| |done]. intros res s' [|[-> Hs']]; [by left|]. right.
    split; [done|]. by rewrite <- app_assoc, take_drop in Hs'.
  - rewrite app_nil_r in Hg'. wp_case; [repeat wp_step; by left|]. wp_step. wp_step.
    wp_case; [by apply IH|]. wp_case; [|wp_step; by left]. wp_step.
    eapply wp_hoare; [by apply (hoare_still d p)|done| |done]. intros ? s' Hs' _. by apply IH.
Qed.

Lemma send_data_dl b k p s :
  0 <= k -> b = slice content k (strlen b) -> dl k p s ->
  wp (ftp_session_send_data fuel b) (fun r s' => r = strlen b -> dl (k + strlen b) p s')
    (fun _ => True) s.
Proof.
  intros Hk Hb (Hg & Hsk & Hd & Hc). pose proof (Zle_0_nat (length b)) as Hb0. fold (strlen b) in Hb0.
  unfold ftp_session_send_data. wp_case; [wp_step; intros E; by rewrite <- E in Hb0|].
  wp_step. wp_step. rewrite Hd. wp_case; [wp_step; intros E; by rewrite <- E in Hb0|].
  rewrite rate_limit_off. wp_step. wp_step. wp_step. wp_step. rewrite Hc. cbn [Z.eqb negb].
  unfold pal_send_all. rewrite Heqb0, Heqb1. wp_step. apply wp_io.
  eapply wp_mono; [by apply send_loop_got| |done]. intros r w [->|[-> Hg']]; cbv beta.
  - cbn [Z.ltb Z.compare]. wp_step. lia.
  - assert (dl (k + strlen b) p (St (ses s) w)) as Hdl.
    { split; [|split; [lia|done]]. replace (k + strlen b - start) with (k - start + strlen b) by lia.
      rewrite <- slice_app by lia. replace (start + (k - start)) with k by lia. by rewrite <- Hb. }
    wp_case; [|by wp_step]. wp_step. unfold note_sent. wp_step.
    eapply wp_hoare; [by apply (dl_sysc (k + strlen b) p)|exact Hdl| |done]. intros t s' Hs' _.
    wp_step. by wp_step.
Qed.

(** ** Files *)

Hypothesis Hdfd : 0 <= dfd.
Hypothesis Hffd : 0 <= ffd.

Lemma sendfile_dl k p count s :
  0 <= k -> 0 < count -> dl k p s ->
  wp (io (pal_sendfile dfd ffd k count))
    (fun r s' => (0 < r.1 <= count /\ r.2 = k + r.1 /\ dl (k + r.1) p s') \/
                 (r.1 <= 0 /\ r.2 = k /\ dl k p s')) (fun _ => True) s.
Proof.
  intros Hk Hcnt (Hg & Hsk & Hs). unfold pal_sendfile.
  destruct (Z.ltb_spec dfd 0); [lia|]. destruct (Z.ltb_spec ffd 0); [lia|].
  destruct (Z.ltb_spec k 0); [lia|]. destruct (Z.eqb_spec count 0) as [|_]; [lia|]. cbn [orb].
  apply wp_io. wp_step. destruct r as [n off']. cbn [fst snd].
  pose proof (got_event _ p (sysw s) _ _ _ _ (if e =? 0 then os_errno (sysw s) else e) Hg H2 eq_refl) as Hg'.
  simpl in Hg'. rewrite !Z.eqb_refl in Hg'. simpl in Hg'.
  apply file_sendfile in H2 as [[Hn ->]|[Hn ->]].
  - left. split; [done|]. split; [done|]. split; [|split; [lia|done]].
    destruct (Z.ltb_spec 0 n); [|lia]. replace (k + n - start) with (k - start + n) by lia.
    rewrite <- slice_app by lia. by replace (start + (k - start)) with k by lia.
  - right. split; [done|]. split; [done|]. split; [|done].
    destruct (Z.ltb_spec 0 n); [lia|]. by rewrite app_nil_r in Hg'.
Qed.

Lemma seek_dl k p node off s :
  0 <= off -> vn_fd node = ffd -> dl k p s ->
  wp (io (vfs_set_offset node off)) (fun n s' => vn_fd n = ffd /\ dl k off s') (fun _ => True) s.
Proof.
  intros Ho Hn ([Hp (new & Ht & Hdel)] & Hsk & Hs). unfold vfs_set_offset, pal_file_seek. cbn [vn_fd].
  rewrite Hn. destruct (Z.leb_spec 0 ffd); [|lia]. destruct (Z.ltb_spec ffd 0); [lia|].
  apply wp_io. wp_step. wp_step. wp_step. split; [done|]. split; [|done].
  split; [by eapply file_lseek|]. exists (Ev (SysLseek ffd off SEEK_SET) r :: new).
  cbn [os_trace]. rewrite Ht. split; [done|]. simpl. by rewrite app_nil_r.
Qed.

Lemma read_dl k p node want s :
  0 <= p -> 0 < want -> vn_fd node = ffd -> dl k p s ->
  wp (io (vfs_read node want))
    (fun r s' => vn_fd r.2 = ffd /\
       match r.1 with
       | Some b => b = slice content p (strlen b) /\ strlen b <= want /\ dl k (p + strlen b) s'
       | None => dl k p s'
       end) (fun _ => True) s.
Proof.
  intros Hp0 Hw Hn ([Hp (new & Ht & Hdel)] & Hsk & Hs). unfold vfs_read, pal_file_read. rewrite Hn.
  destruct (Z.eqb_spec want 0); [lia|]. destruct (Z.ltb_spec ffd 0); [lia|]. cbn [orb].
  apply wp_io. wp_step. wp_step.
  assert (forall q, fpos w = q -> got (slice content start (k - start)) q
    (SysSt w (if e =? 0 then os_errno (sysw s) else e) (Ev (SysRead ffd want) r :: os_trace (sysw s)))) as Hg.
  { intros q Hq. split; [done|]. exists (Ev (SysRead ffd want) r :: new). cbn [os_trace].
    rewrite Ht. split; [done|]. simpl. by rewrite app_nil_r. }
  apply file_read in H0; [|done|lia]. rewrite Hp in H0. destruct r as [b|]; wp_step; (split; [done|]).
  - destruct H0 as (Hb & Hl & Hq). split; [done|]. split; [done|]. split; [by apply Hg|done].
  - split; [by apply Hg|done].
Qed.

(** ** The transfer loop *)

Context (size : Z).
Hypothesis Hsize : 0 <= size < 2 ^ 64.

(** The local variables agree with the file offset [k]. *)
Definition track (t : retr_t) (k : Z) : Prop :=
  0 <= k <= size /\ rt_remaining t = size - k /\ vn_fd (rt_node t) = ffd.

Lemma u64_sub k n : 0 <= k -> 0 <= n -> k + n <= size -> (size - k) -u64 n = size - (k + n).
Proof. intros. unfold u64. rewrite Z.mod_small; lia. Qed.

Lemma retr_chunk_le r : 0 < r -> 0 < retr_chunk r <= r.
Proof. intros Hr. unfold retr_chunk, FTP_RETR_SENDFILE_CHUNK. case_if; zbool; lia. Qed.

(** Requests of the loops that neither deliver nor reposition. *)
Lemma wp_still {A} (c : sys A) k p Q s :
  still c = true -> dl k p s -> (forall r s', dl k p s' -> Q r s') ->
  wp (sysc c) Q (fun _ => True) s.
Proof. intros Hc Hs HQ. eapply wp_hoare; [by apply (dl_sysc k p)|done| |done]. auto. Qed.

Lemma retr_sent_dl t k n p s :
  track t k -> 0 < n <= size - k -> dl (k + n) p s ->
  wp (retr_sent t n (k + n))
    (fun t' s' => track t' (k + n) /\ rt_offset t' = k + n /\ dl (k + n) p s') (fun _ => True) s.
Proof.
  intros (Hk & Hr & Hn) Hle Hs. unfold retr_sent. wp_step. eapply wp_still; [done|done|].
  intros now s1 Hs1. wp_step. wp_step. wp_step.
  assert (forall s2, dl (k + n) p s2 -> wp (mret (Retr (rt_remaining t -u64 n) (rt_bytes_sent t +u64 n)
     (k + n) (rt_node t) (rt_use_sendfile t))) (fun t' s' => track t' (k + n) /\ rt_offset t' = k + n
     /\ dl (k + n) p s') (fun _ => True) s2) as Hret.
  { intros s2 Hs2. wp_step. split; [|done]. split; [lia|]. split; [|done]. cbn [rt_remaining].
    rewrite Hr. apply u64_sub; lia. }
  wp_case; [|wp_step; by apply Hret]. eapply wp_still; [done|done|]. auto.
Qed.

Lemma retry_dl n r k p s :
  0 <= k < size -> dl k p s ->
  wp (sendfile_retry n r dfd ffd k (size - k))
    (fun x s' => match x.1 with
                 | Some m => 0 < m <= size - k /\ x.2 = k + m /\ dl (k + m) p s'
                 | None => x.2 = k /\ dl k p s'
                 end) (fun _ => True) s.
Proof.
  intros Hk. revert r s. induction n as [|n IH]; intros r s Hs; [done|]. cbn [sendfile_retry].
  wp_case; [by wp_step|]. wp_step. eapply wp_still; [done|done|]. intros _ s1 Hs1.
  pose proof (retr_chunk_le (size - k) ltac:(lia)).
  wp_step. eapply wp_mono; [apply sendfile_dl; [lia|lia|done]| |done].
  intros [m off] s2 [(Hm & Eo & Hs2)|(Hm & Eo & Hs2)]; cbn [fst snd] in *; subst off.
  - destruct (Z.ltb_spec 0 m); [|lia]. wp_step. cbn [fst snd]. split; [lia|done].
  - destruct (Z.ltb_spec 0 m); [lia|]. repeat wp_step. wp_case; by apply IH.
Qed.

Lemma retr_seek_dl t k p b s :
  track t k -> rt_offset t = k -> dl k p s ->
  wp (retr_seek t b) (fun t' s' => track t' k /\ rt_offset t' = k /\ dl k k s') (fun _ => True) s.
Proof.
  intros (Hk & Hr & Hn) Ho Hs. unfold retr_seek. rewrite Ho. wp_step.
  eapply wp_mono; [eapply seek_dl; [lia|done|done]| |done]. intros node s1 [Hn1 Hs1]. wp_step. by split.
Qed.

(** A burst ends with nothing left, or with the read position at the offset. *)
Lemma burst_dl n t any k p s :
  track t k -> rt_offset t = k -> dl k p s ->
  wp (sendfile_burst fuel n dfd t any)
    (fun t' s' => exists k' p', track t' k' /\ rt_offset t' = k' /\ dl k' p' s' /\
                    (rt_remaining t' = 0 \/ p' = k')) (fun _ => True) s.
Proof.
  revert t any k s. induction n as [|n IH]; intros t any k s Ht Ho Hs; [done|]. cbn [sendfile_burst].
  pose proof Ht as (Hk & Hr & Hn). rewrite Hr. wp_case.
  { wp_step. zbool. exists k, p. split; [done|]. split; [done|]. split; [done|]. left. lia. }
  zbool. pose proof (retr_chunk_le (size - k) ltac:(lia)). rewrite Hn, Ho.
  wp_step. eapply wp_mono; [apply sendfile_dl; [lia|lia|done]| |done].
  assert (track (set_offset t k) k) as Ht' by done.
  intros [m off] s1 [(Hm & Eo & Hs1)|(Hm & Eo & Hs1)]; cbn [fst snd] in *; subst off; cbv zeta.
  - destruct (Z.leb_spec m 0); [lia|]. wp_step.
    eapply wp_mono; [apply (retr_sent_dl (set_offset t (k + m)) k); [done|lia|done]| |done].
    intros t1 s2 (Ht1 & Ho1 & Hs2). by eapply IH.
  - destruct (Z.leb_spec m 0); [|lia]. wp_step. wp_step. wp_case; [by eapply IH|].
    assert (forall t1 b s', track t1 k -> rt_offset t1 = k -> dl k p s' -> wp (retr_seek t1 b)
      (fun t' s' => exists k' p', track t' k' /\ rt_offset t' = k' /\ dl k' p' s' /\
                    (rt_remaining t' = 0 \/ p' = k')) (fun _ => True) s') as Hseek.
    { intros t1 b s' H1 H2 H3. eapply wp_mono; [by eapply retr_seek_dl| |done].
      intros t2 s2 (? & ? & ?). exists k, k. auto. }
    wp_case; [by apply Hseek|]. cbn [set_offset rt_node rt_offset rt_remaining]. rewrite Hn, Hr.
    wp_step. eapply wp_mono; [apply retry_dl; [lia|done]| |done].
    intros [[m'|] off] s2 Hx; cbn [fst snd] in Hx.
    + destruct Hx as (Hm' & -> & Hs2). wp_step.
      eapply wp_mono; [apply (retr_sent_dl (set_offset t k) k); [done|lia|done]| |done].
      intros t1 s3 (Ht1 & Ho1 & Hs3). by eapply IH.
    + destruct Hx as (-> & Hs2). by apply Hseek.
Qed.

(** The read phase reads and sends [cool] bytes, or what is left, or fails. *)
Lemma read_phase_dl n t cool k s :
  track t k -> 0 <= cool <= size - k -> dl k k s ->
  wp (read_phase fuel n t cool size)
    (fun x s' => if x.2 then rt_remaining x.1 <> 0
                 else track x.1 (k + cool) /\ dl (k + cool) (k + cool) s') (fun _ => True) s.
Proof.
  revert t cool k s. induction n as [|n IH]; intros t cool k s Ht Hc Hs; [done|]. cbn [read_phase].
  pose proof Ht as (Hk & Hr & Hn). rewrite Hr. wp_case.
  { wp_step. cbn [fst snd]. assert (cool = 0) as -> by (zbool; destruct_or!; zbool; lia). by rewrite Z.add_0_r. }
  zbool. set (want := if cool <? _ then _ else _).
  assert (0 < want <= cool) as Hw.
  { unfold want, FTP_STREAM_BUFFER_SIZE. repeat case_if; zbool; lia. }
  wp_step. eapply wp_mono; [apply (read_dl k k); [lia|lia|done|done]| |done].
  intros [d node] s1 [Hn1 Hd]; cbn [fst snd] in *. destruct d as [b|].
  - destruct Hd as (Hb & Hl & Hs1). destruct b as [|x b]; [wp_step; cbn; lia|].
    set (c := x :: b) in *. assert (0 < strlen c) as Hpos by (unfold c, strlen; simpl; lia).
    clearbody c. wp_step. eapply wp_mono; [apply (send_data_dl c k); [lia|done|done]| |done].
    intros sent s2 Hs2. destruct (Z.eqb_spec sent (strlen c)) as [->|]; cbn [negb];
      [|wp_step; cbn; lia].
    specialize (Hs2 eq_refl). wp_step. eapply wp_still; [done|done|]. intros now s3 Hs3.
    wp_step. wp_step. wp_step.
    assert (forall s', dl (k + strlen c) (k + strlen c) s' -> wp (read_phase fuel n
      (Retr ((size - k) -u64 strlen c) (rt_bytes_sent t +u64 strlen c) (rt_offset t) node
         (rt_use_sendfile t)) (cool - strlen c) size)
      (fun x s' => if x.2 then rt_remaining x.1 <> 0
                 else track x.1 (k + cool) /\ dl (k + cool) (k + cool) s') (fun _ => True) s') as Hnext.
    { intros s' Hs'. replace (k + cool) with (k + strlen c + (cool - strlen c)) by lia.
      apply IH; [|lia|done]. split; [lia|]. split; [apply u64_sub; lia|done]. }
    cbn [rt_node rt_remaining rt_bytes_sent rt_offset rt_use_sendfile].
    wp_case; [eapply wp_still; [done|done|]; auto|wp_step; by apply Hnext].
  - repeat wp_step. wp_case; [apply IH; done|]. wp_step. cbn. lia.
Qed.

Lemma cork_dl k p on s Q :
  dl k p s -> (forall r s', dl k p s' -> Q r s') ->
  wp (io (if (on : bool) then pal_socket_cork dfd else pal_socket_uncork dfd)) Q (fun _ => True) s.
Proof.
  intros Hs HQ. eapply wp_hoare; [apply (dl_io k p)|done| |done]; [|auto].
  intros d q. destruct on; unfold pal_socket_cork, pal_socket_uncork;
    (eapply hoare_bind; [by apply hoare_still | intros _ _; by apply hoare_ret]).
Qed.

(** Before an iteration: nothing is left, or the offset of the next burst and
    the read position of the next phase are where the transfer is. *)
Definition ready (t : retr_t) (k p : Z) : Prop :=
  track t k /\ (rt_remaining t = 0 \/
    if rt_use_sendfile t then rt_offset t = k else p = k).

(** The read phase of an iteration and what follows it. *)
Lemma retr_read_dl t k s (next : retr_t -> M (st ftp_session_t W) (retr_t * bool)) Q :
  track t k -> size - k <> 0 -> dl k k s ->
  (forall x s', rt_remaining x.1 <> 0 -> Q x s') ->
  (forall t k s, ready t k k -> dl k k s -> wp (next t) Q (fun _ => True) s) ->
  let cool := if can_retry_sendfile t then SENDFILE_COOLDOWN_BYTES else size - k in
  wp (_ ← io (pal_socket_cork dfd);
      '(t', read_error) ← read_phase fuel fuel t cool size;
      _ ← io (pal_socket_uncork dfd);
      if (read_error : bool) then mret (t', true)
      else if can_retry_sendfile t && (0 <? rt_remaining t')
      then next (Retr (rt_remaining t') (rt_bytes_sent t') (size - rt_remaining t') (rt_node t') true)
      else next t') Q (fun _ => True) s.
Proof.
  intros Ht Hne Hs Hbad Hnext cool. pose proof Ht as (Hk & Hr & Hn).
  assert (0 <= cool <= size - k /\ (can_retry_sendfile t = false -> cool = size - k)) as [Hcool Hall].
  { unfold cool. destruct (can_retry_sendfile t) eqn:E; [|lia]. split; [|done].
    unfold can_retry_sendfile, SENDFILE_COOLDOWN_BYTES in *. zbool. lia. }
  clearbody cool. wp_step. eapply (cork_dl k k true); [done|]. intros _ s1 Hs1. wp_step.
  eapply wp_mono; [by apply read_phase_dl| |done]. intros [t1 err] s2 H2. cbn [fst snd] in H2. wp_step.
  destruct err.
  { eapply wp_mono; [apply wp_any| |done]. intros _ s3 _. wp_step. by apply Hbad. }
  destruct H2 as [Ht1 Hs2]. eapply (cork_dl (k + cool) (k + cool) false); [done|]. intros _ s3 Hs3.
  pose proof Ht1 as (Hk1 & Hr1 & Hn1). wp_case; eapply Hnext; try exact Hs3.
  - split; [done|]. right. cbn. lia.
  - split; [done|]. left. destruct (can_retry_sendfile t) eqn:E; zbool; [|rewrite Hr1, Hall by done; lia].
    destruct_or!; zbool; [done|lia].
Qed.

Lemma retr_loop_dl n t hb k p s :
  ready t k p -> dl k p s ->
  wp (retr_loop fuel n t hb size)
    (fun x s' => rt_remaining x.1 = 0 -> exists p', dl size p' s') (fun _ => True) s.
Proof.
  revert t hb k p s. induction n as [|n IH]; intros t hb k p s [Ht Hready] Hs; [done|].
  cbn [retr_loop]. pose proof Ht as (Hk & Hr & Hn). rewrite Hr. wp_case.
  { wp_step. cbn [fst]. intros _. exists p. zbool. by replace size with k by lia. }
  zbool. destruct Hready as [Hz|Hready]; [lia|]. wp_step. wp_step.
  assert (Hs' := Hs). destruct Hs' as (_ & _ & Hd & _). rewrite Hd. wp_step.
  eapply wp_mono with (Q := fun t' s' => exists k' p', track t' k' /\ dl k' p' s' /\
                                  (rt_remaining t' = 0 \/ p' = k')); [| |done].
  { destruct (rt_use_sendfile t); [|wp_step; exists k, p; auto].
    wp_step. eapply (cork_dl k p true); [done|]. intros _ s1 Hs1. wp_step.
    eapply wp_mono; [by apply (burst_dl fuel t false k p)| |done].
    intros t1 s2 (k1 & p1 & Ht1 & _ & Hs2 & Hor). wp_step.
    eapply (cork_dl k1 p1 false); [done|]. intros _ s3 Hs3. wp_step. exists k1, p1. auto. }
  clear t k p s Ht Hready Hs Hk Hr Hn Hd Heqb. intros t s (k & p & Ht & Hs & Hor).
  pose proof Ht as (Hk & Hr & Hn). rewrite Hr. wp_case.
  { wp_step. intros _. exists p. zbool. by replace size with k by lia. }
  zbool. destruct Hor as [Hz| ->]; [lia|]. wp_step.
  eapply wp_mono with (Q := fun _ s' => dl k k s'); [| |done].
  { destruct hb; [by wp_step|]. eapply wp_still; [done|done|]. auto. }
  clear s Hs. intros b s Hs. destruct b; cbn [negb]; [|by wp_step].
  apply (retr_read_dl t k s (fun t => retr_loop fuel n t true size)); [done|done|done|done|].
  intros t1 k1 s1 H1 H2. by eapply IH.
Qed.

End download.


(** A system with one file: reads give three bytes, [sendfile] moves four. *)
Definition test_file : bytes := str "hello, world".

#[local] Instance file_os : OS Z := fun A c pos =>
  match c in sys A return A * Z * Z with
  | SysRead fd len =>
      if fd =? 12 then let b := slice test_file pos (Z.min len 3) in (Some b, 0, pos + strlen b)
      else (None, EBADF, pos)
  | SysLseek fd off _ => (off, 0, if fd =? 12 then off else pos)
  | SysSendfile _ _ off count =>
      if 0 <? count then ((Z.min 4 count, off + Z.min 4 count), 0, pos) else ((0, off), 0, pos)
  | c => let '(r, e, _) := toy_step c (os_state toy_init) in (r, e, pos)
  end.

#[local] Instance file_12 : FileOS Z 12 test_file.
Proof.
  refine {| fpos := fun w => w |}.
  - intros len w r e w' Hl Hw [= <- _ <-]. split; [|split; [|done]].
    + unfold slice, strlen. rewrite Nat2Z.id, length_take, <- take_take. by rewrite (take_ge _ _ (le_n _)).
    + unfold slice, strlen. rewrite length_take. lia.
  - by intros off w r e w' Ho [= _ _ <-].
  - intros dfd off count w n off' e w'. unfold os_step, file_os.
    destruct (Z.ltb_spec 0 count); intros [= <- <- _ _]; lia.
  - intros A c w r e w' Hc. destruct c; unfold os_step, file_os; cbn in *; try rewrite Hc;
      repeat case_match; by intros [= _ _ <-].
Defined.

