(* ===== verification/PalAlloc.v ===== *)
(** * The arena allocator: [src/pal_alloc.c]

    A buddy allocator inside one contiguous arena.  Block headers and the
    links of the free lists live in the arena itself, next to the clients'
    data, so memory is modelled byte by byte and every field access is a load
    or a store at the field's offset (little endian, 8-byte pointers).
    [PAL_ALLOC_HARD_FAIL] is 0.  The spin lock makes [alloc_locked] and
    [free_locked] atomic; each is one function here. *)

From S2P Require Import Prelude.

(** ** Memory *)

Definition mem : Type := Z -> Z.

Fixpoint load (n : nat) (m : mem) (a : Z) : Z :=
  match n with
  | O => 0
  | S n' => m a + 256 * load n' m (a + 1)
  end.

Definition store_byte (m : mem) (a v : Z) : mem := fun x => if x =? a then v mod 256 else m x.

Fixpoint store (n : nat) (m : mem) (a v : Z) : mem :=
  match n with
  | O => m
  | S n' => store n' (store_byte m a v) (a + 1) (v / 256)
  end.

Definition within (a n x : Z) : bool := (a <=? x) && (x <? a + n).

Definition memset (m : mem) (p c n : Z) : mem := fun x => if within p n x then c else m x.

Definition memcpy (m : mem) (dst src n : Z) : mem :=
  fun x => if within dst n x then m (src + (x - dst)) else m x.

Definition NULL : Z := 0.

(** ** The allocator *)

Definition PAL_ALLOC_DEFAULT_SIZE : Z := 8 * 1024 * 1024.
Definition PAL_ALLOC_MIN_ORDER : Z := 5.
Definition PAL_ALLOC_MAX_ORDER : Z := 26.
Definition PAL_ALLOC_MAGIC : Z := 0xA11C0A7.
Definition SIZE_MAX : Z := 2 ^ 64 - 1.

(** [pal_alloc_hdr_t] (magic, order, used, pad) followed, in a free block, by
    [next]: field offsets and widths. *)
Definition sizeof_hdr : Z := 16.
Definition sizeof_ptr : Z := 8.

Definition hdr_magic (m : mem) (p : Z) : Z := load 4 m p.
Definition hdr_order (m : mem) (p : Z) : Z := load 2 m (p + 4).
Definition hdr_used (m : mem) (p : Z) : Z := load 2 m (p + 6).
Definition node_next (m : mem) (p : Z) : Z := load 8 m (p + 16).

Definition set_hdr_magic (p v : Z) (m : mem) : mem := store 4 m p v.
Definition set_hdr_order (p v : Z) (m : mem) : mem := store 2 m (p + 4) v.
Definition set_hdr_used (p v : Z) (m : mem) : mem := store 2 m (p + 6) v.
Definition set_hdr_pad (p v : Z) (m : mem) : mem := store 8 m (p + 8) v.
Definition set_next (p v : Z) (m : mem) : mem := store 8 m (p + 16) v.

Definition set_hdr (p order used : Z) (m : mem) : mem :=
  set_hdr_pad p 0 (set_hdr_used p used (set_hdr_order p order (set_hdr_magic p PAL_ALLOC_MAGIC m))).

Record pal_alloc_stats_t := AllocStats {
  alloc_calls : Z;
  free_calls : Z;
  calloc_calls : Z;
  realloc_calls : Z;
  aligned_calls : Z;
  failures : Z;
  bytes_in_use : Z;
  bytes_peak : Z
}.

Definition zero_stats : pal_alloc_stats_t := AllocStats 0 0 0 0 0 0 0 0.

Record pal_allocator_t := Allocator {
  a_base : Z;
  a_size : Z;
  a_max_order : Z;
  a_initialized : Z;
  a_stats : pal_alloc_stats_t;
  free_lists : list Z
}.

(** An allocator and the memory it works on. *)
Record heap := Heap {
  al : pal_allocator_t;
  hmem : mem
}.

Definition set_lists (f : list Z) (a : pal_allocator_t) : pal_allocator_t :=
  Allocator (a_base a) (a_size a) (a_max_order a) (a_initialized a) (a_stats a) f.
Definition set_stats (s : pal_alloc_stats_t) (a : pal_allocator_t) : pal_allocator_t :=
  Allocator (a_base a) (a_size a) (a_max_order a) (a_initialized a) s (free_lists a).
Definition on_mem (f : mem -> mem) (h : heap) : heap := Heap (al h) (f (hmem h)).
Definition on_stats (f : pal_alloc_stats_t -> pal_alloc_stats_t) (h : heap) : heap :=
  Heap (set_stats (f (a_stats (al h))) (al h)) (hmem h).

(** The static initialiser of [g_alloc]. *)
Definition g_alloc_init : pal_allocator_t := Allocator NULL 0 0 0 zero_stats (replicate 22 NULL).

(** *** Orders *)

Fixpoint floor_log2_loop (fuel : nat) (v r : Z) : Z :=
  match fuel with
  | O => r
  | S f => let v := Z.shiftr v 1 in if v =? 0 then r else floor_log2_loop f v (r + 1)
  end.

Definition floor_log2_u64 (v : Z) : Z := floor_log2_loop 64 v 0.

Definition ceil_log2_u64 (v : Z) : Z :=
  if v <=? 1 then 0 else floor_log2_u64 (v - 1) + 1.

(** *** Free lists *)

Definition list_idx (order : Z) : nat := Z.to_nat (order - PAL_ALLOC_MIN_ORDER).

Definition list_head (h : heap) (order : Z) : Z := free_lists (al h) !!! list_idx order.

Definition set_head (order p : Z) (h : heap) : heap :=
  Heap (set_lists (<[list_idx order := p]> (free_lists (al h))) (al h)) (hmem h).

Definition list_pop (h : heap) (order : Z) : Z * heap :=
  let n := list_head h order in
  if n =? NULL then (n, h)
  else (n, on_mem (set_next n NULL) (set_head order (node_next (hmem h) n) h)).

Definition list_push (h : heap) (order n : Z) : heap :=
  set_head order n (on_mem (set_next n (list_head h order)) h).

(** The walk of [list_remove]; [prev] is NULL at the head. *)
Fixpoint list_remove_loop (fuel : nat) (h : heap) (order target prev cur : Z) : Z * heap :=
  match fuel with
  | O => (0, h)
  | S f =>
      if cur =? NULL then (0, h)
      else if cur =? target then
        let h := if negb (prev =? NULL)
                 then on_mem (set_next prev (node_next (hmem h) cur)) h
                 else set_head order (node_next (hmem h) cur) h in
        (1, on_mem (set_next cur NULL) h)
      else list_remove_loop f h order target cur (node_next (hmem h) cur)
  end.

(** A list holds at most one node per smallest block of the arena. *)
Definition list_fuel (h : heap) : nat := S (Z.to_nat (a_size (al h) / 2 ^ PAL_ALLOC_MIN_ORDER)).

Definition list_remove (h : heap) (order target : Z) : Z * heap :=
  list_remove_loop (list_fuel h) h order target NULL (list_head h order).

(** *** Set-up and statistics *)

Definition prefault_pages (base size : Z) (m : mem) : mem :=
  if (base =? NULL) || (size =? 0) then m
  else fun x =>
    if within base size x && (((x - base) mod 4096 =? 0) || (x =? base + size - 1)) then 0 else m x.

Definition ptr_in_arena (a : pal_allocator_t) (p : Z) : bool :=
  if (p =? NULL) || (a_base a =? NULL) || (a_size a =? 0) then false
  else within (a_base a) (a_size a) p.

Definition pal_allocator_get_stats (a : pal_allocator_t) : pal_alloc_stats_t :=
  if a_initialized a =? 0 then zero_stats else a_stats a.

Definition pal_allocator_reset_stats (a : pal_allocator_t) : pal_allocator_t := set_stats zero_stats a.

(** [pal_allocator_init]: -1 leaves the allocator as it was. *)
Definition pal_allocator_init (h : heap) (buffer size : Z) : Z * heap :=
  if buffer =? NULL then (-1, h)
  else if size <? 2 ^ PAL_ALLOC_MIN_ORDER then (-1, h)
  else
    let aligned := Z.land (u64 (buffer + 15)) (Z.lnot 15) in
    let adj := u64 (aligned - buffer) in
    if size <=? adj then (-1, h)
    else
      let base := aligned in
      let usable := size - adj in
      let max_order := floor_log2_u64 usable in
      let max_order := if PAL_ALLOC_MAX_ORDER <? max_order then PAL_ALLOC_MAX_ORDER else max_order in
      if max_order <? PAL_ALLOC_MIN_ORDER then (-1, h)
      else
        let arena_size := Z.shiftl 1 max_order in
        let a := pal_allocator_reset_stats
                   (Allocator base arena_size max_order (a_initialized (al h)) (a_stats (al h))
                      (replicate (length (free_lists (al h))) NULL)) in
        let m := prefault_pages base arena_size (hmem h) in
        let root := base in
        let m := set_next root NULL (set_hdr root max_order 0 m) in
        let h := list_push (Heap a m) max_order root in
        (0, Heap (Allocator (a_base (al h)) (a_size (al h)) (a_max_order (al h)) 1
                    (a_stats (al h)) (free_lists (al h))) (hmem h)).

(** *** Allocation *)

(** The first non-empty list from [cur] on. *)
Fixpoint pop_from (n : nat) (h : heap) (cur : Z) : Z * Z * heap :=
  match n with
  | O => (NULL, cur, h)
  | S n' =>
      let '(node, h') := list_pop h cur in
      if negb (node =? NULL) then (node, cur, h') else pop_from n' h' (cur + 1)
  end.

(** Halve [node] [n] times, pushing the upper half each time. *)
Fixpoint split_down (n : nat) (h : heap) (cur node : Z) : heap :=
  match n with
  | O => h
  | S n' =>
      let cur := cur - 1 in
      let half := Z.shiftl 1 cur in
      let buddy := node + half in
      let h := on_mem (fun m => set_next buddy NULL (set_hdr buddy cur 0 m)) h in
      let h := list_push h cur buddy in
      split_down n' (on_mem (set_hdr_order node cur) h) cur node
  end.

Definition alloc_locked (h : heap) (size : Z) : Z * heap :=
  let size := if size =? 0 then 1 else size in
  let need := u64 (size + sizeof_hdr) in
  if a_size (al h) <? need then (NULL, h)
  else
    let order := ceil_log2_u64 need in
    let order := if order <? PAL_ALLOC_MIN_ORDER then PAL_ALLOC_MIN_ORDER else order in
    if a_max_order (al h) <? order then (NULL, h)
    else
      let '(node, cur, h) := pop_from (Z.to_nat (a_max_order (al h) - order + 1)) h order in
      if node =? NULL then (NULL, h)
      else
        let h := split_down (Z.to_nat (cur - order)) h cur node in
        (node + sizeof_hdr, on_mem (set_hdr node order 1) h).

(** [bump_peak]'s compare-and-swap loop ends with the maximum. *)
Definition bump_peak (in_use peak : Z) : Z := if peak <? in_use then in_use else peak.

Definition count_alloc (bytes : Z) (s : pal_alloc_stats_t) : pal_alloc_stats_t :=
  let in_use := u64 (bytes_in_use s + bytes) in
  AllocStats (u64 (alloc_calls s + 1)) (free_calls s) (calloc_calls s) (realloc_calls s)
    (aligned_calls s) (failures s) in_use (bump_peak in_use (bytes_peak s)).
Definition count_failure (s : pal_alloc_stats_t) : pal_alloc_stats_t :=
  AllocStats (alloc_calls s) (free_calls s) (calloc_calls s) (realloc_calls s)
    (aligned_calls s) (u64 (failures s + 1)) (bytes_in_use s) (bytes_peak s).
Definition count_free (bytes : Z) (s : pal_alloc_stats_t) : pal_alloc_stats_t :=
  AllocStats (alloc_calls s) (u64 (free_calls s + 1)) (calloc_calls s) (realloc_calls s)
    (aligned_calls s) (failures s) (u64 (bytes_in_use s - bytes)) (bytes_peak s).
Definition count_calloc (s : pal_alloc_stats_t) : pal_alloc_stats_t :=
  AllocStats (alloc_calls s) (free_calls s) (u64 (calloc_calls s + 1)) (realloc_calls s)
    (aligned_calls s) (failures s) (bytes_in_use s) (bytes_peak s).
Definition count_realloc (s : pal_alloc_stats_t) : pal_alloc_stats_t :=
  AllocStats (alloc_calls s) (free_calls s) (calloc_calls s) (u64 (realloc_calls s + 1))
    (aligned_calls s) (failures s) (bytes_in_use s) (bytes_peak s).
Definition count_aligned (s : pal_alloc_stats_t) : pal_alloc_stats_t :=
  AllocStats (alloc_calls s) (free_calls s) (calloc_calls s) (realloc_calls s)
    (u64 (aligned_calls s + 1)) (failures s) (bytes_in_use s) (bytes_peak s).

Definition pal_allocator_malloc (h : heap) (size : Z) : Z * heap :=
  if a_initialized (al h) =? 0 then (NULL, h)
  else
    let '(p, h) := alloc_locked h size in
    if negb (p =? NULL)
    then (p, on_stats (count_alloc (Z.shiftl 1 (hdr_order (hmem h) (p - sizeof_hdr)))) h)
    else (p, on_stats count_failure h).

(** *** Release *)

(** The header [free_locked] works on: the one before [ptr], or, for a
    pointer of [pal_allocator_aligned_alloc], the one before the raw pointer
    stored in front of it. *)
Definition free_hdr (h : heap) (ptr : Z) : option Z :=
  let m := hmem h in
  let hdr := ptr - sizeof_hdr in
  if negb (hdr_magic m hdr =? PAL_ALLOC_MAGIC) || (hdr_used m hdr =? 0) then
    if ptr mod sizeof_ptr =? 0 then
      let raw := load 8 m (ptr - sizeof_ptr) in
      if ptr_in_arena (al h) raw then
        let rh := raw - sizeof_hdr in
        if (hdr_magic m rh =? PAL_ALLOC_MAGIC) && negb (hdr_used m rh =? 0) then Some rh else None
      else None
    else None
  else Some hdr.

(** Join the block at [offset] with its buddy while that is free and whole;
    the result is the block to put on a free list. *)
Fixpoint merge_up (n : nat) (h : heap) (order block_size offset node : Z) : Z * Z * heap :=
  match n with
  | O => (order, node, h)
  | S n' =>
      let buddy_offset := Z.lxor offset block_size in
      if a_size (al h) <=? buddy_offset then (order, node, h)
      else
        let buddy := a_base (al h) + buddy_offset in
        if negb (hdr_magic (hmem h) buddy =? PAL_ALLOC_MAGIC) || negb (hdr_used (hmem h) buddy =? 0)
        then (order, node, h)
        else if negb (hdr_order (hmem h) buddy =? order) then (order, node, h)
        else
          let '(found, h) := list_remove h order buddy in
          if found =? 0 then (order, node, h)
          else
            let '(node, offset) := if buddy_offset <? offset then (buddy, buddy_offset) else (node, offset) in
            let order := order + 1 in
            let h := on_mem (fun m => set_next node NULL (set_hdr_pad node 0
                               (set_hdr_used node 0 (set_hdr_order node order m)))) h in
            merge_up n' h order (Z.shiftl block_size 1) offset node
  end.

Definition free_locked (h : heap) (ptr : Z) : heap :=
  if ptr =? NULL then h
  else
    match free_hdr h ptr with
    | None => h
    | Some hdr =>
        let order := hdr_order (hmem h) hdr in
        if (order <? PAL_ALLOC_MIN_ORDER) || (a_max_order (al h) <? order) then h
        else
          let bytes := Z.shiftl 1 order in
          let h := on_stats (count_free bytes) h in
          let node := hdr in
          let h := on_mem (fun m => set_next node NULL (set_hdr_used hdr 0 m)) h in
          let block_size := Z.shiftl 1 order in
          let offset := node - a_base (al h) in
          let '(order, node, h) :=
            merge_up (Z.to_nat (a_max_order (al h) - order)) h order block_size offset node in
          list_push h order node
    end.

Definition pal_allocator_free (h : heap) (ptr : Z) : heap :=
  if ptr =? NULL then h
  else if a_initialized (al h) =? 0 then h
  else free_locked h ptr.

(** *** The derived operations *)

Definition pal_allocator_calloc (h : heap) (nmemb size : Z) : Z * heap :=
  let h := on_stats count_calloc h in
  if (nmemb =? 0) || (size =? 0) then pal_allocator_malloc h 0
  else if SIZE_MAX / size <? nmemb then (NULL, h)
  else
    let total := nmemb * size in
    let '(p, h) := pal_allocator_malloc h total in
    if negb (p =? NULL) then (p, on_mem (fun m => memset m p 0 total) h) else (p, h).

Definition pal_allocator_realloc (h : heap) (ptr size : Z) : Z * heap :=
  let h := on_stats count_realloc h in
  if ptr =? NULL then pal_allocator_malloc h size
  else if size =? 0 then (NULL, pal_allocator_free h ptr)
  else if a_initialized (al h) =? 0 then (NULL, h)
  else
    let hdr := ptr - sizeof_hdr in
    if negb (hdr_magic (hmem h) hdr =? PAL_ALLOC_MAGIC) || (hdr_used (hmem h) hdr =? 0) then (NULL, h)
    else
      let order := hdr_order (hmem h) hdr in
      let cap := Z.shiftl 1 order - sizeof_hdr in
      if size <=? cap then (ptr, h)
      else
        let '(n, h) := pal_allocator_malloc h size in
        if n =? NULL then (NULL, h)
        else
          let h := on_mem (fun m => memcpy m n ptr cap) h in
          (n, pal_allocator_free h ptr).

Definition pal_allocator_aligned_alloc (h : heap) (alignment size : Z) : Z * heap :=
  let h := on_stats count_aligned h in
  let alignment := if alignment <? sizeof_ptr then sizeof_ptr else alignment in
  if negb (Z.land alignment (alignment - 1) =? 0) then (NULL, h)
  else
    let need := u64 (u64 (size + alignment) + sizeof_ptr) in
    let '(raw, h) := pal_allocator_malloc h need in
    if raw =? NULL then (NULL, h)
    else
      let start := u64 (raw + sizeof_ptr) in
      let aligned := Z.land (u64 (start + (alignment - 1))) (Z.lnot (alignment - 1)) in
      let slot := aligned - sizeof_ptr in
      (aligned, on_mem (fun m => store 8 m slot raw) h).

(** The status, and the pointer stored through [memptr] ([None]: nothing is
    stored). *)
Definition pal_allocator_posix_memalign (h : heap) (memptr alignment size : Z) : (Z * option Z) * heap :=
  if memptr =? NULL then ((22, None), h)
  else
    let '(p, h) := pal_allocator_aligned_alloc h alignment size in
    if p =? NULL then ((12, Some NULL), h) else ((0, Some p), h).

(** *** The global allocator

    [al] is [g_alloc] here; the address of [g_alloc_default_buf] is chosen by
    the linker. *)
Section global.
Context (g_alloc_default_buf : Z).

Definition pal_alloc_init (h : heap) (buffer size : Z) : Z * heap := pal_allocator_init h buffer size.

Definition pal_alloc_init_default (h : heap) : Z * heap :=
  if negb (a_initialized (al h) =? 0) then (0, h)
  else pal_alloc_init h g_alloc_default_buf PAL_ALLOC_DEFAULT_SIZE.

Definition pal_alloc_arena_size (h : heap) : Z :=
  if a_initialized (al h) =? 0 then 0 else a_size (al h).

(** Bytes on one free list. *)
Fixpoint list_bytes (fuel : nat) (m : mem) (order n acc : Z) : Z :=
  match fuel with
  | O => acc
  | S f => if n =? NULL then acc
           else list_bytes f m order (node_next m n) (u64 (acc + Z.shiftl 1 order))
  end.

Definition pal_alloc_arena_free_approx (h : heap) : Z :=
  if a_initialized (al h) =? 0 then 0
  else fold_left (fun free_total i =>
         let order := PAL_ALLOC_MIN_ORDER + Z.of_nat i in
         list_bytes (list_fuel h) (hmem h) order (list_head h order) free_total)
       (seq 0 (Z.to_nat (a_max_order (al h) - PAL_ALLOC_MIN_ORDER + 1))) 0.

(** Initialise on first use; [fail] is returned if that fails. *)
Definition with_default {A} (fail : A) (op : heap -> A * heap) (h : heap) : A * heap :=
  if a_initialized (al h) =? 0 then
    let '(rc, h) := pal_alloc_init_default h in
    if negb (rc =? 0) then (fail, h) else op h
  else op h.

Definition pal_malloc (size : Z) : heap -> Z * heap :=
  with_default NULL (fun h => pal_allocator_malloc h size).

Definition pal_free (h : heap) (ptr : Z) : heap :=
  if a_initialized (al h) =? 0 then h else pal_allocator_free h ptr.

Definition pal_calloc (nmemb size : Z) : heap -> Z * heap :=
  with_default NULL (fun h => pal_allocator_calloc h nmemb size).

Definition pal_realloc (ptr size : Z) : heap -> Z * heap :=
  with_default NULL (fun h => pal_allocator_realloc h ptr size).

Definition pal_aligned_alloc (alignment size : Z) : heap -> Z * heap :=
  with_default NULL (fun h => pal_allocator_aligned_alloc h alignment size).

Definition pal_posix_memalign (memptr alignment size : Z) : heap -> (Z * option Z) * heap :=
  with_default (12, None) (fun h => pal_allocator_posix_memalign h memptr alignment size).

Definition pal_alloc_get_stats (h : heap) : pal_alloc_stats_t := pal_allocator_get_stats (al h).

Definition pal_alloc_reset_stats (h : heap) : heap := Heap (pal_allocator_reset_stats (al h)) (hmem h).

End global.
