(* ===== verification/PalAllocInv.v ===== *)
(** * The allocator is a buddy system

    The representation invariant of the arena (which blocks there are, their
    headers, the free lists) and its preservation by [alloc_locked] and
    [free_locked]; then what the clients see: every sequence of allocator
    calls and of writes into live blocks behaves as an abstract store of
    separate byte arrays. *)

From S2P Require Import Prelude PalAlloc.

(** ** Memory lemmas *)

Lemma load_ext n m m' a : (forall x, a <= x < a + Z.of_nat n -> m' x = m x) -> load n m' a = load n m a.
Proof.
  revert a. induction n as [|n IH]; intros a E; [done|]. cbn [load].
  rewrite E by lia. rewrite IH; [done|]. intros x ?. apply E. lia.
Qed.

Lemma store_other n m a v x : ~ (a <= x < a + Z.of_nat n) -> store n m a v x = m x.
Proof.
  revert m a v. induction n as [|n IH]; intros m a v Hx; [done|]. cbn [store].
  rewrite IH by lia. unfold store_byte. destruct (Z.eqb_spec x a); [lia|done].
Qed.

Lemma load_store n m a v : 0 <= v < 256 ^ Z.of_nat n -> load n (store n m a v) a = v.
Proof.
  revert m a v. induction n as [|n IH]; intros m a v Hv; [cbn in *; lia|]. cbn [load store].
  rewrite Nat2Z.inj_succ, Z.pow_succ_r in Hv by lia.
  rewrite store_other by lia. unfold store_byte at 1. rewrite Z.eqb_refl.
  rewrite IH; [pose proof (Z.div_mod v 256); lia|].
  split; [apply Z.div_pos; lia|apply Z.div_lt_upper_bound; lia].
Qed.

Lemma load_store_ne n n' m a a' v :
  a' + Z.of_nat n' <= a \/ a + Z.of_nat n <= a' -> load n' (store n m a v) a' = load n' m a'.
Proof. intros ?. apply load_ext. intros x ?. apply store_other. lia. Qed.

Lemma set_next_other p v m x : ~ (p + 16 <= x < p + 24) -> set_next p v m x = m x.
Proof. intros ?. apply store_other. lia. Qed.

(** Fields of a block after a store to another field of it. *)
Ltac field_solve :=
  unfold hdr_magic, hdr_order, hdr_used, node_next, set_hdr, set_hdr_magic, set_hdr_order,
    set_hdr_used, set_hdr_pad, set_next in *;
  repeat first [rewrite load_store by (try unfold PAL_ALLOC_MAGIC; cbn; lia) | rewrite load_store_ne by lia]; try done.

(** [m'] differs from [m] at most in the header and link of the block at
    [p]. *)
Definition touch (p : Z) (m m' : mem) : Prop := forall x, ~ (p <= x < p + 24) -> m' x = m x.

Lemma touch_refl p m : touch p m m.
Proof. by intros x. Qed.

Lemma touch_trans p m m' m'' : touch p m m' -> touch p m' m'' -> touch p m m''.
Proof. intros H1 H2 x Hx. by rewrite H2, H1. Qed.

Lemma touch_store p n m a v :
  p <= a -> a + Z.of_nat n <= p + 24 -> touch p m (store n m a v).
Proof. intros ?? x Hx. apply store_other. lia. Qed.

Ltac touch_solve :=
  unfold set_hdr, set_hdr_magic, set_hdr_order, set_hdr_used, set_hdr_pad, set_next;
  repeat first [apply touch_refl | eapply touch_trans; [|apply touch_store; lia]].

Definition hdr_at (m : mem) (p k : Z) (u : bool) : Prop :=
  hdr_magic m p = PAL_ALLOC_MAGIC /\ hdr_order m p = k /\ hdr_used m p = (if u then 1 else 0).

Lemma hdr_at_touch p q m m' k u : touch p m m' -> q + 24 <= p \/ p + 24 <= q -> hdr_at m q k u -> hdr_at m' q k u.
Proof.
  intros Ht Hd (E1 & E2 & E3). unfold hdr_at, hdr_magic, hdr_order, hdr_used in *.
  split_and!; [rewrite <- E1 | rewrite <- E2 | rewrite <- E3]; apply load_ext; intros; apply Ht; lia.
Qed.

Lemma next_touch p q m m' : touch p m m' -> q + 24 <= p \/ p + 24 <= q -> node_next m' q = node_next m q.
Proof. intros Ht Hd. apply load_ext. intros. apply Ht. lia. Qed.

Lemma hdr_at_set_next m p k u v : hdr_at m p k u -> hdr_at (set_next p v m) p k u.
Proof. intros (? & ? & ?). unfold hdr_at. by split_and!; field_solve. Qed.

Lemma hdr_at_set_hdr m p k (u : bool) : 0 <= k < 65536 ->
  hdr_at (set_hdr p k (if u then 1 else 0) m) p k u.
Proof. intros ?. unfold hdr_at. by destruct u; split_and!; field_solve. Qed.

Lemma hdr_at_set_order m p k k' u : 0 <= k' < 65536 -> hdr_at m p k u -> hdr_at (set_hdr_order p k' m) p k' u.
Proof. intros ? (? & ? & ?). unfold hdr_at. by split_and!; field_solve. Qed.

Lemma next_set_next m p v : 0 <= v < 2 ^ 64 -> node_next (set_next p v m) p = v.
Proof. intros ?. field_solve. Qed.

(** ** List segments through the [next] links *)

Fixpoint lseg (m : mem) (p : Z) (l : list Z) (q : Z) : Prop :=
  match l with
  | [] => p = q
  | x :: l' => p = x /\ x <> NULL /\ lseg m (node_next m x) l' q
  end.

Lemma lseg_app m p l1 l2 q : lseg m p (l1 ++ l2) q <-> exists r, lseg m p l1 r /\ lseg m r l2 q.
Proof.
  revert p. induction l1 as [|x l1 IH]; intros p; cbn [lseg app].
  - split; [eauto|]. by intros (r & -> & ?).
  - rewrite IH. naive_solver.
Qed.

Lemma lseg_frame m m' p l q :
  (forall x, x ∈ l -> node_next m' x = node_next m x) -> lseg m p l q -> lseg m' p l q.
Proof.
  revert p. induction l as [|x l IH]; intros p E; cbn [lseg]; [done|].
  intros (-> & ? & ?). split_and!; [done..|]. rewrite E by set_solver. apply IH; [set_solver|done].
Qed.

(** ** The geometry of the blocks

    The blocks of an arena of order [mx]: offset to order and whether the
    block is taken. *)

Abbreviation blocks := (gmap Z (Z * bool)).

Record geo (mx : Z) (bs : blocks) : Prop := Geo {
  geo_range : forall o k u, bs !! o = Some (k, u) ->
    PAL_ALLOC_MIN_ORDER <= k <= mx /\ 0 <= o /\ o + 2 ^ k <= 2 ^ mx /\ (2 ^ k | o);
  geo_cover : forall x, 0 <= x < 2 ^ mx -> exists o k u, bs !! o = Some (k, u) /\ o <= x < o + 2 ^ k;
  geo_disj : forall o k u o' k' u', bs !! o = Some (k, u) -> bs !! o' = Some (k', u') ->
    o < o' -> o + 2 ^ k <= o'
}.

Lemma pow_ge k : PAL_ALLOC_MIN_ORDER <= k -> 32 <= 2 ^ k.
Proof. intros ?. change 32 with (2 ^ PAL_ALLOC_MIN_ORDER). apply Z.pow_le_mono_r; lia. Qed.

Lemma pow_half k : PAL_ALLOC_MIN_ORDER <= k -> 2 ^ (k + 1) = 2 ^ k + 2 ^ k.
Proof. unfold PAL_ALLOC_MIN_ORDER. intros ?. rewrite Z.pow_add_r by lia. lia. Qed.

Lemma pow_divide j k x : 0 <= j <= k -> (2 ^ k | x) -> (2 ^ j | x).
Proof.
  intros ? Hx. apply (Z.divide_trans _ (2 ^ k)); [|done].
  exists (2 ^ (k - j)). rewrite <- Z.pow_add_r by lia. f_equal. lia.
Qed.

Lemma divide_le d x y r : (d | x) -> (d | y) -> 0 <= r < d -> x <= y + r -> x <= y.
Proof. intros [a ->] [b ->] ??. assert (a <= b) by nia. nia. Qed.

Lemma divide_lt d x y : (d | x) -> (d | y) -> 0 < d -> x < y -> x + d <= y.
Proof. intros [a ->] [b ->] ??. assert (a + 1 <= b) by nia. nia. Qed.

(** A change of the taken flag, and a change of shape described by what the
    new map covers. *)
Lemma geo_flag mx bs o k u u' : geo mx bs -> bs !! o = Some (k, u) -> geo mx (<[o := (k, u')]> bs).
Proof.
  intros [R C D] E. split.
  - intros o1 k1 u1. rewrite lookup_insert_Some. intros [(<- & [= <- <-])|[? ?]]; eauto.
  - intros x Hx. destruct (C x Hx) as (o1 & k1 & u1 & E1 & Hb).
    destruct (decide (o1 = o)) as [->|Hne].
    + rewrite E in E1. injection E1 as <- <-. exists o, k, u'. by rewrite lookup_insert_eq.
    + exists o1, k1, u1. by rewrite lookup_insert_ne.
  - intros o1 k1 u1 o2 k2 u2. rewrite !lookup_insert_Some.
    intros [(<- & [= <- <-])|[? ?]] [(<- & [= <- <-])|[? ?]]; [lia|eauto..].
Qed.

Lemma geo_split mx bs o k u u1 u2 :
  geo mx bs -> PAL_ALLOC_MIN_ORDER <= k -> bs !! o = Some (k + 1, u) ->
  geo mx (<[o := (k, u1)]> (<[o + 2 ^ k := (k, u2)]> bs)) /\ bs !! (o + 2 ^ k) = None.
Proof.
  intros [R C D] Hk E. pose proof (pow_half k Hk) as Hp. pose proof (pow_ge k Hk) as Hg.
  destruct (R _ _ _ E) as (? & ? & ? & Hd).
  assert (Hd' : (2 ^ k | o)) by (apply (pow_divide _ (k + 1)); [unfold PAL_ALLOC_MIN_ORDER in *; lia|done]).
  assert (Hfree : bs !! (o + 2 ^ k) = None).
  { destruct (bs !! (o + 2 ^ k)) as [[k' u']|] eqn:E'; [|done].
    pose proof (D _ _ _ _ _ _ E E'). lia. }
  split; [|done]. split.
  - intros o1 k1 u'. rewrite !lookup_insert_Some.
    intros [(<- & [= <- <-])|[? [(<- & [= <- <-])|[? ?]]]]; [| |eauto].
    + split_and!; try lia. done.
    + split_and!; try lia. apply Z.divide_add_r; [done|apply Z.divide_refl].
  - intros x Hx. destruct (C x Hx) as (o1 & k1 & u' & E1 & Hb).
    destruct (decide (o1 = o)) as [->|Hne].
    + rewrite E in E1. injection E1 as <- <-. destruct (decide (x < o + 2 ^ k)).
      * exists o, k, u1. rewrite lookup_insert_eq. split; [done|lia].
      * exists (o + 2 ^ k), k, u2. rewrite lookup_insert_ne by lia. rewrite lookup_insert_eq. split; [done|lia].
    + exists o1, k1, u'. rewrite !lookup_insert_ne by congruence. done.
  - intros o1 k1 v1 o2 k2 v2. rewrite !lookup_insert_Some.
    intros [(<- & [= <- <-])|[? [(<- & [= <- <-])|[? E1]]]] [(<- & [= <- <-])|[? [(<- & [= <- <-])|[? E2]]]] Hlt;
      try lia.
    + pose proof (D _ _ _ _ _ _ E E2). lia.
    + destruct (decide (o2 < o)); [pose proof (D _ _ _ _ _ _ E2 E); lia|].
      pose proof (D _ _ _ _ _ _ E E2). lia.
    + pose proof (D _ _ _ _ _ _ E1 E). lia.
    + destruct (decide (o1 < o)); [pose proof (D _ _ _ _ _ _ E1 E); lia|].
      pose proof (D _ _ _ _ _ _ E E1). lia.
    + eauto.
Qed.

Lemma geo_merge mx bs o k u1 u2 u :
  geo mx bs -> k < mx -> bs !! o = Some (k, u1) -> bs !! (o + 2 ^ k) = Some (k, u2) -> (2 ^ (k + 1) | o) ->
  geo mx (<[o := (k + 1, u)]> (delete (o + 2 ^ k) bs)).
Proof.
  intros [R C D] Hk E1 E2 Hd. destruct (R _ _ _ E1) as (? & ? & ? & _). destruct (R _ _ _ E2) as (_ & _ & ? & _).
  pose proof (pow_half k ltac:(lia)) as Hp. pose proof (pow_ge k ltac:(lia)) as Hg.
  split.
  - intros o1 k1 u'. rewrite lookup_insert_Some, lookup_delete_Some.
    intros [(<- & [= <- <-])|[? [? ?]]]; [|eauto]. split_and!; try lia. done.
  - intros x Hx. destruct (C x Hx) as (o1 & k1 & u' & E & Hb).
    destruct (decide (o1 = o \/ o1 = o + 2 ^ k)) as [Ho|Hne].
    + exists o, (k + 1), u. rewrite lookup_insert_eq. split; [done|].
      destruct Ho as [-> | ->]; [rewrite E1 in E|rewrite E2 in E]; injection E as <- <-; lia.
    + exists o1, k1, u'. rewrite lookup_insert_ne, lookup_delete_ne by (intros ?; apply Hne; lia). done.
  - intros o1 k1 v1 o2 k2 v2. rewrite !lookup_insert_Some, !lookup_delete_Some.
    intros [(<- & [= <- <-])|[? [? F1]]] [(<- & [= <- <-])|[? [? F2]]] Hlt; [lia| | |eauto].
    + destruct (decide (o2 < o + 2 ^ k)); [pose proof (D _ _ _ _ _ _ E1 F2); lia|].
      pose proof (D _ _ _ _ _ _ E2 F2). lia.
    + pose proof (D _ _ _ _ _ _ F1 E1). lia.
Qed.

(** The offset [free_locked] computes for the buddy: the other half of the
    enclosing block of twice the size. *)
Lemma lxor_half k P : 0 <= k -> (2 ^ (k + 1) | P) ->
  Z.lxor P (2 ^ k) = P + 2 ^ k /\ Z.lxor (P + 2 ^ k) (2 ^ k) = P.
Proof.
  intros ? [c ->].
  assert (E : Z.lxor (c * 2 ^ (k + 1)) (2 ^ k) = c * 2 ^ (k + 1) + 2 ^ k).
  { symmetry. apply Z.add_nocarry_lxor. apply Z.bits_inj'. intros i ?.
    rewrite Z.land_spec, Z.pow2_bits_eqb, Z.bits_0 by done.
    destruct (Z.eqb_spec k i) as [->|]; [|apply andb_false_r].
    rewrite Z.mul_pow2_bits_low by lia. done. }
  split; [done|]. by rewrite <- E, Z.lxor_assoc, Z.lxor_nilpotent, Z.lxor_0_r.
Qed.

Lemma buddy_of k o : 0 <= k -> (2 ^ k | o) ->
  exists P, (2 ^ (k + 1) | P) /\
    ((o = P /\ Z.lxor o (2 ^ k) = P + 2 ^ k) \/ (o = P + 2 ^ k /\ Z.lxor o (2 ^ k) = P)).
Proof.
  intros ? [q ->]. destruct (Z.Even_or_Odd q) as [[j ->]|[j ->]];
    exists (j * 2 ^ (k + 1)); (split; [by exists j|]);
    destruct (lxor_half k (j * 2 ^ (k + 1))) as [E1 E2]; try done; try (by exists j);
    rewrite Z.pow_add_r in * by lia.
  - left. replace (2 * j * 2 ^ k) with (j * (2 ^ k * 2 ^ 1)) by lia. done.
  - right. replace ((2 * j + 1) * 2 ^ k) with (j * (2 ^ k * 2 ^ 1) + 2 ^ k) by lia. done.
Qed.

(** There is a block at the buddy's offset, and it is no larger. *)
Lemma geo_buddy mx bs o k u :
  geo mx bs -> bs !! o = Some (k, u) -> k < mx ->
  0 <= Z.lxor o (2 ^ k) < 2 ^ mx /\
  exists k' u', bs !! Z.lxor o (2 ^ k) = Some (k', u') /\ k' <= k.
Proof.
  intros [R C D] E Hk. destruct (R _ _ _ E) as (? & ? & ? & Hd).
  pose proof (pow_half k ltac:(lia)) as Hp. pose proof (pow_ge k ltac:(lia)).
  destruct (buddy_of k o) as (P & HP & Hb); [unfold PAL_ALLOC_MIN_ORDER in *; lia|done|].
  set (b := Z.lxor o (2 ^ k)) in *.
  assert (Hm : (2 ^ (k + 1) | 2 ^ mx)) by (apply (pow_divide _ mx); [unfold PAL_ALLOC_MIN_ORDER in *; lia|apply Z.divide_refl]).
  assert (0 <= P) by (destruct Hb as [[-> _]|[-> _]]; [done|];
    apply (divide_le (2 ^ (k + 1)) 0 P (2 ^ k)); [apply Z.divide_0_r|done|lia..]).
  assert (P + 2 ^ (k + 1) <= 2 ^ mx).
  { apply divide_lt; [done|done|lia..]. }
  assert (Hbr : 0 <= b < 2 ^ mx) by lia. split; [done|].
  destruct (C b Hbr) as (o' & k' & u' & E' & Hin). destruct (R _ _ _ E') as (? & ? & ? & Hd').
  assert (Hdb : (2 ^ k | b)).
  { destruct Hb as [[_ ->]|[_ ->]]; [apply Z.divide_add_r|]; try (by apply (pow_divide _ (k + 1)); [unfold PAL_ALLOC_MIN_ORDER in *; lia|]).
    apply Z.divide_refl. }
  destruct (decide (k' <= k)) as [Hle|Hgt].
  - exists k', u'. split; [|done].
    assert (o' = b) as <-; [|done].
    assert (b <= o'); [|lia].
    apply (divide_le (2 ^ k') b o' (b - o')); [|done|lia..].
    apply (pow_divide _ k); [unfold PAL_ALLOC_MIN_ORDER in *; lia|done].
  - exfalso. assert (Hdo : (2 ^ (k + 1) | o')) by (apply (pow_divide _ k'); [unfold PAL_ALLOC_MIN_ORDER in *; lia|done]).
    assert (Hdk : (2 ^ (k + 1) | 2 ^ k')) by (apply (pow_divide _ k'); [unfold PAL_ALLOC_MIN_ORDER in *; lia|apply Z.divide_refl]).
    assert (o' <= P) by (apply (divide_le (2 ^ (k + 1)) o' P (b - P)); [done|done|lia..]).
    assert (P + 2 ^ (k + 1) <= o' + 2 ^ k').
    { apply divide_lt; [done|by apply Z.divide_add_r|lia..]. }
    destruct (decide (o = o')) as [->|]; [rewrite E in E'; injection E' as <- <-; lia|].
    destruct (decide (o < o')); [lia|]. pose proof (D _ _ _ _ _ _ E' E). lia.
Qed.

(** The taken blocks. *)
Definition taken (bs : blocks) : gmap Z Z := omap (fun b : Z * bool => if b.2 then Some b.1 else None) bs.

Lemma taken_Some bs o k : taken bs !! o = Some k <-> bs !! o = Some (k, true).
Proof.
  unfold taken. rewrite lookup_omap. destruct (bs !! o) as [[k' []]|]; cbn; naive_solver.
Qed.

Lemma taken_insert bs o k : taken (<[o := (k, true)]> bs) = <[o := k]> (taken bs).
Proof. unfold taken. by rewrite (omap_insert_Some _ _ _ _ k). Qed.

Lemma taken_insert_free bs o k : taken (<[o := (k, false)]> bs) = delete o (taken bs).
Proof. unfold taken. by rewrite omap_insert_None. Qed.

Lemma taken_delete bs o : taken (delete o bs) = delete o (taken bs).
Proof. apply omap_delete. Qed.

(** The bytes the taken blocks occupy. *)
Definition used_bytes (t : gmap Z Z) : Z := map_fold (fun _ k acc => 2 ^ k + acc) 0 t.

Lemma used_bytes_insert t o k : t !! o = None -> used_bytes (<[o := k]> t) = 2 ^ k + used_bytes t.
Proof. intros ?. unfold used_bytes. rewrite map_fold_insert_L; [done|intros; lia|done]. Qed.

Lemma used_bytes_delete t o k : t !! o = Some k -> used_bytes t = 2 ^ k + used_bytes (delete o t).
Proof. intros E. rewrite <- (insert_delete_id t o k E) at 1. apply used_bytes_insert, lookup_delete_eq. Qed.

Lemma u64_u64 a b : u64 (u64 a + b) = u64 (a + b).
Proof. unfold u64. apply Zplus_mod_idemp_l. Qed.

(** ** The representation invariant *)

Section arena.
Context (B mx : Z).
Hypothesis HB : 0 < B.
Hypothesis Hmx : PAL_ALLOC_MIN_ORDER <= mx <= PAL_ALLOC_MAX_ORDER.
Hypothesis Hend : B + 2 ^ mx <= 2 ^ 64.

(** The free list of order [k] holds exactly the free blocks of that order. *)
Definition list_of (h : heap) (bs : blocks) (k : Z) (l : list Z) : Prop :=
  lseg (hmem h) (list_head h k) l NULL /\ NoDup l /\
  forall p, p ∈ l <-> bs !! (p - B) = Some (k, false).

(** The arena of [h] is cut into the blocks [bs].  The blocks in [X] are in
    the hands of the running operation: they count as taken and their headers
    say nothing yet. *)
Record repr (h : heap) (bs : blocks) (X : gset Z) : Prop := Repr {
  r_al : a_base (al h) = B /\ a_size (al h) = 2 ^ mx /\ a_max_order (al h) = mx /\
         a_initialized (al h) = 1 /\ length (free_lists (al h)) = 22%nat;
  r_geo : geo mx bs;
  r_hole : forall o, o ∈ X -> exists k, bs !! o = Some (k, true);
  r_hdr : forall o k u, bs !! o = Some (k, u) -> (o ∉ X) -> hdr_at (hmem h) (B + o) k u;
  r_list : forall k, PAL_ALLOC_MIN_ORDER <= k <= mx -> exists l, list_of h bs k l
}.

(** What belongs to the clients, and what is outside the arena, is as it
    was. *)
Definition kept (bs : blocks) (X : gset Z) (m m' : mem) : Prop :=
  (forall o k, bs !! o = Some (k, true) -> (o ∉ X) -> forall x, B + o <= x < B + o + 2 ^ k -> m' x = m x) /\
  (forall x, ~ (B <= x < B + 2 ^ mx) -> m' x = m x).

Lemma kept_refl bs X m : kept bs X m m.
Proof. done. Qed.

Lemma kept_trans bs X bs' X' m m' m'' :
  kept bs X m m' -> kept bs' X' m' m'' ->
  (forall o k, bs !! o = Some (k, true) -> (o ∉ X) -> bs' !! o = Some (k, true) /\ (o ∉ X')) ->
  kept bs X m m''.
Proof.
  intros [K1 K2] [K3 K4] Hs. split.
  - intros o k E HX x Hx. destruct (Hs _ _ E HX) as [? ?]. rewrite (K3 o k) by done. by apply (K1 o k).
  - intros x Hx. by rewrite K4, K2.
Qed.

Lemma geo_sep bs o k u o' k' u' :
  geo mx bs -> bs !! o = Some (k, u) -> bs !! o' = Some (k', u') -> o <> o' ->
  o + 2 ^ k <= o' \/ o' + 2 ^ k' <= o.
Proof.
  intros G E E' Hne. destruct (decide (o < o')) as [Hlt|Hge].
  - left. exact (geo_disj _ _ G _ _ _ _ _ _ E E' Hlt).
  - right. apply (geo_disj _ _ G _ _ _ _ _ _ E' E). lia.
Qed.

Lemma geo_32 bs o k u : geo mx bs -> bs !! o = Some (k, u) -> 32 <= 2 ^ k /\ 0 <= o /\ o + 2 ^ k <= 2 ^ mx.
Proof. intros G E. destruct (geo_range _ _ G _ _ _ E) as (? & ? & ? & _). split; [apply pow_ge; lia|lia]. Qed.

Ltac geo_lia G E E' Hne :=
  pose proof (geo_sep _ _ _ _ _ _ _ G E E' Hne);
  pose proof (geo_32 _ _ _ _ G E); pose proof (geo_32 _ _ _ _ G E'); lia.

(** Writing to the header or link of a block in the hands of the operation. *)
Lemma repr_touch h bs X o m' :
  repr h bs X -> o ∈ X -> touch (B + o) (hmem h) m' ->
  repr (Heap (al h) m') bs X /\ kept bs X (hmem h) m'.
Proof.
  intros [Ha G Hx Hh Hl] Ho Ht. destruct (Hx _ Ho) as (k & E). split; [split|split]; try done.
  - intros o' k' u' E' Hn. assert (o <> o') by set_solver.
    apply (hdr_at_touch (B + o) _ _ _ _ _ Ht); [geo_lia G E E' H|by apply Hh].
  - intros k' Hk. destruct (Hl k' Hk) as (l & Hs & Hnd & Hin). exists l. split_and!; [|done|done].
    apply (lseg_frame (hmem h)); [|done]. intros p Hp. apply (next_touch (B + o)); [done|].
    apply Hin in Hp. assert (o <> p - B) by congruence. geo_lia G E Hp H.
  - intros o' k' E' Hn x Hx'. apply Ht. assert (o <> o') by set_solver. geo_lia G E E' H.
  - intros x Hx'. apply Ht. pose proof (geo_32 _ _ _ _ G E). lia.
Qed.

(** [m'] differs from [m] only in links of the nodes of [l]. *)
Definition links (l : list Z) (m m' : mem) : Prop :=
  forall x, (forall q, q ∈ l -> ~ (q + 16 <= x < q + 24)) -> m' x = m x.

Lemma head_set h k p : PAL_ALLOC_MIN_ORDER <= k <= mx -> length (free_lists (al h)) = 22%nat ->
  list_head (set_head k p h) k = p.
Proof.
  intros Hk Hl. unfold list_head, set_head, list_idx, PAL_ALLOC_MIN_ORDER, PAL_ALLOC_MAX_ORDER in *.
  cbn [al set_lists free_lists]. apply list_lookup_total_insert_eq. lia.
Qed.

Lemma head_set_ne h k k' p : PAL_ALLOC_MIN_ORDER <= k -> PAL_ALLOC_MIN_ORDER <= k' -> k <> k' ->
  list_head (set_head k p h) k' = list_head h k'.
Proof.
  intros ???. unfold list_head, set_head, list_idx, PAL_ALLOC_MIN_ORDER in *.
  cbn [al set_lists free_lists]. apply list_lookup_total_insert_ne. lia.
Qed.

Lemma links_hdr bs k l m m' o k' u' kk uu :
  geo mx bs -> (forall q, q ∈ l -> bs !! (q - B) = Some (k, false)) -> links l m m' ->
  bs !! o = Some (k', u') -> hdr_at m (B + o) kk uu -> hdr_at m' (B + o) kk uu.
Proof.
  intros G Hfree Hlk E (E1 & E2 & E3).
  assert (forall x, B + o <= x < B + o + 16 -> m' x = m x) as Hsame.
  { intros x Hx. apply Hlk. intros q Hq. apply Hfree in Hq. destruct (decide (q - B = o)); [lia|].
    geo_lia G Hq E n. }
  unfold hdr_at, hdr_magic, hdr_order, hdr_used in *.
  split_and!; [rewrite <- E1 | rewrite <- E2 | rewrite <- E3]; apply load_ext; intros; apply Hsame; lia.
Qed.

(** Taking a block off its free list, by whatever change of links. *)
Lemma repr_unlink h bs X k o l1 l2 m' hd :
  repr h bs X -> PAL_ALLOC_MIN_ORDER <= k <= mx -> list_of h bs k (l1 ++ (B + o) :: l2) ->
  lseg m' hd (l1 ++ l2) NULL -> links (l1 ++ [B + o]) (hmem h) m' ->
  bs !! o = Some (k, false) /\
  repr (set_head k hd (Heap (al h) m')) (<[o := (k, true)]> bs) ({[o]} ∪ X) /\
  kept bs X (hmem h) m' /\ hdr_at m' (B + o) k false.
Proof.
  intros [Ha G HX Hh Hl] Hk (Hs & Hnd & Hin) Hs' Hlk.
  assert (Eo : bs !! o = Some (k, false)).
  { replace o with (B + o - B) by lia. apply Hin. set_solver. }
  assert (Hfree : forall q, q ∈ l1 ++ [B + o] -> bs !! (q - B) = Some (k, false)) by (intros q ?; apply Hin; set_solver).
  assert (HoX : (o ∉ X)) by (intros HoX; destruct (HX _ HoX); congruence).
  assert (Hhd := fun o' k' u' kk uu => links_hdr bs k _ _ _ o' k' u' kk uu G Hfree Hlk).
  split_and!; [done| | |by apply (Hhd o k false), Hh].
  - split.
    + cbn. rewrite length_insert. done.
    + by apply (geo_flag _ _ _ _ false).
    + intros o'. rewrite elem_of_union, elem_of_singleton. intros [->|Ho'].
      * exists k. by rewrite lookup_insert_eq.
      * destruct (HX _ Ho') as (k' & E'). exists k'. rewrite lookup_insert_ne; [done|congruence].
    + intros o' k' u'. rewrite lookup_insert_Some. intros [(<- & _)|[? E']]; [set_solver|].
      intros Hn. apply (Hhd _ _ _ _ _ E'), Hh; [done|set_solver].
    + intros k' Hk'. destruct (decide (k = k')) as [<-|Hne].
      * exists (l1 ++ l2). split_and!.
        -- rewrite head_set by (done || apply Ha). done.
        -- apply NoDup_app in Hnd as (? & ? & [? ?]%NoDup_cons). apply NoDup_app. split_and!; [done|set_solver|done].
        -- intros p. rewrite lookup_insert_Some. assert (o = p - B <-> p = B + o) as -> by lia.
           apply NoDup_app in Hnd as (_ & Hd & [Hn _]%NoDup_cons). specialize (Hin p). set_solver.
      * destruct (Hl k' Hk') as (l & Hsl & Hndl & Hinl). exists l. split_and!; [|done|].
        -- rewrite head_set_ne by (done || lia). apply (lseg_frame (hmem h)); [|done]. intros p Hp.
           apply load_ext. intros x Hx. apply Hlk. intros q Hq. apply Hfree in Hq. apply Hinl in Hp.
           assert (q - B <> p - B) by congruence. geo_lia G Hq Hp H.
        -- intros p. rewrite Hinl, lookup_insert_Some. split; [|naive_solver].
           intros E. right. split; [congruence|done].
  - split.
    + intros o' k' E' Hn x Hx. apply Hlk. intros q Hq. apply Hfree in Hq.
      assert (q - B <> o') by congruence. geo_lia G Hq E' H.
    + intros x Hx. apply Hlk. intros q Hq. apply Hfree in Hq. pose proof (geo_32 _ _ _ _ G Hq). lia.
Qed.

(** Putting a block of the operation on a free list. *)
Lemma repr_push h bs X k o :
  repr h bs X -> o ∈ X -> bs !! o = Some (k, true) -> hdr_at (hmem h) (B + o) k false ->
  repr (list_push h k (B + o)) (<[o := (k, false)]> bs) (X ∖ {[o]}) /\
  kept bs X (hmem h) (hmem (list_push h k (B + o))).
Proof.
  intros R Ho E Hhd. destruct (geo_range _ _ (r_geo _ _ _ R) _ _ _ E) as (Hk & _).
  destruct (r_list _ _ _ R k Hk) as (l & Hs & Hnd & Hin).
  assert (Hhead : 0 <= list_head h k < 2 ^ 64).
  { destruct l as [|q l]; [cbn in Hs; rewrite Hs; done|]. destruct Hs as (-> & _).
    assert (Hq : q ∈ q :: l) by set_solver. apply Hin in Hq. pose proof (geo_32 _ _ _ _ (r_geo _ _ _ R) Hq). lia. }
  destruct (repr_touch h bs X o (set_next (B + o) (list_head h k) (hmem h)) R Ho) as [R' K]; [touch_solve|].
  split; [|done]. destruct R' as [Ha G HX Hh Hl]. cbn [al hmem] in *. unfold list_push. split.
  - cbn. rewrite length_insert. done.
  - by apply (geo_flag _ _ _ _ true).
  - intros o' Ho'. destruct (HX o') as (k' & E'); [set_solver|]. exists k'. rewrite lookup_insert_ne; [done|set_solver].
  - intros o' k' u'. rewrite lookup_insert_Some. intros [(<- & [= <- <-])|[? E']] Hn.
    + by apply hdr_at_set_next.
    + apply Hh; [done|set_solver].
  - intros k' Hk'. destruct (decide (k = k')) as [<-|Hne].
    + exists ((B + o) :: l). assert (B + o ∉ l).
      { rewrite Hin. replace (B + o - B) with o by lia. congruence. }
      split_and!.
      * rewrite head_set by (done || apply Ha). cbn [lseg hmem set_head on_mem]. split_and!; [done|unfold NULL; pose proof (geo_32 _ _ _ _ G E); lia|].
        rewrite next_set_next by done. apply (lseg_frame (hmem h)); [|done].
        intros p Hp. apply (next_touch (B + o)); [touch_solve|].
        apply Hin in Hp. assert (o <> p - B) by congruence. geo_lia G E Hp H0.
      * by apply NoDup_cons.
      * intros p. rewrite elem_of_cons, Hin, lookup_insert_Some. assert (o = p - B <-> p = B + o) as -> by lia.
        naive_solver.
    + destruct (Hl k' Hk') as (l' & Hsl & Hndl & Hinl). exists l'. split_and!; [|done|].
      * rewrite head_set_ne by (done || lia). done.
      * intros p. rewrite Hinl, lookup_insert_Some. split; [|naive_solver].
        intros E'. right. split; [congruence|done].
Qed.

Lemma next_range h bs X k l q :
  repr h bs X -> list_of h bs k l -> q ∈ l -> 0 <= node_next (hmem h) q < 2 ^ 64.
Proof.
  intros R (Hs & _ & Hin) Hq. apply list_elem_of_split in Hq as (l1 & l2 & ->).
  apply lseg_app in Hs as (r & _ & (-> & _ & Hs)). destruct l2 as [|q' l2]; cbn [lseg] in Hs; [by rewrite Hs|].
  destruct Hs as (-> & _).
  assert (Hq : q' ∈ l1 ++ q :: q' :: l2) by set_solver.
  apply Hin in Hq. pose proof (geo_32 _ _ _ _ (r_geo _ _ _ R) Hq). lia.
Qed.

(** [list_pop] takes a free block of the order, or finds none. *)
Lemma list_pop_spec h bs k :
  repr h bs ∅ -> PAL_ALLOC_MIN_ORDER <= k <= mx ->
  match list_pop h k with
  | (p, h') =>
      (p = NULL /\ h' = h /\ forall o, bs !! o <> Some (k, false)) \/
      (exists o, p = B + o /\ p <> NULL /\ bs !! o = Some (k, false) /\
         repr h' (<[o := (k, true)]> bs) {[o]} /\ kept bs ∅ (hmem h) (hmem h') /\
         hdr_at (hmem h') (B + o) k false)
  end.
Proof.
  intros R Hk. destruct (r_list _ _ _ R k Hk) as (l & HL). pose proof HL as (Hs & Hnd & Hin).
  unfold list_pop. destruct l as [|p l].
  - cbn in Hs. rewrite Hs. cbn. left. split_and!; [done..|]. intros o E.
    assert (Hp : B + o ∈ @nil Z) by (apply Hin; by replace (B + o - B) with o by lia). set_solver.
  - destruct Hs as (Hp & Hn & Hs). rewrite Hp. destruct (Z.eqb_spec p NULL); [done|]. right.
    exists (p - B). assert (Ep : B + (p - B) = p) by lia. rewrite Ep.
    destruct (repr_unlink h bs ∅ k (p - B) [] l (set_next p NULL (hmem h)) (node_next (hmem h) p) R Hk)
      as (Ho & R' & K & Hhd).
    + by rewrite Ep.
    + cbn [app]. apply (lseg_frame (hmem h)); [|done]. intros q Hq. apply (next_touch p); [touch_solve|].
      apply NoDup_cons in Hnd as [Hnp _]. assert (Hp' : p ∈ p :: l) by set_solver.
      assert (Hq' : q ∈ p :: l) by set_solver. apply Hin in Hp', Hq'.
      assert (p - B <> q - B) by (intros ?; assert (p = q) by lia; congruence). geo_lia (r_geo _ _ _ R) Hp' Hq' H.
    + intros x Hx. apply store_other. specialize (Hx p). rewrite Ep in Hx. cbn in Hx. set_solver by lia.
    + rewrite Ep in *. rewrite (right_id_L ∅ (∪)) in R'. done.
Qed.

Lemma list_remove_walk fuel h k t prev cur l1 l2 :
  lseg (hmem h) cur (l1 ++ t :: l2) NULL -> (t ∉ l1) -> (length l1 < fuel)%nat ->
  list_remove_loop fuel h k t prev cur =
  (1, on_mem (set_next t NULL)
        (let prev := default prev (last l1) in
         if negb (prev =? NULL) then on_mem (set_next prev (node_next (hmem h) t)) h
         else set_head k (node_next (hmem h) t) h)).
Proof.
  revert prev cur fuel. induction l1 as [|x l1 IH]; intros prev cur [|f] Hs Ht Hf; try (cbn in Hf; lia);
    cbn [app lseg list_remove_loop] in *; destruct Hs as (-> & Hn & Hs).
  - destruct (Z.eqb_spec t NULL); [done|]. rewrite Z.eqb_refl. done.
  - destruct (Z.eqb_spec x NULL); [done|]. destruct (Z.eqb_spec x t) as [->|]; [set_solver|].
    rewrite (IH x _ f); [|exact Hs|set_solver|cbn in Hf; lia].
    replace (default prev (last (x :: l1))) with (default x (last l1)); [done|].
    by rewrite last_cons; destruct (last l1).
Qed.

(** A free list is shorter than the fuel of [list_remove]. *)
Lemma list_length h bs k l : geo mx bs -> list_of h bs k l -> (length l <= Z.to_nat (2 ^ mx / 32))%nat.
Proof.
  intros G (_ & Hnd & Hin).
  assert (Hl : forall p, p ∈ l -> (32 | p - B) /\ 0 <= p - B /\ p - B + 32 <= 2 ^ mx).
  { intros p Hp. apply Hin in Hp. destruct (geo_range _ _ G _ _ _ Hp) as (? & ? & ? & Hd).
    pose proof (geo_32 _ _ _ _ G Hp). split_and!; [|lia..].
    change 32 with (2 ^ 5). apply (pow_divide _ k); [unfold PAL_ALLOC_MIN_ORDER in *; lia|done]. }
  rewrite <- (length_fmap (fun p => Z.to_nat ((p - B) / 32)) l), <- (length_seq (Z.to_nat (2 ^ mx / 32)) 0).
  apply submseteq_length, NoDup_submseteq.
  - apply NoDup_fmap_2_strong; [|done]. intros p q Hp Hq E. destruct (Hl p Hp) as ([a Ha] & ? & ?), (Hl q Hq) as ([b Hb] & ? & ?).
    rewrite Ha, Hb, !Z.div_mul in E by done. lia.
  - intros i. rewrite list_elem_of_fmap. intros (p & -> & Hp). destruct (Hl p Hp) as ([a Ha] & ? & ?).
    rewrite elem_of_seq, Ha, Z.div_mul by done.
    assert (a + 1 <= 2 ^ mx / 32) by (apply Z.div_le_lower_bound; lia). lia.
Qed.

(** Nodes that do not overlap, as the blocks of an arena. *)
Definition spread (l : list Z) : Prop :=
  forall p q, p ∈ l -> q ∈ l -> p <> q -> p + 32 <= q \/ q + 32 <= p.

Lemma list_spread h bs k l : geo mx bs -> list_of h bs k l -> spread l.
Proof.
  intros G (_ & _ & Hin) p q Hp%Hin Hq%Hin Hne. assert (p - B <> q - B) by lia. geo_lia G Hp Hq H.
Qed.

(** The links after [t] is taken out behind [prev], or from the head. *)
Lemma lseg_unlink_head m hd t l2 :
  lseg m hd (t :: l2) NULL -> spread (t :: l2) -> NoDup (t :: l2) ->
  lseg (set_next t NULL m) (node_next m t) l2 NULL.
Proof.
  intros (_ & _ & Hs) Hsp [Hn _]%NoDup_cons. apply (lseg_frame m); [|done]. intros p Hp.
  apply (next_touch t); [touch_solve|]. destruct (Hsp t p) as [?|?]; [set_solver..|lia|lia].
Qed.

Lemma lseg_unlink_mid m hd l1 prev t l2 :
  lseg m hd (l1 ++ prev :: t :: l2) NULL -> spread (l1 ++ prev :: t :: l2) ->
  NoDup (l1 ++ prev :: t :: l2) -> 0 <= node_next m t < 2 ^ 64 ->
  lseg (set_next t NULL (set_next prev (node_next m t) m)) hd (l1 ++ prev :: l2) NULL.
Proof.
  intros Hs Hsp Hnd Hr. set (m' := set_next t NULL _).
  apply NoDup_app in Hnd as (_ & Hd & [Hp [Ht _]%NoDup_cons]%NoDup_cons).
  assert (F : forall p, p ∈ l1 ++ l2 -> node_next m' p = node_next m p).
  { intros p Hp'. transitivity (node_next (set_next prev (node_next m t) m) p).
    - apply (next_touch t); [touch_solve|]. destruct (Hsp t p) as [?|?]; [set_solver..|lia|lia].
    - apply (next_touch prev); [touch_solve|]. destruct (Hsp prev p) as [?|?]; [set_solver..|lia|lia]. }
  apply lseg_app in Hs as (r & Hs1 & (-> & Hn & (E & Hn' & Hs2))).
  apply lseg_app. exists prev. split; [apply (lseg_frame m); [intros; apply F; set_solver|done]|].
  cbn [lseg]. split_and!; [done..|].
  assert (node_next m' prev = node_next m t) as ->.
  { unfold m'. rewrite (next_touch t prev (set_next prev (node_next m t) m)); [by apply next_set_next|touch_solve|].
    destruct (Hsp prev t) as [?|?]; [set_solver..|lia|lia]. }
  apply (lseg_frame m); [intros; apply F; set_solver|done].
Qed.

(** [list_remove] finds a free block and takes it off its list. *)
Lemma list_remove_spec h bs X k o :
  repr h bs X -> bs !! o = Some (k, false) ->
  exists h', list_remove h k (B + o) = (1, h') /\
    repr h' (<[o := (k, true)]> bs) ({[o]} ∪ X) /\ kept bs X (hmem h) (hmem h') /\
    forall o' k' u' kk uu, bs !! o' = Some (k', u') ->
      hdr_at (hmem h) (B + o') kk uu -> hdr_at (hmem h') (B + o') kk uu.
Proof.
  intros R E. pose proof (r_geo _ _ _ R) as G. destruct (geo_range _ _ G _ _ _ E) as (Hk & _).
  destruct (r_list _ _ _ R k Hk) as (l & HL). pose proof HL as (Hs & Hnd & Hin).
  assert (Hl : (length l < list_fuel h)%nat).
  { pose proof (list_length _ _ _ _ G HL). unfold list_fuel. destruct (r_al _ _ _ R) as (_ & -> & _).
    change (2 ^ PAL_ALLOC_MIN_ORDER) with 32. lia. }
  assert (Ho : B + o ∈ l) by (apply Hin; by replace (B + o - B) with o by lia).
  pose proof (list_spread _ _ _ _ G HL) as Hsp. pose proof (next_range _ _ _ _ _ _ R HL Ho) as Hr.
  apply list_elem_of_split in Ho as (l1 & l2 & ->). rewrite length_app in Hl.
  assert (Ht : (B + o ∉ l1)) by (apply NoDup_app in Hnd as (_ & Hd & _); set_solver).
  unfold list_remove. rewrite (list_remove_walk _ _ _ _ _ _ l1 l2) by (done || lia).
  eexists. split; [done|].
  assert (Hfree : forall q, q ∈ l1 ++ [B + o] -> bs !! (q - B) = Some (k, false)) by (intros q ?; apply Hin; set_solver).
  destruct l1 as [|prev l1' _] using rev_ind.
  - cbn [last default]. assert (Hlk : links ([] ++ [B + o]) (hmem h) (set_next (B + o) NULL (hmem h))).
    { intros x Hx. apply store_other. intros ?. apply (Hx (B + o)); [set_solver|lia]. }
    destruct (repr_unlink h bs X k o [] l2 _ (node_next (hmem h) (B + o)) R Hk HL
                (lseg_unlink_head _ _ _ _ Hs Hsp Hnd) Hlk) as (_ & R' & K & _).
    split_and!; [exact R'|exact K|]. intros o' k' u' kk uu E'. by apply (links_hdr bs k _ _ _ o' k' u' kk uu G Hfree Hlk).
  - rewrite last_snoc. change (default NULL (Some prev)) with prev. cbv zeta. rewrite <- app_assoc in *. cbn [app] in *.
    assert (Hpn : prev <> NULL) by (apply lseg_app in Hs as (? & _ & (_ & ? & _)); done).
    destruct (Z.eqb_spec prev NULL); [done|]. cbn [negb].
    pose proof (lseg_unlink_mid _ _ _ _ _ _ Hs Hsp Hnd Hr) as Hs'. set (m' := set_next (B + o) NULL _) in *.
    assert (Hlk : links (l1' ++ [prev; B + o]) (hmem h) m').
    { intros x Hx. unfold m'. rewrite (set_next_other (B + o)), (set_next_other prev); [done| |];
        intros ?; [apply (Hx prev)|apply (Hx (B + o))]; (set_solver || lia). }
    destruct (repr_unlink h bs X k o (l1' ++ [prev]) l2 m' (list_head h k) R Hk) as (_ & R' & K & _).
    + by rewrite <- app_assoc.
    + by rewrite <- app_assoc.
    + by rewrite <- app_assoc.
    + assert (Eh : set_head k (list_head h k) (Heap (al h) m') = Heap (al h) m').
      { unfold set_head, list_head. cbn [al hmem]. rewrite list_insert_id.
        - by destruct (al h).
        - apply list_lookup_lookup_total_lt. unfold list_idx, PAL_ALLOC_MIN_ORDER, PAL_ALLOC_MAX_ORDER in *.
          destruct (r_al _ _ _ R) as (_ & _ & _ & _ & ->). lia. }
      rewrite Eh in R'. split_and!; [exact R'|exact K|]. intros o' k' u' kk uu E'.
      by apply (links_hdr bs k _ _ _ o' k' u' kk uu G Hfree Hlk).
Qed.

(** ** Allocation *)

(** No two free buddies of one size. *)
Definition coalesced (bs : blocks) : Prop :=
  forall o k, k < mx -> bs !! o = Some (k, false) -> bs !! Z.lxor o (2 ^ k) <> Some (k, false).

Lemma pop_from_spec n h bs cur :
  repr h bs ∅ -> PAL_ALLOC_MIN_ORDER <= cur -> Z.of_nat n = mx - cur + 1 ->
  match pop_from n h cur with
  | (p, cur', h') =>
      (p = NULL /\ h' = h /\ forall o k, cur <= k -> bs !! o <> Some (k, false)) \/
      (exists o, p = B + o /\ p <> NULL /\ cur <= cur' <= mx /\ bs !! o = Some (cur', false) /\
         repr h' (<[o := (cur', true)]> bs) {[o]} /\ kept bs ∅ (hmem h) (hmem h'))
  end.
Proof.
  revert cur. induction n as [|n IH]; intros cur R Hc Hn.
  - left. split_and!; [done..|]. intros o k Hk E. destruct (geo_range _ _ (r_geo _ _ _ R) _ _ _ E). lia.
  - cbn [pop_from]. pose proof (list_pop_spec h bs cur R ltac:(lia)) as Hp.
    destruct (list_pop h cur) as [p h']. destruct Hp as [(-> & -> & Hno)|(o & -> & Hp & E & R' & K & _)].
    + change (NULL =? NULL) with true. cbn [negb]. specialize (IH (cur + 1) R ltac:(lia) ltac:(lia)).
      destruct (pop_from n h (cur + 1)) as [[p cur'] h''].
      destruct IH as [(-> & -> & Hno')|(o & -> & Hp & Hc' & E & R' & K)].
      * left. split_and!; [done..|]. intros o k Hk. destruct (decide (k = cur)) as [->|]; [apply Hno|apply Hno'; lia].
      * right. exists o. split_and!; try done; lia.
    + destruct (Z.eqb_spec (B + o) NULL); [done|]. right. exists o. split_and!; try done; lia.
Qed.

Lemma lxor_invol o x : Z.lxor (Z.lxor o x) x = o.
Proof. by rewrite Z.lxor_assoc, Z.lxor_nilpotent, Z.lxor_0_r. Qed.

Lemma buddy_ne o k : PAL_ALLOC_MIN_ORDER <= k -> Z.lxor o (2 ^ k) <> o.
Proof.
  intros Hk E. pose proof (pow_ge k Hk). assert (Z.lxor o (Z.lxor o (2 ^ k)) = 0) by (by rewrite E, Z.lxor_nilpotent).
  rewrite <- Z.lxor_assoc, Z.lxor_nilpotent, Z.lxor_0_l in *. lia.
Qed.

(** Halving a block that is in the hands of the operation. *)
Lemma split_bs_ok bs o k :
  geo mx bs -> PAL_ALLOC_MIN_ORDER <= k -> bs !! o = Some (k + 1, true) -> coalesced bs ->
  coalesced (<[o := (k, true)]> (<[o + 2 ^ k := (k, false)]> bs)) /\
  taken (<[o := (k, true)]> (<[o + 2 ^ k := (k, false)]> bs)) = <[o := k]> (taken bs).
Proof.
  intros G Hk E Hc. pose proof (pow_ge k Hk).
  destruct (geo_split mx bs o k true true false G Hk E) as [_ Hnone].
  assert (Hbud : Z.lxor (o + 2 ^ k) (2 ^ k) = o).
  { apply lxor_half; [unfold PAL_ALLOC_MIN_ORDER in *; lia|]. by destruct (geo_range _ _ G _ _ _ E) as (_ & _ & _ & ?). }
  split.
  - intros o1 k1 Hk1. rewrite !lookup_insert_Some. intros [[_ [=]]|[Hne [[<- [= <-]]|[Hne' E1]]]].
    + rewrite Hbud. naive_solver.
    + intros [[_ [=]]|[_ [[Hb [= <-]]|[_ E2]]]]; [|by apply (Hc o1 k1)].
      apply Hne. by rewrite <- (lxor_invol o1 (2 ^ k)), <- Hb, Hbud.
  - rewrite taken_insert, taken_insert_free, delete_id; [done|].
    apply eq_None_not_Some. intros [x Hx%taken_Some]. congruence.
Qed.

(** Cutting and joining blocks in hand changes no memory. *)
Lemma repr_reshape h bs bs' X X' :
  repr h bs X -> geo mx bs' -> (forall o, o ∈ X' -> exists k, bs' !! o = Some (k, true)) ->
  (forall o k u, bs' !! o = Some (k, u) -> (o ∉ X') -> bs !! o = Some (k, u) /\ (o ∉ X)) ->
  (forall o k, bs !! o = Some (k, false) <-> bs' !! o = Some (k, false)) ->
  repr h bs' X'.
Proof.
  intros [Ha G HX Hh Hl] G' HX' Hsub Hfree. split; [done..| |].
  - intros o k u E Ho. destruct (Hsub _ _ _ E Ho). by apply Hh.
  - intros k Hk. destruct (Hl k Hk) as (l & ? & ? & Hin). exists l. split_and!; [done..|]. intros p. by rewrite Hin.
Qed.

Lemma repr_split h bs o k :
  repr h bs {[o]} -> PAL_ALLOC_MIN_ORDER <= k -> bs !! o = Some (k + 1, true) ->
  repr h (<[o := (k, true)]> (<[o + 2 ^ k := (k, true)]> bs)) {[o; o + 2 ^ k]}.
Proof.
  intros R Hk E. destruct (geo_split mx bs o k true true true (r_geo _ _ _ R) Hk E) as [G Hnone].
  pose proof (pow_ge k Hk). apply (repr_reshape _ _ _ _ _ R G).
  - intros o'. rewrite elem_of_union, !elem_of_singleton. intros [-> | ->]; exists k.
    + by rewrite lookup_insert_eq.
    + by rewrite lookup_insert_ne, lookup_insert_eq by lia.
  - intros o' k' u'. rewrite !lookup_insert_Some. intros [[<- _]|[? [[<- _]|[? ?]]]]; set_solver.
  - intros o' k'. rewrite !lookup_insert_Some. naive_solver.
Qed.

(** One round of [split_down]. *)
Lemma split_step h bs o k :
  repr h bs {[o]} -> PAL_ALLOC_MIN_ORDER <= k -> bs !! o = Some (k + 1, true) ->
  let h1 := on_mem (fun m => set_next (B + (o + 2 ^ k)) NULL (set_hdr (B + (o + 2 ^ k)) k 0 m)) h in
  let h2 := on_mem (set_hdr_order (B + o) k) (list_push h1 k (B + (o + 2 ^ k))) in
  repr h2 (<[o := (k, true)]> (<[o + 2 ^ k := (k, false)]> bs)) {[o]} /\
  kept bs {[o]} (hmem h) (hmem h2).
Proof.
  intros R Hk E h1 h2. pose proof (pow_ge k Hk). set (b := o + 2 ^ k) in *.
  destruct (geo_split mx bs o k true true true (r_geo _ _ _ R) Hk E) as [_ Hnone].
  destruct (geo_range _ _ (r_geo _ _ _ R) _ _ _ E) as (Hkm & _).
  pose proof (repr_split _ _ _ _ R Hk E) as R0. fold b in R0, Hnone. set (bs0 := <[o := _]> _) in R0.
  assert (Eb : bs0 !! b = Some (k, true)) by (unfold bs0; rewrite lookup_insert_ne, lookup_insert_eq by lia; done).
  destruct (repr_touch h bs0 _ b (hmem h1) R0 ltac:(set_solver)) as [R1 K1]; [unfold h1; cbn [hmem on_mem]; touch_solve|].
  change (Heap (al h) (hmem h1)) with h1 in R1.
  destruct (repr_push h1 bs0 _ k b R1 ltac:(set_solver) Eb) as [R2 K2].
  { unfold h1. cbn [hmem on_mem]. apply hdr_at_set_next, (hdr_at_set_hdr _ _ _ false).
    unfold PAL_ALLOC_MIN_ORDER, PAL_ALLOC_MAX_ORDER in *. lia. }
  assert (Ebs : <[b := (k, false)]> bs0 = <[o := (k, true)]> (<[b := (k, false)]> bs)).
  { unfold bs0. rewrite insert_insert_ne, insert_insert_eq by lia. done. }
  rewrite Ebs in R2. replace ({[o; b]} ∖ {[b]}) with ({[o]} : gset Z) in R2 by (set_solver by lia).
  destruct (repr_touch _ _ _ o (hmem h2) R2 ltac:(set_solver)) as [R3 K3]; [unfold h2; cbn [hmem on_mem]; touch_solve|].
  split; [exact R3|].
  assert (Hsub : forall o' k', bs !! o' = Some (k', true) -> (o' ∉ ({[o]} : gset Z)) ->
            bs0 !! o' = Some (k', true) /\ (o' ∉ ({[o; b]} : gset Z))).
  { intros o' k' E' Hn. assert (o' <> b) by (intros ->; congruence). assert (o' <> o) by set_solver.
    unfold bs0. rewrite !lookup_insert_ne by done. set_solver. }
  apply (kept_trans _ _ bs0 {[o; b]} _ (hmem h) _ (kept_refl _ _ _)); [|done].
  apply (kept_trans _ _ bs0 {[o; b]} _ _ _ K1); [|done]. apply (kept_trans _ _ _ _ _ _ _ K2 K3).
  intros o' k'. unfold bs0. rewrite !lookup_insert_Some. set_solver.
Qed.

Lemma split_down_spec n h bs cur o :
  repr h bs {[o]} -> bs !! o = Some (cur, true) -> coalesced bs ->
  PAL_ALLOC_MIN_ORDER <= cur - Z.of_nat n ->
  exists bs', repr (split_down n h cur (B + o)) bs' {[o]} /\ coalesced bs' /\
    taken bs' = <[o := cur - Z.of_nat n]> (taken bs) /\
    kept bs {[o]} (hmem h) (hmem (split_down n h cur (B + o))).
Proof.
  revert h bs cur. induction n as [|n IH]; intros h bs cur R E Hc Hn.
  - exists bs. split_and!; [done..| |done]. rewrite insert_id; [done|]. apply taken_Some. rewrite E. do 2 f_equal. lia.
  - cbn [split_down]. cbv zeta. rewrite Z.shiftl_1_l, <- Z.add_assoc.
    assert (Hk : PAL_ALLOC_MIN_ORDER <= cur - 1) by lia.
    replace cur with (cur - 1 + 1) in E by lia.
    destruct (split_step h bs o _ R Hk E) as [R' K]. destruct (split_bs_ok bs o _ (r_geo _ _ _ R) Hk E Hc) as [Hc' Ht].
    destruct (IH _ _ (cur - 1) R') as (bs' & R'' & Hc'' & Ht' & K'); [by rewrite lookup_insert_eq|done|lia|].
    exists bs'. split_and!; [done|done| |].
    + rewrite Ht', Ht, insert_insert_eq. f_equal. lia.
    + apply (kept_trans _ _ _ _ _ _ _ K K'). intros o' k' E' Ho'. split; [|done].
      apply taken_Some. rewrite Ht. rewrite lookup_insert_ne by set_solver. by apply taken_Some.
Qed.

Lemma floor_log2_spec v : 0 <= v < 2 ^ 64 -> floor_log2_u64 v = Z.log2 v.
Proof.
  intros Hv. unfold floor_log2_u64.
  enough (forall f v r, 0 <= v < 2 ^ Z.of_nat f -> floor_log2_loop f v r = r + Z.log2 v) as L
    by (rewrite (L 64%nat) by done; lia).
  clear. intros f. induction f as [|f IH]; intros v r Hv; cbn [floor_log2_loop].
  - assert (v = 0) as -> by (cbn in Hv; lia). cbn. lia.
  - rewrite Nat2Z.inj_succ, Z.pow_succ_r in Hv by lia. rewrite Z.shiftr_div_pow2 by lia. change (2 ^ 1) with 2.
    pose proof (Z.div_mod v 2 ltac:(lia)). pose proof (Z.mod_pos_bound v 2 ltac:(lia)).
    destruct (Z.eqb_spec (v / 2) 0).
    + assert (v = 0 \/ v = 1) as [-> | ->] by lia; cbn; lia.
    + rewrite IH by lia. pose proof (Z.log2_shiftr v 1 ltac:(lia)) as E.
      rewrite Z.shiftr_div_pow2 in E by lia. change (2 ^ 1) with 2 in E.
      assert (1 <= Z.log2 v) by (apply Z.log2_le_pow2; lia). lia.
Qed.

Lemma ceil_log2_spec v : 0 <= v < 2 ^ 64 -> ceil_log2_u64 v = Z.log2_up v.
Proof.
  intros Hv. unfold ceil_log2_u64. destruct (Z.leb_spec v 1).
  - assert (v = 0 \/ v = 1) as [-> | ->] by lia; done.
  - rewrite floor_log2_spec by lia. unfold Z.log2_up. destruct (Z.compare_spec 1 v); [lia| |lia].
    rewrite <- Z.sub_1_r. lia.
Qed.

(** The bytes a request takes from the arena: payload and header. *)
Definition need_of (size : Z) : Z := (if size =? 0 then 1 else size) + sizeof_hdr.

(** The order [alloc_locked] computes is the least that is large enough. *)
Definition order_of (need : Z) : Z :=
  let order := ceil_log2_u64 need in if order <? PAL_ALLOC_MIN_ORDER then PAL_ALLOC_MIN_ORDER else order.

Lemma order_of_spec need : 0 < need < 2 ^ 64 ->
  PAL_ALLOC_MIN_ORDER <= order_of need /\ need <= 2 ^ order_of need /\
  forall k, PAL_ALLOC_MIN_ORDER <= k < order_of need -> 2 ^ k < need.
Proof.
  intros Hn. unfold order_of. rewrite ceil_log2_spec by lia. cbv zeta.
  destruct (Z.ltb_spec (Z.log2_up need) PAL_ALLOC_MIN_ORDER).
  - split_and!; [lia| |lia]. apply Z.log2_up_le_pow2; lia.
  - split_and!; [lia|apply Z.log2_up_le_pow2; lia|].
    intros k Hk. apply Z.log2_up_lt_pow2; [unfold PAL_ALLOC_MIN_ORDER in *; lia|lia].
Qed.

(** The block found, cut to size and marked. *)
Lemma alloc_take h bs o cur order :
  repr h (<[o := (cur, true)]> bs) {[o]} -> bs !! o = Some (cur, false) -> coalesced bs ->
  PAL_ALLOC_MIN_ORDER <= order <= cur ->
  let h' := on_mem (set_hdr (B + o) order 1) (split_down (Z.to_nat (cur - order)) h cur (B + o)) in
  exists bs', repr h' bs' ∅ /\ coalesced bs' /\ taken bs !! o = None /\
    taken bs' = <[o := order]> (taken bs) /\ kept (<[o := (cur, true)]> bs) {[o]} (hmem h) (hmem h').
Proof.
  intros R E Hc Hord. destruct (geo_range _ _ (r_geo _ _ _ R) o cur true) as (Hcur & _); [by rewrite lookup_insert_eq|].
  destruct (split_down_spec (Z.to_nat (cur - order)) h _ cur o R) as (bs' & R2 & Hc2 & Ht2 & K2).
  { by rewrite lookup_insert_eq. }
  { intros o1 k1 Hk1. rewrite !lookup_insert_Some. intros [[_ [=]]|[? E1]] [[_ [=]]|[? E2]]. by apply (Hc o1 k1). }
  { lia. }
  set (h2 := split_down _ h cur (B + o)) in *.
  replace (cur - Z.of_nat (Z.to_nat (cur - order))) with order in Ht2 by lia.
  rewrite taken_insert, insert_insert_eq in Ht2.
  assert (Eo : bs' !! o = Some (order, true)) by (apply taken_Some; rewrite Ht2; apply lookup_insert_eq).
  destruct (repr_touch h2 bs' {[o]} o (set_hdr (B + o) order 1 (hmem h2)) R2 ltac:(set_solver)) as [R3 K3]; [touch_solve|].
  exists bs'. split_and!; [|done| |done|].
  - destruct R3 as [Ha G3 HX3 Hh3 Hl3]. split; [done..|set_solver| |done].
    intros o' k' u' E' _. destruct (decide (o' = o)) as [->|]; [|apply Hh3; set_solver].
    rewrite Eo in E'. injection E' as <- <-. apply (hdr_at_set_hdr _ _ _ true).
    unfold PAL_ALLOC_MIN_ORDER, PAL_ALLOC_MAX_ORDER in *. lia.
  - apply eq_None_not_Some. intros [x Hx%taken_Some]. congruence.
  - apply (kept_trans _ _ _ _ _ _ _ K2 K3). intros o' k' E' Ho'. split; [|done].
    assert (o' <> o) by set_solver. apply taken_Some. rewrite Ht2, lookup_insert_ne by done.
    apply taken_Some. by rewrite lookup_insert_ne in E'.
Qed.

(** What [alloc_locked] does to the arena, success and failure. *)
Lemma alloc_locked_spec h bs size :
  repr h bs ∅ -> coalesced bs -> 0 <= size -> need_of size < 2 ^ 64 ->
  match alloc_locked h size with
  | (p, h') =>
      (p = NULL /\ h' = h /\ forall o k, bs !! o = Some (k, false) -> 2 ^ k < need_of size) \/
      (exists o k bs', p = B + o + sizeof_hdr /\ need_of size <= 2 ^ k /\
         repr h' bs' ∅ /\ coalesced bs' /\ taken bs !! o = None /\ taken bs' = <[o := k]> (taken bs) /\
         kept bs ∅ (hmem h) (hmem h'))
  end.
Proof.
  intros R Hc Hs Hn. pose proof (r_geo _ _ _ R) as G. destruct (r_al _ _ _ R) as (_ & Esz & Emx & _).
  unfold alloc_locked. fold (need_of size). cbv zeta. unfold u64. rewrite (Z.mod_small (need_of size)).
  2: { unfold need_of, sizeof_hdr in *. destruct (size =? 0) eqn:?; lia. }
  fold (order_of (need_of size)). set (nd := need_of size) in *.
  assert (Hnd : 0 < nd) by (unfold nd, need_of, sizeof_hdr; destruct (size =? 0) eqn:?; lia).
  destruct (order_of_spec nd ltac:(lia)) as (Ho5 & Hle & Hlt). set (order := order_of nd) in *.
  assert (Hsmall : (forall o k, bs !! o = Some (k, false) -> k < order) ->
                   forall o k, bs !! o = Some (k, false) -> 2 ^ k < nd).
  { intros Hk o k E. apply Hlt. split; [apply (geo_range _ _ G _ _ _ E)|by apply (Hk o)]. }
  rewrite Esz, Emx. destruct (Z.ltb_spec (2 ^ mx) nd).
  { left. split_and!; [done..|]. intros o k E. destruct (geo_range _ _ G _ _ _ E) as (_ & ? & ? & _). lia. }
  destruct (Z.ltb_spec mx order).
  { left. split_and!; [done..|]. apply Hsmall. intros o k E. destruct (geo_range _ _ G _ _ _ E). lia. }
  pose proof (pop_from_spec (Z.to_nat (mx - order + 1)) h bs order R Ho5 ltac:(lia)) as Hp.
  destruct (pop_from _ h order) as [[p cur] h1].
  destruct Hp as [(-> & -> & Hno)|(o & -> & Hp & Hcur & E & R1 & K1)].
  { left. split_and!; [done..|]. apply Hsmall. intros o k E. destruct (decide (k < order)); [done|]. by destruct (Hno o k ltac:(lia)). }
  destruct (Z.eqb_spec (B + o) NULL); [done|]. right.
  destruct (alloc_take h1 bs o cur order R1 E Hc ltac:(lia)) as (bs' & R2 & Hc2 & Hon & Ht2 & K2).
  exists o, order, bs'. split_and!; [done..|]. apply (kept_trans _ _ _ _ _ _ _ K1 K2).
  intros o' k' E' _. assert (o' <> o) by congruence. rewrite lookup_insert_ne by done. set_solver.
Qed.

(** ** Release *)

(** Joining two blocks in hand: [P] is the lower half. *)
Lemma repr_join h bs P k :
  repr h bs {[P; P + 2 ^ k]} -> k < mx -> bs !! P = Some (k, true) -> bs !! (P + 2 ^ k) = Some (k, true) ->
  (2 ^ (k + 1) | P) ->
  repr h (<[P := (k + 1, true)]> (delete (P + 2 ^ k) bs)) {[P]}.
Proof.
  intros R Hk E1 E2 Hd. pose proof (geo_merge mx bs P k true true true (r_geo _ _ _ R) Hk E1 E2 Hd) as G.
  apply (repr_reshape _ _ _ _ _ R G).
  - intros o ->%elem_of_singleton. exists (k + 1). by rewrite lookup_insert_eq.
  - intros o k' u'. rewrite lookup_insert_Some, lookup_delete_Some. set_solver.
  - intros o k'. rewrite lookup_insert_Some, lookup_delete_Some. naive_solver.
Qed.

(** One round of [merge_up] in which the buddy is free. *)
Lemma merge_step h bs o k :
  repr h bs {[o]} -> bs !! o = Some (k, true) -> hdr_at (hmem h) (B + o) k false -> coalesced bs -> k < mx ->
  let b := Z.lxor o (2 ^ k) in
  bs !! b = Some (k, false) ->
  exists h1 bs', list_remove h k (B + b) = (1, h1) /\
    let P := if b <? o then b else o in
    let h2 := on_mem (fun m => set_next (B + P) NULL (set_hdr_pad (B + P) 0
                 (set_hdr_used (B + P) 0 (set_hdr_order (B + P) (k + 1) m)))) h1 in
    repr h2 bs' {[P]} /\ bs' !! P = Some (k + 1, true) /\ hdr_at (hmem h2) (B + P) (k + 1) false /\
    coalesced bs' /\ delete P (taken bs') = delete o (taken bs) /\ kept bs {[o]} (hmem h) (hmem h2).
Proof.
  intros R Eo Hh Hc Hk b Eb. pose proof (r_geo _ _ _ R) as G.
  destruct (geo_range _ _ G _ _ _ Eo) as (Hk5 & _ & _ & Hd). pose proof (pow_ge k ltac:(lia)).
  destruct (list_remove_spec h bs {[o]} k b R Eb) as (h1 & E1 & R1 & K1 & Hhs).
  destruct (buddy_of k o) as (P & HP & HPo); [unfold PAL_ALLOC_MIN_ORDER in *; lia|done|]. fold b in HPo. clearbody b.
  assert (Hob : b <> o) by lia.
  assert (HbX : (b ∉ ({[o]} : gset Z))) by set_solver.
  assert (EP : (if b <? o then b else o) = P) by (destruct (Z.ltb_spec b o); lia).
  set (bs1 := <[b := (k, true)]> bs) in *.
  assert (Eo1 : bs1 !! o = Some (k, true)) by (unfold bs1; by rewrite lookup_insert_ne).
  assert (Eb1 : bs1 !! b = Some (k, true)) by (unfold bs1; by rewrite lookup_insert_eq).
  assert (EX : ({[b]} ∪ {[o]} : gset Z) = {[P; P + 2 ^ k]}).
  { destruct HPo as [[-> ->]|[-> ->]]; [apply (comm_L (∪))|done]. }
  rewrite EX in R1.
  assert (R2 : repr h1 (<[P := (k + 1, true)]> (delete (P + 2 ^ k) bs1)) {[P]}).
  { apply repr_join; [done|done| | |done]; destruct HPo as [[? ?]|[? ?]]; congruence. }
  assert (Hh1 : hdr_at (hmem h1) (B + P) k false).
  { destruct HPo as [[<- _]|[_ <-]]; [by apply (Hhs _ _ _ _ _ Eo)|].
    by apply (Hhs _ _ _ _ _ Eb), (r_hdr _ _ _ R). }
  exists h1, (<[P := (k + 1, true)]> (delete (P + 2 ^ k) bs1)). split; [done|]. cbv zeta. rewrite EP.
  set (h2 := on_mem _ h1).
  destruct (repr_touch h1 _ _ P (hmem h2) R2 ltac:(set_solver)) as [R3 K3]; [unfold h2; cbn [hmem on_mem]; touch_solve|].
  split_and!; [exact R3|by rewrite lookup_insert_eq| | | |].
  - unfold h2. cbn [hmem on_mem]. apply hdr_at_set_next. destruct Hh1 as (M1 & M2 & M3).
    unfold PAL_ALLOC_MIN_ORDER, PAL_ALLOC_MAX_ORDER in *. unfold hdr_at. split_and!; field_solve.
  - intros o1 k1 Hk1. unfold bs1. rewrite !lookup_insert_Some, !lookup_delete_Some, !lookup_insert_Some.
    intros [[_ [=]]|[_ [_ [[_ [=]]|[_ F1]]]]] [[_ [=]]|[_ [_ [[_ [=]]|[_ F2]]]]]. by apply (Hc o1 k1).
  - assert (Hbt : taken bs !! b = None) by (apply eq_None_not_Some; intros [x Hx%taken_Some]; congruence).
    rewrite taken_insert, delete_insert_eq, taken_delete. unfold bs1. rewrite taken_insert.
    assert (delete P (delete (P + 2 ^ k) (<[b := k]> (taken bs))) = delete o (delete b (<[b := k]> (taken bs)))) as ->.
    { destruct HPo as [[-> ->]|[-> ->]]; [done|apply delete_delete]. }
    by rewrite delete_insert_id.
  - apply (kept_trans _ _ (<[P := (k + 1, true)]> (delete (P + 2 ^ k) bs1)) {[P]} _ _ _ K1 K3).
    intros o' k' E' Ho'. assert (o' <> o) by set_solver. assert (o' <> b) by congruence.
    assert (o' <> P /\ o' <> P + 2 ^ k) as [? ?] by lia.
    rewrite lookup_insert_ne, lookup_delete_ne by done. unfold bs1. rewrite lookup_insert_ne by done. set_solver.
Qed.

Lemma merge_up_spec n h bs o k :
  repr h bs {[o]} -> bs !! o = Some (k, true) -> hdr_at (hmem h) (B + o) k false -> coalesced bs ->
  Z.of_nat n = mx - k ->
  match merge_up n h k (2 ^ k) o (B + o) with
  | (k', node, h') => exists o' bs', node = B + o' /\ repr h' bs' {[o']} /\ bs' !! o' = Some (k', true) /\
      hdr_at (hmem h') (B + o') k' false /\ coalesced bs' /\
      (k' < mx -> bs' !! Z.lxor o' (2 ^ k') <> Some (k', false)) /\
      delete o' (taken bs') = delete o (taken bs) /\ kept bs {[o]} (hmem h) (hmem h')
  end.
Proof.
  revert h bs o k. induction n as [|n IH]; intros h bs o k R Eo Hh Hc Hn; cbn [merge_up].
  - exists o, bs. split_and!; try done. lia.
  - cbv zeta. destruct (r_al _ _ _ R) as (-> & -> & _). pose proof (r_geo _ _ _ R) as G.
    destruct (geo_range _ _ G _ _ _ Eo) as (Hk5 & _ & _ & Hd). pose proof (pow_ge k ltac:(lia)).
    destruct (geo_buddy mx bs o k true G Eo ltac:(lia)) as (Hb & kb & ub & Eb & Hkb).
    pose proof (merge_step h bs o k R Eo Hh Hc ltac:(lia)) as Hstep. cbv zeta in Hstep.
    pose proof (buddy_ne o k ltac:(lia)) as Hob.
    set (b := Z.lxor o (2 ^ k)) in *.
    destruct (r_hdr _ _ _ R b kb ub Eb ltac:(set_solver)) as (M1 & M2 & M3).
    destruct (Z.leb_spec (2 ^ mx) b); [lia|]. rewrite M1, M2, M3, Z.eqb_refl.
    assert (Hstop : (kb, ub) <> (k, false) -> exists o' bs', B + o = B + o' /\ repr h bs' {[o']} /\
      bs' !! o' = Some (k, true) /\ hdr_at (hmem h) (B + o') k false /\ coalesced bs' /\
      (k < mx -> bs' !! Z.lxor o' (2 ^ k) <> Some (k, false)) /\
      delete o' (taken bs') = delete o (taken bs) /\ kept bs {[o]} (hmem h) (hmem h)).
    { intros Hne. exists o, bs. split_and!; try done. fold b. congruence. }
    destruct ub; [apply Hstop; congruence|]. cbn [negb orb Z.eqb].
    destruct (Z.eqb_spec kb k) as [->|]; [|apply Hstop; congruence]. cbn [negb].
    destruct (Hstep Eb) as (h1 & bs1 & -> & R1 & E1 & Hh1 & Hc1 & Ht1 & K1). cbn [Z.eqb].
    set (P := if b <? o then b else o) in *.
    assert ((if b <? o then (B + b, b) else (B + o, o)) = (B + P, P)) as -> by (unfold P; by destruct (b <? o)).
    rewrite Z.shiftl_mul_pow2, <- Z.pow_add_r by (unfold PAL_ALLOC_MIN_ORDER in *; lia).
    specialize (IH _ bs1 P (k + 1) R1 E1 Hh1 Hc1 ltac:(lia)).
    destruct (merge_up n _ (k + 1) _ _ _) as [[k' node] h'].
    destruct IH as (o' & bs' & -> & R' & E' & Hh' & Hc' & Hb' & Ht' & K').
    exists o', bs'. split_and!; try done; [by rewrite Ht'|].
    apply (kept_trans _ _ _ _ _ _ _ K1 K'). intros o1 k1 F Ho1.
    assert (HP : o1 <> P).
    { assert (o1 <> o) by set_solver. assert (o1 <> b) by congruence. unfold P. by destruct (b <? o). }
    split; [|set_solver]. apply taken_Some.
    rewrite <- (lookup_delete_ne (taken bs1) P), Ht1, lookup_delete_ne by set_solver. by apply taken_Some.
Qed.

(** A pointer [alloc_locked] returned and that has not been freed. *)
Lemma free_hdr_live h bs o k :
  repr h bs ∅ -> bs !! o = Some (k, true) -> free_hdr h (B + o + sizeof_hdr) = Some (B + o).
Proof.
  intros R E. destruct (r_hdr _ _ _ R _ _ _ E ltac:(set_solver)) as (M1 & _ & M3). unfold free_hdr.
  replace (B + o + sizeof_hdr - sizeof_hdr) with (B + o) by lia. rewrite M1, M3. done.
Qed.

(** A block taken off and joined with its free buddies, then put on a list. *)
Lemma free_block h bs o k :
  repr h bs ∅ -> coalesced bs -> bs !! o = Some (k, true) ->
  let h1 := on_mem (fun m => set_next (B + o) NULL (set_hdr_used (B + o) 0 m)) h in
  let '(k', node, h2) := merge_up (Z.to_nat (mx - k)) h1 k (2 ^ k) o (B + o) in
  exists bs', repr (list_push h2 k' node) bs' ∅ /\ coalesced bs' /\ taken bs' = delete o (taken bs) /\
    kept bs {[o]} (hmem h) (hmem (list_push h2 k' node)).
Proof.
  intros R Hc E h1. destruct (geo_range _ _ (r_geo _ _ _ R) _ _ _ E) as (Hk & _).
  destruct (r_hdr _ _ _ R _ _ _ E ltac:(set_solver)) as (M1 & M2 & M3).
  assert (R0 : repr h bs {[o]}).
  { apply (repr_reshape _ _ _ _ _ R (r_geo _ _ _ R)); [|set_solver|done]. intros o' ->%elem_of_singleton. eauto. }
  destruct (repr_touch h bs _ o (hmem h1) R0 ltac:(set_solver)) as [R1 K1]; [unfold h1; cbn [hmem on_mem]; touch_solve|].
  change (Heap (al h) (hmem h1)) with h1 in R1.
  pose proof (merge_up_spec (Z.to_nat (mx - k)) h1 bs o k R1 E) as Hm.
  destruct (merge_up _ h1 k _ _ _) as [[k' node] h2].
  destruct Hm as (o' & bs' & -> & R2 & E2 & Hh2 & Hc2 & Hb2 & Ht2 & K2).
  { unfold h1. cbn [hmem on_mem]. unfold hdr_at. apply (hdr_at_set_next _ _ k false). unfold hdr_at. split_and!; field_solve. }
  { done. }
  { lia. }
  destruct (repr_push h2 bs' {[o']} k' o' R2 ltac:(set_solver) E2 Hh2) as [R3 K3].
  exists (<[o' := (k', false)]> bs'). split_and!.
  - by rewrite difference_diag_L in R3.
  - intros o1 k1 Hk1. rewrite !lookup_insert_Some. intros [[<- [= <-]]|[Hne F1]].
    + intros [[Hs _]|[_ F2]]; [|by apply Hb2]. apply (buddy_ne o' k'); [apply (geo_range _ _ (r_geo _ _ _ R2) _ _ _ E2)|done].
    + intros [[Hs [= <-]]|[_ F2]]; [|by apply (Hc2 o1 k1)]. apply (Hb2 Hk1). by rewrite Hs, lxor_invol.
  - by rewrite taken_insert_free, Ht2.
  - apply (kept_trans _ _ bs {[o]} _ _ _ K1); [|done].
    apply (kept_trans _ _ _ _ _ _ _ K2 K3). intros o1 k1 F Ho1.
    destruct (decide (o1 = o')) as [->|].
    + exfalso. apply taken_Some in F. rewrite <- (lookup_delete_ne _ o), <- Ht2, lookup_delete_eq in F by set_solver. done.
    + split; [|set_solver]. apply taken_Some.
      rewrite <- (lookup_delete_ne _ o'), Ht2, lookup_delete_ne by set_solver. by apply taken_Some.
Qed.

(** ** The operations *)

Lemma repr_stats f h bs X : repr h bs X -> repr (on_stats f h) bs X.
Proof. by intros [? ? ? ? ?]. Qed.

(** Only the counters change the statistics. *)
Lemma stats_pop_from n h cur : a_stats (al (pop_from n h cur).2) = a_stats (al h).
Proof.
  revert h cur. induction n as [|n IH]; intros h cur; [done|]. cbn [pop_from]. unfold list_pop.
  destruct (list_head h cur =? NULL) eqn:E; [rewrite E; apply IH|]. by rewrite E.
Qed.

Lemma stats_split_down n h cur node : a_stats (al (split_down n h cur node)) = a_stats (al h).
Proof. revert h cur. induction n as [|n IH]; intros h cur; [done|]. cbn [split_down]. cbv zeta. by rewrite IH. Qed.

Lemma stats_remove fuel h k t prev cur : a_stats (al (list_remove_loop fuel h k t prev cur).2) = a_stats (al h).
Proof.
  revert prev cur. induction fuel as [|f IH]; intros prev cur; [done|]. cbn [list_remove_loop].
  repeat case_match; done || apply IH.
Qed.

Lemma stats_merge_up n h k sz off node : a_stats (al (merge_up n h k sz off node).2) = a_stats (al h).
Proof.
  revert h k sz off node. induction n as [|n IH]; intros h k sz off node; [done|]. cbn [merge_up]. cbv zeta.
  do 3 (case_match; [done|]). destruct (list_remove _ _ _) as [found h'] eqn:E.
  assert (Es : a_stats (al h') = a_stats (al h)).
  { change h' with (found, h').2. rewrite <- E. apply stats_remove. }
  case_match; [done|]. destruct (if _ <? _ then _ else _) as [nd of']. by rewrite IH.
Qed.

Lemma stats_alloc h size : a_stats (al (alloc_locked h size).2) = a_stats (al h).
Proof.
  unfold alloc_locked. fold (need_of size). cbv zeta. fold (order_of (u64 (need_of size))).
  do 2 (case_match; [done|]). destruct (pop_from _ _ _) as [[node cur] h'] eqn:E.
  assert (Es : a_stats (al h') = a_stats (al h)).
  { change h' with (node, cur, h').2. rewrite <- E. apply stats_pop_from. }
  case_match; [done|]. cbn [snd al on_mem]. by rewrite stats_split_down.
Qed.

(** The arena between two calls: block map, no free buddies, and the account
    of the bytes in use. *)
Record arena_ok (h : heap) (bs : blocks) : Prop := ArenaOk {
  ok_repr : repr h bs ∅;
  ok_coalesced : coalesced bs;
  ok_account : bytes_in_use (a_stats (al h)) = u64 (used_bytes (taken bs))
}.

Lemma arena_stats f h bs : bytes_in_use (f (a_stats (al h))) = bytes_in_use (a_stats (al h)) ->
  arena_ok h bs -> arena_ok (on_stats f h) bs.
Proof. intros E [R C A]. split; [by apply repr_stats|done|]. cbn [on_stats al set_stats a_stats]. by rewrite E. Qed.

(** Writing inside a taken block, behind its header. *)
Lemma repr_payload h bs o k m' :
  repr h bs ∅ -> bs !! o = Some (k, true) ->
  (forall x, ~ (B + o + sizeof_hdr <= x < B + o + 2 ^ k) -> m' x = hmem h x) ->
  repr (Heap (al h) m') bs ∅.
Proof.
  unfold sizeof_hdr. intros [Ha G HX Hh Hl] E Hm. split; try done.
  - intros o' k' u' E' Hn. destruct (Hh _ _ _ E' Hn) as (E1 & E2 & E3).
    assert (forall x, B + o' <= x < B + o' + 16 -> m' x = hmem h x) as Hsame.
    { intros x Hx. apply Hm. destruct (decide (o = o')) as [->|Hne]; [lia|]. geo_lia G E E' Hne. }
    unfold hdr_at, hdr_magic, hdr_order, hdr_used in *.
    split_and!; [rewrite <- E1 | rewrite <- E2 | rewrite <- E3]; apply load_ext; intros; apply Hsame; lia.
  - intros k' Hk. destruct (Hl k' Hk) as (l & Hs & Hnd & Hin). exists l. split_and!; [|done|done].
    apply (lseg_frame (hmem h)); [|done]. intros p Hp. apply load_ext. intros x Hx. apply Hm.
    apply Hin in Hp. assert (o <> p - B) by congruence. geo_lia G E Hp H.
Qed.

(** [pal_allocator_malloc]. *)
Lemma malloc_spec h bs size :
  arena_ok h bs -> 0 <= size -> need_of size < 2 ^ 64 ->
  match pal_allocator_malloc h size with
  | (p, h') =>
      (p = NULL /\ hmem h' = hmem h /\ arena_ok h' bs /\
         forall o k, bs !! o = Some (k, false) -> 2 ^ k < need_of size) \/
      (exists o k bs', p = B + o + sizeof_hdr /\ p <> NULL /\ need_of size <= 2 ^ k /\ arena_ok h' bs' /\
         taken bs !! o = None /\ taken bs' = <[o := k]> (taken bs) /\ kept bs ∅ (hmem h) (hmem h'))
  end.
Proof.
  intros [R C A] Hs Hn. unfold pal_allocator_malloc. destruct (r_al _ _ _ R) as (_ & _ & _ & -> & _). cbn [Z.eqb].
  pose proof (alloc_locked_spec h bs size R C Hs Hn) as Ha. pose proof (stats_alloc h size) as Hst.
  destruct (alloc_locked h size) as [p h']. cbn [snd] in Hst.
  destruct Ha as [(-> & -> & Hno)|(o & k & bs' & -> & Hk & R' & C' & Hon & Ht & K)].
  - left. split_and!; [done..| |done]. apply arena_stats; done.
  - assert (Eo : bs' !! o = Some (k, true)) by (apply taken_Some; rewrite Ht; apply lookup_insert_eq).
    destruct (r_hdr _ _ _ R' _ _ _ Eo ltac:(set_solver)) as (_ & M2 & _).
    pose proof (geo_32 _ _ _ _ (r_geo _ _ _ R') Eo).
    assert (Hp : B + o + sizeof_hdr <> NULL) by (unfold sizeof_hdr, NULL; lia).
    destruct (Z.eqb_spec (B + o + sizeof_hdr) NULL); [done|]. cbn [negb]. right. exists o, k, bs'.
    replace (B + o + sizeof_hdr - sizeof_hdr) with (B + o) by lia. rewrite M2, Z.shiftl_1_l.
    split_and!; try done. split; [by apply repr_stats|done|].
    cbn [on_stats al set_stats a_stats count_alloc bytes_in_use].
    rewrite Hst, A, u64_u64, Ht, used_bytes_insert by done. f_equal. lia.
Qed.

(** [pal_allocator_free] of a live pointer. *)
Lemma free_spec h bs o k :
  arena_ok h bs -> taken bs !! o = Some k ->
  exists bs', arena_ok (pal_allocator_free h (B + o + sizeof_hdr)) bs' /\ taken bs' = delete o (taken bs) /\
    kept bs {[o]} (hmem h) (hmem (pal_allocator_free h (B + o + sizeof_hdr))).
Proof.
  intros [R C A] E. pose proof E as E'. apply taken_Some in E'. pose proof (geo_32 _ _ _ _ (r_geo _ _ _ R) E').
  destruct (geo_range _ _ (r_geo _ _ _ R) _ _ _ E') as (Hk & _).
  destruct (r_hdr _ _ _ R _ _ _ E' ltac:(set_solver)) as (_ & M2 & _).
  destruct (r_al _ _ _ R) as (Ea & _ & Em & Ei & _). unfold pal_allocator_free, free_locked. rewrite Ei.
  destruct (Z.eqb_spec (B + o + sizeof_hdr) NULL); [unfold sizeof_hdr, NULL in *; lia|]. cbn [Z.eqb].
  rewrite (free_hdr_live _ _ _ _ R E'), M2, Em. cbv zeta.
  destruct (Z.ltb_spec k PAL_ALLOC_MIN_ORDER); [lia|]. destruct (Z.ltb_spec mx k); [lia|]. cbn [orb].
  set (hs := on_stats (count_free _) h). cbn [al on_mem on_stats set_stats a_base a_max_order hs].
  rewrite Ea, Em.
  replace (B + o - B) with o by lia. rewrite Z.shiftl_1_l in *.
  pose proof (free_block hs bs o k (repr_stats _ _ _ _ R) C E') as Hf. cbv zeta in Hf.
  set (h1 := on_mem _ hs) in *. pose proof (stats_merge_up (Z.to_nat (mx - k)) h1 k (2 ^ k) o (B + o)) as Hst.
  destruct (merge_up _ h1 k _ _ _) as [[k' node] h2]. cbn [snd] in Hst.
  destruct Hf as (bs' & R' & C' & Ht & K). exists bs'. split_and!; [split; [done..|]|done|exact K].
  change (a_stats (al (list_push h2 k' node))) with (a_stats (al h2)). rewrite Hst, Ht.
  unfold h1, hs. cbn [on_mem on_stats al set_stats a_stats count_free bytes_in_use]. rewrite A.
  rewrite (used_bytes_delete _ _ _ E). unfold u64.
  rewrite ?Z.shiftl_1_l, Zminus_mod_idemp_l. f_equal. lia.
Qed.

End arena.
