(* ===== verification/PalAllocSpec.v ===== *)
(** * What the allocator promises its clients

    The abstract allocator is a store of byte arrays: [malloc] adds an array
    that overlaps no other, [free] removes one, and nothing but the client's
    own writes changes the bytes of a live array.  Every sequence of calls to
    the concrete allocator, with the client writing at will into its live
    arrays in between, is a sequence of steps of the abstract one.  Calls
    from several threads are such a sequence: the lock makes [malloc] and
    [free] atomic, and [calloc] and [realloc] touch only arrays their caller
    owns outside of it. *)

From S2P Require Import Prelude PalAlloc PalAllocInv.

(** ** The abstract store *)

(** The live arrays: pointer to contents. *)
Abbreviation arrays := (gmap Z bytes).

Inductive call :=
| Malloc (size : Z)
| Calloc (nmemb size : Z)
| Realloc (ptr size : Z)
| Free (ptr : Z)
| Write (ptr : Z) (i : nat) (v : Z).

(** What a client may ask: sizes a block can have without wrapping
    [size + sizeof_hdr], pointers it owns, and writes inside its arrays. *)
Definition size_ok (n : Z) : bool := (0 <=? n) && (n <? 2 ^ 64 - sizeof_hdr).

Definition owned (s : arrays) (p : Z) : bool := (p =? NULL) || bool_decide (is_Some (s !! p)).

Definition allowed_call (s : arrays) (c : call) : bool :=
  match c with
  | Malloc n => size_ok n
  | Calloc a b => (0 <=? a) && (0 <=? b) && (size_ok (a * b) || (SIZE_MAX <? a * b))
  | Realloc p n => owned s p && size_ok n
  | Free p => owned s p
  | Write p i v => match s !! p with Some c => bool_decide (i < length c)%nat | None => false end
  end.

Section spec.
Context (B mx : Z).

(** A new array of [n] bytes at [p]: in the arena, aligned with it, apart
    from every live array. *)
Definition fresh (s : arrays) (p n : Z) : Prop :=
  p <> NULL /\ B + sizeof_hdr <= p /\ p + n <= B + 2 ^ mx /\ (16 | p - B) /\ s !! p = None /\
  forall q c, s !! q = Some c -> p + n <= q \/ q + strlen c <= p.

Inductive spec_step (s : arrays) : call -> Z -> arrays -> Prop :=
| spec_malloc n p c : fresh s p n -> strlen c = n -> spec_step s (Malloc n) p (<[p := c]> s)
| spec_malloc_none n : spec_step s (Malloc n) NULL s
| spec_calloc a b p : fresh s p (a * b) ->
    spec_step s (Calloc a b) p (<[p := replicate (Z.to_nat (a * b)) 0]> s)
| spec_calloc_none a b : spec_step s (Calloc a b) NULL s
| spec_realloc_new n p c : fresh s p n -> strlen c = n -> spec_step s (Realloc NULL n) p (<[p := c]> s)
| spec_realloc_none p n : spec_step s (Realloc p n) NULL s
| spec_realloc_free p : spec_step s (Realloc p 0) NULL (delete p s)
| spec_realloc p c n q c' : s !! p = Some c -> fresh (delete p s) q n -> strlen c' = n ->
    take (length c) c' = take (length c') c ->
    spec_step s (Realloc p n) q (<[q := c']> (delete p s))
| spec_free p : spec_step s (Free p) NULL (delete p s)
| spec_write p i v c : s !! p = Some c ->
    spec_step s (Write p i v) NULL (<[p := <[i := v mod 256]> c]> s).

End spec.

(** ** The concrete allocator under the same calls *)

Definition perform (h : heap) (c : call) : Z * heap :=
  match c with
  | Malloc n => pal_allocator_malloc h n
  | Calloc a b => pal_allocator_calloc h a b
  | Realloc p n => pal_allocator_realloc h p n
  | Free p => (NULL, pal_allocator_free h p)
  | Write p i v => (NULL, on_mem (fun m => store_byte m (p + Z.of_nat i) v) h)
  end.

(** The bytes in memory at [p]. *)
Definition peek (m : mem) (p n : Z) : bytes := map (fun i => m (p + Z.of_nat i)) (seq 0 (Z.to_nat n)).

(** The arrays after a call with result [r] that left memory [m]: a new array
    has what the memory holds, an old one what it held. *)
Definition arrays_after (s : arrays) (c : call) (r : Z) (m : mem) : arrays :=
  match c with
  | Malloc n => if r =? NULL then s else <[r := peek m r n]> s
  | Calloc a b => if r =? NULL then s else <[r := peek m r (a * b)]> s
  | Realloc p n =>
      if negb (p =? NULL) && (n =? 0) then delete p s
      else if r =? NULL then s else <[r := peek m r n]> (delete p s)
  | Free p => delete p s
  | Write p i v => alter (fun c => <[i := v mod 256]> c) p s
  end.

(** The calls of a client that keeps to [allowed_call]. *)
Fixpoint allowed_run (h : heap) (s : arrays) (cs : list call) : bool :=
  match cs with
  | [] => true
  | c :: cs =>
      allowed_call s c &&
      let '(r, h') := perform h c in allowed_run h' (arrays_after s c r (hmem h')) cs
  end.

Fixpoint run_calls (h : heap) (s : arrays) (cs : list call) : heap * arrays :=
  match cs with
  | [] => (h, s)
  | c :: cs => let '(r, h') := perform h c in run_calls h' (arrays_after s c r (hmem h')) cs
  end.

(** Each call with its result and the arrays before and after. *)
Fixpoint call_log (h : heap) (s : arrays) (cs : list call) : list (arrays * call * Z * arrays) :=
  match cs with
  | [] => []
  | c :: cs =>
      let '(r, h') := perform h c in
      let s' := arrays_after s c r (hmem h') in (s, c, r, s') :: call_log h' s' cs
  end.

Lemma length_peek m p n : strlen (peek m p n) = Z.max 0 n.
Proof. unfold strlen, peek. rewrite length_map, length_seq. lia. Qed.

Lemma lookup_peek m p n i : Z.of_nat i < n -> peek m p n !! i = Some (m (p + Z.of_nat i)).
Proof. intros ?. unfold peek. rewrite list_lookup_fmap, lookup_seq_lt by lia. done. Qed.

Lemma peek_ext m m' p n : (forall x, p <= x < p + n -> m' x = m x) -> peek m' p n = peek m p n.
Proof.
  intros E. unfold peek. apply map_ext_in. intros i [_ Hi]%in_seq. apply E. lia.
Qed.

Lemma peek_shift m m' p q n : (forall i, 0 <= i < n -> m' (q + i) = m (p + i)) -> peek m' q n = peek m p n.
Proof. intros E. unfold peek. apply map_ext_in. intros i [_ Hi]%in_seq. apply E. lia. Qed.

Lemma take_peek k m p n : take k (peek m p n) = peek m p (Z.min (Z.of_nat k) n).
Proof. unfold peek. rewrite <- fmap_take, take_seq. do 2 f_equal. lia. Qed.

Lemma peek_const m p n v : 0 <= n -> (forall x, p <= x < p + n -> m x = v) -> peek m p n = replicate (Z.to_nat n) v.
Proof.
  intros Hn E. symmetry. apply replicate_as_Forall. unfold peek. rewrite length_map, length_seq. split; [done|].
  apply Forall_fmap, Forall_seq. intros i Hi. cbn. symmetry. apply E. lia.
Qed.

Lemma memset_other m p c n x : ~ (p <= x < p + n) -> memset m p c n x = m x.
Proof. intros ?. unfold memset, within. destruct (Z.leb_spec p x), (Z.ltb_spec x (p + n)); done || lia. Qed.

Lemma memset_in m p c n x : p <= x < p + n -> memset m p c n x = c.
Proof. intros ?. unfold memset, within. destruct (Z.leb_spec p x), (Z.ltb_spec x (p + n)); done || lia. Qed.

Lemma memcpy_other m d p n x : ~ (d <= x < d + n) -> memcpy m d p n x = m x.
Proof. intros ?. unfold memcpy, within. destruct (Z.leb_spec d x), (Z.ltb_spec x (d + n)); done || lia. Qed.

Lemma memcpy_at m d p n i : 0 <= i < n -> memcpy m d p n (d + i) = m (p + i).
Proof.
  intros ?. unfold memcpy, within. destruct (Z.leb_spec d (d + i)), (Z.ltb_spec (d + i) (d + n)); try lia.
  cbn. f_equal. lia.
Qed.

Lemma peek_write m p i v c : c = peek m p (strlen c) -> (i < length c)%nat ->
  <[i := v mod 256]> c = peek (store_byte m (p + Z.of_nat i) v) p (strlen c).
Proof.
  intros Hc Hi. apply list_eq. intros j. unfold strlen in *.
  destruct (decide (j < length c)%nat) as [Hj|Hj].
  - rewrite lookup_peek by lia. unfold store_byte. destruct (Z.eqb_spec (p + Z.of_nat j) (p + Z.of_nat i)).
    + assert (j = i) as -> by lia. by rewrite list_lookup_insert_eq.
    + rewrite list_lookup_insert_ne by lia. rewrite Hc at 1. by rewrite lookup_peek by lia.
  - rewrite !lookup_ge_None_2; [done| |rewrite length_insert; lia].
    unfold peek. rewrite length_map, length_seq. lia.
Qed.

Lemma size_ok_spec n : size_ok n = true -> 0 <= n /\ need_of n < 2 ^ 64 /\ n + sizeof_hdr <= need_of n.
Proof.
  unfold size_ok, need_of, sizeof_hdr. intros [?%Z.leb_le ?%Z.ltb_lt]%andb_prop. destruct (Z.eqb_spec n 0); lia.
Qed.

(** ** The simulation *)

Section simulation.
Context (B mx : Z).
Hypothesis HB : 0 < B.
Hypothesis Hmx : PAL_ALLOC_MIN_ORDER <= mx <= PAL_ALLOC_MAX_ORDER.
Hypothesis Hend : B + 2 ^ mx <= 2 ^ 64.

(** Heap and arrays agree: the taken blocks are the live arrays, and memory
    holds their contents. *)
Record linked (h : heap) (bs : blocks) (s : arrays) : Prop := Linked {
  l_ok : arena_ok B mx h bs;
  l_ptr : forall p c, s !! p = Some c -> exists k, taken bs !! (p - sizeof_hdr - B) = Some k /\
    strlen c + sizeof_hdr <= 2 ^ k /\ peek (hmem h) p (strlen c) = c;
  l_own : forall o k, taken bs !! o = Some k -> is_Some (s !! (B + o + sizeof_hdr))
}.

Lemma block_of_ptr o : B + o + sizeof_hdr - sizeof_hdr - B = o.
Proof. lia. Qed.

Lemma ptr_inj p q : p - sizeof_hdr - B = q - sizeof_hdr - B -> p = q.
Proof. lia. Qed.

Lemma taken_geo h bs o k : arena_ok B mx h bs -> taken bs !! o = Some k ->
  bs !! o = Some (k, true) /\ 32 <= 2 ^ k /\ 0 <= o /\ o + 2 ^ k <= 2 ^ mx.
Proof.
  intros [R _ _] E. apply taken_Some in E. split; [done|].
  apply (geo_32 mx bs o k true); [apply (r_geo _ _ _ _ _ R)|done].
Qed.

Lemma taken_apart h bs o k o' k' : arena_ok B mx h bs ->
  taken bs !! o = Some k -> taken bs !! o' = Some k' -> o <> o' -> o + 2 ^ k <= o' \/ o' + 2 ^ k' <= o.
Proof.
  intros [R _ _] E%taken_Some E'%taken_Some Hne.
  by apply (geo_sep mx bs o k true o' k' true (r_geo _ _ _ _ _ R)).
Qed.

(** The contents of a block the operation did not own are as they were. *)
Lemma peek_kept h bs s X m' p c :
  linked h bs s -> s !! p = Some c -> kept B mx bs X (hmem h) m' -> (p - sizeof_hdr - B ∉ X) ->
  peek m' p (strlen c) = c.
Proof.
  intros L E [K _] Hn. destruct (l_ptr _ _ _ L _ _ E) as (k & Et & Hl & Hp). rewrite <- Hp at 2.
  destruct (taken_geo _ _ _ _ (l_ok _ _ _ L) Et) as (Eb & _). unfold sizeof_hdr in *.
  apply peek_ext. intros x Hx. apply (K _ _ Eb Hn). lia.
Qed.

(** The place of an array is fresh once the array itself is set aside. *)
Lemma linked_fresh h bs s p n k :
  linked h bs s -> taken bs !! (p - sizeof_hdr - B) = Some k -> 0 <= n -> n + sizeof_hdr <= 2 ^ k ->
  fresh B mx (delete p s) p n.
Proof.
  intros L Ek Hn Hk. pose proof (l_ok _ _ _ L) as A.
  destruct (taken_geo _ _ _ _ A Ek) as (Eb & H32 & Ho & Hom). unfold fresh, NULL, sizeof_hdr in *.
  split_and!; [lia..| |by rewrite lookup_delete_eq|].
  - replace (p - B) with (p - 16 - B + 16) by lia. apply Z.divide_add_r; [|apply Z.divide_refl].
    destruct A as [[_ G _ _ _] _ _]. destruct (geo_range _ _ G _ _ _ Eb) as (? & _ & _ & Hd).
    change 16 with (2 ^ 4) at 1. apply (pow_divide _ k); [unfold PAL_ALLOC_MIN_ORDER in *; lia|done].
  - intros q c [Hne E]%lookup_delete_Some. destruct (l_ptr _ _ _ L _ _ E) as (k' & Ek' & Hl & _).
    unfold sizeof_hdr in *. assert (Hd : p - 16 - B <> q - 16 - B) by lia.
    pose proof (taken_apart _ _ _ _ _ _ A Ek Ek' Hd). lia.
Qed.

(** A block taken from the arena becomes a live array. *)
Lemma linked_alloc h h' bs bs' s o k n :
  linked h bs s -> arena_ok B mx h' bs' -> taken bs !! o = None -> taken bs' = <[o := k]> (taken bs) ->
  kept B mx bs ∅ (hmem h) (hmem h') -> 0 <= n -> n + sizeof_hdr <= 2 ^ k ->
  let p := B + o + sizeof_hdr in
  s !! p = None /\ linked h' bs' (<[p := peek (hmem h') p n]> s).
Proof.
  intros L A Hn Ht K Hn0 Hk p. pose proof (block_of_ptr o) as Hp. fold p in Hp.
  assert (Eo : taken bs' !! o = Some k) by (rewrite Ht; apply lookup_insert_eq). split; [|split; [done| |]].
  - destruct (s !! p) as [c|] eqn:E; [|done]. destruct (l_ptr _ _ _ L _ _ E) as (k' & E' & _). congruence.
  - intros q c. rewrite lookup_insert_Some. intros [[<- <-]|[Hne E]].
    + exists k. rewrite Hp, length_peek, Z.max_r by lia. done.
    + destruct (l_ptr _ _ _ L _ _ E) as (k' & E' & Hl & _). exists k'. split_and!; [|done|].
      * rewrite Ht, lookup_insert_ne; [done|]. intros ->. congruence.
      * apply (peek_kept h bs s ∅); [done..|set_solver].
  - intros o' k'. rewrite Ht, lookup_insert_Some. intros [[<- <-]|[Hne E]].
    + fold p. by rewrite lookup_insert_eq.
    + rewrite lookup_insert_ne by (unfold p; lia). by apply (l_own _ _ _ L _ k').
Qed.

(** A freed block is no longer an array. *)
Lemma linked_free h h' bs bs' s p c :
  linked h bs s -> s !! p = Some c -> arena_ok B mx h' bs' ->
  taken bs' = delete (p - sizeof_hdr - B) (taken bs) ->
  kept B mx bs {[p - sizeof_hdr - B]} (hmem h) (hmem h') ->
  linked h' bs' (delete p s).
Proof.
  intros L E A Ht K. split; [done| |].
  - intros q c'. rewrite lookup_delete_Some. intros [Hne E']. destruct (l_ptr _ _ _ L _ _ E') as (k' & Ek & Hl & _).
    assert (p - sizeof_hdr - B <> q - sizeof_hdr - B) by (intros ?%ptr_inj; done).
    exists k'. split_and!; [by rewrite Ht, lookup_delete_ne|done|].
    apply (peek_kept h bs s {[p - sizeof_hdr - B]}); [done..|set_solver].
  - intros o k. rewrite Ht, lookup_delete_Some. intros [Hne Eo].
    rewrite lookup_delete_ne by (intros ->; by rewrite block_of_ptr in Hne). by apply (l_own _ _ _ L _ k).
Qed.

(** The client, or [memset] and [memcpy] for it, write into an array. *)
Lemma linked_write h bs s p c m' n :
  linked h bs s -> s !! p = Some c -> 0 <= n ->
  (exists k, taken bs !! (p - sizeof_hdr - B) = Some k /\ n + sizeof_hdr <= 2 ^ k /\
     forall x, ~ (p <= x < p - sizeof_hdr + 2 ^ k) -> m' x = hmem h x) ->
  linked (Heap (al h) m') bs (<[p := peek m' p n]> s).
Proof.
  intros L E Hn0 (k & Ek & Hl & Hm). pose proof (l_ok _ _ _ L) as A.
  destruct (taken_geo _ _ _ _ A Ek) as (Eb & H32 & Ho & Hom). unfold sizeof_hdr in *. split.
  - destruct A as [R C U]. split; [|done|done].
    apply (repr_payload B mx h bs _ k m' R Eb). unfold sizeof_hdr. intros x Hx. apply Hm. lia.
  - intros q c'. rewrite lookup_insert_Some. unfold sizeof_hdr. intros [[<- <-]|[Hne E']].
    + exists k. rewrite length_peek, Z.max_r by lia. done.
    + destruct (l_ptr _ _ _ L _ _ E') as (k' & Ek' & Hl' & Hp'). unfold sizeof_hdr in *. exists k'. split_and!; [done..|].
      rewrite <- Hp' at 2. apply peek_ext. intros x Hx. apply Hm.
      assert (Hd : p - 16 - B <> q - 16 - B) by lia.
      pose proof (taken_apart _ _ _ _ _ _ A Ek Ek' Hd). lia.
  - intros o k' Eo. rewrite lookup_insert_is_Some. destruct (decide (p = B + o + 16)); [by left|right].
    split; [done|]. by apply (l_own _ _ _ L _ k').
Qed.

Lemma linked_stats f h bs s : bytes_in_use (f (a_stats (al h))) = bytes_in_use (a_stats (al h)) ->
  linked h bs s -> linked (on_stats f h) bs s.
Proof. intros E [A P O]. split; [by apply arena_stats|done|done]. Qed.

Lemma linked_null h bs s : linked h bs s -> s !! NULL = None.
Proof.
  intros L. destruct (s !! NULL) as [c|] eqn:E; [|done]. destruct (l_ptr _ _ _ L _ _ E) as (k & Ek & _).
  destruct (taken_geo _ _ _ _ (l_ok _ _ _ L) Ek) as (_ & _ & ? & _). unfold NULL, sizeof_hdr in *. lia.
Qed.

Lemma sim_malloc h bs s n : linked h bs s -> size_ok n = true ->
  match pal_allocator_malloc h n with
  | (p, h') =>
      (p = NULL /\ linked h' bs s) \/
      (exists bs', p <> NULL /\ fresh B mx s p n /\ linked h' bs' (<[p := peek (hmem h') p n]> s))
  end.
Proof.
  intros L (Hn & Hnd & Hle)%size_ok_spec.
  pose proof (malloc_spec B mx HB Hmx Hend h bs n (l_ok _ _ _ L) Hn Hnd) as Hm.
  destruct (pal_allocator_malloc h n) as [p h'].
  destruct Hm as [(-> & Em & A & _)|(o & k & bs' & -> & Hp & Hk & A & Hon & Ht & K)]; [left|right].
  - split; [done|]. destruct L as [_ P O]. split; [done| |done]. intros q c Eq. rewrite Em. by apply P.
  - destruct (linked_alloc h h' bs bs' s o k n L A Hon Ht K Hn ltac:(lia)) as [Hnone L'].
    exists bs'. split_and!; [done| |done]. rewrite <- (delete_insert_id s _ (peek (hmem h') (B + o + sizeof_hdr) n) Hnone).
    apply (linked_fresh _ _ _ _ _ k L'); [|done|lia]. rewrite block_of_ptr, Ht. apply lookup_insert_eq.
Qed.

Lemma sim_free h bs s p c : linked h bs s -> s !! p = Some c ->
  exists bs', linked (pal_allocator_free h p) bs' (delete p s).
Proof.
  intros L E. destruct (l_ptr _ _ _ L _ _ E) as (k & Ek & _).
  destruct (free_spec B mx HB Hmx Hend h bs _ k (l_ok _ _ _ L) Ek) as (bs' & A & Ht & K).
  replace (B + (p - sizeof_hdr - B) + sizeof_hdr) with p in * by lia.
  exists bs'. by apply (linked_free h _ bs _ s p c).
Qed.

Lemma sim_calloc h bs s a b : linked h bs s -> 0 <= a -> 0 <= b ->
  size_ok (a * b) || (SIZE_MAX <? a * b) = true ->
  match pal_allocator_calloc h a b with
  | (p, h') =>
      (p = NULL /\ linked h' bs s) \/
      (exists bs', p <> NULL /\ fresh B mx s p (a * b) /\ linked h' bs' (<[p := peek (hmem h') p (a * b)]> s) /\
         peek (hmem h') p (a * b) = replicate (Z.to_nat (a * b)) 0)
  end.
Proof.
  intros L Ha Hb Hs. unfold pal_allocator_calloc. apply (linked_stats count_calloc) in L; [|done].
  set (h0 := on_stats count_calloc h) in *. clearbody h0.
  destruct ((a =? 0) || (b =? 0)) eqn:Ez.
  { assert (a * b = 0) as -> by (apply orb_prop in Ez as [->%Z.eqb_eq| ->%Z.eqb_eq]; lia).
    pose proof (sim_malloc h0 bs s 0 L eq_refl) as Hm. destruct (pal_allocator_malloc h0 0) as [p h'].
    destruct Hm as [?|(bs' & ? & ? & ?)]; [by left|right; eauto]. }
  apply orb_false_elim in Ez as [?%Z.eqb_neq ?%Z.eqb_neq].
  destruct (Z.ltb_spec (SIZE_MAX / b) a) as [Hov|Hov]; [by left|].
  assert (a * b <= SIZE_MAX) by (pose proof (Z.mul_div_le SIZE_MAX b ltac:(lia)); nia).
  apply orb_prop in Hs as [Hs|?%Z.ltb_lt]; [|lia].
  pose proof (sim_malloc h0 bs s (a * b) L Hs) as Hm. destruct (pal_allocator_malloc h0 (a * b)) as [p h1].
  destruct Hm as [[-> L1]|(bs' & Hp & Hf & L1)]; [by left|]. destruct (Z.eqb_spec p NULL); [done|]. right.
  apply size_ok_spec in Hs as (Hn & _). exists bs'.
  split_and!; [done|done| |].
  - destruct (l_ptr _ _ _ L1 p (peek (hmem h1) p (a * b))) as (k & Ek & Hk & _); [by rewrite lookup_insert_eq|].
    rewrite length_peek, Z.max_r in Hk by done. unfold sizeof_hdr in *.
    assert (L2 := linked_write h1 bs' _ p _ (memset (hmem h1) p 0 (a * b)) (a * b) L1 (lookup_insert_eq _ _ _) Hn).
    rewrite insert_insert_eq in L2. apply L2. exists k. unfold sizeof_hdr. split_and!; [done..|]. intros x Hx.
    apply memset_other. lia.
  - apply peek_const; [done|]. intros x Hx. by apply memset_in.
Qed.

(** Growing in place: the array gets the length asked for. *)
Lemma sim_resize h bs s p c n k : linked h bs s -> s !! p = Some c -> taken bs !! (p - sizeof_hdr - B) = Some k ->
  0 <= n -> n + sizeof_hdr <= 2 ^ k ->
  fresh B mx (delete p s) p n /\ linked h bs (<[p := peek (hmem h) p n]> (delete p s)) /\
  take (length c) (peek (hmem h) p n) = take (Z.to_nat n) c.
Proof.
  intros L E Ek Hn Hk. destruct (l_ptr _ _ _ L _ _ E) as (_ & _ & _ & Hpk). split_and!.
  - by apply (linked_fresh h bs s p n k).
  - rewrite insert_delete_eq. replace h with (Heap (al h) (hmem h)) at 1 by (by destruct h).
    apply (linked_write h bs s p c (hmem h) n L E Hn). by exists k.
  - rewrite <- Hpk at 2. rewrite !take_peek. f_equal. unfold strlen. lia.
Qed.

(** Moving: the new block holds a copy when the old one is freed. *)
Lemma sim_move h bs s p c q n cap : linked h bs (<[q := peek (hmem h) q n]> s) -> s !! p = Some c -> s !! q = None ->
  fresh B mx s q n -> strlen c <= cap < n ->
  let h' := pal_allocator_free (on_mem (fun m => memcpy m q p cap) h) p in
  fresh B mx (delete p s) q n /\
  (exists bs', linked h' bs' (<[q := peek (hmem h') q n]> (delete p s))) /\
  take (length c) (peek (hmem h') q n) = take (Z.to_nat n) c.
Proof.
  intros L E Hq Hf Hc h'. set (h1 := on_mem (fun m => memcpy m q p cap) h) in *.
  assert (Hqp : q <> p) by congruence. unfold strlen in Hc.
  destruct (l_ptr _ _ _ L q _ (lookup_insert_eq _ _ _)) as (k & Ek & Hk & _).
  rewrite length_peek, Z.max_r in Hk by lia.
  assert (L1 : linked h1 bs (<[q := peek (hmem h1) q n]> s)).
  { assert (L1 := linked_write h bs _ q _ (hmem h1) n L (lookup_insert_eq _ _ _) ltac:(lia)).
    rewrite insert_insert_eq in L1. apply L1. exists k. unfold sizeof_hdr in *. split_and!; [done..|].
    intros x Hx. apply memcpy_other. lia. }
  assert (Ep : <[q := peek (hmem h1) q n]> s !! p = Some c) by (by rewrite lookup_insert_ne).
  destruct (sim_free h1 bs _ p c L1 Ep) as (bs' & L2). fold h' in L2. rewrite delete_insert_ne in L2 by done.
  destruct (l_ptr _ _ _ L2 q _ (lookup_insert_eq _ _ _)) as (_ & _ & _ & Hpk).
  rewrite length_peek, Z.max_r in Hpk by lia. rewrite Hpk. split_and!.
  - destruct Hf as (? & ? & ? & ? & _ & Hd). split_and!; try done; [by rewrite lookup_delete_ne|].
    intros r c' [_ ?]%lookup_delete_Some. by apply (Hd r).
  - by exists bs'.
  - rewrite take_peek, (take_ge c) by lia. rewrite Z.min_l by lia.
    assert (Ep' : (<[q := peek (hmem h) q n]> s) !! p = Some c) by (by rewrite lookup_insert_ne).
    destruct (l_ptr _ _ _ L _ _ Ep') as (_ & _ & _ & Hc'). unfold strlen in Hc'. rewrite <- Hc' at 2.
    apply peek_shift. intros i Hi. apply memcpy_at. lia.
Qed.

(** [realloc] of a live array to a non-zero size. *)
Lemma sim_realloc h bs s p c n : linked h bs s -> s !! p = Some c -> size_ok n = true -> n <> 0 ->
  match pal_allocator_realloc h p n with
  | (q, h') =>
      (q = NULL /\ linked h' bs s) \/
      (q <> NULL /\ fresh B mx (delete p s) q n /\
         (exists bs', linked h' bs' (<[q := peek (hmem h') q n]> (delete p s))) /\
         take (length c) (peek (hmem h') q n) = take (Z.to_nat n) c)
  end.
Proof.
  intros L0 E Hs Hn. unfold pal_allocator_realloc.
  assert (L : linked (on_stats count_realloc h) bs s) by (by apply linked_stats).
  set (h0 := on_stats count_realloc h) in *. clearbody h0.
  assert (Hp : p <> NULL) by (intros ->; by rewrite (linked_null _ _ _ L) in E).
  destruct (l_ptr _ _ _ L _ _ E) as (k & Ek & Hk & Hpk). pose proof (l_ok _ _ _ L) as [R _ _].
  destruct (taken_geo _ _ _ _ (l_ok _ _ _ L) Ek) as (Eb & H32 & _). pose proof (size_ok_spec n Hs) as (Hn0 & _).
  destruct (r_hdr _ _ _ _ _ R _ _ _ Eb ltac:(set_solver)) as (M1 & M2 & M3).
  destruct (r_al _ _ _ _ _ R) as (_ & _ & _ & -> & _). cbv zeta.
  replace (B + (p - sizeof_hdr - B)) with (p - sizeof_hdr) in * by lia.
  destruct (Z.eqb_spec p NULL); [done|]. destruct (Z.eqb_spec n 0); [done|]. cbn [Z.eqb].
  rewrite M1, M2, M3, Z.eqb_refl, Z.shiftl_1_l. cbn [negb orb Z.eqb].
  destruct (Z.leb_spec n (2 ^ k - sizeof_hdr)) as [Hfit|Hbig].
  { right. split; [done|]. destruct (sim_resize h0 bs s p c n k L E Ek Hn0 ltac:(lia)) as (? & ? & ?). eauto. }
  pose proof (sim_malloc h0 bs s n L Hs) as Hm. destruct (pal_allocator_malloc h0 n) as [q h1].
  destruct Hm as [[-> L1]|(bs' & Hq & Hf & L1)]; [by left|]. destruct (Z.eqb_spec q NULL); [done|]. right.
  split; [done|]. apply (sim_move h1 bs' s p c q n _ L1 E); [apply Hf|done|lia].
Qed.

(** The client writes a byte. *)
Lemma sim_write h bs s p i v c : linked h bs s -> s !! p = Some c -> (i < length c)%nat ->
  linked (on_mem (fun m => store_byte m (p + Z.of_nat i) v) h) bs (<[p := <[i := v mod 256]> c]> s).
Proof.
  intros L Ec Hi. destruct (l_ptr _ _ _ L _ _ Ec) as (k & Ek & Hk & Hpk).
  rewrite (peek_write _ _ _ _ _ (eq_sym Hpk) Hi).
  apply (linked_write h bs s p c _ _ L Ec); [unfold strlen; lia|]. exists k. split_and!; [done..|].
  unfold strlen, sizeof_hdr in *. intros x Hx. unfold store_byte. destruct (Z.eqb_spec x (p + Z.of_nat i)); [lia|done].
Qed.

(** The calls, one by one. *)
Definition simulates (s : arrays) (c : call) (r : Z) (h' : heap) : Prop :=
  spec_step B mx s c r (arrays_after s c r (hmem h')) /\
  exists bs', linked h' bs' (arrays_after s c r (hmem h')).

Lemma sim_call_malloc h bs s n r h' : linked h bs s -> size_ok n = true ->
  pal_allocator_malloc h n = (r, h') -> simulates s (Malloc n) r h'.
Proof.
  intros L Ha E. pose proof (sim_malloc h bs s n L Ha) as Hm. rewrite E in Hm. unfold simulates. cbn [arrays_after].
  destruct Hm as [[-> L']|(bs' & Hr & Hf & L')]; [split; [constructor|eauto]|].
  destruct (Z.eqb_spec r NULL); [done|]. split; [|eauto]. constructor; [done|].
  rewrite length_peek. apply size_ok_spec in Ha. lia.
Qed.

Lemma sim_call_realloc h bs s p n r h' : linked h bs s -> owned s p = true -> size_ok n = true ->
  pal_allocator_realloc h p n = (r, h') -> simulates s (Realloc p n) r h'.
Proof.
  intros L Ho Hs E. unfold simulates. cbn [arrays_after]. pose proof (linked_null _ _ _ L) as Hnull.
  pose proof (linked_stats count_realloc _ _ _ eq_refl L) as L0.
  destruct (Z.eqb_spec p NULL) as [->|Hp]; cbn [negb andb].
  { destruct (sim_call_malloc _ bs s n r h' L0 Hs E) as [Hsp HL]. cbn [arrays_after] in *. rewrite delete_id by done.
    split; [|done]. inversion Hsp; subst; [|constructor]. destruct (Z.eqb_spec r NULL); by constructor. }
  unfold owned in Ho. apply orb_prop in Ho as [?%Z.eqb_eq|[c Ec]%bool_decide_eq_true]; [done|].
  destruct (Z.eqb_spec n 0) as [->|Hn].
  { unfold pal_allocator_realloc in E. destruct (Z.eqb_spec p NULL); [done|]. injection E as <- <-.
    split; [constructor|]. by apply (sim_free _ bs s p c L0). }
  pose proof (sim_realloc h bs s p c n L Ec Hs Hn) as Hm. rewrite E in Hm.
  destruct Hm as [[-> L']|(Hr & Hf & L' & Ht)]; [split; [constructor|eauto]|].
  destruct (Z.eqb_spec r NULL); [done|]. split; [|done].
  pose proof (length_peek (hmem h') r n) as Hlen. apply size_ok_spec in Hs as (? & _). rewrite Z.max_r in Hlen by done.
  apply (spec_realloc _ _ _ _ c); [done..|]. rewrite Ht. f_equal. unfold strlen in Hlen. lia.
Qed.

Lemma sim_call h bs s c r h' : linked h bs s -> allowed_call s c = true -> perform h c = (r, h') ->
  simulates s c r h'.
Proof.
  intros L Ha E. destruct c as [n|a b|p n|p|p i v]; cbn [allowed_call perform] in *.
  - by apply (sim_call_malloc h bs).
  - apply andb_prop in Ha as [[?%Z.leb_le ?%Z.leb_le]%andb_prop Hs]. unfold simulates. cbn [arrays_after].
    pose proof (sim_calloc h bs s a b L ltac:(done) ltac:(done) Hs) as Hm. rewrite E in Hm.
    destruct Hm as [[-> L']|(bs' & Hr & Hf & L' & Hz)]; [split; [constructor|eauto]|].
    destruct (Z.eqb_spec r NULL); [done|]. split; [|eauto]. rewrite Hz. by constructor.
  - apply andb_prop in Ha as [Ho Hs]. by apply (sim_call_realloc h bs).
  - injection E as <- <-. split; [constructor|]. cbn [arrays_after]. unfold owned in Ha.
    apply orb_prop in Ha as [->%Z.eqb_eq|[c Ec]%bool_decide_eq_true].
    + rewrite delete_id by apply (linked_null _ _ _ L). by exists bs.
    + by apply (sim_free h bs s p c).
  - destruct (s !! p) as [c|] eqn:Ec; [|done]. apply bool_decide_eq_true in Ha. injection E as <- <-.
    assert (Es : alter (fun c => <[i := v mod 256]> c) p s = <[p := <[i := v mod 256]> c]> s).
    { apply map_eq. intros q. destruct (decide (q = p)) as [->|]; simplify_map_eq; done. }
    unfold simulates. cbn [arrays_after]. rewrite Es. split; [by constructor|]. exists bs. by apply sim_write.
Qed.

Lemma sim_run cs h bs s : linked h bs s -> allowed_run h s cs = true ->
  Forall (fun '(s, c, r, s') => spec_step B mx s c r s') (call_log h s cs) /\
  exists bs', linked (run_calls h s cs).1 bs' (run_calls h s cs).2.
Proof.
  revert h bs s. induction cs as [|c cs IH]; intros h bs s L Ha; cbn [allowed_run call_log run_calls] in *; [eauto|].
  apply andb_prop in Ha as [Ha Hr]. destruct (perform h c) as [r h'] eqn:E.
  destruct (sim_call h bs s c r h' L Ha E) as (Hs & bs' & L'). destruct (IH _ _ _ L' Hr) as [? ?].
  split; [by constructor|done].
Qed.

End simulation.

(** ** A fresh allocator *)

Lemma land_align x : Z.land x (Z.lnot 15) = 16 * (x / 16).
Proof.
  rewrite <- Z.ldiff_land. change 15 with (Z.ones 4). rewrite Z.ldiff_ones_r by lia.
  rewrite Z.shiftl_mul_pow2, Z.shiftr_div_pow2 by lia. change (2 ^ 4) with 16. lia.
Qed.

(** The blocks of a fresh arena. *)
Definition one_block (mx : Z) (u : bool) : blocks := {[0 := (mx, u)]}.

Lemma one_block_Some mx u o k v : one_block mx u !! o = Some (k, v) <-> o = 0 /\ k = mx /\ v = u.
Proof. unfold one_block. rewrite lookup_singleton_Some. naive_solver. Qed.

Lemma one_block_0 mx u : one_block mx u !! 0 = Some (mx, u).
Proof. by apply one_block_Some. Qed.

Lemma geo_one mx u : PAL_ALLOC_MIN_ORDER <= mx -> geo mx (one_block mx u).
Proof.
  intros Hm. split.
  - intros o k v (-> & -> & ->)%one_block_Some. split_and!; [lia..|apply Z.divide_0_r].
  - intros x Hx. exists 0, mx, u. rewrite one_block_0. split; [done|lia].
  - intros o k v o' k' v' (-> & _)%one_block_Some (-> & _)%one_block_Some. lia.
Qed.

(** The root block, pushed on the list of the largest order. *)
Lemma repr_init B mx m : 0 < B -> PAL_ALLOC_MIN_ORDER <= mx <= PAL_ALLOC_MAX_ORDER -> B + 2 ^ mx <= 2 ^ 64 ->
  let a := Allocator B (2 ^ mx) mx 1 zero_stats (replicate 22 NULL) in
  repr B mx (list_push (Heap a (set_next B NULL (set_hdr B mx 0 m))) mx B) (one_block mx false) ∅.
Proof.
  intros HB Hmx Hend a. set (h := Heap a _).
  assert (R : repr B mx h (one_block mx true) {[0]}).
  { split; [done|apply geo_one; lia| | |].
    - intros o ->%elem_of_singleton. exists mx. apply one_block_0.
    - intros o k u (-> & _)%one_block_Some. set_solver.
    - intros k Hk. exists []. split_and!; [|constructor|].
      + cbn [lseg]. unfold list_head, h, a. cbn [al free_lists]. unfold list_idx, PAL_ALLOC_MIN_ORDER, PAL_ALLOC_MAX_ORDER in *.
        apply list_lookup_total_correct, lookup_replicate_2. lia.
      + intros p. split; [by intros ?%elem_of_nil|]. by intros (_ & _ & [=])%one_block_Some. }
  destruct (repr_push B mx HB Hmx Hend h _ _ mx 0 R) as [R' _]; [set_solver|apply one_block_0| |].
  - rewrite Z.add_0_r. apply hdr_at_set_next, (hdr_at_set_hdr _ _ _ false).
    unfold PAL_ALLOC_MIN_ORDER, PAL_ALLOC_MAX_ORDER in *. lia.
  - rewrite Z.add_0_r, difference_diag_L in R'. unfold one_block in *. by rewrite insert_singleton_eq in R'.
Qed.

Lemma init_ok h0 buffer size h :
  pal_allocator_init h0 buffer size = (0, h) -> 0 <= buffer -> buffer + size <= 2 ^ 64 ->
  length (free_lists (al h0)) = 22%nat ->
  let B := a_base (al h) in let mx := a_max_order (al h) in
  0 < B /\ PAL_ALLOC_MIN_ORDER <= mx <= PAL_ALLOC_MAX_ORDER /\
  buffer <= B /\ (16 | B) /\ B + 2 ^ mx <= buffer + size /\ linked B mx h (one_block mx false) ∅.
Proof.
  intros E Hb0 Hsz Hl. unfold pal_allocator_init in E.
  destruct (Z.eqb_spec buffer NULL) as [|Hb]; [done|]. unfold NULL in Hb.
  destruct (Z.ltb_spec size (2 ^ PAL_ALLOC_MIN_ORDER)) as [|H32]; [done|]. change (2 ^ PAL_ALLOC_MIN_ORDER) with 32 in H32.
  cbv zeta in E. rewrite land_align in E. unfold u64 in E. rewrite (Z.mod_small (buffer + 15)) in E by lia.
  set (B := 16 * ((buffer + 15) / 16)) in *.
  assert (HB : buffer <= B <= buffer + 15) by (unfold B; pose proof (Z.div_mod (buffer + 15) 16); pose proof (Z.mod_pos_bound (buffer + 15) 16); lia).
  assert (H16 : (16 | B)) by (exists ((buffer + 15) / 16); unfold B; lia). clearbody B.
  rewrite (Z.mod_small (B - buffer)) in E by lia.
  destruct (Z.leb_spec size (B - buffer)); [done|]. rewrite (floor_log2_spec (size - (B - buffer))) in E by lia.
  set (mx := if PAL_ALLOC_MAX_ORDER <? _ then _ else _) in *.
  destruct (Z.ltb_spec mx PAL_ALLOC_MIN_ORDER); [done|]. rewrite Z.shiftl_1_l, Hl in E. injection E as <-. cbv zeta.
  assert (Hmx : PAL_ALLOC_MIN_ORDER <= mx <= PAL_ALLOC_MAX_ORDER).
  { split; [done|]. unfold mx. destruct (Z.ltb_spec PAL_ALLOC_MAX_ORDER (Z.log2 (size - (B - buffer)))); lia. }
  assert (Hpow : 2 ^ mx <= size - (B - buffer)).
  { transitivity (2 ^ Z.log2 (size - (B - buffer))); [|apply Z.log2_spec; lia]. apply Z.pow_le_mono_r; [lia|].
    unfold mx. destruct (Z.ltb_spec PAL_ALLOC_MAX_ORDER (Z.log2 (size - (B - buffer)))); lia. }
  cbn [al a_base a_max_order list_push set_head on_mem set_lists pal_allocator_reset_stats set_stats].
  split_and!; [lia|apply Hmx|apply Hmx|lia|done|lia|].
  split.
  - split; [exact (repr_init B mx _ ltac:(lia) Hmx ltac:(lia))| |done].
    intros o k Hk (_ & -> & _)%one_block_Some. cbn in Hk. lia.
  - intros p c Hc. set_solver.
  - by intros o k (_ & _ & [=])%taken_Some%one_block_Some.
Qed.

(** ** With nothing live the arena is whole again *)

Lemma free_blocks_only bs o k u : taken bs = ∅ -> bs !! o = Some (k, u) -> u = false.
Proof.
  intros Ht E. destruct u; [|done]. apply taken_Some in E. rewrite Ht in E. by rewrite lookup_empty in E.
Qed.

Lemma all_free_whole mx bs : PAL_ALLOC_MIN_ORDER <= mx -> geo mx bs -> coalesced mx bs -> taken bs = ∅ ->
  bs !! 0 = Some (mx, false).
Proof.
  intros Hmx G C Ht.
  assert (Hno : forall n o k u, (Z.to_nat k <= n)%nat -> k < mx -> bs !! o <> Some (k, u)).
  { intros n. induction n as [|n IH]; intros o k u Hn Hk E; pose proof (geo_range _ _ G _ _ _ E) as (Hr & _);
      unfold PAL_ALLOC_MIN_ORDER in *; [lia|].
    destruct (geo_buddy mx bs o k u G E Hk) as (_ & k' & u' & E' & Hk').
    pose proof (free_blocks_only _ _ _ _ Ht E) as ->. pose proof (free_blocks_only _ _ _ _ Ht E') as ->.
    destruct (decide (k' = k)) as [->|]; [by apply (C o k)|].
    apply (IH (Z.lxor o (2 ^ k)) k' false); [|lia|exact E']. pose proof (geo_range _ _ G _ _ _ E') as (? & _).
    unfold PAL_ALLOC_MIN_ORDER in *. lia. }
  pose proof (pow_ge mx Hmx). destruct (geo_cover _ _ G 0) as (o & k & u & E & Ho); [lia|].
  pose proof (geo_range _ _ G _ _ _ E) as (? & ? & _).
  assert (k = mx) as -> by (destruct (decide (k < mx)); [by destruct (Hno _ o k u (le_n _) ltac:(done))|lia]).
  assert (o = 0) as -> by lia. rewrite E. by rewrite (free_blocks_only _ _ _ _ Ht E).
Qed.

(** ** Properties *)

(** C9: An allocator initialised on a buffer lies inside it, and from then on
    behaves as the abstract store of arrays, for every sequence of [malloc],
    [calloc], [realloc] and [free] of owned pointers with writes into owned
    arrays in between: what is handed out is inside the arena, 16-byte
    aligned and overlaps nothing live, [calloc] hands out zeros, [realloc]
    keeps the common prefix, and in the end memory holds in every live array
    exactly what its owner last wrote there. *)
Theorem allocator_refines_arrays h0 buffer size h cs :
  pal_allocator_init h0 buffer size = (0, h) -> 0 <= buffer -> buffer + size <= 2 ^ 64 ->
  length (free_lists (al h0)) = 22%nat -> allowed_run h ∅ cs = true ->
  let B := a_base (al h) in let mx := a_max_order (al h) in
  buffer <= B /\ (16 | B) /\ B + 2 ^ mx <= buffer + size /\
  Forall (fun '(s, c, r, s') => spec_step B mx s c r s') (call_log h ∅ cs) /\
  forall p c, (run_calls h ∅ cs).2 !! p = Some c -> peek (hmem (run_calls h ∅ cs).1) p (strlen c) = c.
Proof.
  intros E H1 H2 H3 Ha B mx. destruct (init_ok h0 buffer size h E H1 H2 H3) as (HB & Hmx & Hlo & H16 & Hhi & L).
  destruct (sim_run _ _ HB Hmx ltac:(lia) cs h _ ∅ L Ha) as (Hs & bs & L'). split_and!; try done.
  intros p c Hp. by destruct (l_ptr _ _ _ _ _ L' p c Hp) as (k & _ & _ & ?).
Qed.

Definition demo_calls : list call :=
  [Malloc 100; Calloc 3 8; Write 4112 5 77; Realloc 4112 200; Free 4240; Malloc 20; Realloc 4368 0].

Lemma allocator_refines_arrays_witness :
  let h := (pal_allocator_init (Heap g_alloc_init (fun _ => 7)) 4090 1024).2 in
  allowed_run h ∅ demo_calls = true /\
  forall p c, (run_calls h ∅ demo_calls).2 !! p = Some c ->
    peek (hmem (run_calls h ∅ demo_calls).1) p (strlen c) = c.
Proof.
  split; [by_compute|].
  eapply (allocator_refines_arrays (Heap g_alloc_init (fun _ => 7)) 4090 1024
            (pal_allocator_init (Heap g_alloc_init (fun _ => 7)) 4090 1024).2 demo_calls).
  - reflexivity.
  - lia.
  - lia.
  - reflexivity.
  - vm_compute. reflexivity.
Defined.

(** Memory comes back.  Whatever the clients did, a request fails only
    when every free block is too small for it; and once they have freed
    everything, no byte counts as in use and a request for the whole arena
    (less one header) succeeds. *)
Theorem allocator_recovers h0 buffer size h cs n :
  pal_allocator_init h0 buffer size = (0, h) -> 0 <= buffer -> buffer + size <= 2 ^ 64 ->
  length (free_lists (al h0)) = 22%nat -> allowed_run h ∅ cs = true -> size_ok n = true ->
  let h' := (run_calls h ∅ cs).1 in
  ((pal_allocator_malloc h' n).1 = NULL ->
     forall k, PAL_ALLOC_MIN_ORDER <= k <= a_max_order (al h) -> list_head h' k <> NULL -> 2 ^ k < need_of n) /\
  ((run_calls h ∅ cs).2 = ∅ ->
     bytes_in_use (a_stats (al h')) = 0 /\
     (need_of n <= 2 ^ a_max_order (al h) -> (pal_allocator_malloc h' n).1 <> NULL)).
Proof.
  intros E H1 H2 H3 Ha Hn h'. destruct (init_ok h0 buffer size h E H1 H2 H3) as (HB & Hmx & _ & _ & Hhi & L).
  assert (Hend : a_base (al h) + 2 ^ a_max_order (al h) <= 2 ^ 64) by lia.
  destruct (sim_run _ _ HB Hmx Hend cs h _ ∅ L Ha) as (_ & bs & L'). fold h' in L'.
  pose proof (l_ok _ _ _ _ _ L') as A. apply size_ok_spec in Hn as (Hn0 & Hnd & _).
  pose proof (malloc_spec _ _ HB Hmx Hend h' bs n A Hn0 Hnd) as Hm. destruct A as [R C U].
  destruct (pal_allocator_malloc h' n) as [p h'']. cbn [fst]. split.
  - intros ->. destruct Hm as [(_ & _ & _ & Hno)|(? & ? & ? & _ & ? & _)]; [|done]. intros k Hk Hhead.
    destruct (r_list _ _ _ _ _ R k Hk) as (l & Hs & _ & Hin). destruct l as [|q l]; [by cbn in Hs|].
    apply (Hno (q - a_base (al h))). apply Hin. set_solver.
  - intros He. assert (Ht : taken bs = ∅).
    { apply map_empty. intros o. apply eq_None_not_Some. intros [k Ek]. rewrite He in L'.
      destruct (l_own _ _ _ _ _ L' o k Ek) as [c Hc]. by rewrite lookup_empty in Hc. }
    split; [by rewrite U, Ht|]. intros Hle ->.
    destruct Hm as [(_ & _ & _ & Hno)|(? & ? & ? & _ & ? & _)]; [|done].
    pose proof (Hno _ _ (all_free_whole (a_max_order (al h)) bs (proj1 Hmx) (r_geo _ _ _ _ _ R) C Ht)). lia.
Qed.

Lemma allocator_recovers_witness :
  let h := (pal_allocator_init (Heap g_alloc_init (fun _ => 7)) 4090 1024).2 in
  let cs := [Malloc 100; Malloc 20; Free 4112; Free 4240] in
  bytes_in_use (a_stats (al (run_calls h ∅ cs).1)) = 0 /\
  (need_of 496 <= 2 ^ a_max_order (al h) -> (pal_allocator_malloc (run_calls h ∅ cs).1 496).1 <> NULL).
Proof.
  apply (allocator_recovers (Heap g_alloc_init (fun _ => 7)) 4090 1024
           (pal_allocator_init (Heap g_alloc_init (fun _ => 7)) 4090 1024).2
           [Malloc 100; Malloc 20; Free 4112; Free 4240] 496).
  - reflexivity.
  - lia.
  - lia.
  - reflexivity.
  - vm_compute. reflexivity.
  - reflexivity.
  - vm_compute. reflexivity.
Defined.

(** [size + sizeof_hdr] is computed modulo 2^64: a request for any of the
    sixteen largest sizes is served like a request for one byte, with a block
    of 32 bytes, instead of being refused. *)
Theorem malloc_wraps h n :
  2 ^ 64 - sizeof_hdr <= n < 2 ^ 64 -> 32 <= a_size (al h) ->
  pal_allocator_malloc h n = pal_allocator_malloc h 1.
Proof.
  unfold sizeof_hdr. intros Hn Hs. unfold pal_allocator_malloc.
  assert (alloc_locked h n = alloc_locked h 1) as ->; [|done]. unfold alloc_locked, sizeof_hdr.
  destruct (Z.eqb_spec n 0); [lia|]. cbv zeta. change (1 =? 0) with false. cbv iota.
  assert (u64 (n + 16) = n + 16 - 2 ^ 64) as ->.
  { unfold u64. symmetry. apply (Z.mod_unique _ _ 1); lia. }
  change (u64 (1 + 16)) with 17.
  destruct (Z.ltb_spec (a_size (al h)) (n + 16 - 2 ^ 64)); [lia|]. destruct (Z.ltb_spec (a_size (al h)) 17); [lia|].
  rewrite (ceil_log2_spec (n + 16 - 2 ^ 64)) by lia. change (ceil_log2_u64 17) with 5.
  assert (Z.log2_up (n + 16 - 2 ^ 64) <= 4).
  { change 4 with (Z.log2_up 16). apply Z.log2_up_le_mono. lia. }
  destruct (Z.ltb_spec (Z.log2_up (n + 16 - 2 ^ 64)) PAL_ALLOC_MIN_ORDER); [done|unfold PAL_ALLOC_MIN_ORDER in *; lia].
Qed.

Lemma malloc_wraps_witness :
  let h := (pal_allocator_init (Heap g_alloc_init (fun _ => 7)) 4090 1024).2 in
  pal_allocator_malloc h (2 ^ 64 - 1) = pal_allocator_malloc h 1.
Proof.
  apply (malloc_wraps (pal_allocator_init (Heap g_alloc_init (fun _ => 7)) 4090 1024).2 (2 ^ 64 - 1)).
  - by_compute.
  - by_compute.
Defined.

(** [pal_allocator_free] takes a pointer of
    [pal_allocator_aligned_alloc] for an ordinary one when the bytes before
    it look like a header, and these bytes are left over from the block's
    previous owner.  A client that wrote such bytes into its own array makes
    the allocator hand out, two legal calls later, an array that overlaps a
    live one. *)
Theorem aligned_free_confused :
  let h := (pal_allocator_init (Heap g_alloc_init (fun _ => 0)) 4096 4096).2 in
  let '(a, h) := pal_allocator_malloc h 200 in
  let '(q, h) := pal_allocator_malloc h 200 in
  let fake := [0xA7; 0xC0; 0x11; 0x0A; 9; 0; 1; 0] in
  let '(h, _) := fold_left (fun '(h, i) b => (on_mem (fun m => store_byte m (a + 32 + i) b) h, i + 1)) fake (h, 0) in
  let h := pal_allocator_free h a in
  let '(b, h) := pal_allocator_aligned_alloc h 64 100 in
  let h := pal_allocator_free h b in
  let '(p, h) := pal_allocator_malloc h 400 in
  p < q /\ q < p + 400.
Proof. vm_compute. done. Qed.
