(* ===== verification/FtpServer.v ===== *)
(** * The server: [src/ftp_server.c]

    Set-up and shutdown, the pool of session slots, and the accept thread.
    Several threads share the pool: the accept thread hands a slot to each
    connection, the thread of a session gives it back.  What each thread does
    between two accesses to shared fields is one action, and a run of the
    server is any sequence of actions of its threads. *)

From S2P Require Import Prelude CLib FtpTypes FtpPath FtpProtocol FtpCrypto.
From S2P Require Import Os PalNetwork PalFileio FtpState FtpResolve FtpSession.

Definition FTP_LISTEN_BACKLOG : Z := 8.
Definition SERVER_STOP_TIMEOUT_MS : Z := 5000.
Definition SERVER_STOP_POLL_MS : Z := 100.

(** A slot of the pool: the session and whether its back-pointer to the
    server is set. *)
Record slot := Slot { sess : ftp_session_t; server_ctx : bool }.

Record ftp_server_context_t := Ctx {
  listen_fd : Z;
  listen_addr : sockaddr_in;
  srv_port : Z;
  running : Z;
  active_sessions : Z;
  sessions : list slot;
  srv_root : bytes;
  total_connections : Z;
  total_errors : Z
}.

Definition set_listen_fd (v : Z) (c : ftp_server_context_t) : ftp_server_context_t :=
  Ctx v (listen_addr c) (srv_port c) (running c) (active_sessions c) (sessions c) (srv_root c)
    (total_connections c) (total_errors c).
Definition set_listen_addr (v : sockaddr_in) (c : ftp_server_context_t) : ftp_server_context_t :=
  Ctx (listen_fd c) v (srv_port c) (running c) (active_sessions c) (sessions c) (srv_root c)
    (total_connections c) (total_errors c).
Definition set_srv_port (v : Z) (c : ftp_server_context_t) : ftp_server_context_t :=
  Ctx (listen_fd c) (listen_addr c) v (running c) (active_sessions c) (sessions c) (srv_root c)
    (total_connections c) (total_errors c).
Definition set_running (v : Z) (c : ftp_server_context_t) : ftp_server_context_t :=
  Ctx (listen_fd c) (listen_addr c) (srv_port c) v (active_sessions c) (sessions c) (srv_root c)
    (total_connections c) (total_errors c).
Definition set_active (v : Z) (c : ftp_server_context_t) : ftp_server_context_t :=
  Ctx (listen_fd c) (listen_addr c) (srv_port c) (running c) v (sessions c) (srv_root c)
    (total_connections c) (total_errors c).
Definition set_sessions (v : list slot) (c : ftp_server_context_t) : ftp_server_context_t :=
  Ctx (listen_fd c) (listen_addr c) (srv_port c) (running c) (active_sessions c) v (srv_root c)
    (total_connections c) (total_errors c).
Definition set_srv_root (v : bytes) (c : ftp_server_context_t) : ftp_server_context_t :=
  Ctx (listen_fd c) (listen_addr c) (srv_port c) (running c) (active_sessions c) (sessions c) v
    (total_connections c) (total_errors c).
Definition set_totals (conns errs : Z) (c : ftp_server_context_t) : ftp_server_context_t :=
  Ctx (listen_fd c) (listen_addr c) (srv_port c) (running c) (active_sessions c) (sessions c)
    (srv_root c) conns errs.

(** [memset] of the context, and of a slot in the loop that prepares the
    pool. *)
Definition ctx_zero : ftp_server_context_t :=
  Ctx 0 sockaddr_zero 0 0 0 (replicate (Z.to_nat FTP_MAX_SESSIONS) (Slot session_memset false)) [] 0 0.
Definition free_slot : slot := Slot session_slot false.

(** [atomic_uint_fast32_t] has 64 bits on the modelled platform. *)
Definition add_active (d : Z) (c : ftp_server_context_t) : ftp_server_context_t :=
  set_active (u64 (active_sessions c + d)) c.
Definition count_error (c : ftp_server_context_t) : ftp_server_context_t :=
  set_totals (total_connections c) (u64 (total_errors c + 1)) c.
Definition count_connection (c : ftp_server_context_t) : ftp_server_context_t :=
  set_totals (u64 (total_connections c + 1)) (total_errors c) c.

Definition on_slot (i : nat) (f : slot -> slot) (c : ftp_server_context_t) : ftp_server_context_t :=
  set_sessions (alter f i (sessions c)) c.
Definition on_sess (f : ftp_session_t -> ftp_session_t) (s : slot) : slot := Slot (f (sess s)) (server_ctx s).
Definition set_ctx (b : bool) (s : slot) : slot := Slot (sess s) b.

(** ** The session pool *)

Definition slot_available (s : slot) : bool :=
  bool_decide (state (sess s) = FTP_STATE_INIT) || bool_decide (state (sess s) = FTP_STATE_TERMINATING).

Definition allocate_session (c : ftp_server_context_t) : option nat * ftp_server_context_t :=
  match list_find slot_available (sessions c) with
  | Some (i, _) => (Some i, on_slot i (on_sess (set_state FTP_STATE_CONNECTED)) c)
  | None => (None, c)
  end.

Definition free_session (i : nat) (c : ftp_server_context_t) : ftp_server_context_t :=
  on_slot i (on_sess (set_state FTP_STATE_INIT)) c.

(** Called by a session thread with the back-pointer of its slot; with NULL
    it does nothing. *)
Definition ftp_server_release_session (has_ctx : bool) (i : nat) (c : ftp_server_context_t) :
    ftp_server_context_t :=
  if negb has_ctx then c
  else add_active (-1) (on_slot i (on_sess (set_state FTP_STATE_INIT)) (on_slot i (set_ctx false) c)).

(** ** Queries *)

Definition ftp_server_is_running (c : ftp_server_context_t) : Z := running c.
Definition ftp_server_get_active_sessions (c : ftp_server_context_t) : Z := u32 (active_sessions c).

Definition ftp_server_get_stats (c : ftp_server_context_t) : Z * Z * Z :=
  (total_connections c,
   foldl (fun total s => u64 (total + bytes_sent (stats (sess s)))) 0 (sessions c),
   foldl (fun total s => u64 (total + bytes_received (stats (sess s)))) 0 (sessions c)).

(** ** Set-up and shutdown *)

Record srv (W : Type) := Srv { sctx : ftp_server_context_t; ssys : sysst W }.
Arguments Srv {W} _ _.
Arguments sctx {W} _.
Arguments ssys {W} _.

Section server.
Context {W : Type} `{OS W}.
Abbreviation sv := (M (srv W)).

Definition sv_sys {A} (m : M (sysst W) A) : sv A := fun s =>
  let '(r, w) := m (ssys s) in (r, Srv (sctx s) w).
Definition sv_call {A} (c : sys A) : sv A := sv_sys (sys_call c).
Definition sv_upd (f : ftp_server_context_t -> ftp_server_context_t) : sv unit :=
  modify (fun s => Srv (f (sctx s)) (ssys s)).
Definition sv_ask {A} (f : ftp_server_context_t -> A) : sv A := gets (fun s => f (sctx s)).

(** Close the half-made listener and give up. *)
Definition init_fail (fd : Z) (err : ftp_error_t) : sv ftp_error_t :=
  _ ← sv_call (SysClose fd); mret err.

Definition ftp_server_init (bind_ip : option bytes) (port : Z) (root_path : option bytes) : sv ftp_error_t :=
  match bind_ip, root_path with
  | Some bind_ip, Some root_path =>
      if port =? 0 then mret FTP_ERR_INVALID_PARAM
      else
        _ ← sv_upd (fun _ => ctx_zero);
        fd ← sv_call (SysSocket 1);
        if fd <? 0 then mret FTP_ERR_SOCKET_CREATE
        else
          err ← sv_sys (pal_socket_set_reuseaddr fd);
          if negb (bool_decide (err = FTP_OK)) then init_fail fd err
          else
            match pal_make_sockaddr (Some bind_ip) port with
            | Err err => init_fail fd err
            | Ok addr =>
                _ ← sv_upd (set_listen_addr addr);
                r ← sv_call (SysBind fd addr);
                if r <? 0 then init_fail fd FTP_ERR_SOCKET_BIND
                else
                  r ← sv_call (SysListen fd FTP_LISTEN_BACKLOG);
                  if r <? 0 then init_fail fd FTP_ERR_SOCKET_LISTEN
                  else
                    _ ← sv_upd (fun c => set_srv_port port (set_listen_fd fd c));
                    if FTP_PATH_MAX <=? strlen root_path then init_fail fd FTP_ERR_PATH_TOO_LONG
                    else
                      _ ← sv_upd (set_srv_root root_path);
                      _ ← sv_upd (fun c => set_active 0 (set_running 0 c));
                      _ ← sv_upd (set_sessions (replicate (Z.to_nat FTP_MAX_SESSIONS) free_slot));
                      r ← sv_call SysMutexInit;
                      if negb (r =? 0) then init_fail fd FTP_ERR_THREAD_CREATE
                      else
                        _ ← sv_upd (set_totals 0 0);
                        mret FTP_OK
            end
  | _, _ => mret FTP_ERR_INVALID_PARAM
  end.

(** The accept thread is [accept_step] below. *)
Definition ftp_server_start : sv ftp_error_t :=
  fd ← sv_ask listen_fd;
  if fd <? 0 then mret FTP_ERR_INVALID_PARAM
  else
    _ ← sv_upd (set_running 1);
    r ← sv_call SysSpawn;
    if negb (r =? 0) then _ ← sv_upd (set_running 0); mret FTP_ERR_THREAD_CREATE
    else mret FTP_OK.

Definition stop_shuts (s : slot) : bool :=
  match state (sess s) with
  | FTP_STATE_CONNECTED | FTP_STATE_AUTHENTICATED | FTP_STATE_TRANSFERRING => 0 <=? ctrl_fd (sess s)
  | _ => false
  end.

Fixpoint shut_sessions (l : list slot) : sv unit :=
  match l with
  | [] => mret tt
  | s :: l =>
      _ ← (if stop_shuts s then _ ← sv_call (SysShutdown (ctrl_fd (sess s))); mret tt else mret tt);
      shut_sessions l
  end.

(** The wait for the sessions to drain; [others] is what the other threads do
    to the context during a sleep. *)
Fixpoint stop_wait (n : nat) (others : nat -> ftp_server_context_t -> ftp_server_context_t) (waited_ms : Z) : sv unit :=
  active ← sv_ask active_sessions;
  if (0 <? active) && (waited_ms <? SERVER_STOP_TIMEOUT_MS) then
    match n with
    | O => diverge
    | S n' =>
        _ ← sv_call (SysUsleep (SERVER_STOP_POLL_MS * 1000));
        _ ← sv_upd (others n');
        stop_wait n' others (waited_ms + SERVER_STOP_POLL_MS)
    end
  else mret tt.

(** Fifty sleeps of a tenth of a second reach the timeout. *)
Definition ftp_server_stop (others : nat -> ftp_server_context_t -> ftp_server_context_t) : sv unit :=
  _ ← sv_upd (set_running 0);
  fd ← sv_ask listen_fd;
  _ ← (if 0 <=? fd then _ ← sv_call (SysClose fd); sv_upd (set_listen_fd (-1)) else mret tt);
  l ← sv_ask sessions;
  _ ← shut_sessions l;
  stop_wait (Z.to_nat (SERVER_STOP_TIMEOUT_MS / SERVER_STOP_POLL_MS)) others 0.

Definition ftp_server_cleanup : sv unit :=
  fd ← sv_ask listen_fd;
  if 0 <=? fd then _ ← sv_call (SysClose fd); sv_upd (set_listen_fd (-1)) else mret tt.

End server.

(** ** The threads *)

(** A session thread works on its slot, then runs [ftp_session_cleanup],
    which marks the slot, waits for a copy to end, closes the connection, and
    finally gives the slot back. *)
Inductive phase := Running | Cleaning | Closed.

(** [th_fd] is the connection the accept thread started the thread for. *)
Record thread := Thread { th_slot : nat; th_fd : Z; th_phase : phase }.

(** Where the accept thread is in the body of its loop: waiting in [accept],
    with a connection, with a slot, with an initialised session, and with a
    session thread that is not counted yet. *)
Inductive accept_pc :=
| AWaiting
| AAccepted (fd : Z)
| AAllocated (fd : Z) (i : nat)
| AInited (fd : Z) (i : nat)
| ASpawned.

Record machine := Machine {
  mctx : ftp_server_context_t;
  apc : accept_pc;
  threads : gmap nat thread; (* by thread id *)
  closed : list Z            (* descriptors closed so far, newest first *)
}.

(** Work of a session thread leaves the connection alone and the slot in one
    of these states. *)
Definition working (s : ftp_session_state_t) : bool :=
  match s with
  | FTP_STATE_CONNECTED | FTP_STATE_AUTHENTICATED | FTP_STATE_TRANSFERRING => true
  | _ => false
  end.

Inductive action :=
| ActAccept (fd : Z)                      (* [accept] returned a descriptor *)
| ActAllocate
| ActInit (s : ftp_session_t)             (* [ftp_session_init] returned [FTP_OK], leaving [s] *)
| ActInitFail (s : ftp_session_t)
| ActSpawn (k : option nat)               (* [pthread_create], with the new thread's id *)
| ActCount
| ActWork (k : nat) (s : ftp_session_t)   (* thread [k] handles commands, leaving [s] *)
| ActCleanup (k : nat)                    (* it leaves its loop and marks the slot *)
| ActClose (k : nat)                      (* it closes the connection *)
| ActRelease (k : nat).

(** The body of the loop of [server_accept_thread]. *)
Definition accept_step (a : action) (g : machine) : option machine :=
  let c := mctx g in
  match a, apc g with
  | ActAccept fd, AWaiting =>
      if (running c =? 0) || (fd <? 0) then None
      else Some (Machine c (AAccepted fd) (threads g) (closed g))
  | ActAllocate, AAccepted fd =>
      match allocate_session c with
      | (Some i, c) => Some (Machine c (AAllocated fd i) (threads g) (closed g))
      | (None, c) => Some (Machine (count_error c) AWaiting (threads g) (fd :: closed g))
      end
  | ActInit s, AAllocated fd i =>
      if (ctrl_fd s =? fd) && bool_decide (state s = FTP_STATE_CONNECTED)
      then Some (Machine (on_slot i (fun _ => Slot s true) c) (AInited fd i) (threads g) (closed g))
      else None
  | ActInitFail s, AAllocated fd i =>
      Some (Machine (count_error (free_session i (on_slot i (on_sess (fun _ => s)) c))) AWaiting
              (threads g) (fd :: closed g))
  | ActSpawn (Some k), AInited fd i =>
      match threads g !! k with
      | None => Some (Machine c ASpawned (<[k := Thread i fd Running]> (threads g)) (closed g))
      | Some _ => None
      end
  | ActSpawn None, AInited fd i =>
      Some (Machine (count_error (free_session i c)) AWaiting (threads g) (fd :: closed g))
  | ActCount, ASpawned =>
      Some (Machine (add_active 1 (count_connection c)) AWaiting (threads g) (closed g))
  | _, _ => None
  end.

(** The end of [ftp_session_thread]: its work, [ftp_session_cleanup] and
    [ftp_server_release_session]. *)
Definition thread_step (a : action) (g : machine) : option machine :=
  let c := mctx g in
  let set_phase k t p := <[k := Thread (th_slot t) (th_fd t) p]> (threads g) in
  match a with
  | ActWork k s =>
      t ← threads g !! k; sl ← sessions c !! th_slot t;
      match th_phase t with
      | Running =>
          if (ctrl_fd s =? ctrl_fd (sess sl)) && working (state s)
          then Some (Machine (on_slot (th_slot t) (on_sess (fun _ => s)) c) (apc g) (threads g) (closed g))
          else None
      | _ => None
      end
  | ActCleanup k =>
      t ← threads g !! k;
      match th_phase t with
      | Running =>
          Some (Machine (on_slot (th_slot t) (on_sess (set_state FTP_STATE_TERMINATING)) c) (apc g)
                  (set_phase k t Cleaning) (closed g))
      | _ => None
      end
  | ActClose k =>
      t ← threads g !! k; sl ← sessions c !! th_slot t;
      match th_phase t with
      | Cleaning =>
          let fd := ctrl_fd (sess sl) in
          if 0 <=? fd
          then Some (Machine (on_slot (th_slot t) (on_sess (set_ctrl_fd (-1))) c) (apc g)
                       (set_phase k t Closed) (fd :: closed g))
          else Some (Machine c (apc g) (set_phase k t Closed) (closed g))
      | _ => None
      end
  | ActRelease k =>
      t ← threads g !! k; sl ← sessions c !! th_slot t;
      match th_phase t with
      | Closed =>
          Some (Machine (ftp_server_release_session (server_ctx sl) (th_slot t) c) (apc g)
                  (delete k (threads g)) (closed g))
      | _ => None
      end
  | _ => None
  end.

Definition step (a : action) (g : machine) : option machine :=
  match a with
  | ActWork _ _ | ActCleanup _ | ActClose _ | ActRelease _ => thread_step a g
  | _ => accept_step a g
  end.

(** A started server with an empty pool. *)
Definition started (c : ftp_server_context_t) : machine := Machine c AWaiting ∅ [].

Fixpoint run (l : list action) (g : machine) : option machine :=
  match l with
  | [] => Some g
  | a :: l => g' ← step a g; run l g'
  end.

(** ** Invariants *)

(** The slot the accept thread holds. *)
Definition apc_slot (p : accept_pc) : option nat :=
  match p with AAllocated _ i | AInited _ i => Some i | _ => None end.

(** What a thread can rely on about its slot. *)
Definition thread_ok (t : thread) (s : slot) : Prop :=
  server_ctx s = true /\
  match th_phase t with
  | Running => working (state (sess s)) = true /\ ctrl_fd (sess s) = th_fd t
  | Cleaning => state (sess s) = FTP_STATE_TERMINATING /\ ctrl_fd (sess s) = th_fd t
  | Closed => state (sess s) = FTP_STATE_TERMINATING
  end.

Definition apc_ok (p : accept_pc) (s : slot) : Prop :=
  match p with
  | AAllocated fd _ => state (sess s) = FTP_STATE_CONNECTED
  | AInited fd _ => state (sess s) = FTP_STATE_CONNECTED /\ ctrl_fd (sess s) = fd /\ server_ctx s = true
  | _ => True
  end.

Record pool_ok (g : machine) : Prop := PoolOk {
  p_unique : forall k k' t t', threads g !! k = Some t -> threads g !! k' = Some t' ->
    th_slot t = th_slot t' -> k = k';
  p_apart : forall k t i, threads g !! k = Some t -> apc_slot (apc g) = Some i -> th_slot t <> i;
  p_thread : forall k t, threads g !! k = Some t -> exists s, sessions (mctx g) !! th_slot t = Some s /\ thread_ok t s;
  p_apc : forall i, apc_slot (apc g) = Some i -> exists s, sessions (mctx g) !! i = Some s /\ apc_ok (apc g) s;
  p_free : forall i s, sessions (mctx g) !! i = Some s ->
    (forall k t, threads g !! k = Some t -> th_slot t <> i) -> apc_slot (apc g) <> Some i ->
    state (sess s) = FTP_STATE_INIT;
  p_count : active_sessions (mctx g) =
    u64 (Z.of_nat (size (threads g)) - (if apc g is ASpawned then 1 else 0))
}.

Lemma sessions_on_slot i f c j :
  sessions (on_slot i f c) !! j = if decide (i = j) then f <$> sessions c !! j else sessions c !! j.
Proof.
  cbn. destruct (decide (i = j)) as [<-|Hne]; [apply list_lookup_alter_eq|by apply list_lookup_alter_ne].
Qed.

Lemma started_ok c : Forall (fun s => state (sess s) = FTP_STATE_INIT) (sessions c) -> active_sessions c = 0 ->
  pool_ok (started c).
Proof.
  intros Hf Ha. split; cbn; try done.
  - intros i s Hs _ _. rewrite Forall_lookup in Hf. by apply (Hf i).
Qed.

(** A thread changes its own slot. *)
Lemma pool_own g k t t' f fds :
  pool_ok g -> threads g !! k = Some t -> th_slot t' = th_slot t ->
  (forall s, thread_ok t s -> thread_ok t' (f s)) ->
  pool_ok (Machine (on_slot (th_slot t) f (mctx g)) (apc g) (<[k := t']> (threads g)) fds).
Proof.
  intros [U A T P F C] Ek Es Hf.
  assert (Hat : forall k1 t1, <[k := t']> (threads g) !! k1 = Some t1 ->
            exists t0, threads g !! k1 = Some t0 /\ th_slot t0 = th_slot t1).
  { intros k1 t1. rewrite lookup_insert_Some. intros [[<- <-]|[_ E]]; eauto. }
  split; cbn [mctx apc threads].
  - intros k1 k2 t1 t2 (u1 & E1 & <-)%Hat (u2 & E2 & <-)%Hat. by apply U.
  - intros k1 t1 i (u1 & E1 & <-)%Hat. by apply (A k1).
  - intros k1 t1 H1. rewrite sessions_on_slot. apply lookup_insert_Some in H1 as [[<- <-]|[Hne E1]].
    + rewrite Es, decide_True by done. destruct (T _ _ Ek) as (s & Hs & Hok). rewrite Hs. eexists. split; [done|auto].
    + rewrite decide_False by (intros ?; apply Hne; by apply (U k k1 t t1)). by apply (T k1).
  - intros i Hi. rewrite sessions_on_slot, decide_False by by apply (A k). by apply P.
  - intros i s. rewrite sessions_on_slot. intros Hs Hn.
    assert (th_slot t <> i) by (rewrite <- Es; apply (Hn k); apply lookup_insert_eq).
    rewrite decide_False in Hs by done. apply (F i s Hs). intros k1 t1 E1.
    destruct (decide (k1 = k)) as [->|]; [congruence|]. apply (Hn k1). by rewrite lookup_insert_ne.
  - cbn. rewrite C, map_size_insert_Some by eauto. done.
Qed.

Lemma on_slot_id i c : on_slot i id c = c.
Proof. unfold on_slot. rewrite list_alter_id by done. by destruct c. Qed.

(** A thread gives its slot back. *)
Lemma pool_release g k t fds :
  pool_ok g -> threads g !! k = Some t ->
  pool_ok (Machine (ftp_server_release_session true (th_slot t) (mctx g)) (apc g) (delete k (threads g)) fds).
Proof.
  intros [U A T P F C] Ek. split; cbn [mctx apc threads ftp_server_release_session negb].
  - intros k1 k2 t1 t2 [_ ?]%lookup_delete_Some [_ ?]%lookup_delete_Some. by apply U.
  - intros k1 t1 i [_ ?]%lookup_delete_Some. by apply (A k1).
  - intros k1 t1 [Hne E1]%lookup_delete_Some.
    assert (th_slot t <> th_slot t1) by (intros ?; apply Hne; by apply (U k k1 t t1)).
    change (sessions (add_active _ ?c)) with (sessions c).
    rewrite !sessions_on_slot, !decide_False by done. by apply (T k1).
  - intros i Hi. change (sessions (add_active _ ?c)) with (sessions c).
    rewrite !sessions_on_slot, !decide_False by by apply (A k). by apply P.
  - intros i s. change (sessions (add_active _ ?c)) with (sessions c). rewrite !sessions_on_slot.
    destruct (decide (th_slot t = i)) as [<-|Hne]; intros Hs Hn Ha.
    + destruct (sessions (mctx g) !! th_slot t); [|done]. by injection Hs as <-.
    + apply (F i s Hs); [|done]. intros k1 t1 E1. destruct (decide (k1 = k)) as [->|]; [congruence|].
      apply (Hn k1). by rewrite lookup_delete_ne.
  - change (active_sessions (add_active _ ?c)) with (u64 (active_sessions c - 1)). cbn [active_sessions on_slot set_sessions].
    assert (Z.of_nat (size (threads g)) = Z.of_nat (size (delete k (threads g))) + 1) as Hsz.
    { rewrite map_size_delete_Some by eauto. assert (size (threads g) <> 0%nat); [|lia].
      intros E0%map_size_empty_inv. by rewrite E0 in Ek. }
    rewrite C, Hsz. unfold u64. rewrite Zminus_mod_idemp_l. f_equal. lia.
Qed.

Lemma thread_step_ok a g g' : pool_ok g -> thread_step a g = Some g' -> pool_ok g'.
Proof.
  intros Hg E. destruct a; try done; cbn [thread_step] in E; destruct (threads g !! k) as [t|] eqn:Ek; try done; cbn in E;
    destruct (p_thread _ Hg _ _ Ek) as (sl & Hs & Hx & Hok); rewrite ?Hs in E; cbn in E;
    destruct (th_phase t) eqn:Hp; try done.
  - destruct (_ && _) eqn:Hc; [|done]. injection E as <-. apply andb_prop in Hc as [Hc%Z.eqb_eq Hw].
    rewrite <- (insert_id (threads g) k t Ek) at 1. apply (pool_own g k t t _ _ Hg Ek eq_refl).
    intros s' [Hx' _]. unfold thread_ok. rewrite Hp. cbn. destruct Hok. split_and!; [done..|congruence].
  - injection E as <-. apply (pool_own g k t); [done..|]. intros s' [Hx' Hs']. rewrite Hp in Hs'. by destruct Hs'.
  - destruct (0 <=? ctrl_fd (sess sl)); injection E as <-.
    + apply (pool_own g k t); [done..|]. intros s' [Hx' Hs']. rewrite Hp in Hs'. by destruct Hs'.
    + rewrite <- (on_slot_id (th_slot t) (mctx g)). apply (pool_own g k t); [done..|].
      intros s' [Hx' Hs']. rewrite Hp in Hs'. by destruct Hs'.
  - injection E as <-. rewrite Hx. by apply pool_release.
Qed.

(** The accept thread takes a slot nobody holds. *)
Lemma allocate_ok g fd i c' :
  pool_ok g -> apc g = AAccepted fd -> Forall (fun s => state (sess s) <> FTP_STATE_TERMINATING) (sessions (mctx g)) ->
  allocate_session (mctx g) = (Some i, c') ->
  pool_ok (Machine c' (AAllocated fd i) (threads g) (closed g)).
Proof.
  intros [U A T P F C] Ea Hq. unfold allocate_session.
  destruct (list_find _ _) as [[j s]|] eqn:El; [|done]. intros [= <- <-].
  apply list_find_Some in El as (Ej & Hav & _). rewrite Forall_lookup in Hq. specialize (Hq _ _ Ej).
  assert (Hi : state (sess s) = FTP_STATE_INIT).
  { unfold slot_available in Hav. apply Is_true_true, orb_prop in Hav as [?%bool_decide_eq_true|?%bool_decide_eq_true]; done. }
  assert (Hj : forall k t, threads g !! k = Some t -> th_slot t <> j).
  { intros k t Ek <-. destruct (T _ _ Ek) as (s' & Es' & _ & Hok). rewrite Ej in Es'. injection Es' as <-.
    rewrite Hi in Hok. destruct (th_phase t); by try destruct Hok. }
  split; cbn [mctx apc threads apc_slot].
  - done.
  - intros k t i Ek [= <-]. by apply (Hj k).
  - intros k t Ek. rewrite sessions_on_slot, decide_False by by apply not_eq_sym, (Hj k). by apply (T k).
  - intros i [= <-]. rewrite sessions_on_slot, decide_True, Ej by done. by eexists.
  - intros i s' Hs Hn Hne. rewrite sessions_on_slot, decide_False in Hs by congruence. apply (F i s' Hs Hn). by rewrite Ea.
  - change (active_sessions (on_slot _ _ ?c)) with (active_sessions c). by rewrite C, Ea.
Qed.

(** The accept thread works on the slot it holds, or gives it up. *)
Lemma accept_own g p p' i f c' fds :
  pool_ok g -> apc g = p -> apc_slot p = Some i -> (apc_slot p' = Some i \/ p' = AWaiting) -> 
  sessions c' = alter f i (sessions (mctx g)) -> active_sessions c' = active_sessions (mctx g) ->
  (forall s, apc_ok p s -> if p' is AWaiting then state (sess (f s)) = FTP_STATE_INIT else apc_ok p' (f s)) ->
  pool_ok (Machine c' p' (threads g) fds).
Proof.
  intros [U A T P F C] Ep Ei Hp' Hs Hact Hf. rewrite Ep in *.
  assert (Hat : forall j, sessions c' !! j = if decide (i = j) then f <$> sessions (mctx g) !! j else sessions (mctx g) !! j).
  { intros j. rewrite Hs. apply (sessions_on_slot i f (mctx g)). }
  destruct (P i Ei) as (s & Es & Hok). specialize (Hf s Hok). split; cbn [mctx apc threads].
  - done.
  - intros k t j Ek Ej. apply (A k t j Ek). destruct Hp' as [E'| ->]; [congruence|done].
  - intros k t Ek. rewrite Hat, decide_False by (intros ->; by apply (A k t (th_slot t))). by apply (T k).
  - intros j Ej. destruct Hp' as [E'| ->]; [|done]. assert (j = i) as -> by congruence.
    rewrite Hat, decide_True, Es by done. eexists. split; [done|]. by destruct p'.
  - intros j s' Hj Hn Ha. rewrite Hat in Hj. destruct (decide (i = j)) as [<-|Hne].
    + rewrite Es in Hj. injection Hj as <-. destruct Hp' as [E'| ->]; [congruence|done].
    + apply (F j s' Hj Hn). rewrite Ei. congruence.
  - rewrite Hact, C. destruct p; try done; destruct p'; try done; destruct Hp' as [E'|E']; done.
Qed.

Lemma alter_alter {A} (f h : A -> A) i (l : list A) : alter f i (alter h i l) = alter (f ∘ h) i l.
Proof.
  apply list_eq. intros j. destruct (decide (i = j)) as [<-|].
  - rewrite !list_lookup_alter_eq. by destruct (l !! i).
  - by rewrite !list_lookup_alter_ne.
Qed.

Lemma accept_step_ok a g g' : pool_ok g ->
  (a = ActAllocate -> Forall (fun s => state (sess s) <> FTP_STATE_TERMINATING) (sessions (mctx g))) ->
  accept_step a g = Some g' -> pool_ok g'.
Proof.
  intros Hg Hq E. destruct a as [fd| |s|s|[k|]| |k s|k|k|k]; cbn [accept_step] in E;
    destruct (apc g) as [|fd'|fd' i|fd' i|] eqn:Ea; try done.
  - destruct (_ || _); [done|]. injection E as <-. destruct Hg as [U A T P F C]. rewrite Ea in *. by split.
  - destruct (allocate_session (mctx g)) as [[i|] c'] eqn:El; injection E as <-.
    + by apply (allocate_ok g fd' i c' Hg Ea (Hq eq_refl)).
    + unfold allocate_session in El. destruct (list_find _ _) as [[? ?]|]; [done|]. injection El as <-.
      destruct Hg as [U A T P F C]. rewrite Ea in *. by split.
  - destruct (_ && _) eqn:Hc; [|done]. injection E as <-. apply andb_prop in Hc as [Hfd%Z.eqb_eq Hst%bool_decide_eq_true].
    apply (accept_own g (AAllocated fd' i) (AInited fd' i) i (fun _ => Slot s true)); [done|done|done|by left|done|done|].
    intros s' _. by split_and!.
  - injection E as <-. apply (accept_own g (AAllocated fd' i) AWaiting i (on_sess (set_state FTP_STATE_INIT) ∘ on_sess (fun _ => s)));
      [done|done|done|by right| |done|done]. apply alter_alter.
  - destruct (threads g !! k) eqn:Ek; [done|]. injection E as <-. destruct Hg as [U A T P F C]. rewrite Ea in *. destruct (P i eq_refl) as (s & Es & H1 & H2 & H3).
    split; cbn [mctx apc threads apc_slot].
    + intros k1 k2 t1 t2. rewrite !lookup_insert_Some. intros [[<- <-]|[? E1]] [[<- <-]|[? E2]]; cbn; try done.
      * intros Hi. by destruct (A _ _ i E2 eq_refl).
      * intros Hi. by destruct (A _ _ i E1 eq_refl).
      * by apply U.
    + done.
    + intros k1 t1 [[<- <-]|[? E1]]%lookup_insert_Some; [|by apply (T k1)].
        exists s. cbn. split; [done|]. unfold thread_ok. cbn. by rewrite H1.
    + done.
    + intros j s' Hs Hn _. apply (F j s' Hs); [|intros [= <-]; by apply (Hn k (Thread i fd' Running) (lookup_insert_eq _ _ _))].
        intros k1 t1 E1. apply (Hn k1). rewrite lookup_insert_ne; [done|]. intros <-. congruence.
    + rewrite C, map_size_insert_None by done. f_equal. lia.
  - injection E as <-. apply (accept_own g (AInited fd' i) AWaiting i (on_sess (set_state FTP_STATE_INIT))); try done. by right.
  - injection E as <-. destruct Hg as [U A T P F C]. rewrite Ea in *. split; try done.
    change (active_sessions _) with (u64 (active_sessions (mctx g) + 1)). cbn [mctx threads apc]. rewrite C.
    unfold u64. rewrite Zplus_mod_idemp_l. f_equal. lia.
Qed.

(** ** Properties *)

(** The states a server can get into.  With [quiet] a connection is only
    taken in while no session is between marking its slot as terminating and
    giving it back. *)
Inductive reachable (quiet : bool) (c : ftp_server_context_t) : machine -> Prop :=
| reach_start : reachable quiet c (started c)
| reach_step g a g' : reachable quiet c g -> step a g = Some g' ->
    (quiet = true -> a = ActAllocate ->
     Forall (fun s => state (sess s) <> FTP_STATE_TERMINATING) (sessions (mctx g))) ->
    reachable quiet c g'.

Lemma step_ok a g g' : pool_ok g ->
  (a = ActAllocate -> Forall (fun s => state (sess s) <> FTP_STATE_TERMINATING) (sessions (mctx g))) ->
  step a g = Some g' -> pool_ok g'.
Proof.
  intros Hg Hq E. destruct a; first [by apply (thread_step_ok _ g g' Hg E) | by apply (accept_step_ok _ g g' Hg Hq E)].
Qed.

(** C29: The session pool.  In every run in which no connection is taken in
    while a session is terminating, and whatever the order in which the
    threads move: no two session threads share a slot; a session thread that
    has not closed its connection finds in its slot the descriptor it was
    started for, so the descriptor it closes is its own; a slot that belongs
    to no thread is free; and [active_sessions] counts the session threads,
    less the one the accept thread has started and not yet counted. *)
Theorem pool_exclusive c g :
  Forall (fun s => state (sess s) = FTP_STATE_INIT) (sessions c) -> active_sessions c = 0 ->
  reachable true c g ->
  (forall k k' t t', threads g !! k = Some t -> threads g !! k' = Some t' -> th_slot t = th_slot t' -> k = k') /\
  (forall k t, threads g !! k = Some t -> th_phase t <> Closed ->
     exists s, sessions (mctx g) !! th_slot t = Some s /\ ctrl_fd (sess s) = th_fd t) /\
  (forall i s, sessions (mctx g) !! i = Some s -> (forall k t, threads g !! k = Some t -> th_slot t <> i) ->
     apc_slot (apc g) <> Some i -> state (sess s) = FTP_STATE_INIT) /\
  active_sessions (mctx g) = u64 (Z.of_nat (size (threads g)) - (if apc g is ASpawned then 1 else 0)).
Proof.
  intros Hi Ha Hr. assert (Hg : pool_ok g).
  { induction Hr as [|g a g' _ IH E Hq]; [by apply started_ok|]. apply (step_ok a g g' IH); auto. }
  destruct Hg as [U A T P F C]. split_and!; [exact U| |exact F|exact C].
  intros k t Ek Hp. destruct (T _ _ Ek) as (s & Es & _ & Hok). exists s. split; [done|].
  destruct (th_phase t); [by destruct Hok..|done].
Qed.

(** A context as [ftp_server_init] and [ftp_server_start] leave it. *)
Definition fresh_ctx : ftp_server_context_t :=
  set_running 1 (set_listen_fd 3 (set_sessions (replicate (Z.to_nat FTP_MAX_SESSIONS) free_slot) ctx_zero)).

(** A session as [ftp_session_init] leaves it. *)
Definition new_session (fd : Z) : ftp_session_t := set_state FTP_STATE_CONNECTED (set_ctrl_fd fd session_slot).

(** [run] with the test that no slot is terminating when one is taken. *)
Fixpoint run_quiet (l : list action) (g : machine) : option machine :=
  match l with
  | [] => Some g
  | a :: l =>
      if (if a is ActAllocate
          then forallb (fun s => negb (bool_decide (state (sess s) = FTP_STATE_TERMINATING))) (sessions (mctx g))
          else true)
      then g' ← step a g; run_quiet l g' else None
  end.

Lemma run_quiet_reachable l c g g' : reachable true c g -> run_quiet l g = Some g' -> reachable true c g'.
Proof.
  revert g. induction l as [|a l IH]; intros g Hg E; cbn [run_quiet] in E; [by injection E as <-|].
  destruct (if a is ActAllocate then _ else _) eqn:Hq; [|done]. destruct (step a g) as [g1|] eqn:Es; [|done].
  apply (IH g1); [|done]. apply (reach_step _ _ g a g1 Hg Es). intros _ ->. apply Forall_forall. intros s Hs.
  apply list_elem_of_In in Hs. rewrite forallb_forall in Hq. apply Hq, negb_true_iff, bool_decide_eq_false in Hs. done.
Qed.

Definition demo_actions : list action :=
  [ActAccept 5; ActAllocate; ActInit (new_session 5); ActSpawn (Some 0%nat); ActCount;
   ActAccept 6; ActAllocate; ActInit (new_session 6); ActSpawn (Some 1%nat); ActCount;
   ActCleanup 0; ActClose 0; ActRelease 0].

Lemma pool_exclusive_witness :
  let g := default (started fresh_ctx) (run_quiet demo_actions (started fresh_ctx)) in
  (size (threads g) = 1)%nat /\
  active_sessions (mctx g) = u64 (Z.of_nat (size (threads g)) - (if apc g is ASpawned then 1 else 0)).
Proof.
  split; [vm_compute; reflexivity|].
  eapply (pool_exclusive fresh_ctx).
  - by_compute.
  - reflexivity.
  - apply (run_quiet_reachable demo_actions _ (started fresh_ctx)); [constructor|]. vm_compute. reflexivity.
Defined.

