(* ===== verification/FtpBufferPool.v ===== *)
(** * The transfer buffer pool: [src/ftp_buffer_pool.c]

    A fixed set of buffers and one atomic mask of those in use.  Threads take
    a buffer with a load and a compare-and-swap and give it back with an
    atomic and; each of these is one step, and a run is any interleaving of
    the steps of the threads. *)

From S2P Require Import Prelude FtpTypes.

Definition FTP_STREAM_BUFFER_COUNT : nat := Z.to_nat FTP_MAX_SESSIONS.

(** [1U << i]. *)
Definition pool_bit (i : nat) : Z := u32 (Z.shiftl 1 (Z.of_nat i)).

(** The scan of [ftp_buffer_acquire] for a clear bit, from [i] on. *)
Fixpoint find_clear (n i : nat) (mask : Z) : option nat :=
  match n with
  | O => None
  | S n' => if negb (Z.land mask (pool_bit i) =? 0) then find_clear n' (S i) mask else Some i
  end.

(** A thread inside [ftp_buffer_acquire]: about to load the mask, about to
    swap it with bit [i] added, or about to compare it once more because all
    bits were set; and a thread outside, with or without a buffer. *)
Inductive pool_pc :=
| PIdle
| PLoad
| PSwap (mask : Z) (i : nat)
| PRecheck (mask : Z)
| PHolds (i : nat).

Record pool := Pool { pool_mask : Z; pool_threads : gmap nat pool_pc }.

(** [ftp_buffer_acquire], up to its next access to the mask. *)
Definition acquire_step (mask : Z) (pc : pool_pc) : Z * pool_pc :=
  match pc with
  | PLoad =>
      match find_clear FTP_STREAM_BUFFER_COUNT 0 mask with
      | Some i => (mask, PSwap mask i)
      | None => (mask, PRecheck mask)
      end
  | PSwap seen i =>
      if mask =? seen then (Z.lor seen (pool_bit i), PHolds i) else (mask, PLoad)
  | PRecheck seen => if mask =? seen then (mask, PIdle) else (mask, PLoad)
  | _ => (mask, pc)
  end.

(** [ftp_buffer_release] of buffer [i]. *)
Definition ftp_buffer_release (i : nat) (mask : Z) : Z :=
  if (i <? FTP_STREAM_BUFFER_COUNT)%nat then Z.land mask (u64 (Z.lnot (pool_bit i))) else mask.

Definition ftp_buffer_size : Z := FTP_STREAM_BUFFER_SIZE.

(** A step of thread [k]. *)
Inductive pool_step : pool -> pool -> Prop :=
| pool_call g k : pool_threads g !! k = Some PIdle ->
    pool_step g (Pool (pool_mask g) (<[k := PLoad]> (pool_threads g)))
| pool_acquire g k pc mask' pc' : pool_threads g !! k = Some pc -> pc <> PIdle ->
    (forall i, pc <> PHolds i) -> acquire_step (pool_mask g) pc = (mask', pc') ->
    pool_step g (Pool mask' (<[k := pc']> (pool_threads g)))
| pool_release g k i : pool_threads g !! k = Some (PHolds i) ->
    pool_step g (Pool (ftp_buffer_release i (pool_mask g)) (<[k := PIdle]> (pool_threads g))).

(** From an empty mask and idle threads. *)
Inductive pool_reach : pool -> Prop :=
| pool_start n : pool_reach (Pool 0 (list_to_map ((fun k => (k, PIdle)) <$> seq 0 n)))
| pool_more g g' : pool_reach g -> pool_step g g' -> pool_reach g'.

(** ** The mask *)

Lemma pool_bit_pow i : (i < 32)%nat -> pool_bit i = 2 ^ Z.of_nat i.
Proof.
  intros Hi. unfold pool_bit, u32. rewrite Z.shiftl_1_l. apply Z.mod_small. split; [apply Z.pow_nonneg; lia|].
  apply Z.pow_lt_mono_r; lia.
Qed.

Lemma land_bit mask i : (i < 32)%nat -> (Z.land mask (pool_bit i) =? 0) = negb (Z.testbit mask (Z.of_nat i)).
Proof.
  intros Hi. rewrite pool_bit_pow by done. destruct (Z.testbit mask (Z.of_nat i)) eqn:E; cbn.
  - apply Z.eqb_neq. intros H0. assert (Z.testbit (Z.land mask (2 ^ Z.of_nat i)) (Z.of_nat i) = false) by (by rewrite H0, Z.bits_0).
    by rewrite Z.land_spec, Z.pow2_bits_true, E in * by lia.
  - apply Z.eqb_eq. apply Z.bits_inj'. intros j Hj. rewrite Z.land_spec, Z.pow2_bits_eqb, Z.bits_0 by lia.
    destruct (Z.eqb_spec (Z.of_nat i) j) as [<-|]; [by rewrite E|apply andb_false_r].
Qed.

Lemma find_clear_spec n i mask : (i + n <= 32)%nat ->
  match find_clear n i mask with
  | Some j => (i <= j < i + n)%nat /\ Z.testbit mask (Z.of_nat j) = false /\
      forall j', (i <= j' < j)%nat -> Z.testbit mask (Z.of_nat j') = true
  | None => forall j, (i <= j < i + n)%nat -> Z.testbit mask (Z.of_nat j) = true
  end.
Proof.
  revert i. induction n as [|n IH]; intros i Hi; cbn [find_clear]; [lia|].
  rewrite land_bit by lia. destruct (Z.testbit mask (Z.of_nat i)) eqn:E; cbn [negb].
  - specialize (IH (S i) ltac:(lia)). destruct (find_clear n (S i) mask) as [j|].
    + destruct IH as (? & ? & Hb). split_and!; [lia..|done|]. intros j' Hj'.
      destruct (decide (j' = i)) as [->|]; [done|apply Hb; lia].
    + intros j Hj. destruct (decide (j = i)) as [->|]; [done|apply IH; lia].
  - split_and!; [lia..|done|lia].
Qed.

Lemma lor_bit mask i j : (i < 32)%nat ->
  Z.testbit (Z.lor mask (pool_bit i)) (Z.of_nat j) = Z.testbit mask (Z.of_nat j) || bool_decide (i = j).
Proof.
  intros Hi. rewrite pool_bit_pow, Z.lor_spec, Z.pow2_bits_eqb by lia. f_equal.
  destruct (Z.eqb_spec (Z.of_nat i) (Z.of_nat j)); case_bool_decide; done || lia.
Qed.

Lemma release_bit mask i j : (i < 32)%nat -> (j < 32)%nat ->
  Z.testbit (ftp_buffer_release i mask) (Z.of_nat j) = Z.testbit mask (Z.of_nat j) && negb (bool_decide (i = j)).
Proof.
  intros Hi Hj. unfold ftp_buffer_release. change FTP_STREAM_BUFFER_COUNT with 32%nat.
  rewrite (proj2 (Nat.ltb_lt i 32) Hi). rewrite Z.land_spec. f_equal. unfold u64.
  rewrite Z.mod_pow2_bits_low, Z.lnot_spec, pool_bit_pow, Z.pow2_bits_eqb by lia. f_equal.
  destruct (Z.eqb_spec (Z.of_nat i) (Z.of_nat j)); case_bool_decide; done || lia.
Qed.

(** ** Exclusive ownership *)

Record pool_inv (g : pool) : Prop := PoolInv {
  pi_bits : forall i, (i < 32)%nat ->
    (Z.testbit (pool_mask g) (Z.of_nat i) = true <-> exists k, pool_threads g !! k = Some (PHolds i));
  pi_range : forall k i, pool_threads g !! k = Some (PHolds i) -> (i < 32)%nat;
  pi_unique : forall k k' i, pool_threads g !! k = Some (PHolds i) -> pool_threads g !! k' = Some (PHolds i) -> k = k';
  pi_swap : forall k seen i, pool_threads g !! k = Some (PSwap seen i) ->
    (i < 32)%nat /\ Z.testbit seen (Z.of_nat i) = false;
  pi_recheck : forall k seen, pool_threads g !! k = Some (PRecheck seen) ->
    forall i, (i < 32)%nat -> Z.testbit seen (Z.of_nat i) = true
}.

(** A thread that neither takes nor gives up a buffer. *)
Lemma pool_local g k pc pc' : pool_inv g -> pool_threads g !! k = Some pc ->
  (forall i, pc <> PHolds i) -> (forall i, pc' <> PHolds i) ->
  (forall seen i, pc' = PSwap seen i -> (i < 32)%nat /\ Z.testbit seen (Z.of_nat i) = false) ->
  (forall seen, pc' = PRecheck seen -> forall i, (i < 32)%nat -> Z.testbit seen (Z.of_nat i) = true) ->
  pool_inv (Pool (pool_mask g) (<[k := pc']> (pool_threads g))).
Proof.
  intros [Bi Ra Un Sw Re] Ek Hpc Hpc' Hs Hr.
  assert (Hh : forall k' i, <[k := pc']> (pool_threads g) !! k' = Some (PHolds i) <-> pool_threads g !! k' = Some (PHolds i)).
  { intros k' i. rewrite lookup_insert_Some. split.
    - intros [[_ Hx]|[_ ?]]; [by destruct (Hpc' i)|done].
    - intros E. right. split; [|done]. intros <-. rewrite Ek in E. injection E as ->. by destruct (Hpc i). }
  split; cbn [pool_mask pool_threads].
  - intros i Hi. rewrite (Bi i Hi). split; intros [k' E]; exists k'; by apply Hh.
  - intros k' i E%Hh. by apply (Ra k').
  - intros k1 k2 i E1%Hh E2%Hh. by apply (Un _ _ i).
  - intros k' seen i [[<- ->]|[_ E]]%lookup_insert_Some; [by apply Hs|by apply (Sw k')].
  - intros k' seen [[<- ->]|[_ E]]%lookup_insert_Some; [by apply Hr|by apply (Re k')].
Qed.

Lemma pool_take g k i seen : pool_inv g -> pool_threads g !! k = Some (PSwap seen i) -> pool_mask g = seen ->
  pool_inv (Pool (Z.lor seen (pool_bit i)) (<[k := PHolds i]> (pool_threads g))).
Proof.
  intros [Bi Ra Un Sw Re] Ek Em. destruct (Sw _ _ _ Ek) as [Hi Hclear]. rewrite <- Em in *.
  assert (Hnone : forall k', pool_threads g !! k' <> Some (PHolds i)).
  { intros k' E. assert (Z.testbit (pool_mask g) (Z.of_nat i) = true) by (apply Bi; eauto). congruence. }
  split; cbn [pool_mask pool_threads].
  - intros j Hj. rewrite lor_bit by done. rewrite orb_true_iff, (Bi j Hj), bool_decide_eq_true. split.
    + intros [[k' E]| ->]; [|exists k; apply lookup_insert_eq]. exists k'. rewrite lookup_insert_ne; [done|].
      intros <-. congruence.
    + intros [k' [[<- [= <-]]|[_ E]]%lookup_insert_Some]; [by right|left; eauto].
  - intros k' j [[<- [= <-]]|[_ E]]%lookup_insert_Some; [done|by apply (Ra k')].
  - intros k1 k2 j [[<- [= <-]]|[_ E1]]%lookup_insert_Some [[<- F]|[_ E2]]%lookup_insert_Some.
    + done.
    + by destruct (Hnone k2).
    + injection F as <-. by destruct (Hnone k1).
    + by apply (Un _ _ j).
  - intros k' s j [[_ [=]]|[_ E]]%lookup_insert_Some. by apply (Sw k').
  - intros k' s [[_ [=]]|[_ E]]%lookup_insert_Some. by apply (Re k').
Qed.

Lemma pool_give g k i : pool_inv g -> pool_threads g !! k = Some (PHolds i) ->
  pool_inv (Pool (ftp_buffer_release i (pool_mask g)) (<[k := PIdle]> (pool_threads g))).
Proof.
  intros [Bi Ra Un Sw Re] Ek. pose proof (Ra _ _ Ek) as Hi. split; cbn [pool_mask pool_threads].
  - intros j Hj. rewrite release_bit by done. rewrite andb_true_iff, (Bi j Hj), negb_true_iff, bool_decide_eq_false. split.
    + intros [[k' E] Hne]. exists k'. rewrite lookup_insert_ne; [done|]. intros <-. congruence.
    + intros [k' [[_ [=]]|[Hk E]]%lookup_insert_Some]. split; [eauto|]. intros <-. apply Hk. by apply (Un _ _ i).
  - intros k' j [[_ [=]]|[_ E]]%lookup_insert_Some. by apply (Ra k').
  - intros k1 k2 j [[_ [=]]|[_ E1]]%lookup_insert_Some [[_ [=]]|[_ E2]]%lookup_insert_Some. by apply (Un _ _ j).
  - intros k' s j [[_ [=]]|[_ E]]%lookup_insert_Some. by apply (Sw k').
  - intros k' s [[_ [=]]|[_ E]]%lookup_insert_Some. by apply (Re k').
Qed.

Lemma pool_step_inv g g' : pool_inv g -> pool_step g g' -> pool_inv g'.
Proof.
  intros Hg Hs. destruct Hs as [g k Ek|g k pc mask' pc' Ek Hni Hnh E|g k i Ek].
  - by apply (pool_local g k PIdle).
  - destruct pc as [| |seen i|seen|i]; cbn [acquire_step] in E; [done| | | |by destruct (Hnh i)].
    + pose proof (find_clear_spec FTP_STREAM_BUFFER_COUNT 0 (pool_mask g) ltac:(done)) as Hf.
      destruct (find_clear _ _ _) as [j|]; injection E as <- <-; apply (pool_local g k PLoad); try done.
      * intros seen i [= <- <-]. destruct Hf as (Hj & Hc & _). split; [|done]. by apply Hj.
      * intros seen [= <-] i Hi. apply Hf. split; [lia|done].
    + destruct (Z.eqb_spec (pool_mask g) seen); injection E as <- <-; [by apply pool_take|].
      by apply (pool_local g k (PSwap seen i)).
    + destruct (Z.eqb_spec (pool_mask g) seen); injection E as <- <-; by apply (pool_local g k (PRecheck seen)).
  - by apply pool_give.
Qed.

Lemma pool_reach_inv g : pool_reach g -> pool_inv g.
Proof.
  induction 1 as [n|g g' _ IH Hs]; [|by apply (pool_step_inv g)].
  assert (Hidle : forall k pc, (list_to_map ((fun k => (k, PIdle)) <$> seq 0 n) : gmap nat pool_pc) !! k = Some pc -> pc = PIdle).
  { intros k pc E%elem_of_list_to_map_2. apply list_elem_of_fmap in E as (? & [= _ ->] & _). done. }
  split; cbn [pool_mask pool_threads]; try (by intros; match goal with H : _ !! _ = Some _ |- _ => apply Hidle in H end).
  intros i _. rewrite Z.bits_0. split; [done|]. by intros [k E%Hidle].
Qed.

(** C35: The buffer pool.  In every interleaving of the threads: a buffer is
    never held by two of them; [ftp_buffer_acquire] gives up with NULL only at
    a moment when every buffer is held by some thread; and a thread that runs
    undisturbed from its load on gets, by its compare-and-swap, the first
    buffer nobody holds, if there is one. *)
Theorem buffer_pool_exclusive g : pool_reach g ->
  (forall k k' i, pool_threads g !! k = Some (PHolds i) -> pool_threads g !! k' = Some (PHolds i) -> k = k') /\
  (forall k seen, pool_threads g !! k = Some (PRecheck seen) ->
     (acquire_step (pool_mask g) (PRecheck seen)).2 = PIdle ->
     forall i, (i < FTP_STREAM_BUFFER_COUNT)%nat -> exists k', pool_threads g !! k' = Some (PHolds i)) /\
  (forall i, (i < FTP_STREAM_BUFFER_COUNT)%nat -> (forall k, pool_threads g !! k <> Some (PHolds i)) ->
     (forall j, (j < i)%nat -> exists k, pool_threads g !! k = Some (PHolds j)) ->
     let '(mask1, pc1) := acquire_step (pool_mask g) PLoad in
     (acquire_step mask1 pc1).2 = PHolds i).
Proof.
  intros Hr. pose proof (pool_reach_inv g Hr) as [Bi Ra Un Sw Re]. split_and!; [done| |].
  - intros k seen Ek Hret i Hi. cbn in Hret. destruct (Z.eqb_spec (pool_mask g) seen) as [Em|]; [|done].
    apply Bi; [done|]. rewrite Em. by apply (Re k).
  - intros i Hi Hfree Hlow. cbn [acquire_step].
    pose proof (find_clear_spec FTP_STREAM_BUFFER_COUNT 0 (pool_mask g) ltac:(done)) as Hf.
    assert (Hc : Z.testbit (pool_mask g) (Z.of_nat i) = false).
    { apply not_true_is_false. intros [k Ek]%Bi; [|done]. by apply (Hfree k). }
    destruct (find_clear _ _ _) as [j|]; [|rewrite Hf in Hc by (split; [lia|done]); done].
    destruct Hf as (Hj & Hjc & Hbelow). cbn [acquire_step]. rewrite Z.eqb_refl. cbn [snd]. f_equal.
    destruct (decide (j < i)%nat) as [Hlt|].
    + assert (Z.testbit (pool_mask g) (Z.of_nat j) = true) by (apply Bi; [apply Hj|by apply Hlow]). congruence.
    + destruct (decide (i < j)%nat); [|lia]. rewrite Hbelow in Hc by lia. done.
Qed.

(** Two threads race for the first buffer; the loser takes the second. *)
Definition demo_pool : pool :=
  Pool 3 (<[1%nat := PHolds 1]> (<[1%nat := PSwap 1 1]> (<[1%nat := PLoad]> (<[0%nat := PHolds 0]>
    (<[1%nat := PSwap 0 0]> (<[0%nat := PSwap 0 0]> (<[1%nat := PLoad]> (<[0%nat := PLoad]>
      (list_to_map ((fun k => (k, PIdle)) <$> seq 0 2)))))))))).

Lemma reach_acquire mask th k pc mask' pc' : pool_reach (Pool mask th) -> th !! k = Some pc -> pc <> PIdle ->
  (forall i, pc <> PHolds i) -> acquire_step mask pc = (mask', pc') -> pool_reach (Pool mask' (<[k := pc']> th)).
Proof. intros Hr ????. apply (pool_more _ _ Hr). by apply (pool_acquire (Pool mask th) k pc). Qed.

Lemma reach_call mask th k : pool_reach (Pool mask th) -> th !! k = Some PIdle ->
  pool_reach (Pool mask (<[k := PLoad]> th)).
Proof. intros Hr ?. apply (pool_more _ _ Hr). by apply (pool_call (Pool mask th) k). Qed.

Lemma demo_pool_reach : pool_reach demo_pool.
Proof.
  unfold demo_pool.
  apply (reach_acquire 1 _ 1 (PSwap 1 1)); [|reflexivity|done..].
  apply (reach_acquire 1 _ 1 PLoad); [|reflexivity|done..].
  apply (reach_acquire 1 _ 1 (PSwap 0 0)); [|reflexivity|done..].
  apply (reach_acquire 0 _ 0 (PSwap 0 0)); [|reflexivity|done..].
  apply (reach_acquire 0 _ 1 PLoad); [|reflexivity|done..].
  apply (reach_acquire 0 _ 0 PLoad); [|reflexivity|done..].
  apply reach_call; [|reflexivity]. apply reach_call; [|reflexivity]. constructor.
Qed.

Lemma buffer_pool_exclusive_witness :
  let '(mask1, pc1) := acquire_step (pool_mask demo_pool) PLoad in
  (acquire_step mask1 pc1).2 = PHolds 2.
Proof.
  apply (buffer_pool_exclusive demo_pool demo_pool_reach).
  - by_compute.
  - intros k. unfold demo_pool. cbn [pool_threads]. rewrite !lookup_insert_Some. cbn.
    rewrite !lookup_insert_Some, lookup_empty. naive_solver.
  - intros [|[|j]] Hj; [exists 0%nat; reflexivity|exists 1%nat; reflexivity|lia].
Defined.
