(* ===== verification/FtpReset.v ===== *)
(** * Resetting the network buffers of sessions: [src/pal_network.c]

    [pal_network_reset_ftp_stack] on the pool of sessions, which the HTTP
    handler [api_network_reset] calls: which descriptors it closes, and what
    that does to a session that waits for its data connection. *)

From S2P Require Import Prelude CLib FtpTypes Os PalNetwork FtpState FtpSession.

Definition FTP_TCP_SNDBUF : Z := 1048576.

Section reset.
Context {W : Type} {os : OS W}.

(** The buffers of the control connection. *)
Definition reset_buffers (fd : Z) : M (sysst W) unit :=
  _ ← sys_call (SysSetsockopt fd SO_SNDBUF 0);
  _ ← sys_call (SysSetsockopt fd SO_RCVBUF 0);
  _ ← sys_call (SysSetsockopt fd SO_SNDBUF FTP_TCP_SNDBUF);
  _ ← sys_call (SysSetsockopt fd SO_RCVBUF FTP_TCP_RCVBUF);
  mret tt.

(** One round of the loop. *)
Definition reset_session (s : ftp_session_t) : M (sysst W) ftp_session_t :=
  if decide (state s = FTP_STATE_TRANSFERRING) then mret s
  else
    _ ← (if 0 <=? ctrl_fd s then reset_buffers (ctrl_fd s) else mret tt);
    s ← (if 0 <=? data_fd s then
           _ ← sys_call (SysShutdown (data_fd s));
           _ ← sys_call (SysClose (data_fd s));
           mret (set_data_fd (-1) s)
         else mret s);
    if 0 <=? pasv_fd s then
      _ ← sys_call (SysClose (pasv_fd s));
      mret (set_pasv_fd (-1) s)
    else mret s.

Fixpoint reset_sessions (l : list ftp_session_t) : M (sysst W) (list ftp_session_t) :=
  match l with
  | [] => mret []
  | s :: l' => s' ← reset_session s; r ← reset_sessions l'; mret (s' :: r)
  end.

(** The counter of resets is never negative. *)
Definition pal_network_reset_ftp_stack (sessions : list ftp_session_t) :
    M (sysst W) (Z * list ftp_session_t) :=
  match sessions with
  | [] => mret (-1, [])
  | _ => r ← reset_sessions sessions; mret (0, r)
  end.

(** ** What it does *)

(** The descriptors a trace closes, oldest first. *)
Definition event_closed (e : event) : list Z :=
  match e with @Ev A c r => match c in sys A return list Z with SysClose fd => [fd] | _ => [] end end.

Fixpoint closed_in (tr : list event) : list Z :=
  match tr with [] => [] | e :: tr' => closed_in tr' ++ event_closed e end.

Lemma closed_in_app new old : closed_in (new ++ old) = closed_in old ++ closed_in new.
Proof. induction new as [|e new IH]; simpl; [by rewrite app_nil_r|]. by rewrite IH, app_assoc. Qed.

(** The data connection and the listener of a session that is not transferring. *)
Definition idle_fds (s : ftp_session_t) : list Z :=
  if decide (state s = FTP_STATE_TRANSFERRING) then []
  else filter (fun fd => 0 <= fd) [data_fd s; pasv_fd s].

(** The session afterwards. *)
Definition no_data (s : ftp_session_t) : ftp_session_t :=
  if decide (state s = FTP_STATE_TRANSFERRING) then s
  else set_pasv_fd (if 0 <=? pasv_fd s then -1 else pasv_fd s)
         (set_data_fd (if 0 <=? data_fd s then -1 else data_fd s) s).

(** A run that returns [a] and closes [fds]. *)
Definition closes {A} (m : M (sysst W) A) (a : A) (fds : list Z) : Prop :=
  forall w, exists new w', m w = (Some a, w') /\ os_trace w' = new ++ os_trace w /\ closed_in new = fds.

Lemma closes_ret {A} (a : A) : closes (mret a) a [].
Proof. intros w. by exists [], w. Qed.

Lemma closes_call {A B} (c : sys A) (k : A -> M (sysst W) B) b fds fds' :
  (forall r, event_closed (Ev c r) = fds) -> (forall r, closes (k r) b fds') ->
  closes (sys_call c ≫= k) b (fds ++ fds').
Proof.
  intros Hc Hk w. unfold mbind, M_bind, sys_call. destruct (os_step c (os_state w)) as [[r e] w1].
  destruct (Hk r (SysSt w1 (if e =? 0 then os_errno w else e) (Ev c r :: os_trace w))) as (new & w' & Hr & Ht & Hn).
  exists (new ++ [Ev c r]), w'. split_and!; [done| |].
  - rewrite Ht. cbn [os_trace]. by rewrite <- app_assoc.
  - rewrite closed_in_app. cbn [closed_in app]. by rewrite Hc, Hn.
Qed.

Lemma closes_bind {A B} (m : M (sysst W) A) (k : A -> M (sysst W) B) a b fds fds' :
  closes m a fds -> closes (k a) b fds' -> closes (m ≫= k) b (fds ++ fds').
Proof.
  intros Hm Hk w. destruct (Hm w) as (n1 & w1 & H1 & T1 & F1). destruct (Hk w1) as (n2 & w2 & H2 & T2 & F2).
  exists (n2 ++ n1), w2. unfold mbind, M_bind. rewrite H1. split_and!; [done| |].
  - by rewrite T2, T1, app_assoc.
  - by rewrite closed_in_app, F1, F2.
Qed.

(** A step that closes nothing. *)
Ltac quiet_step := apply (closes_call _ _ _ []); [done | intros _].

Lemma closes_buffers fd : closes (reset_buffers fd) tt [].
Proof. unfold reset_buffers. do 4 quiet_step. apply closes_ret. Qed.

Lemma reset_session_closes s : closes (reset_session s) (no_data s) (idle_fds s).
Proof.
  unfold reset_session, no_data, idle_fds. destruct (decide _); [apply closes_ret|].
  assert (Hd : closes (if 0 <=? data_fd s then
      _ ← sys_call (SysShutdown (data_fd s)); _ ← sys_call (SysClose (data_fd s)); mret (set_data_fd (-1) s)
      else mret s) (set_data_fd (if 0 <=? data_fd s then -1 else data_fd s) s)
      (if 0 <=? data_fd s then [data_fd s] else [])).
  { destruct (0 <=? data_fd s); [|destruct s; apply closes_ret]. quiet_step.
    apply (closes_call _ _ _ [data_fd s] []); [done|]. intros _. apply closes_ret. }
  assert (Hf : filter (fun fd => 0 <= fd) [data_fd s; pasv_fd s] =
    [] ++ (if 0 <=? data_fd s then [data_fd s] else []) ++ (if 0 <=? pasv_fd s then [pasv_fd s] else [])).
  { rewrite !filter_cons, filter_nil. destruct (Z.leb_spec 0 (data_fd s)), (Z.leb_spec 0 (pasv_fd s)).
    all: repeat (destruct (decide _); try lia); done. }
  rewrite Hf. refine (closes_bind _ _ tt _ _ _ _ _).
  { destruct (0 <=? ctrl_fd s); [apply closes_buffers | apply closes_ret]. }
  refine (closes_bind _ _ _ _ _ _ Hd _). change (pasv_fd (set_data_fd _ s)) with (pasv_fd s).
  destruct (0 <=? pasv_fd s); [|destruct s; apply closes_ret].
  apply (closes_call _ _ _ [pasv_fd s] []); [done|]. intros _. apply closes_ret.
Qed.

Lemma reset_sessions_closes l : closes (reset_sessions l) (map no_data l) (concat (map idle_fds l)).
Proof.
  induction l as [|s l IH]; [apply closes_ret|]. cbn [reset_sessions map concat].
  eapply closes_bind; [apply reset_session_closes|]. rewrite <- (app_nil_r (concat _)).
  eapply closes_bind; [exact IH | apply closes_ret].
Qed.

(** The reset of a pool of sessions always returns.  A session in the state of
    a transfer is left as it is, and none of its descriptors is closed; of
    every other session the data connection and the listener are closed, once
    each, and nothing else is. *)
Theorem reset_spares_transfers sessions w :
  sessions <> [] ->
  exists new w', pal_network_reset_ftp_stack sessions w = (Some (0, map no_data sessions), w') /\
    os_trace w' = new ++ os_trace w /\ closed_in new = concat (map idle_fds sessions).
Proof.
  intros Hne. destruct sessions as [|s l]; [done|]. unfold pal_network_reset_ftp_stack.
  assert (H : closes (r ← reset_sessions (s :: l); mret (0, r)) (0, map no_data (s :: l))
                (concat (map idle_fds (s :: l)) ++ [])) by (eapply closes_bind; [apply reset_sessions_closes | apply closes_ret]).
  rewrite app_nil_r in H. exact (H w).
Qed.

(** C25: a reset of the network breaks transfers that are about to begin.  A
    session whose client was given a port by PASV, and that waits for the
    connection, is not in the state of a transfer: the reset closes its
    listener, and opening the data connection then fails at once, for every
    session of the pool and whatever the system does. *)
Theorem reset_breaks_passive fuel sessions (i : nat) s w :
  sessions !! i = Some s -> data_mode s = FTP_DATA_MODE_PASSIVE -> state s <> FTP_STATE_TRANSFERRING ->
  0 <= pasv_fd s ->
  exists r sessions' w' s',
    pal_network_reset_ftp_stack sessions w = (Some (r, sessions'), w') /\
    pasv_fd s ∈ closed_in (os_trace w') /\ sessions' !! i = Some s' /\
    ftp_session_open_data_connection fuel (St s' w') = (Some FTP_ERR_INVALID_PARAM, St s' w').
Proof.
  intros Hi Hm Hst Hp. destruct (reset_spares_transfers sessions w) as (new & w' & Hr & Ht & Hc); [by intros ->|].
  exists 0, (map no_data sessions), w', (no_data s). split_and!; [done| |by rewrite list_lookup_fmap, Hi|].
  - rewrite Ht, closed_in_app, Hc, elem_of_app. right. apply list_elem_of_In, in_concat. exists (idle_fds s).
    rewrite <- !list_elem_of_In. split; [apply list_elem_of_fmap; exists s; by split; [|eapply list_elem_of_lookup_2]|].
    unfold idle_fds. destruct (decide _); [done|]. apply list_elem_of_filter. split; [done|]. set_solver.
  - assert (Hn : pasv_fd (no_data s) = -1 /\ data_mode (no_data s) = FTP_DATA_MODE_PASSIVE).
    { unfold no_data. destruct (decide _); [done|]. destruct (Z.leb_spec 0 (pasv_fd s)); [|lia]. by destruct s. }
    destruct Hn as [Hn1 Hn2]. unfold ftp_session_open_data_connection, open_data_passive.
    unfold mbind, M_bind, ask, gets. cbn [ses]. rewrite Hn2. cbn [ses]. by rewrite Hn1.
Qed.

End reset.

(** A session that has answered PASV with its listener on descriptor 20. *)
Lemma reset_breaks_passive_witness :
  let s := set_pasv_fd 20 (set_data_mode FTP_DATA_MODE_PASSIVE session_slot) in
  exists r sessions' w' s',
    pal_network_reset_ftp_stack [s] toy_init = (Some (r, sessions'), w') /\
    20 ∈ closed_in (os_trace w') /\ sessions' !! 0%nat = Some s' /\
    ftp_session_open_data_connection 5 (St s' w') = (Some FTP_ERR_INVALID_PARAM, St s' w').
Proof.
  apply (reset_breaks_passive (W := toy) 5 [set_pasv_fd 20 (set_data_mode FTP_DATA_MODE_PASSIVE session_slot)] 0%nat
    (set_pasv_fd 20 (set_data_mode FTP_DATA_MODE_PASSIVE session_slot))); [reflexivity | reflexivity | discriminate |].
  vm_compute. discriminate.
Defined.
