(* ===== verification/PalCopy.v ===== *)
(** * Directory trees and copies: the second half of [src/pal_fileio.c]

    [pal_dir_remove_recursive] and the functions that copy files and trees.
    They only talk to the system.  The recursion is bounded by
    PAL_MOVE_MAX_DEPTH, so it is structural on the levels left; the loops over
    directory entries take fuel. *)

From S2P Require Import Prelude CLib FtpTypes Os.

Definition PAL_MOVE_MAX_DEPTH : nat := 64.

(** The [d_name] test of every directory loop. *)
Definition dot_entry (name : bytes) : bool :=
  match name with
  | 46 :: [] => true
  | 46 :: 46 :: [] => true
  | _ => false
  end.

(** [snprintf(child, FTP_PATH_MAX, "%s/%s", path, name)]; [None] when it
    does not fit. *)
Definition child_path (path name : bytes) : option bytes :=
  let child := path ++ SLASH :: name in
  if FTP_PATH_MAX <=? strlen child then None else Some child.

Section tree.
Context {W : Type} `{OS W} (fuel : nat).
Abbreviation io := (M (sysst W)).

(** A line of at most 255 characters for the log. *)
Definition log_msg (text : bytes) : io unit := sys_call (SysLog (snprintf_buf 256 text)).

(** The loop over the entries of an open directory; [remove_dir] removes a
    subdirectory. *)
Fixpoint remove_entries (n : nat) (remove_dir : bytes -> io ftp_error_t) (dir : Z) (path : bytes) :
    io ftp_error_t :=
  match n with
  | O => diverge
  | S n' =>
      ent ← sys_call (SysReaddir dir);
      match ent with
      | None => mret FTP_OK
      | Some (name, _) =>
          if dot_entry name then remove_entries n' remove_dir dir path
          else
            match child_path path name with
            | None => mret FTP_ERR_PATH_TOO_LONG
            | Some child =>
                st ← sys_call (SysStat child);
                match st with
                | None => mret FTP_ERR_FILE_STAT
                | Some st =>
                    err ← (if S_ISDIR (st_mode st) then remove_dir child
                           else
                             r ← sys_call (SysUnlink child);
                             if negb (r =? 0) then
                               e ← get_errno;
                               _ ← log_msg (str "[XDEV] unlink(cleanup) failed: errno=" ++ fmt_d e
                                            ++ str " path=" ++ child);
                               mret FTP_ERR_FILE_WRITE
                             else mret FTP_OK);
                    if negb (bool_decide (err = FTP_OK)) then mret err
                    else remove_entries n' remove_dir dir path
                end
            end
      end
  end.

(** [left] is PAL_MOVE_MAX_DEPTH + 1 - depth. *)
Fixpoint pal_dir_remove_recursive (left : nat) (path : bytes) : io ftp_error_t :=
  match left with
  | O => mret FTP_ERR_PATH_TOO_LONG
  | S left' =>
      d ← sys_call (SysOpendir path);
      match d with
      | None =>
          e ← get_errno;
          if e =? ENOENT then mret FTP_OK
          else
            _ ← log_msg (str "[XDEV] opendir(cleanup) failed: errno=" ++ fmt_d e ++ str " path=" ++ path);
            mret FTP_ERR_DIR_OPEN
      | Some dir =>
          err ← remove_entries fuel (pal_dir_remove_recursive left') dir path;
          _ ← sys_call (SysClosedir dir);
          if bool_decide (err = FTP_OK) then
            r ← sys_call (SysRmdir path);
            if r <? 0 then
              e ← get_errno;
              _ ← log_msg (str "[XDEV] rmdir(cleanup) failed: errno=" ++ fmt_d e ++ str " path=" ++ path);
              mret FTP_ERR_FILE_WRITE
            else mret FTP_OK
          else mret err
      end
  end.

Definition pal_dir_remove_recursive_pub (path : option bytes) : io ftp_error_t :=
  match path with
  | None => mret FTP_ERR_INVALID_PARAM
  | Some path => pal_dir_remove_recursive (S PAL_MOVE_MAX_DEPTH) path
  end.

End tree.
