(* ===== verification/PalCopyFile.v ===== *)
(** * The copy engine: [src/pal_fileio.c]

    [pal_file_copy_atomic_ex] copies a file into a temporary one in the
    destination's directory and renames it; it reads and writes with two
    threads and two buffers, or serially when it cannot.
    [pal_copy_cross_device_r_ex] copies or moves a tree.

    The cells the C code passes by pointer, [cumulative] and [out_errno], and
    the static counter of temporary names are the component's state.  The
    reader thread and the calling thread are run step by step in an order
    chosen by the system ([SysSchedule]); what happens under the lock is one
    step, every [read] and [write] is one. *)

From S2P Require Import Prelude CLib FtpTypes Os PalCopy.

Definition PAL_FILE_COPY_BUFFER_SIZE : Z := 4 * 1024 * 1024.

Record copy_state := CopyState {
  g_tmp_counter : Z;
  cumulative : Z;
  out_errno : Z
}.

Definition set_tmp_counter (n : Z) (s : copy_state) : copy_state :=
  CopyState n (cumulative s) (out_errno s).
Definition set_cumulative (n : Z) (s : copy_state) : copy_state :=
  CopyState (g_tmp_counter s) n (out_errno s).
Definition set_out_errno (e : Z) (s : copy_state) : copy_state :=
  CopyState (g_tmp_counter s) (cumulative s) e.

(** ** The pipe *)

(** [copy_pipe_t]: a buffer is its valid part, so [len[i]] is its length; an
    index 0/1 is a [bool]. *)
Record copy_pipe_t := CopyPipe {
  kp_buf0 : bytes;
  kp_buf1 : bytes;
  kp_fill_idx : bool;
  kp_done : bool;
  kp_reader_err : Z
}.

Definition kp_buf (p : copy_pipe_t) (i : bool) : bytes := if i then kp_buf1 p else kp_buf0 p.

Definition set_kp_buf (i : bool) (b : bytes) (p : copy_pipe_t) : copy_pipe_t :=
  if i then CopyPipe (kp_buf0 p) b (kp_fill_idx p) (kp_done p) (kp_reader_err p)
  else CopyPipe b (kp_buf1 p) (kp_fill_idx p) (kp_done p) (kp_reader_err p).
Definition set_kp_fill (i : bool) (p : copy_pipe_t) : copy_pipe_t :=
  CopyPipe (kp_buf0 p) (kp_buf1 p) i (kp_done p) (kp_reader_err p).
Definition set_kp_done (e : Z) (p : copy_pipe_t) : copy_pipe_t :=
  CopyPipe (kp_buf0 p) (kp_buf1 p) (kp_fill_idx p) true e.

(** Where the reader is: testing under the lock, asleep on [cv_free], reading
    without the lock, about to book the result of [read] (an error, or the
    bytes), or gone. *)
Inductive reader_pc :=
| RdLock
| RdSleep
| RdRead (fi : bool)
| RdBook (fi : bool) (result : Z + bytes)
| RdExit.

(** How the loop of the calling thread ended. *)
Inductive copy_end :=
| EndDrained
| EndWriteError (write_errno : Z)
| EndCancelled.

(** Where the calling thread is: testing under the lock, asleep on
    [cv_ready], writing what is left of a buffer, about to book the outcome
    (a write error, or none), or in [pthread_join]. *)
Inductive drain_pc :=
| DrLock
| DrSleep
| DrWrite (drain : bool) (rest : bytes)
| DrBook (drain : bool) (err : option Z)
| DrJoin (e : copy_end).

Record copy_sys := CopySys {
  ks_pipe : copy_pipe_t;
  ks_reader : reader_pc;
  ks_drain : drain_pc
}.

Definition signal_cv_ready (d : drain_pc) : drain_pc := match d with DrSleep => DrLock | _ => d end.
Definition signal_cv_free (r : reader_pc) : reader_pc := match r with RdSleep => RdLock | _ => r end.

Definition copy_pipe_init : copy_sys := CopySys (CopyPipe [] [] false false 0) RdLock DrLock.

(** The reader has returned and the calling thread waits for it. *)
Definition copy_finished (x : copy_sys) : option copy_end :=
  match ks_reader x, ks_drain x with RdExit, DrJoin e => Some e | _, _ => None end.

Section copy.
Context {W : Type} `{OS W} (fuel : nat).
(** The progress callback, or NULL. *)
Context (cb : option (Z -> M (sysst W) Z)).
(** [%.1f] of [100.0 * a / b], for a log line. *)
Context (percent : Z -> Z -> bytes).
Abbreviation cm := (M (st copy_state W)).

Definition copy_log (text : bytes) : cm unit := io (log_msg text).

(** One step of [copy_reader_thread]. *)
Definition reader_step (src_fd : Z) (x : copy_sys) : cm copy_sys :=
  let p := ks_pipe x in
  let goto pc := CopySys p pc (ks_drain x) in
  match ks_reader x with
  | RdLock =>
      mret (if kp_done p then goto RdExit
            else match kp_buf p (kp_fill_idx p) with
                 | [] => goto (RdRead (kp_fill_idx p))
                 | _ => goto RdSleep
                 end)
  | RdSleep => mret x
  | RdRead fi =>
      d ← sysc (SysRead src_fd PAL_FILE_COPY_BUFFER_SIZE);
      e ← io get_errno;
      mret (match d with
            | None => if e =? EINTR then x else goto (RdBook fi (inl e))
            | Some b => goto (RdBook fi (inr b))
            end)
  | RdBook fi (inl e) => mret (CopySys (set_kp_done e p) RdExit (signal_cv_ready (ks_drain x)))
  | RdBook fi (inr []) =>
      mret (CopySys (set_kp_done (kp_reader_err p) p) RdExit (signal_cv_ready (ks_drain x)))
  | RdBook fi (inr b) =>
      mret (CopySys (set_kp_fill (negb fi) (set_kp_buf fi b p)) RdLock (signal_cv_ready (ks_drain x)))
  | RdExit => mret x
  end.

(** [*cumulative += n; cb( *cumulative ) < 0] *)
Definition report_progress (n : Z) : cm bool :=
  match cb with
  | None => mret false
  | Some cb =>
      _ ← upd (fun s => set_cumulative (u64 (cumulative s + n)) s);
      c ← ask cumulative;
      r ← io (cb c);
      mret (r <? 0)
  end.

(** One step of the loop of the calling thread. *)
Definition drain_step (dst_fd : Z) (x : copy_sys) : cm copy_sys :=
  let p := ks_pipe x in
  let goto pc := CopySys p (ks_reader x) pc in
  match ks_drain x with
  | DrLock =>
      let drain := negb (kp_fill_idx p) in
      mret (match kp_buf p drain with
            | [] => if kp_done p then goto (DrJoin EndDrained) else goto DrSleep
            | b => goto (DrWrite drain b)
            end)
  | DrSleep => mret x
  | DrWrite drain rest =>
      w ← sysc (SysWrite dst_fd rest);
      e ← io get_errno;
      mret (if 0 <? w then
              match drop (Z.to_nat w) rest with
              | [] => goto (DrBook drain None)
              | rest' => goto (DrWrite drain rest')
              end
            else if (w <? 0) && (e =? EINTR) then x
            else goto (DrBook drain (Some (if w =? 0 then ENOSPC else e))))
  | DrBook drain (Some e) =>
      _ ← upd (set_out_errno e);
      mret (CopySys (set_kp_done (kp_reader_err p) p) (signal_cv_free (ks_reader x)) (DrJoin (EndWriteError e)))
  | DrBook drain None =>
      cancelled ← report_progress (strlen (kp_buf p drain));
      mret (if (cancelled : bool)
            then CopySys (set_kp_done (kp_reader_err p) p) (signal_cv_free (ks_reader x)) (DrJoin EndCancelled)
            else CopySys (set_kp_buf drain [] p) (signal_cv_free (ks_reader x)) DrLock)
  | DrJoin _ => mret x
  end.

Fixpoint copy_pipe_run (n : nat) (src_fd dst_fd : Z) (x : copy_sys) : cm (copy_pipe_t * copy_end) :=
  match n with
  | O => diverge
  | S n' =>
      match copy_finished x with
      | Some e => mret (ks_pipe x, e)
      | None =>
          who ← sysc SysSchedule;
          x ← (if (who : bool) then reader_step src_fd x else drain_step dst_fd x);
          copy_pipe_run n' src_fd dst_fd x
      end
  end.

(** The pipelined copy, from the creation of the reader on. *)
Definition copy_pipeline (src_fd dst_fd : Z) (src_path dst_path : bytes) : cm ftp_error_t :=
  '(p, how) ← copy_pipe_run fuel src_fd dst_fd copy_pipe_init;
  _ ← sysc SysThreadJoin;
  match how with
  | EndWriteError e =>
      _ ← copy_log (str "[COPY] write failed: errno=" ++ fmt_d e ++ str " dst=" ++ dst_path);
      _ ← upd (set_out_errno e);
      mret FTP_ERR_FILE_WRITE
  | _ =>
      if negb (kp_reader_err p =? 0) then
        _ ← copy_log (str "[COPY] read failed: errno=" ++ fmt_d (kp_reader_err p) ++ str " src=" ++ src_path);
        _ ← upd (set_out_errno (kp_reader_err p));
        mret FTP_ERR_FILE_READ
      else mret (match how with EndCancelled => FTP_ERR_UNKNOWN | _ => FTP_OK end)
  end.

(** ** The serial copy *)

Definition LOG_INTERVAL : Z := 64 * 1024 * 1024.

(** The write loop of one buffer: the error, if it fails. *)
Fixpoint serial_write (n : nat) (dst_fd : Z) (rest : bytes) : cm (option Z) :=
  match n with
  | O => diverge
  | S n' =>
      match rest with
      | [] => mret None
      | _ =>
          w ← sysc (SysWrite dst_fd rest);
          e ← io get_errno;
          if 0 <? w then serial_write n' dst_fd (drop (Z.to_nat w) rest)
          else if (w <? 0) && (e =? EINTR) then serial_write n' dst_fd rest
          else mret (Some (if w =? 0 then ENOSPC else e))
      end
  end.

(** The loop: [written] and [last_log] are [serial_written] and
    [serial_last_log]. *)
Fixpoint serial_copy (n : nat) (src_fd dst_fd size : Z) (src_path dst_path : bytes)
    (written last_log : Z) : cm ftp_error_t :=
  match n with
  | O => diverge
  | S n' =>
      d ← sysc (SysRead src_fd PAL_FILE_COPY_BUFFER_SIZE);
      match d with
      | Some [] => mret FTP_OK
      | Some b =>
          werr ← serial_write fuel dst_fd b;
          match werr with
          | Some e =>
              _ ← copy_log (str "[XDEV] write failed: errno=" ++ fmt_d e ++ str " written_so_far="
                            ++ fmt_u written ++ str " file_size=" ++ fmt_u (u64 size)
                            ++ str " dst=" ++ dst_path);
              _ ← upd (set_out_errno e);
              mret FTP_ERR_FILE_WRITE
          | None =>
              let written := u64 (written + strlen b) in
              let due := LOG_INTERVAL <=? u64 (written - last_log) in
              _ ← (if due then
                     copy_log (str "[XDEV] serial progress: " ++ fmt_u written ++ str " / "
                               ++ fmt_u (u64 size) ++ str " bytes (" ++ percent written size
                               ++ str "%) dst=" ++ dst_path)
                   else mret tt);
              cancelled ← report_progress (strlen b);
              if (cancelled : bool) then mret FTP_ERR_UNKNOWN
              else serial_copy n' src_fd dst_fd size src_path dst_path written
                     (if due then written else last_log)
          end
      | None =>
          e ← io get_errno;
          if e =? EINTR then serial_copy n' src_fd dst_fd size src_path dst_path written last_log
          else
            _ ← copy_log (str "[XDEV] read failed: errno=" ++ fmt_d e ++ str " written_so_far="
                          ++ fmt_u written ++ str " src=" ++ src_path);
            _ ← upd (set_out_errno e);
            mret FTP_ERR_FILE_READ
      end
  end.

(** The dash of two log lines, in UTF-8. *)
Definition EM_DASH : bytes := [226; 128; 148].

Definition ok_or_null (b : bool) : bytes := if b then str "ok" else str "NULL".

(** The serial path with its own buffer. *)
Definition copy_serially (src_fd dst_fd size : Z) (src_path dst_path : bytes) : cm ftp_error_t :=
  _ ← copy_log (str "[XDEV] serial copy starting: file_size=" ++ fmt_u (u64 size) ++ str " buf="
                ++ fmt_u PAL_FILE_COPY_BUFFER_SIZE ++ str " src=" ++ src_path);
  ok ← sysc (SysMalloc PAL_FILE_COPY_BUFFER_SIZE);
  if (ok : bool) then serial_copy fuel src_fd dst_fd size src_path dst_path 0 0
  else
    '(in_use, peak, failures) ← sysc SysAllocStats;
    _ ← copy_log (str "[XDEV] serial malloc failed: arena_inuse=" ++ fmt_u in_use ++ str " peak="
                  ++ fmt_u peak ++ str " failures=" ++ fmt_u failures ++ str " buf_needed="
                  ++ fmt_u PAL_FILE_COPY_BUFFER_SIZE ++ str " src=" ++ src_path);
    mret FTP_ERR_OUT_OF_MEMORY.

(** Both paths: two buffers and a thread when they can be had. *)
Definition copy_contents (src_fd dst_fd size : Z) (src_path dst_path : bytes) : cm ftp_error_t :=
  ok0 ← sysc (SysMalloc PAL_FILE_COPY_BUFFER_SIZE);
  ok1 ← sysc (SysMalloc PAL_FILE_COPY_BUFFER_SIZE);
  '(in_use, peak, failures) ← sysc SysAllocStats;
  _ ← copy_log (str "[XDEV] pipeline alloc: buf0=" ++ ok_or_null ok0 ++ str " buf1=" ++ ok_or_null ok1
                ++ str " arena_inuse=" ++ fmt_u in_use ++ str " peak=" ++ fmt_u peak
                ++ str " failures=" ++ fmt_u failures ++ str " file=" ++ src_path);
  if ok0 && ok1 then
    pt_ret ← sysc SysSpawn;
    if pt_ret =? 0 then copy_pipeline src_fd dst_fd src_path dst_path
    else
      _ ← copy_log (str "[XDEV] pthread_create failed: errno=" ++ fmt_d pt_ret
                    ++ str " " ++ EM_DASH ++ str " falling back to serial copy for " ++ src_path);
      copy_serially src_fd dst_fd size src_path dst_path
  else
    _ ← copy_log (str "[XDEV] pipeline malloc failed (buf0=" ++ ok_or_null ok0 ++ str " buf1="
                  ++ ok_or_null ok1 ++ str ") " ++ EM_DASH ++ str " falling back to serial copy for " ++ src_path);
    copy_serially src_fd dst_fd size src_path dst_path.

(** ** The atomic copy *)

(** '<dir of dst>/.zftpd.<pid>.<counter>.tmp'; [None] when it does not fit. *)
Definition copy_tmp_path (dst_path : bytes) (pid counter : Z) : option bytes :=
  let name := str ".zftpd." ++ fmt_u pid ++ str "." ++ fmt_u counter ++ str ".tmp" in
  let path := match strrchr dst_path SLASH with
              | Some k => take k dst_path ++ SLASH :: name
              | None => name
              end in
  if FTP_PATH_MAX <=? strlen path then None else Some path.

(** The directory asked for its free space; empty: skip the check. *)
Definition copy_dst_dir (dst_path : bytes) : bytes :=
  match strrchr dst_path SLASH with
  | Some (S k) => if Z.of_nat (S k) <? FTP_PATH_MAX then take (S k) dst_path else []
  | _ => [SLASH]
  end.

(** True when the destination has too little room. *)
Definition copy_no_room (size : Z) (dst_path : bytes) : cm bool :=
  match copy_dst_dir dst_path with
  | [] => mret false
  | dir =>
      vfs ← sysc (SysStatvfs dir);
      match vfs with
      | None => mret false
      | Some vfs =>
          let free_bytes := u64 (f_bavail vfs * f_frsize vfs) in
          if free_bytes <? u64 size then
            _ ← copy_log (str "[XDEV] pre-flight ENOSPC: need=" ++ fmt_u (u64 size) ++ str " free="
                          ++ fmt_u free_bytes ++ str " dst=" ++ dst_path);
            _ ← upd (set_out_errno ENOSPC);
            mret true
          else mret false
      end
  end.

(** The label [cleanup]. *)
Definition copy_cleanup (src_fd dst_fd : Z) (tmp_path : bytes) (out_err : ftp_error_t) : cm ftp_error_t :=
  _ ← (if 0 <=? dst_fd then _ ← sysc (SysClose dst_fd); mret tt else mret tt);
  _ ← (if 0 <=? src_fd then _ ← sysc (SysClose src_fd); mret tt else mret tt);
  _ ← (if bool_decide (out_err = FTP_OK) then mret tt else _ ← sysc (SysUnlink tmp_path); mret tt);
  mret out_err.

(** The label [copy_done]. *)
Definition copy_done (src_fd dst_fd : Z) (tmp_path dst_path : bytes) : cm ftp_error_t :=
  _ ← (if 0 <=? src_fd then _ ← sysc (SysFadvise src_fd 0 0); mret tt else mret tt);
  _ ← (if 0 <=? dst_fd then _ ← sysc (SysFadvise dst_fd 0 0); mret tt else mret tt);
  _ ← copy_log (str "[XDEV] copy complete, renaming tmp -> dst: " ++ dst_path);
  r ← sysc (SysRename tmp_path dst_path);
  if r <? 0 then
    e ← io get_errno;
    _ ← copy_log (str "[XDEV] rename(tmp->dst) failed: errno=" ++ fmt_d e ++ str " tmp=" ++ tmp_path
                  ++ str " dst=" ++ dst_path);
    _ ← upd (set_out_errno e);
    mret FTP_ERR_FILE_WRITE
  else mret FTP_OK.

(** From the opened source on. *)
Definition copy_opened (src_fd : Z) (st : stat_t) (src_path dst_path tmp_path : bytes) : cm ftp_error_t :=
  full ← copy_no_room (st_size st) dst_path;
  if (full : bool) then mret FTP_ERR_FILE_WRITE
  else
    dst_fd ← sysc (SysOpen tmp_path (Z.lor O_WRONLY (Z.lor O_CREAT (Z.lor O_TRUNC O_CLOEXEC)))
                     (Z.land (st_mode st) 511));
    if dst_fd <? 0 then
      e ← io get_errno;
      _ ← copy_log (str "[XDEV] open(tmp) failed: errno=" ++ fmt_d e ++ str " path=" ++ tmp_path);
      _ ← upd (set_out_errno e);
      copy_cleanup src_fd dst_fd tmp_path
        (if (e =? EACCES) || (e =? EPERM) then FTP_ERR_PERMISSION else FTP_ERR_FILE_OPEN)
    else
      err ← copy_contents src_fd dst_fd (st_size st) src_path dst_path;
      err ← (if bool_decide (err = FTP_OK) then copy_done src_fd dst_fd tmp_path dst_path else mret err);
      copy_cleanup src_fd dst_fd tmp_path err.

Definition pal_file_copy_atomic_ex (src_path dst_path : bytes) : cm ftp_error_t :=
  st ← sysc (SysStat src_path);
  match st with
  | None =>
      e ← io get_errno;
      mret (if e =? ENOENT then FTP_ERR_NOT_FOUND
            else if (e =? EACCES) || (e =? EPERM) then FTP_ERR_PERMISSION else FTP_ERR_FILE_STAT)
  | Some st =>
      if negb (S_ISREG (st_mode st)) then mret FTP_ERR_INVALID_PARAM
      else
        counter ← ask g_tmp_counter;
        _ ← upd (set_tmp_counter (u64 (counter + 1)));
        pid ← sysc SysGetpid;
        match copy_tmp_path dst_path pid counter with
        | None => mret FTP_ERR_PATH_TOO_LONG
        | Some tmp_path =>
            src_fd ← sysc (SysOpen src_path O_RDONLY 0);
            _ ← (if 0 <=? src_fd then _ ← sysc (SysFadvise src_fd 0 0); mret tt else mret tt);
            if src_fd <? 0 then
              e ← io get_errno;
              _ ← copy_log (str "[XDEV] open(src) failed: errno=" ++ fmt_d e ++ str " path=" ++ src_path);
              _ ← upd (set_out_errno e);
              copy_cleanup src_fd (-1) tmp_path
                (if e =? ENOENT then FTP_ERR_NOT_FOUND
                 else if (e =? EACCES) || (e =? EPERM) then FTP_ERR_PERMISSION else FTP_ERR_FILE_OPEN)
            else copy_opened src_fd st src_path dst_path tmp_path
        end
  end.

(** ** Trees *)

Definition xdev_warn (what : string) (e : Z) (path : bytes) : cm unit :=
  copy_log (str "[XDEV] " ++ str what ++ str " failed: errno=" ++ fmt_d e ++ str " path=" ++ path).

(** [out_given]: the caller passed a pointer for [out_errno]; else the cell is
    a local variable, 0 for each file. *)
Context (keep_src out_given : bool).

(** A regular file: copy, then delete the source of a move. *)
Definition copy_leaf (src dst : bytes) : cm ftp_error_t :=
  _ ← (if out_given then mret tt else upd (set_out_errno 0));
  err ← pal_file_copy_atomic_ex src dst;
  if negb (bool_decide (err = FTP_OK)) then
    e ← ask out_errno;
    _ ← copy_log (str "[XDEV] file copy failed (err=" ++ fmt_d (err_code err) ++ str ", errno=" ++ fmt_d e
                  ++ str "): " ++ src ++ str " -> " ++ dst);
    mret err
  else if keep_src then mret FTP_OK
  else
    r ← sysc (SysUnlink src);
    if r <? 0 then
      e ← io get_errno;
      _ ← xdev_warn "unlink(src)" e src;
      mret FTP_ERR_FILE_WRITE
    else mret FTP_OK.

(** The loop over the entries of an open directory. *)
Fixpoint copy_entries (n : nat) (copy : bytes -> bytes -> cm ftp_error_t) (dir : Z) (src dst : bytes) :
    cm ftp_error_t :=
  match n with
  | O => diverge
  | S n' =>
      ent ← sysc (SysReaddir dir);
      match ent with
      | None => mret FTP_OK
      | Some (name, _) =>
          if dot_entry name then copy_entries n' copy dir src dst
          else
            match child_path src name, child_path dst name with
            | Some src_child, Some dst_child =>
                err ← copy src_child dst_child;
                if negb (bool_decide (err = FTP_OK)) then mret err
                else copy_entries n' copy dir src dst
            | _, _ => mret FTP_ERR_PATH_TOO_LONG
            end
      end
  end.

(** [left] is PAL_MOVE_MAX_DEPTH + 1 - depth; [top]: depth is 0. *)
Fixpoint pal_copy_cross_device_r_ex (left : nat) (top : bool) (src dst : bytes) : cm ftp_error_t :=
  match left with
  | O =>
      _ ← copy_log (str "[XDEV] max depth 64 exceeded: " ++ src);
      mret FTP_ERR_PATH_TOO_LONG
  | S left' =>
      _ ← (if top then copy_log (str "[XDEV] cross-device move: " ++ src ++ str " -> " ++ dst) else mret tt);
      st ← sysc (SysStat src);
      match st with
      | None =>
          e ← io get_errno;
          _ ← xdev_warn "stat(src)" e src;
          mret (if e =? ENOENT then FTP_ERR_NOT_FOUND else FTP_ERR_FILE_STAT)
      | Some st =>
          if S_ISREG (st_mode st) then copy_leaf src dst
          else if negb (S_ISDIR (st_mode st)) then mret FTP_OK
          else
            r ← sysc (SysMkdir dst (Z.land (st_mode st) 511));
            e ← io get_errno;
            if (r <? 0) && negb (e =? EEXIST) then
              _ ← xdev_warn "mkdir(dst)" e dst;
              mret FTP_ERR_FILE_WRITE
            else
              let created := negb (r <? 0) in
              d ← sysc (SysOpendir src);
              match d with
              | None =>
                  e ← io get_errno;
                  _ ← xdev_warn "opendir(src)" e src;
                  _ ← (if created then _ ← sysc (SysRmdir dst); mret tt else mret tt);
                  mret FTP_ERR_DIR_OPEN
              | Some dir =>
                  err ← copy_entries fuel (pal_copy_cross_device_r_ex left' false) dir src dst;
                  _ ← sysc (SysClosedir dir);
                  if negb (bool_decide (err = FTP_OK)) then
                    _ ← (if created
                         then _ ← io (pal_dir_remove_recursive fuel (S PAL_MOVE_MAX_DEPTH) dst); mret tt
                         else mret tt);
                    mret err
                  else
                    r ← (if keep_src then mret 0 else sysc (SysRmdir src));
                    if r <? 0 then
                      e ← io get_errno;
                      _ ← xdev_warn "rmdir(src)" e src;
                      mret FTP_ERR_FILE_WRITE
                    else
                      _ ← (if top then copy_log (str "[XDEV] cross-device operation completed OK") else mret tt);
                      mret FTP_OK
              end
      end
  end.

End copy.

(** [pal_file_copy_recursive_ex], and with no callback and no [out_errno]
    [pal_file_copy_recursive]. *)
Definition pal_file_copy_recursive_ex {W} `{OS W} (fuel : nat) (cb : option (Z -> M (sysst W) Z))
    (percent : Z -> Z -> bytes) (out_given : bool) (src dst : bytes) (keep_src : Z) :
    M (st copy_state W) ftp_error_t :=
  _ ← upd (set_cumulative 0);
  pal_copy_cross_device_r_ex fuel cb percent (negb (keep_src =? 0)) out_given (S PAL_MOVE_MAX_DEPTH) true src dst.

Definition pal_file_copy_recursive {W} `{OS W} (fuel : nat) (percent : Z -> Z -> bytes) (src dst : bytes)
    (keep_src : Z) : M (st copy_state W) ftp_error_t :=
  pal_file_copy_recursive_ex fuel None percent false src dst keep_src.
