(* ===== verification/PalCopySpec.v ===== *)
(** * What a copy delivers

    The copy engine of [PalCopyFile]: a copy that succeeds is complete, the
    destination is only ever replaced by a complete file, a copy leaves its
    source alone, and two runs that show where the engine fails. *)

From S2P Require Import Prelude CLib FtpTypes Os PalCopy PalCopyFile.
From S2P Require Import FtpState FtpResolve FtpInv.

(** ** What moved between the two files *)

(** An event that moves no data; one that touches no file either. *)
Definition still (e : event) : Prop :=
  forall fd, event_read fd e = [] /\ event_sent fd e = [] /\ event_read_eof fd e = false.
Definition inert (e : event) : Prop := fs_paths e = [] /\ still e.

Lemma read_on_app fd new old : read_on fd (new ++ old) = read_on fd old ++ read_on fd new.
Proof. induction new as [|e new IH]; simpl; [by rewrite app_nil_r|]. by rewrite IH, app_assoc. Qed.

Lemma still_trace fd tr :
  Forall still tr -> read_on fd tr = [] /\ sent_on fd tr = [] /\ read_eof_on fd tr = false.
Proof.
  unfold read_eof_on. induction 1 as [|e tr He _ (IH1 & IH2 & IH3)]; [done|]. simpl.
  destruct (He fd) as (-> & -> & ->). by rewrite IH1, IH2.
Qed.

(** A progress callback that does neither. *)
Definition inert_cb {W} (cb : option (Z -> M (sysst W) Z)) : Prop :=
  forall f, cb = Some f -> forall c s, exists new,
    os_trace (f c s).2 = new ++ os_trace s /\ Forall inert new.

Section flow.
Context {W : Type} {os : OS W} {Hos : SaneOS W} (fuel : nat).
Context (cb : option (Z -> M (sysst W) Z)) (Hcb : inert_cb cb) (percent : Z -> Z -> bytes).
Context (src_fd dst_fd : Z) (old : list event).

(** Since [old]: [got] was read from the source, [w] written to the copy,
    and the end of the source was or was not seen. *)
Definition copied (got w : bytes) (eof : bool) (s : st copy_state W) : Prop :=
  exists new, os_trace (sysw s) = new ++ old /\ Forall (fun e => fs_paths e = []) new /\
    read_on src_fd new = got /\ sent_on dst_fd new = w /\ read_eof_on src_fd new = eof.

Lemma copied_event got w eof s s' e :
  copied got w eof s -> fs_paths e = [] -> os_trace (sysw s') = e :: os_trace (sysw s) ->
  copied (got ++ event_read src_fd e) (w ++ event_sent dst_fd e) (event_read_eof src_fd e || eof) s'.
Proof.
  intros (new & Ht & Hp & <- & <- & <-) He Ht'. exists (e :: new). rewrite Ht', Ht. by repeat split; [constructor|..].
Qed.

Lemma copied_inert got w eof s s' new :
  copied got w eof s -> Forall inert new -> os_trace (sysw s') = new ++ os_trace (sysw s) -> copied got w eof s'.
Proof.
  intros Hc Hn. revert s'. induction Hn as [|e new [Hp He] Hn IH]; intros s' Ht.
  - destruct Hc as (n & Ht0 & H). exists n. by rewrite Ht, Ht0.
  - specialize (IH (St (ses s) (SysSt (os_state (sysw s)) 0 (new ++ os_trace (sysw s)))) eq_refl).
    eapply copied_event in IH; [|exact Hp|exact Ht]. destruct (He src_fd) as (E1 & _ & E2).
    destruct (He dst_fd) as (_ & E3 & _). by rewrite E1, E2, E3, !app_nil_r in IH.
Qed.

Lemma copied_same got w eof s s' :
  copied got w eof s -> os_trace (sysw s') = os_trace (sysw s) -> copied got w eof s'.
Proof. intros Hc Ht. by eapply (copied_inert _ _ _ _ _ []); [exact Hc|constructor|]. Qed.

Lemma copied_quiet got w eof s s' e :
  copied got w eof s -> inert e -> os_trace (sysw s') = e :: os_trace (sysw s) -> copied got w eof s'.
Proof. intros Hc He Ht. eapply (copied_inert _ _ _ _ _ [e]); [exact Hc| |exact Ht]. by constructor. Qed.

Lemma cb_copied f c got w eof s :
  cb = Some f -> copied got w eof s -> wp (io (f c)) (fun _ => copied got w eof) (fun _ => True) s.
Proof.
  intros Ef Hc. apply wp_io. destruct (Hcb f Ef c (sysw s)) as (new & Ht & Hn).
  unfold wp. destruct (f c (sysw s)) as [[r|] w']; [|done]. by eapply copied_inert.
Qed.

(** The last event was inert. *)
Ltac copied_now :=
  lazymatch goal with
  | |- copied _ _ _ (St _ (SysSt _ _ (?e :: os_trace (sysw ?s)))) =>
      apply (copied_quiet _ _ _ s _ e); [|by split|done]
  end.

Lemma report_progress_copied n got w eof s :
  copied got w eof s -> wp (report_progress cb n) (fun _ => copied got w eof) (fun _ => True) s.
Proof.
  intros Hc. unfold report_progress. pose proof cb_copied as Hf. destruct cb as [f|]; [|by wp_step].
  do 5 wp_step. eapply wp_mono; [apply Hf; [done|by eapply copied_same; [exact Hc|]]| |done].
  intros r s' Hs. by wp_step.
Qed.

Lemma copy_log_copied text got w eof s :
  copied got w eof s -> wp (copy_log text) (fun _ => copied got w eof) (fun _ => True) s.
Proof. intros Hc. apply wp_io. unfold log_msg. wp_step. eapply copied_quiet; [exact Hc| |done]. by split. Qed.

(** ** The two-buffer pipe *)

Definition in_hand (x : copy_sys) : bytes :=
  match ks_reader x with RdBook _ (inr b) => b | _ => [] end.

Definition reader_waits (x : copy_sys) : Prop := ks_reader x = RdLock \/ ks_reader x = RdSleep.

(** The copy will be reported as failed. *)
Definition drain_failed (d : drain_pc) : Prop :=
  match d with
  | DrBook _ (Some _) | DrJoin (EndWriteError _) | DrJoin EndCancelled => True
  | _ => False
  end.

Definition copy_failed (x : copy_sys) : Prop :=
  drain_failed (ks_drain x) \/ (kp_reader_err (ks_pipe x) <> 0 /\ ks_reader x = RdExit) \/
  exists i e, ks_reader x = RdBook i (inl e) /\ e <> 0.

(** The reader waits for a buffer that the other thread never looks at. *)
Definition copy_stuck (x : copy_sys) : Prop :=
  let p := ks_pipe x in
  reader_waits x /\ kp_done p = false /\ kp_buf p (kp_fill_idx p) <> [] /\
  match ks_drain x with
  | DrLock | DrSleep => True
  | DrWrite k _ => k = negb (kp_fill_idx p)
  | DrBook k e => k = negb (kp_fill_idx p) /\ e = None
  | DrJoin _ => False
  end.

(** The regular states: what was read is what was written, then the rest of
    the buffer being drained, then the buffer waiting, then the one in hand. *)
Definition copy_regular (x : copy_sys) (d w : bytes) (eof : bool) : Prop :=
  let p := ks_pipe x in
  let a := kp_fill_idx p in
  kp_reader_err p = 0 /\ kp_done p = (match ks_reader x with RdExit => true | _ => false end) /\
  match ks_reader x with
  | RdRead i => i = a
  | RdBook i (inr b) => i = a /\ (b = [] -> eof = true)
  | RdBook _ (inl _) => False
  | RdExit => eof = true
  | _ => True
  end /\
  match ks_drain x with
  | DrLock | DrSleep => kp_buf p a = [] /\ d = w ++ kp_buf p (negb a) ++ in_hand x
  | DrWrite k rest =>
      rest <> [] /\ kp_buf p k <> [] /\
      ((k = negb a /\ kp_buf p a = [] /\ d = w ++ rest ++ in_hand x) \/
       (k = a /\ reader_waits x /\ d = w ++ rest ++ kp_buf p (negb a)))
  | DrBook k e =>
      e = None /\ kp_buf p k <> [] /\
      ((k = negb a /\ kp_buf p a = [] /\ d = w ++ in_hand x) \/
       (k = a /\ reader_waits x /\ d = w ++ kp_buf p (negb a)))
  | DrJoin e => e = EndDrained /\ ks_reader x = RdExit /\ d = w
  end.

Definition copy_ok (x : copy_sys) (s : st copy_state W) : Prop :=
  copy_failed x \/ copy_stuck x \/ exists d w eof, copy_regular x d w eof /\ copied d w eof s.

(** Case analysis on a state with its components named. *)
Ltac copy_crush :=
  unfold copy_regular, copy_stuck, copy_failed, reader_waits, in_hand, kp_buf in *; cbn in *;
  destruct_and?; simplify_eq/=;
  repeat match goal with
  | b : bool |- _ => destruct b; cbn in *
  end; destruct_and?; destruct_or?; destruct_and?; simplify_eq/=;
  rewrite ?app_nil_r, <- ?app_assoc in *; try done; try naive_solver.

Lemma drain_failed_signal d : drain_failed d -> drain_failed (signal_cv_ready d).
Proof. by destruct d. Qed.

Lemma reader_step_failed x s :
  copy_failed x -> wp (reader_step src_fd x) (fun x' _ => copy_failed x') (fun _ => True) s.
Proof.
  intros Hx. pose proof drain_failed_signal. unfold reader_step, copy_failed in *.
  destruct (ks_reader x) as [| |i|i [e|[|c b]]|] eqn:Er; repeat wp_step; repeat case_match; simpl;
    rewrite ?Er; naive_solver.
Qed.

Lemma drain_step_failed x s :
  copy_failed x -> wp (drain_step cb dst_fd x) (fun x' _ => copy_failed x') (fun _ => True) s.
Proof.
  intros Hx. unfold drain_step, copy_failed in *.
  destruct (ks_drain x) as [| |k rest|k [e|]|[|e|]] eqn:Er;
    try (repeat wp_step; repeat case_match; simpl; rewrite ?Er; simpl; naive_solver).
  wp_step. eapply wp_mono; [apply wp_any| |done]. intros [|] s' _; wp_step; [by left|]. simpl.
  destruct Hx as [|[[? ->]|(i & e & -> & ?)]]; [done|..]; [destruct k|]; naive_solver.
Qed.

Lemma reader_step_stuck x s :
  copy_stuck x -> wp (reader_step src_fd x) (fun x' _ => copy_stuck x') (fun _ => True) s.
Proof.
  intros (Hp & Hd & Hb & Hw). unfold reader_step. destruct Hp as [Hp|Hp]; rewrite Hp.
  - wp_step. rewrite Hd. destruct (kp_buf _ _) eqn:Eb; [done|]. unfold copy_stuck. simpl.
    rewrite Eb. by repeat split; [right|..].
  - wp_step. by repeat split; [right|..].
Qed.

Lemma drain_step_stuck x s :
  copy_stuck x -> wp (drain_step cb dst_fd x) (fun x' _ => copy_failed x' \/ copy_stuck x') (fun _ => True) s.
Proof.
  intros (Hp & Hd & Hb & Hw). unfold drain_step. destruct (ks_drain x) as [| |k rest|k [e|]|e] eqn:Ew.
  - wp_step. rewrite Hd. right. case_match; by repeat split.
  - wp_step. right. repeat split; try done. by rewrite Ew.
  - repeat wp_step. repeat case_match; first [by left; left | right; repeat split; try done; by rewrite ?Ew].
  - by destruct Hw.
  - wp_step. eapply wp_mono; [apply wp_any| |done]. intros [|] s' _; wp_step; [by left; left|].
    destruct Hw as [-> _]. right. unfold copy_stuck, reader_waits. simpl.
    destruct (kp_fill_idx (ks_pipe x)) eqn:Ea; simpl; rewrite Ea; repeat split; try done.
    all: left; by destruct Hp as [-> | ->].
  - done.
Qed.

(** The outcome of one [read] of the source. *)
Lemma read_copied len d w eof s r e o :
  copied d w eof s -> os_step (SysRead src_fd len) (os_state (sysw s)) = (r, e, o) ->
  let s' := St (ses s) (SysSt o (if e =? 0 then os_errno (sysw s) else e)
                          (Ev (SysRead src_fd len) r :: os_trace (sysw s))) in
  match r with
  | Some b => copied (d ++ b) w (bool_decide (b = []) || eof) s'
  | None => copied d w eof s' /\ os_errno (sysw s') <> 0
  end.
Proof.
  intros Hc E s'. apply (copied_event _ _ _ _ s' (Ev (SysRead src_fd len) r)) in Hc; [|done..].
  simpl in Hc. rewrite Z.eqb_refl, app_nil_r in Hc. destruct r as [b|].
  - by destruct b.
  - simpl in Hc. rewrite app_nil_r in Hc. split; [done|]. simpl. apply read_errno in E.
    by destruct (Z.eqb_spec e 0).
Qed.

Lemma reader_step_regular x d w eof s :
  copy_regular x d w eof -> copied d w eof s ->
  wp (reader_step src_fd x) (fun x' s' => copy_ok x' s') (fun _ => True) s.
Proof.
  destruct x as [[b0 b1 a dn err] pc dpc]. intros Hx Hf. unfold reader_step. cbn [ks_reader ks_pipe ks_drain].
  destruct pc as [| |i|i [e|b]|].
  - wp_step. assert (dn = false) as -> by apply Hx. unfold kp_buf. simpl.
    right; right. exists d, w, eof. split; [|done].
    destruct (if a then b1 else b0) as [|c l] eqn:Eb; destruct dpc; copy_crush.
  - wp_step. right; right. by exists d, w, eof.
  - do 4 wp_step. apply (read_copied _ _ _ _ _ _ _ _ Hf) in H. destruct r as [b|].
    + right; right. eexists _, _, _. split; [|exact H]. destruct dpc; copy_crush.
    + destruct H as [Hc He]. case_if.
      * right; right. by exists d, w, eof.
      * left. right. right. by eexists _, _.
  - exfalso. apply Hx.
  - destruct b as [|c b]; wp_step.
    + right; right. exists d, w, eof. split; [|done]. destruct dpc; copy_crush.
    + destruct dpc as [| |k rest|k e|e].
      1,2: destruct (decide ((if a then b0 else b1) = [])) as [Eb|Eb];
        [right; right; exists d, w, eof; (split; [|done]); copy_crush | right; left; copy_crush].
      all: right; right; exists d, w, eof; (split; [|done]); copy_crush.
  - wp_step. right; right. by exists d, w, eof.
Qed.

(** The outcome of one [write] to the copy. *)
Lemma write_copied buf d w eof s r e o :
  copied d w eof s -> os_step (SysWrite dst_fd buf) (os_state (sysw s)) = (r, e, o) ->
  copied d (w ++ if 0 <? r then take (Z.to_nat r) buf else []) eof
    (St (ses s) (SysSt o (if e =? 0 then os_errno (sysw s) else e)
                   (Ev (SysWrite dst_fd buf) r :: os_trace (sysw s)))).
Proof.
  intros Hc _. match goal with |- copied _ _ _ ?s' => pose proof (copied_event _ _ _ _ s' (Ev (SysWrite dst_fd buf) r) Hc eq_refl eq_refl) as H end.
  simpl in H. by rewrite Z.eqb_refl, app_nil_r in H.
Qed.

Lemma drain_write_regular x k rest d w eof s :
  ks_drain x = DrWrite k rest -> copy_regular x d w eof -> copied d w eof s ->
  wp (drain_step cb dst_fd x) (fun x' s' => copy_ok x' s') (fun _ => True) s.
Proof.
  destruct x as [[b0 b1 a dn err] pc dpc]. cbn [ks_drain]. intros -> Hx Hf. unfold drain_step.
  cbn [ks_reader ks_pipe ks_drain]. do 4 wp_step. apply (write_copied _ _ _ _ _ _ _ _ Hf) in H.
  destruct (0 <? r).
  - rewrite <- (take_drop (Z.to_nat r) rest) in Hx. destruct (drop (Z.to_nat r) rest) as [|c l].
    + right; right. eexists _, _, _. split; [|exact H]. rewrite app_nil_r in Hx. destruct pc; copy_crush.
    + right; right. eexists _, _, _. split; [|exact H]. destruct pc; copy_crush.
  - rewrite app_nil_r in H. case_if; [|left; by left]. right; right. by exists d, w, eof.
Qed.

Lemma drain_step_regular x d w eof s :
  copy_regular x d w eof -> copied d w eof s ->
  wp (drain_step cb dst_fd x) (fun x' s' => copy_ok x' s') (fun _ => True) s.
Proof.
  intros Hx Hf. destruct (ks_drain x) as [| |k rest|k e|e] eqn:Ed; [| |by eapply drain_write_regular| |].
  all: destruct x as [[b0 b1 a dn err] pc dpc]; cbn [ks_drain] in Ed; subst dpc.
  all: unfold drain_step; cbn [ks_reader ks_pipe ks_drain].
  - wp_step. unfold kp_buf. simpl. right; right. exists d, w, eof. split; [|done].
    destruct (if negb a then b1 else b0) eqn:Eb; [destruct dn|]; destruct pc; copy_crush.
  - wp_step. right; right. by exists d, w, eof.
  - assert (e = None) as -> by apply Hx. wp_step.
    eapply wp_mono; [by apply report_progress_copied| |done]. intros [|] s' Hs; wp_step; [by left; left|].
    right; right. exists d, w, eof. split; [|done]. destruct pc; copy_crush.
  - wp_step. right; right. by exists d, w, eof.
Qed.

Lemma copy_ok_quiet x s s' e :
  copy_ok x s -> inert e -> os_trace (sysw s') = e :: os_trace (sysw s) -> copy_ok x s'.
Proof.
  intros [Hx|[Hx|(d & w & eof & Hx & Hc)]] He Ht; [by left|by right; left|].
  right; right. exists d, w, eof. split; [done|]. by eapply copied_quiet.
Qed.

Lemma copy_pipe_run_ok n x s :
  copy_ok x s ->
  wp (copy_pipe_run cb n src_fd dst_fd x)
    (fun '(p, how) s' => exists x', ks_pipe x' = p /\ copy_finished x' = Some how /\ copy_ok x' s') (fun _ => True) s.
Proof.
  revert x s. induction n as [|n IH]; intros x s Hx; [done|]. cbn [copy_pipe_run].
  destruct (copy_finished x) eqn:Ef; [wp_step; by exists x|]. do 3 wp_step.
  eapply wp_mono with (Q := fun x' s' => copy_ok x' s'); [|apply IH|done].
  match goal with |- wp _ _ _ ?s' => assert (copy_ok x s') as Hx' by (eapply copy_ok_quiet; [exact Hx| |done]; by split) end.
  clear Hx. rename Hx' into Hx.
  destruct Hx as [Hx|[Hx|(d & w' & eof & Hx & Hf)]]; wp_case.
  - eapply wp_mono; [by apply reader_step_failed| |done]. by left.
  - eapply wp_mono; [by apply drain_step_failed| |done]. by left.
  - eapply wp_mono; [by apply reader_step_stuck| |done]. right; by left.
  - eapply wp_mono; [by apply drain_step_stuck| |done]. intros ? ? [|]; [by left | right; by left].
  - by eapply reader_step_regular.
  - by eapply drain_step_regular.
Qed.

(** A result of [FTP_OK] means that the whole source was copied. *)
Definition all_copied (r : ftp_error_t) (s : st copy_state W) : Prop :=
  r = FTP_OK -> exists d, copied d d true s.

Lemma all_copied_skip {A} (m : M (st copy_state W) A) k s :
  (forall s', wp k all_copied (fun _ => True) s') -> wp (_ ← m; k) all_copied (fun _ => True) s.
Proof. intros Hk. wp_step. by eapply wp_mono; [apply wp_any| |]. Qed.

(** An error return, after some logging. *)
Ltac not_ok := repeat (apply all_copied_skip; intros ?); by wp_step.

Lemma copy_pipeline_copied src dst d s :
  copied d d false s -> wp (copy_pipeline fuel cb src_fd dst_fd src dst) all_copied (fun _ => True) s.
Proof.
  intros Hs. unfold copy_pipeline. wp_step. eapply wp_mono; [apply copy_pipe_run_ok| |done].
  { right; right. exists d, d, false. split; [|done]. repeat (split; [done|]). by rewrite app_nil_r. }
  intros [p how] s' (x & <- & Hfin & Hx). do 2 wp_step.
  unfold copy_finished in Hfin. destruct (ks_reader x) eqn:Er; try done.
  destruct (ks_drain x) as [| | | |e'] eqn:Ed; try done. injection Hfin as ->.
  destruct Hx as [Hx|[Hx|(d' & w' & eof & Hx & Hf)]].
  - unfold copy_failed in Hx. rewrite Er, Ed in Hx. destruct how as [|e'|]; [|not_ok|].
    + destruct Hx as [?|[[? _]|(? & ? & ? & _)]]; [done| |done].
      destruct (Z.eqb_spec (kp_reader_err (ks_pipe x)) 0); [done|]. not_ok.
    + wp_case; not_ok.
  - destruct Hx as ([?|?] & _); congruence.
  - destruct Hx as (He & _ & Heof & Hw). rewrite Er in Heof. rewrite Ed in Hw. destruct Hw as (-> & _ & ->).
    rewrite He. cbn [Z.eqb negb]. wp_step. intros _. exists w'. subst eof. by copied_now.
Qed.

Lemma serial_write_copied n rest d w eof s :
  copied d w eof s ->
  wp (serial_write n dst_fd rest) (fun r s' => r = None -> copied d (w ++ rest) eof s') (fun _ => True) s.
Proof.
  revert rest w s. induction n as [|n IH]; intros rest w s Hs; [done|]. cbn [serial_write].
  destruct rest as [|c l]; [wp_step; by rewrite app_nil_r|]. set (rest := c :: l). clearbody rest.
  do 4 wp_step. apply (write_copied _ _ _ _ _ _ _ _ Hs) in H. destruct (0 <? r).
  - eapply wp_mono; [by apply IH| |done]. intros res s' Hr He. specialize (Hr He).
    by rewrite <- app_assoc, take_drop in Hr.
  - rewrite app_nil_r in H. wp_case; [by apply IH|]. by wp_step.
Qed.

Lemma serial_copy_copied n size src dst written last d s :
  copied d d false s ->
  wp (serial_copy fuel cb percent n src_fd dst_fd size src dst written last) all_copied (fun _ => True) s.
Proof.
  revert written last d s. induction n as [|n IH]; intros written last d s Hs; [done|]. cbn [serial_copy].
  do 2 wp_step. apply (read_copied _ _ _ _ _ _ _ _ Hs) in H. destruct r as [[|c l]|].
  - wp_step. intros _. exists d. by rewrite app_nil_r in H.
  - set (b := c :: l) in *. assert (b <> []) as Hb by done. clearbody b.
    rewrite bool_decide_false in H by done. wp_step. eapply wp_mono; [by apply serial_write_copied| |done].
    intros [e'|] s1 Hw; cbv beta iota; [not_ok|]. specialize (Hw eq_refl).
    wp_step. eapply wp_mono with (Q := fun _ => copied (d ++ b) (d ++ b) false); [|clear s1 Hw; intros _ s1 Hw|done].
    { wp_case; [by apply copy_log_copied | by wp_step]. }
    wp_step. eapply wp_mono; [by apply report_progress_copied| |done]. intros [|] s2 Hp; cbv beta iota; [not_ok|].
    by eapply IH.
  - destruct H as [Hc _]. do 2 wp_step. wp_case; [by eapply IH|not_ok].
Qed.

Lemma copy_serially_copied size src dst d s :
  copied d d false s ->
  wp (copy_serially fuel cb percent src_fd dst_fd size src dst) all_copied (fun _ => True) s.
Proof.
  intros Hs. unfold copy_serially. wp_step. eapply wp_mono; [by apply copy_log_copied| |done].
  intros ? s1 H1. do 2 wp_step. wp_case; [|do 2 wp_step; wp_case; wp_case; not_ok].
  eapply serial_copy_copied. copied_now. exact H1.
Qed.

Lemma copy_contents_copied size src dst s :
  os_trace (sysw s) = old ->
  wp (copy_contents fuel cb percent src_fd dst_fd size src dst) all_copied (fun _ => True) s.
Proof.
  intros Ht. assert (copied [] [] false s) as Hs by (by exists []). clear Ht. unfold copy_contents.
  do 6 wp_step. match goal with |- wp _ _ _ ?s' => assert (copied [] [] false s') as Hs1 end.
  { repeat copied_now. done. }
  destruct r1 as [[in_use peak] failures]. wp_step.
  eapply wp_mono; [apply copy_log_copied; exact Hs1| |done]. clear Hs Hs1. intros ? s1 Hs1. wp_case.
  - do 2 wp_step. match goal with |- wp _ _ _ ?s' => assert (copied [] [] false s') as Hs2 end.
    { by copied_now. }
    wp_case; [by eapply copy_pipeline_copied|]. wp_step.
    eapply wp_mono; [apply copy_log_copied; exact Hs2| |done]. intros ? s2 Hs3. eapply copy_serially_copied; exact Hs3.
  - wp_step. eapply wp_mono; [apply copy_log_copied; exact Hs1| |done]. intros ? s2 Hs3.
    eapply copy_serially_copied; exact Hs3.
Qed.

End flow.

(** ** The requests of a copy *)

Section requests.
Context {W : Type} {os : OS W} (fuel : nat).
Context (cb : option (Z -> M (sysst W) Z)) (Hcb : inert_cb cb) (percent : Z -> Z -> bytes).
Context (K : event -> Prop) {HK : Quiet K}.
Abbreviation keeps m := (hoare (inv (W := W) (fun _ : copy_state => True) K) m (fun _ => True)).

Lemma keeps_log text : keeps (copy_log text).
Proof. unfold copy_log, log_msg. hgo. Qed.

Lemma io_cb f c : cb = Some f -> hoare (io_inv K) (f c) (fun _ => True).
Proof.
  intros Ef s Hs. split; [|done]. destruct (Hcb f Ef c s) as (new & Ht & Hn). unfold io_inv. rewrite Ht.
  apply Forall_app. split; [|done]. eapply Forall_impl; [exact Hn|]. intros e [He _]. by apply quiet.
Qed.

#[local] Hint Resolve keeps_log : hoare.

Lemma keeps_report n : keeps (report_progress cb n).
Proof. unfold report_progress. pose proof io_cb as Hf. destruct cb; hgo. Qed.

#[local] Hint Resolve keeps_report : hoare.

Lemma keeps_reader_step fd x : keeps (reader_step fd x).
Proof. unfold reader_step. hgo. Qed.

Lemma keeps_drain_step fd x : keeps (drain_step cb fd x).
Proof. unfold drain_step. hgo. Qed.

#[local] Hint Resolve keeps_reader_step keeps_drain_step : hoare.

Lemma keeps_copy_pipe_run n sfd dfd x : keeps (copy_pipe_run cb n sfd dfd x).
Proof. revert x. induction n as [|n IH]; intros x; cbn [copy_pipe_run]; hgo. Qed.

#[local] Hint Resolve keeps_copy_pipe_run : hoare.

Lemma keeps_pipeline sfd dfd src dst : keeps (copy_pipeline fuel cb sfd dfd src dst).
Proof. unfold copy_pipeline. hgo. Qed.

Lemma keeps_serial_write n fd rest : keeps (serial_write n fd rest).
Proof. revert rest. induction n as [|n IH]; intros rest; cbn [serial_write]; hgo. Qed.

#[local] Hint Resolve keeps_pipeline keeps_serial_write : hoare.

Lemma keeps_serial_copy n sfd dfd size src dst written last :
  keeps (serial_copy fuel cb percent n sfd dfd size src dst written last).
Proof. revert written last. induction n as [|n IH]; intros written last; cbn [serial_copy]; hgo. Qed.

#[local] Hint Resolve keeps_serial_copy : hoare.

Lemma keeps_serially sfd dfd size src dst : keeps (copy_serially fuel cb percent sfd dfd size src dst).
Proof. unfold copy_serially. hgo. Qed.

#[local] Hint Resolve keeps_serially : hoare.

Lemma keeps_contents sfd dfd size src dst : keeps (copy_contents fuel cb percent sfd dfd size src dst).
Proof. unfold copy_contents. hgo. Qed.

Lemma keeps_no_room size dst : keeps (copy_no_room size dst).
Proof. unfold copy_no_room. hgo. Qed.

End requests.

(** ** The destination of a copy *)

(** A request on neither file's contents but the temporary one's, apart from
    opening the source for reading. *)
Definition copy_ev (src tmp : bytes) (e : event) : Prop :=
  fs_paths e = [] \/ fs_paths e = [tmp] \/ exists r, e = Ev (SysOpen src O_RDONLY 0) r.

#[export] Instance copy_ev_quiet src tmp : Quiet (copy_ev src tmp).
Proof. intros e He. by left. Qed.

(** In this trace the source was read to its end and what was read, and
    nothing else, was written to the temporary file. *)
Definition complete_copy (src tmp : bytes) (tr : list event) : Prop :=
  exists sfd dfd flags mode,
    Ev (SysOpen src O_RDONLY 0) sfd ∈ tr /\ Ev (SysOpen tmp flags mode) dfd ∈ tr /\
    sent_on dfd tr = read_on sfd tr /\ read_eof_on sfd tr = true.

(** The trace up to the rename, and from it on. *)
Definition replaced (src dst tmp : bytes) (ok : Z) (tr : list event) : Prop :=
  exists after before, tr = after ++ Ev (SysRename tmp dst) ok :: before /\
    Forall (copy_ev src tmp) after /\ Forall (copy_ev src tmp) before /\ complete_copy src tmp before.

Definition copy_outcome (src dst tmp : bytes) (r : option ftp_error_t) (tr : list event) : Prop :=
  (r <> Some FTP_OK /\ Forall (copy_ev src tmp) tr) \/
  exists ok, replaced src dst tmp ok tr /\ (r = Some FTP_OK -> 0 <= ok).

Section atomic.
Context {W : Type} {os : OS W} {Hos : SaneOS W} (fuel : nat).
Context (cb : option (Z -> M (sysst W) Z)) (Hcb : inert_cb cb) (percent : Z -> Z -> bytes).
Context (src dst tmp : bytes).

Abbreviation outcome := (fun r s => copy_outcome src dst tmp (Some r) (os_trace (sysw s))).
Abbreviation cut := (fun s => copy_outcome src dst tmp None (os_trace (sysw s))).

Lemma complete_copy_inert e tr : inert e -> complete_copy src tmp tr -> complete_copy src tmp (e :: tr).
Proof.
  intros [_ He] (sfd & dfd & fl & md & H1 & H2 & H3 & H4). exists sfd, dfd, fl, md.
  unfold read_eof_on in *. simpl. destruct (He sfd) as (-> & _ & ->), (He dfd) as (_ & -> & _).
  rewrite !app_nil_r. repeat split; [by right|by right|done|done].
Qed.

Lemma copy_outcome_event r e tr :
  copy_ev src tmp e -> copy_outcome src dst tmp r tr -> copy_outcome src dst tmp r (e :: tr).
Proof.
  intros He [[Hr Ht]|(ok & (after & before & -> & Ha & Hb & Hc) & Hok)].
  - left. split; [done|]. by constructor.
  - right. exists ok. split; [|done]. exists (e :: after), before. repeat split; [by constructor|done..].
Qed.

Lemma copy_cleanup_outcome sfd dfd err s :
  copy_outcome src dst tmp (Some err) (os_trace (sysw s)) ->
  wp (copy_cleanup sfd dfd tmp err) outcome cut s.
Proof.
  intros Hs. unfold copy_cleanup.
  apply wp_seq with (Q := fun _ => outcome err); [|clear s Hs; intros _ s Hs].
  { wp_case; repeat wp_step; [|done]. apply copy_outcome_event; [by left|done]. }
  apply wp_seq with (Q := fun _ => outcome err); [|clear s Hs; intros _ s Hs].
  { wp_case; repeat wp_step; [|done]. apply copy_outcome_event; [by left|done]. }
  apply wp_seq with (Q := fun _ => outcome err); [|clear s Hs; intros _ s Hs; by wp_step].
  wp_case; repeat wp_step; [done|]. apply copy_outcome_event; [by right; left|done].
Qed.

Lemma copy_done_outcome sfd dfd s :
  Forall (copy_ev src tmp) (os_trace (sysw s)) -> complete_copy src tmp (os_trace (sysw s)) ->
  wp (copy_done sfd dfd tmp dst) outcome cut s.
Proof.
  intros Hf Hc. unfold copy_done.
  set (P := fun s : st copy_state W => Forall (copy_ev src tmp) (os_trace (sysw s)) /\ complete_copy src tmp (os_trace (sysw s))).
  assert (P s) as HP by done. clear Hf Hc.
  assert (forall s o er ss e, P s -> inert e -> P (St ss (SysSt o er (e :: os_trace (sysw s))))) as Hin.
  { intros s0 o er ss e [Hf Hc] He. split; [constructor; [left; apply He|done]|by apply complete_copy_inert]. }
  apply wp_seq with (Q := fun _ => P); [|clear s HP; intros _ s HP].
  { wp_case; repeat wp_step; [|done]. by apply Hin. }
  apply wp_seq with (Q := fun _ => P); [|clear s HP; intros _ s HP].
  { wp_case; repeat wp_step; [|done]. by apply Hin. }
  apply wp_seq with (Q := fun _ => P); [|clear s HP; intros _ s HP].
  { apply wp_io. unfold log_msg. wp_step. by apply Hin. }
  do 2 wp_step. destruct HP as [Hf Hc].
  assert (forall r', (r' = Some FTP_OK -> 0 <= r) ->
    copy_outcome src dst tmp r' (Ev (SysRename tmp dst) r :: os_trace (sysw s))) as Ho.
  { intros r' Hr'. right. exists r. split; [|done]. by exists [], (os_trace (sysw s)). }
  wp_case; [|wp_step; apply Ho; zbool; lia].
  do 3 wp_step. apply wp_io. unfold log_msg. repeat wp_step. apply copy_outcome_event; [by left|]. by apply Ho.
Qed.

(** Before any data moves; [fd] is the source's descriptor once it is open. *)
Definition early (e : event) : Prop := copy_ev src tmp e /\ still e.
Definition started (fd : option Z) (s : st copy_state W) : Prop :=
  Forall early (os_trace (sysw s)) /\
  forall sfd, fd = Some sfd -> Ev (SysOpen src O_RDONLY 0) sfd ∈ os_trace (sysw s).

Lemma started_inert fd s o er ss e :
  started fd s -> inert e -> started fd (St ss (SysSt o er (e :: os_trace (sysw s)))).
Proof.
  intros [Hf Hi] [Hp He]. split.
  - constructor; [|done]. split; [by left|done].
  - intros sfd E. right. auto.
Qed.

Lemma started_outcome fd r s : r <> Some FTP_OK -> started fd s -> copy_outcome src dst tmp r (os_trace (sysw s)).
Proof. intros Hr [Hs _]. left. split; [done|]. eapply Forall_impl; [exact Hs|]. by intros e []. Qed.

Lemma copy_log_started text fd s : started fd s -> wp (copy_log text) (fun _ => started fd) cut s.
Proof. intros Hs. apply wp_io. unfold log_msg. wp_step. by apply started_inert. Qed.

Lemma copy_no_room_started size fd s : started fd s -> wp (copy_no_room size dst) (fun _ => started fd) cut s.
Proof.
  intros Hs. unfold copy_no_room. wp_case; [by wp_step|]. do 2 wp_step.
  match goal with |- wp _ _ _ ?s' => assert (started fd s') as Hs1 by (by apply started_inert) end.
  destruct r as [[bavail frsize]|]; [|by wp_step]. wp_case; [|by wp_step].
  eapply wp_seq; [apply copy_log_started; exact Hs1|]. intros ? s1 Hs2. by repeat wp_step.
Qed.

(** A failure before any data moved. *)
Lemma copy_abandon sfd dfd err fd text e s :
  err <> FTP_OK -> started fd s ->
  wp (_ ← copy_log text; _ ← upd (set_out_errno e); copy_cleanup sfd dfd tmp err) outcome cut s.
Proof.
  intros He Hs. eapply wp_seq; [by apply copy_log_started|]. intros ? s1 Hs1. do 2 wp_step.
  apply copy_cleanup_outcome. eapply started_outcome; [congruence|exact Hs1].
Qed.

(** The contents are copied and what was moved is complete on success. *)
Lemma copy_contents_started sfd dfd size flags mode s :
  started (Some sfd) s -> Ev (SysOpen tmp flags mode) dfd ∈ os_trace (sysw s) ->
  wp (copy_contents fuel cb percent sfd dfd size src dst)
    (fun r s' => Forall (copy_ev src tmp) (os_trace (sysw s')) /\
                 (r = FTP_OK -> complete_copy src tmp (os_trace (sysw s')))) cut s.
Proof.
  intros [Hs Hi] Hd. specialize (Hi sfd eq_refl).
  assert (Forall (copy_ev src tmp) (os_trace (sysw s))) as Hf by (eapply Forall_impl; [exact Hs|]; by intros e []).
  eapply wp_mono; [apply wp_and; [by eapply (copy_contents_copied fuel cb Hcb percent sfd dfd)|]| |].
  - eapply wp_hoare; [apply (keeps_contents fuel cb Hcb percent (copy_ev src tmp))|by split| |].
    + intros a s' [_ H'] _. exact (H' : (fun _ s' => Forall (copy_ev src tmp) (os_trace (sysw s'))) a s').
    + intros s' [_ H']. exact (H' : (fun s' => Forall (copy_ev src tmp) (os_trace (sysw s'))) s').
  - intros r s' [Hc H']. split; [done|]. intros Hr. destruct (Hc Hr) as (d & new & Ht & _ & H1 & H2 & H3).
    destruct (still_trace sfd (os_trace (sysw s))) as (E1 & _ & E3); [eapply Forall_impl; [exact Hs|]; by intros e []|].
    destruct (still_trace dfd (os_trace (sysw s))) as (_ & E2 & _); [eapply Forall_impl; [exact Hs|]; by intros e []|].
    exists sfd, dfd, flags, mode. rewrite Ht. unfold read_eof_on in *.
    rewrite read_on_app, sent_on_app, existsb_app, E1, E2, H1, H2, H3.
    split_and!; [apply elem_of_app; by right..|done|done].
  - intros s' [_ H']. left. by split.
Qed.

Lemma copy_opened_outcome sfd st s :
  started (Some sfd) s -> wp (copy_opened fuel cb percent sfd st src dst tmp) outcome cut s.
Proof.
  intros Hs. unfold copy_opened. eapply wp_seq; [by apply copy_no_room_started|]. clear s Hs. intros full s Hs.
  wp_case; [wp_step; by eapply started_outcome|]. do 2 wp_step.
  match goal with |- wp _ _ _ ?s' => assert (started (Some sfd) s') as Hs1 end.
  { destruct Hs as [Hf Hi]. split; [constructor; [|done]|].
    - split; [right; by left|done].
    - intros ? E. right. by apply Hi. }
  wp_case.
  - do 2 wp_step. eapply copy_abandon; [by repeat case_match|exact Hs1].
  - eapply wp_seq; [eapply copy_contents_started; [exact Hs1|by left]|]. clear s Hs Hs1 H. intros err s [Hf Hc].
    apply wp_seq with (Q := outcome); [|intros; by apply copy_cleanup_outcome].
    wp_case; [|wp_step; left; split; [|done]].
    + apply copy_done_outcome; [done|]. apply Hc. by eapply bool_decide_eq_true_1.
    + intros [= ->]. done.
Qed.

End atomic.

(** C8: a copy replaces its destination only by a complete file, and only
    then reports success.  Whatever the schedule of the two threads and
    whatever fails, all that [pal_file_copy_atomic_ex] asks of the disk is to
    read the source and to work on one temporary file in the destination's
    directory, except for one rename of that file to the destination; at that
    point the source had been read to its end and exactly the bytes read, in
    order, had been written to the file.  A result of FTP_OK means that the
    rename succeeded. *)
Theorem copy_atomic {W} {os : OS W} {Hos : SaneOS W} fuel cb percent src dst (s : st copy_state W) :
  inert_cb cb -> os_trace (sysw s) = [] ->
  let '(r, s') := pal_file_copy_atomic_ex fuel cb percent src dst s in
  (r <> Some FTP_OK /\ Forall (fun e => fs_paths e = []) (os_trace (sysw s'))) \/
  exists tmp pid, copy_tmp_path dst pid (g_tmp_counter (ses s)) = Some tmp /\
    copy_outcome src dst tmp r (os_trace (sysw s')).
Proof.
  intros Hcb Ht. set (P := fun r (s' : st copy_state W) => (r <> Some FTP_OK /\ Forall (fun e => fs_paths e = []) (os_trace (sysw s'))) \/
    exists tmp pid, copy_tmp_path dst pid (g_tmp_counter (ses s)) = Some tmp /\
    copy_outcome src dst tmp r (os_trace (sysw s'))).
  cut (wp (pal_file_copy_atomic_ex fuel cb percent src dst) (fun r => P (Some r)) (P None) s).
  { unfold wp. by destruct (pal_file_copy_atomic_ex fuel cb percent src dst s) as [[r|] s']. }
  unfold pal_file_copy_atomic_ex. do 2 wp_step.
  destruct r as [st|]; [|repeat wp_step; left; rewrite Ht; split; [by repeat case_match|by repeat constructor]].
  wp_case; [wp_step; left; rewrite Ht; split; [done|by repeat constructor]|]. do 6 wp_step.
  cbn [ses sysw os_trace]. rewrite Ht.
  destruct (copy_tmp_path dst r (g_tmp_counter (ses s))) as [tmp|] eqn:Etmp.
  2: { wp_step. left. split; [done|by repeat constructor]. }
  eapply wp_mono with (Q := fun r s' => copy_outcome src dst tmp (Some r) (os_trace (sysw s')))
    (B := fun s' => copy_outcome src dst tmp None (os_trace (sysw s'))); [|intros; right; eauto..].
  do 2 wp_step. match goal with |- wp _ _ _ ?s' => assert (started src tmp (Some r0) s') as Hs end.
  { split; [|intros ? [= ->]; by left]. repeat (apply Forall_cons; split); [..|constructor];
    (split; [|done]); first [by left | by right; right; eexists]. }
  apply wp_seq with (Q := fun _ => started src tmp (Some r0)); [|clear Hs; intros _ s1 Hs].
  { wp_case; repeat wp_step; [by apply started_inert|done]. }
  wp_case; [do 2 wp_step; eapply copy_abandon; [by repeat case_if|exact Hs]|]. by apply copy_opened_outcome.
Qed.

Lemma copy_atomic_witness :
  let '(r, s') := pal_file_copy_atomic_ex 60 None (fun _ _ => []) (str "/a/x") (str "/b/y")
    (St (CopyState 3 0 0)
       (SysSt (Toy [] [str "hel"; str "lo"] [(str "/a/x", Stat 33188 5 0 0 0)] []
                 [true; true; true; false; false; false; true; true; true; false; false; false;
                  true; true; true; false]) 0 [])) in
  r = Some FTP_OK /\
  ((r <> Some FTP_OK /\ Forall (fun e => fs_paths e = []) (os_trace (sysw s'))) \/
   exists tmp pid, copy_tmp_path (str "/b/y") pid 3 = Some tmp /\
     copy_outcome (str "/a/x") (str "/b/y") tmp r (os_trace (sysw s'))).
Proof.
  pose proof (copy_atomic 60 None (fun _ _ => []) (str "/a/x") (str "/b/y")
    (St (CopyState 3 0 0)
       (SysSt (Toy [] [str "hel"; str "lo"] [(str "/a/x", Stat 33188 5 0 0 0)] []
                 [true; true; true; false; false; false; true; true; true; false; false; false;
                  true; true; true; false]) 0 [])) ltac:(done) eq_refl) as H.
  destruct (pal_file_copy_atomic_ex _ _ _ _ _ _) as [r s'] eqn:E. split; [|exact H].
  assert ((pal_file_copy_atomic_ex 60 None (fun _ _ => []) (str "/a/x") (str "/b/y")
    (St (CopyState 3 0 0)
       (SysSt (Toy [] [str "hel"; str "lo"] [(str "/a/x", Stat 33188 5 0 0 0)] []
                 [true; true; true; false; false; false; true; true; true; false; false; false;
                  true; true; true; false]) 0 []))).1 = Some FTP_OK) as E1 by (vm_compute; reflexivity).
  by rewrite E in E1.
Defined.

(** ** Copies leave their source alone *)

(** The paths whose file or directory entry a request creates, replaces or
    removes. *)
Definition changed_paths (e : event) : list bytes :=
  match e with
  | @Ev A c _ =>
      match c with
      | SysOpen p flags _ => if flags =? O_RDONLY then [] else [p]
      | SysUnlink p | SysRmdir p | SysMkdir p _ => [p]
      | SysRename p q | SysCopyThread p q _ => [p; q]
      | _ => []
      end
  end.

(** The destination, what is below it, and its temporary files. *)
Definition dst_side (dst p : bytes) : Prop :=
  p = dst \/ (dst ++ [SLASH]) `prefix_of` p \/ exists pid n, copy_tmp_path dst pid n = Some p.

Definition spares (dst : bytes) (e : event) : Prop := Forall (dst_side dst) (changed_paths e).

#[export] Instance spares_quiet dst : Quiet (spares dst).
Proof.
  intros [A c r] He. unfold spares. destruct c; simpl in *; try done; by constructor.
Qed.

(** [dst] or a path below it. *)
Definition at_or_below (dst p : bytes) : Prop := p = dst \/ (dst ++ [SLASH]) `prefix_of` p.

Lemma at_or_below_child dst p name q :
  at_or_below dst p -> child_path p name = Some q -> (dst ++ [SLASH]) `prefix_of` q.
Proof.
  unfold child_path. intros [->|[t ->]] H; destruct (_ <=? _); simplify_eq.
  - exists name. by rewrite <- app_assoc.
  - eexists. by rewrite <- !app_assoc.
Qed.

Lemma strrchr_below dst t : exists k, strrchr (dst ++ SLASH :: t) SLASH = Some (length dst + k)%nat.
Proof.
  induction dst as [|c dst [k IH]]; simpl.
  - destruct (strrchr t SLASH) as [k|]; [by exists (S k)|]. by exists 0%nat.
  - rewrite IH. by exists k.
Qed.

Lemma tmp_below dst p pid n q :
  at_or_below dst p -> copy_tmp_path p pid n = Some q -> dst_side dst q.
Proof.
  intros [->|[t ->]] H; [by right; right; eauto|]. right; left. unfold copy_tmp_path in H.
  rewrite <- app_assoc in H. simpl in H. destruct (strrchr_below dst t) as [k E]. rewrite E in H.
  destruct (_ <=? _); [done|]. simplify_eq. rewrite take_app_add' by done.
  destruct k as [|k]; simpl; rewrite <- app_assoc; apply prefix_app; simpl; eexists; reflexivity.
Qed.

Section spares.
Context {W : Type} {os : OS W} (fuel : nat).
Context (cb : option (Z -> M (sysst W) Z)) (Hcb : inert_cb cb) (percent : Z -> Z -> bytes).
Context (dst0 : bytes) (out_given : bool).
Abbreviation K := (spares dst0).
Abbreviation keeps m := (hoare (inv (W := W) (fun _ : copy_state => True) K) m (fun _ => True)).
Abbreviation io_keeps m := (hoare (io_inv (W := W) K) m (fun _ => True)).

Lemma spares_one e p : changed_paths e = [p] -> dst_side dst0 p -> K e.
Proof. intros He Hp. unfold spares. rewrite He. by constructor. Qed.

Lemma spares_none e : changed_paths e = [] -> K e.
Proof. intros He. unfold spares. by rewrite He. Qed.

Lemma spares_rename p q r : dst_side dst0 p -> dst_side dst0 q -> K (Ev (SysRename p q) r).
Proof. intros. unfold spares. simpl. by rewrite !Forall_cons. Qed.

Lemma dst_side_below p : at_or_below dst0 p -> dst_side dst0 p.
Proof. intros [->|Hp]; [by left | right; by left]. Qed.

#[local] Hint Extern 1 (spares _ _) =>
  first [ by apply spares_none | eapply spares_one; [reflexivity|] | apply spares_rename ] : hoare.
#[local] Hint Resolve dst_side_below : hoare.

Lemma spares_remove_entries n remove_dir dir path :
  at_or_below dst0 path -> (forall p, at_or_below dst0 p -> io_keeps (remove_dir p)) ->
  io_keeps (remove_entries n remove_dir dir path).
Proof.
  intros Hp Hrec. induction n as [|n IH]; [apply hoare_diverge|]. cbn [remove_entries].
  apply hoare_bind with (Q := fun _ => True); [hgo|]. intros [[name b]|] _; [|by apply hoare_ret].
  destruct (dot_entry name); [exact IH|]. destruct (child_path path name) as [q|] eqn:Eq; [|by apply hoare_ret].
  assert (at_or_below dst0 q) as Hq by (right; by eapply at_or_below_child). unfold log_msg. hgo.
Qed.

Lemma spares_remove_recursive left path :
  at_or_below dst0 path -> io_keeps (pal_dir_remove_recursive fuel left path).
Proof.
  revert path. induction left as [|left IH]; intros path Hp; cbn [pal_dir_remove_recursive]; [hgo|].
  pose proof (fun dir => spares_remove_entries fuel (pal_dir_remove_recursive fuel left) dir path Hp IH).
  unfold log_msg. hgo.
Qed.

Lemma spares_cleanup sfd dfd tmp err : dst_side dst0 tmp -> keeps (copy_cleanup sfd dfd tmp err).
Proof. intros Ht. unfold copy_cleanup. hgo. Qed.

#[local] Hint Resolve keeps_log keeps_contents keeps_no_room spares_cleanup : hoare.

Lemma spares_done sfd dfd tmp dst : dst_side dst0 tmp -> at_or_below dst0 dst -> keeps (copy_done sfd dfd tmp dst).
Proof. intros Ht Hd. unfold copy_done. hgo. Qed.

#[local] Hint Resolve spares_done : hoare.

Lemma spares_opened sfd st src dst tmp :
  dst_side dst0 tmp -> at_or_below dst0 dst -> keeps (copy_opened fuel cb percent sfd st src dst tmp).
Proof. intros Ht Hd. unfold copy_opened. hgo. Qed.

#[local] Hint Resolve spares_opened : hoare.

Lemma spares_atomic src dst : at_or_below dst0 dst -> keeps (pal_file_copy_atomic_ex fuel cb percent src dst).
Proof.
  intros Hd. pose proof (fun pid n => tmp_below dst0 dst pid n). unfold pal_file_copy_atomic_ex. hgo.
Qed.

Lemma spares_leaf src dst : at_or_below dst0 dst -> keeps (copy_leaf fuel cb percent true out_given src dst).
Proof. intros Hd. pose proof (spares_atomic src dst Hd). unfold copy_leaf, xdev_warn. hgo. Qed.

#[local] Hint Resolve spares_leaf spares_remove_recursive : hoare.

Lemma spares_entries n copy dir src dst :
  at_or_below dst0 dst -> (forall p q, at_or_below dst0 q -> keeps (copy p q)) ->
  keeps (copy_entries n copy dir src dst).
Proof.
  intros Hd Hrec. induction n as [|n IH]; [apply hoare_diverge|]. cbn [copy_entries].
  apply hoare_bind with (Q := fun _ => True); [hgo|]. intros [[name b]|] _; [|by apply hoare_ret].
  destruct (dot_entry name); [exact IH|]. destruct (child_path src name) as [p|]; [|by apply hoare_ret].
  destruct (child_path dst name) as [q|] eqn:Eq; [|by apply hoare_ret].
  assert (at_or_below dst0 q) as Hq by (right; by eapply at_or_below_child). hgo.
Qed.

Lemma spares_tree left top src dst :
  at_or_below dst0 dst -> keeps (pal_copy_cross_device_r_ex fuel cb percent true out_given left top src dst).
Proof.
  revert top src dst. induction left as [|left IH]; intros top src dst Hd; cbn [pal_copy_cross_device_r_ex]; [hgo|].
  pose proof (fun dir => spares_entries fuel _ dir src dst Hd (IH false)). unfold xdev_warn. hgo.
Qed.

End spares.
