(* ===== verification/CopyThreads.v ===== *)
(** * The threads that copy: [src/ftp_commands.c] and [src/http_api.c]

    [ftp_copy_thread_func] runs a copy or a move for an FTP session,
    [copy_thread_fn] a copy for the HTTP interface; the latter reports its
    progress and is paused and cancelled through cells shared with the HTTP
    thread. *)

From S2P Require Import Prelude CLib FtpTypes Os PalCopy PalCopyFile.
From S2P Require Import FtpState FtpResolve FtpInv PalCopySpec.

Section threads.
Context {W : Type} `{OS W} (fuel : nat) (percent : Z -> Z -> bytes).

(** The state a thread starts with: [counter] is [g_tmp_counter], the other
    two cells are its local variables. *)
Definition ftp_copy_thread_func (src_path dst_path : bytes) (is_move : Z) : M (st copy_state W) unit :=
  _ ← sysc (SysLog (str "[COPY] Background task started"));
  _ ← upd (set_out_errno 0);
  err ← pal_file_copy_recursive_ex fuel None percent true src_path dst_path (if is_move =? 0 then 1 else 0);
  _ ← sysc (SysStore SessionCopyInProgress 0);
  if bool_decide (err = FTP_OK) then sysc (SysLog (str "[COPY] Background task completed successfully"))
  else
    copy_errno ← ask out_errno;
    copy_log (str "[COPY] Background task failed: err=" ++ fmt_d (err_code err) ++ str " errno="
              ++ fmt_d copy_errno).

(** The loop that waits while the copy is paused: true when it is cancelled. *)
Fixpoint wait_paused (n : nat) : M (sysst W) bool :=
  match n with
  | O => diverge
  | S n' =>
      paused ← sys_call (SysLoad CpPaused);
      if paused =? 0 then mret false
      else
        cancel ← sys_call (SysLoad CpCancel);
        if negb (cancel =? 0) then mret true
        else
          _ ← sys_call (SysUsleep 100000);
          wait_paused n'
  end.

Definition copy_progress_cb (bytes_copied : Z) : M (sysst W) Z :=
  _ ← sys_call (SysStore CpBytesCopied bytes_copied);
  cancelled ← wait_paused fuel;
  if (cancelled : bool) then mret (-1)
  else
    cancel ← sys_call (SysLoad CpCancel);
    mret (if negb (cancel =? 0) then -1 else 0).

Definition copy_thread_fn (src dst : bytes) : M (st copy_state W) unit :=
  _ ← upd (set_out_errno 0);
  rc ← pal_file_copy_recursive_ex fuel (Some copy_progress_cb) percent true src dst 1;
  failed ← (if negb (bool_decide (rc = FTP_OK)) then mret true
            else cancel ← sysc (SysLoad CpCancel); mret (negb (cancel =? 0)));
  _ ← (if (failed : bool) then
         saved_errno ← ask out_errno;
         _ ← sysc (SysStore CpError 1);
         _ ← sysc (SysStore CpErrorCode (err_code rc));
         sysc (SysStore CpErrorErrno saved_errno)
       else mret tt);
  _ ← sysc (SysStore CpActive 0);
  sysc (SysStore CpDone 1).

End threads.

(** ** The progress callback *)

Section callback.
Context {W : Type} {os : OS W} (fuel : nat).

Lemma wait_paused_inert n : emits inert (wait_paused n).
Proof. induction n as [|n IH]; cbn [wait_paused]; egos done. Qed.

#[local] Hint Resolve wait_paused_inert : emits.

Lemma copy_progress_cb_inert : inert_cb (Some (copy_progress_cb fuel)).
Proof.
  intros f [= <-] c. change (emits inert (copy_progress_cb fuel c)). unfold copy_progress_cb. egos done.
Qed.

End callback.

Section source.
Context {W : Type} {os : OS W} (fuel : nat) (percent : Z -> Z -> bytes) (src dst : bytes).
Abbreviation keeps m := (hoare (inv (W := W) (fun _ : copy_state => True) (spares dst)) m (fun _ => True)).

Lemma spares_recursive cb out_given keep_src :
  inert_cb cb -> keep_src <> 0 ->
  keeps (pal_file_copy_recursive_ex fuel cb percent out_given src dst keep_src).
Proof.
  intros Hcb Hk. unfold pal_file_copy_recursive_ex. destruct (Z.eqb_spec keep_src 0); [done|]. simpl negb.
  apply hoare_bind with (Q := fun _ => True); [by apply hoare_upd|]. intros _ _.
  apply spares_tree; [done|]. by left.
Qed.

Lemma spares_ftp_thread : keeps (ftp_copy_thread_func fuel percent src dst 0).
Proof.
  pose proof (spares_recursive None true 1 ltac:(done) ltac:(done)) as Hr.
  pose proof (keeps_log (W := W) (spares dst)). unfold ftp_copy_thread_func. simpl. hgo.
Qed.

Lemma spares_http_thread : keeps (copy_thread_fn fuel percent src dst).
Proof.
  pose proof (spares_recursive _ true 1 (copy_progress_cb_inert fuel) ltac:(done)) as Hr.
  unfold copy_thread_fn. hgo.
Qed.

End source.

(** C17: a copy never changes its source.  Every request by which a copy thread
    (the HTTP server's, or an FTP session's that was not told to move) creates,
    replaces or removes something names the destination, a path below it, or
    a temporary file in the destination's directory; this includes the
    rollback after a failure. *)
Theorem copy_spares_source {W} {os : OS W} fuel percent src dst (s : st copy_state W) :
  os_trace (sysw s) = [] ->
  Forall (spares dst) (os_trace (sysw (copy_thread_fn fuel percent src dst s).2)) /\
  Forall (spares dst) (os_trace (sysw (ftp_copy_thread_func fuel percent src dst 0 s).2)).
Proof.
  intros Ht. split.
  - apply (spares_http_thread fuel percent src dst s). split; [done|]. by rewrite Ht.
  - apply (spares_ftp_thread fuel percent src dst s). split; [done|]. by rewrite Ht.
Qed.

Lemma copy_spares_source_witness :
  let s := St (CopyState 0 0 0)
              (SysSt (Toy [] [str "data"] [(str "/a", Stat 16877 0 0 0 0); (str "/a/f", Stat 33188 4 0 0 0)]
                        [(str "f", false)] [true; true; true; false; false; false; true; true; true; false]) 0 []) in
  Forall (spares (str "/b")) (os_trace (sysw (copy_thread_fn 30 (fun _ _ => []) (str "/a") (str "/b") s).2)).
Proof.
  intros s. exact (proj1 (copy_spares_source 30 (fun _ _ => []) (str "/a") (str "/b") s eq_refl)).
Defined.

(** ** A schedule on which a copy stops for good *)

Section deadlock.
Context {W : Type} {os : OS W} (cb : option (Z -> M (sysst W) Z)) (src_fd dst_fd : Z).

(** [k] steps of the two threads. *)
Fixpoint copy_steps (k : nat) (x : copy_sys) : M (st copy_state W) copy_sys :=
  match k with
  | O => mret x
  | S k' =>
      match copy_finished x with
      | Some _ => diverge
      | None =>
          who ← sysc SysSchedule;
          x ← (if (who : bool) then reader_step src_fd x else drain_step cb dst_fd x);
          copy_steps k' x
      end
  end.

Definition both_asleep (x : copy_sys) : Prop := ks_reader x = RdSleep /\ ks_drain x = DrSleep.

Lemma both_asleep_forever n x s : both_asleep x -> (copy_pipe_run cb n src_fd dst_fd x s).1 = None.
Proof.
  intros [Hr Hd]. revert s. induction n as [|n IH]; intros s; [done|]. cbn [copy_pipe_run].
  unfold copy_finished. rewrite Hr. unfold mbind, M_bind, sysc, io, sys_call.
  destruct (os_step SysSchedule _) as [[[|] e] w]; cbn.
  - unfold reader_step. rewrite Hr. apply IH.
  - unfold drain_step. rewrite Hd. apply IH.
Qed.

Lemma copy_steps_asleep k x s x' s' n :
  copy_steps k x s = (Some x', s') -> both_asleep x' -> (copy_pipe_run cb n src_fd dst_fd x s).1 = None.
Proof.
  revert x s n. induction k as [|k IH]; intros x s n.
  - intros [= -> ->]. apply both_asleep_forever.
  - destruct n as [|n]; [done|]. cbn [copy_steps copy_pipe_run]. destruct (copy_finished x); [done|].
    unfold mbind, M_bind. destruct (sysc SysSchedule s) as [[who|] s1]; [|done].
    set (step := if who then reader_step src_fd x else drain_step cb dst_fd x).
    destruct (step s1) as [[x1|] s2]; [|done]. apply IH.
Qed.

End deadlock.

(** C27: the pipelined copy can stop for good, with the second buffer already
    written before the first.  The reader fills both buffers before the other
    thread first takes the lock; that thread then drains the second one, and
    both wait for each other however they are scheduled from there: the copy
    never ends, and neither progress nor cancellation is looked at again. *)
Theorem copy_pipe_deadlock rest :
  let s := St (CopyState 0 0 0)
              (SysSt (Toy [] [str "first"; str "second"] [] []
                        ([true; true; true; true; true; true; false; false; false; false; true] ++ rest)) 0 []) in
  exists x s', copy_steps None 11 12 11 copy_pipe_init s = (Some x, s') /\ both_asleep x /\
    read_on 11 (os_trace (sysw s')) = str "firstsecond" /\
    sent_on 12 (os_trace (sysw s')) = str "second" /\
    forall n, (copy_pipe_run None n 11 12 copy_pipe_init s).1 = None.
Proof.
  intros s. eexists _, _. split; [vm_compute; reflexivity|]. split; [done|]. split; [reflexivity|].
  split; [reflexivity|]. intros n. eapply (copy_steps_asleep None 11 12 11); [vm_compute; reflexivity|done].
Qed.

(** ** A move that fails half-way

    A small file system in memory, to run the engine on: the nodes by path,
    the open files with their offsets and the open directories with the names
    still to be read. *)

Inductive node := Dir | File (mode : Z) (content : bytes).

Record memfs := MemFs {
  mf_nodes : list (bytes * node);
  mf_files : list (Z * (bytes * Z));
  mf_dirs : list (Z * list bytes)
}.

Section assoc.
Context {K A : Type} `{EqDecision K}.

Definition find_key (k : K) (l : list (K * A)) : option A := snd <$> find (fun e => bool_decide (e.1 = k)) l.
Definition drop_key (k : K) (l : list (K * A)) : list (K * A) := base.filter (fun e => e.1 <> k) l.
Definition set_key (k : K) (a : A) (l : list (K * A)) : list (K * A) := (k, a) :: drop_key k l.

End assoc.

(** The names in directory [p]. *)
Definition mem_names (p : bytes) (nodes : list (bytes * node)) : list bytes :=
  omap (fun e => match strrchr e.1 SLASH with
                 | Some k => if bool_decide (take k e.1 = p) then Some (drop (S k) e.1) else None
                 | None => None
                 end) nodes.

Definition mem_stat (n : node) : stat_t :=
  match n with
  | Dir => Stat 16877 0 0 0 0
  | File mode content => Stat (Z.lor 32768 mode) (strlen content) 0 0 0
  end.

Definition mem_step {A} (c : sys A) (w : memfs) : A * Z * memfs :=
  let '(MemFs nodes files dirs) := w in
  let fresh {B} (l : list (Z * B)) := 10 + Z.of_nat (length l) in
  match c in sys A return A * Z * memfs with
  | SysStat p =>
      match find_key p nodes with
      | Some n => (Some (mem_stat n), 0, w)
      | None => (None, ENOENT, w)
      end
  | SysOpen p flags mode =>
      if flags =? O_RDONLY then
        match find_key p nodes with
        | Some (File m _) => if Z.testbit m 8 then (fresh files, 0, MemFs nodes ((fresh files, (p, 0)) :: files) dirs)
                             else (-1, EACCES, w)
        | Some Dir => (-1, EISDIR, w)
        | None => (-1, ENOENT, w)
        end
      else (fresh files, 0, MemFs (set_key p (File mode []) nodes) ((fresh files, (p, 0)) :: files) dirs)
  | SysRead fd len =>
      match find_key fd files with
      | Some (p, off) =>
          match find_key p nodes with
          | Some (File _ content) =>
              let b := clip len (drop (Z.to_nat off) content) in
              (Some b, 0, MemFs nodes (set_key fd (p, off + strlen b) files) dirs)
          | _ => (None, EIO, w)
          end
      | None => (None, EBADF, w)
      end
  | SysWrite fd buf =>
      match find_key fd files with
      | Some (p, off) =>
          match find_key p nodes with
          | Some (File m content) =>
              (strlen buf, 0, MemFs (set_key p (File m (take (Z.to_nat off) content ++ buf)) nodes)
                                (set_key fd (p, off + strlen buf) files) dirs)
          | _ => (-1, EIO, w)
          end
      | None => (-1, EBADF, w)
      end
  | SysRename p q =>
      match find_key p nodes with
      | Some n => (0, 0, MemFs (set_key q n (drop_key p nodes)) files dirs)
      | None => (-1, ENOENT, w)
      end
  | SysUnlink p =>
      match find_key p nodes with
      | Some (File _ _) => (0, 0, MemFs (drop_key p nodes) files dirs)
      | Some Dir => (-1, EISDIR, w)
      | None => (-1, ENOENT, w)
      end
  | SysMkdir p _ =>
      match find_key p nodes with
      | Some _ => (-1, EEXIST, w)
      | None => (0, 0, MemFs (set_key p Dir nodes) files dirs)
      end
  | SysRmdir p =>
      match find_key p nodes, mem_names p nodes with
      | Some Dir, [] => (0, 0, MemFs (drop_key p nodes) files dirs)
      | Some Dir, _ => (-1, ENOTEMPTY, w)
      | Some (File _ _), _ => (-1, ENOTDIR, w)
      | None, _ => (-1, ENOENT, w)
      end
  | SysOpendir p =>
      match find_key p nodes with
      | Some Dir => (Some (fresh dirs), 0, MemFs nodes files ((fresh dirs, mem_names p nodes) :: dirs))
      | Some _ => (None, ENOTDIR, w)
      | None => (None, ENOENT, w)
      end
  | SysReaddir d =>
      match find_key d dirs with
      | Some (n :: rest) => (Some (n, false), 0, MemFs nodes files (set_key d rest dirs))
      | _ => (None, 0, w)
      end
  | SysSpawn => (EAGAIN, 0, w)
  | c => let '(r, e, _) := toy_step c (Toy [] [] [] [] []) in (r, e, w)
  end.

#[global] Instance mem_os : OS memfs := @mem_step.

(** Two files in a directory, the second one not readable. *)
Definition mem_example : memfs :=
  MemFs [(str "/s", Dir); (str "/s/a", File 420 (str "precious")); (str "/s/b", File 0 (str "locked"))] [] [].

Definition holds (text : bytes) (e : bytes * node) : bool :=
  match e.2 with File _ content => bool_decide (content = text) | Dir => false end.

