(* ===== verification/Curl.v ===== *)
(** * The HTTP client of the console builds: [src/pal_curl.c]

    A replacement for libcurl: URL parsing, connecting, one request, the
    response headers, three ways of framing a body, redirects.  The handle is
    the component's state; its callbacks are functions of their user data that
    talk to the system.  Doubles are the binary64 numbers of [SpecFloat]; a
    loop that waits for the peer takes fuel. *)

From Stdlib Require Import SpecFloat.
From S2P Require Import Prelude CLib FtpTypes Os.

(** ** Constants *)

Definition CURLE_OK : Z := 0.
Definition CURLE_UNSUPPORTED_PROTOCOL : Z := 1.
Definition CURLE_URL_MALFORMAT : Z := 3.
Definition CURLE_COULDNT_RESOLVE_HOST : Z := 6.
Definition CURLE_COULDNT_CONNECT : Z := 7.
Definition CURLE_PARTIAL_FILE : Z := 18.
Definition CURLE_HTTP_RETURNED_ERROR : Z := 22.
Definition CURLE_WRITE_ERROR : Z := 23.
Definition CURLE_OUT_OF_MEMORY : Z := 27.
Definition CURLE_OPERATION_TIMEDOUT : Z := 28.
Definition CURLE_ABORTED_BY_CALLBACK : Z := 42.
Definition CURLE_TOO_MANY_REDIRECTS : Z := 47.
Definition CURLE_UNKNOWN_OPTION : Z := 48.
Definition CURLE_GOT_NOTHING : Z := 52.
Definition CURLE_SEND_ERROR : Z := 55.
Definition CURLE_RECV_ERROR : Z := 56.

Definition CURL_WRITEFUNC_PAUSE : Z := 268435457.
Definition CURL_ERROR_SIZE : Z := 256.
Definition DEFAULT_UA : bytes := str "zftpd-ps/2.0".
Definition DEFAULT_CONN_MS : Z := 30000.
Definition DEFAULT_TIMEOUT_MS : Z := 0.
Definition DEFAULT_MAX_REDIRS : Z := 10.
Definition HDR_BUF_SIZE : Z := 8192.
Definition REQ_BUF_SIZE : Z := 8192.
Definition BODY_BUF_SIZE : Z := 32768.
Definition PAL_PAUSE_MAX_RETRIES : nat := 20.
Definition PAL_PAUSE_DELAY_US : Z := 100000.
Definition PAL_CHUNKED_DONE : Z := 1000.

(** Conversions to [double] and to [int]. *)
Definition to_double (z : Z) : spec_float := binary_normalize 53 1024 z 0 (z <? 0).
Definition d_add : spec_float -> spec_float -> spec_float := SFadd 53 1024.
Definition d_mul : spec_float -> spec_float -> spec_float := SFmul 53 1024.
Definition d_div : spec_float -> spec_float -> spec_float := SFdiv 53 1024.
(** 1e-6 *)
Definition d_micro : spec_float := S754_finite false 4722366482869645 (-72).
Definition d_zero : spec_float := S754_zero false.

(** ** The handle *)

(** [pal_curl_ctx_t]; a string field is the C string in the array,
    [postfields] and [errbuf] are the caller's buffers, if set. *)
Record pal_curl_ctx_t {W : Type} := CurlCtx {
  url : bytes;
  useragent : bytes;
  range : bytes;
  postfields : option bytes;
  postfieldsize : Z;
  httpheader : list (option bytes);
  errbuf : option bytes;
  write_cb : option (Z -> bytes -> M (sysst W) Z);
  write_data : Z;
  xferinfo_cb : option (Z -> Z -> Z -> M (sysst W) Z);
  xferinfo_data : Z;
  follow_location : Z;
  max_redirs : Z;
  connect_timeout_ms : Z;
  timeout_ms : Z;
  low_speed_limit : Z;
  low_speed_time : Z;
  nobody : Z;
  post : Z;
  verbose : Z;
  noprogress : Z;
  response_code : Z;
  content_length_download : spec_float;
  speed_download : spec_float;
  size_download : spec_float;
  total_time : spec_float
}.
Arguments pal_curl_ctx_t : clear implicits.
Arguments CurlCtx {W}.

Section setters.
Context {W : Type}.
Implicit Types c : pal_curl_ctx_t W.

Definition set_url (v : bytes) c : pal_curl_ctx_t W :=
  CurlCtx v (useragent c) (range c) (postfields c) (postfieldsize c) (httpheader c) (errbuf c)
    (write_cb c) (write_data c) (xferinfo_cb c) (xferinfo_data c) (follow_location c) (max_redirs c)
    (connect_timeout_ms c) (timeout_ms c) (low_speed_limit c) (low_speed_time c) (nobody c) (post c)
    (verbose c) (noprogress c) (response_code c) (content_length_download c) (speed_download c)
    (size_download c) (total_time c).
Definition set_useragent (v : bytes) c : pal_curl_ctx_t W :=
  CurlCtx (url c) v (range c) (postfields c) (postfieldsize c) (httpheader c) (errbuf c) (write_cb
    c) (write_data c) (xferinfo_cb c) (xferinfo_data c) (follow_location c) (max_redirs c)
    (connect_timeout_ms c) (timeout_ms c) (low_speed_limit c) (low_speed_time c) (nobody c) (post c)
    (verbose c) (noprogress c) (response_code c) (content_length_download c) (speed_download c)
    (size_download c) (total_time c).
Definition set_range (v : bytes) c : pal_curl_ctx_t W :=
  CurlCtx (url c) (useragent c) v (postfields c) (postfieldsize c) (httpheader c) (errbuf c)
    (write_cb c) (write_data c) (xferinfo_cb c) (xferinfo_data c) (follow_location c) (max_redirs c)
    (connect_timeout_ms c) (timeout_ms c) (low_speed_limit c) (low_speed_time c) (nobody c) (post c)
    (verbose c) (noprogress c) (response_code c) (content_length_download c) (speed_download c)
    (size_download c) (total_time c).
Definition set_postfields (v : option bytes) c : pal_curl_ctx_t W :=
  CurlCtx (url c) (useragent c) (range c) v (postfieldsize c) (httpheader c) (errbuf c) (write_cb c)
    (write_data c) (xferinfo_cb c) (xferinfo_data c) (follow_location c) (max_redirs c)
    (connect_timeout_ms c) (timeout_ms c) (low_speed_limit c) (low_speed_time c) (nobody c) (post c)
    (verbose c) (noprogress c) (response_code c) (content_length_download c) (speed_download c)
    (size_download c) (total_time c).
Definition set_postfieldsize (v : Z) c : pal_curl_ctx_t W :=
  CurlCtx (url c) (useragent c) (range c) (postfields c) v (httpheader c) (errbuf c) (write_cb c)
    (write_data c) (xferinfo_cb c) (xferinfo_data c) (follow_location c) (max_redirs c)
    (connect_timeout_ms c) (timeout_ms c) (low_speed_limit c) (low_speed_time c) (nobody c) (post c)
    (verbose c) (noprogress c) (response_code c) (content_length_download c) (speed_download c)
    (size_download c) (total_time c).
Definition set_httpheader (v : list (option bytes)) c : pal_curl_ctx_t W :=
  CurlCtx (url c) (useragent c) (range c) (postfields c) (postfieldsize c) v (errbuf c) (write_cb c)
    (write_data c) (xferinfo_cb c) (xferinfo_data c) (follow_location c) (max_redirs c)
    (connect_timeout_ms c) (timeout_ms c) (low_speed_limit c) (low_speed_time c) (nobody c) (post c)
    (verbose c) (noprogress c) (response_code c) (content_length_download c) (speed_download c)
    (size_download c) (total_time c).
Definition set_errbuf (v : option bytes) c : pal_curl_ctx_t W :=
  CurlCtx (url c) (useragent c) (range c) (postfields c) (postfieldsize c) (httpheader c) v
    (write_cb c) (write_data c) (xferinfo_cb c) (xferinfo_data c) (follow_location c) (max_redirs c)
    (connect_timeout_ms c) (timeout_ms c) (low_speed_limit c) (low_speed_time c) (nobody c) (post c)
    (verbose c) (noprogress c) (response_code c) (content_length_download c) (speed_download c)
    (size_download c) (total_time c).
Definition set_write_cb (v : option (Z -> bytes -> M (sysst W) Z)) c : pal_curl_ctx_t W :=
  CurlCtx (url c) (useragent c) (range c) (postfields c) (postfieldsize c) (httpheader c) (errbuf c)
    v (write_data c) (xferinfo_cb c) (xferinfo_data c) (follow_location c) (max_redirs c)
    (connect_timeout_ms c) (timeout_ms c) (low_speed_limit c) (low_speed_time c) (nobody c) (post c)
    (verbose c) (noprogress c) (response_code c) (content_length_download c) (speed_download c)
    (size_download c) (total_time c).
Definition set_write_data (v : Z) c : pal_curl_ctx_t W :=
  CurlCtx (url c) (useragent c) (range c) (postfields c) (postfieldsize c) (httpheader c) (errbuf c)
    (write_cb c) v (xferinfo_cb c) (xferinfo_data c) (follow_location c) (max_redirs c)
    (connect_timeout_ms c) (timeout_ms c) (low_speed_limit c) (low_speed_time c) (nobody c) (post c)
    (verbose c) (noprogress c) (response_code c) (content_length_download c) (speed_download c)
    (size_download c) (total_time c).
Definition set_xferinfo_cb (v : option (Z -> Z -> Z -> M (sysst W) Z)) c : pal_curl_ctx_t W :=
  CurlCtx (url c) (useragent c) (range c) (postfields c) (postfieldsize c) (httpheader c) (errbuf c)
    (write_cb c) (write_data c) v (xferinfo_data c) (follow_location c) (max_redirs c)
    (connect_timeout_ms c) (timeout_ms c) (low_speed_limit c) (low_speed_time c) (nobody c) (post c)
    (verbose c) (noprogress c) (response_code c) (content_length_download c) (speed_download c)
    (size_download c) (total_time c).
Definition set_xferinfo_data (v : Z) c : pal_curl_ctx_t W :=
  CurlCtx (url c) (useragent c) (range c) (postfields c) (postfieldsize c) (httpheader c) (errbuf c)
    (write_cb c) (write_data c) (xferinfo_cb c) v (follow_location c) (max_redirs c)
    (connect_timeout_ms c) (timeout_ms c) (low_speed_limit c) (low_speed_time c) (nobody c) (post c)
    (verbose c) (noprogress c) (response_code c) (content_length_download c) (speed_download c)
    (size_download c) (total_time c).
Definition set_follow_location (v : Z) c : pal_curl_ctx_t W :=
  CurlCtx (url c) (useragent c) (range c) (postfields c) (postfieldsize c) (httpheader c) (errbuf c)
    (write_cb c) (write_data c) (xferinfo_cb c) (xferinfo_data c) v (max_redirs c)
    (connect_timeout_ms c) (timeout_ms c) (low_speed_limit c) (low_speed_time c) (nobody c) (post c)
    (verbose c) (noprogress c) (response_code c) (content_length_download c) (speed_download c)
    (size_download c) (total_time c).
Definition set_max_redirs (v : Z) c : pal_curl_ctx_t W :=
  CurlCtx (url c) (useragent c) (range c) (postfields c) (postfieldsize c) (httpheader c) (errbuf c)
    (write_cb c) (write_data c) (xferinfo_cb c) (xferinfo_data c) (follow_location c) v
    (connect_timeout_ms c) (timeout_ms c) (low_speed_limit c) (low_speed_time c) (nobody c) (post c)
    (verbose c) (noprogress c) (response_code c) (content_length_download c) (speed_download c)
    (size_download c) (total_time c).
Definition set_connect_timeout_ms (v : Z) c : pal_curl_ctx_t W :=
  CurlCtx (url c) (useragent c) (range c) (postfields c) (postfieldsize c) (httpheader c) (errbuf c)
    (write_cb c) (write_data c) (xferinfo_cb c) (xferinfo_data c) (follow_location c) (max_redirs c)
    v (timeout_ms c) (low_speed_limit c) (low_speed_time c) (nobody c) (post c) (verbose c)
    (noprogress c) (response_code c) (content_length_download c) (speed_download c) (size_download
    c) (total_time c).
Definition set_timeout_ms (v : Z) c : pal_curl_ctx_t W :=
  CurlCtx (url c) (useragent c) (range c) (postfields c) (postfieldsize c) (httpheader c) (errbuf c)
    (write_cb c) (write_data c) (xferinfo_cb c) (xferinfo_data c) (follow_location c) (max_redirs c)
    (connect_timeout_ms c) v (low_speed_limit c) (low_speed_time c) (nobody c) (post c) (verbose c)
    (noprogress c) (response_code c) (content_length_download c) (speed_download c) (size_download
    c) (total_time c).
Definition set_low_speed_limit (v : Z) c : pal_curl_ctx_t W :=
  CurlCtx (url c) (useragent c) (range c) (postfields c) (postfieldsize c) (httpheader c) (errbuf c)
    (write_cb c) (write_data c) (xferinfo_cb c) (xferinfo_data c) (follow_location c) (max_redirs c)
    (connect_timeout_ms c) (timeout_ms c) v (low_speed_time c) (nobody c) (post c) (verbose c)
    (noprogress c) (response_code c) (content_length_download c) (speed_download c) (size_download
    c) (total_time c).
Definition set_low_speed_time (v : Z) c : pal_curl_ctx_t W :=
  CurlCtx (url c) (useragent c) (range c) (postfields c) (postfieldsize c) (httpheader c) (errbuf c)
    (write_cb c) (write_data c) (xferinfo_cb c) (xferinfo_data c) (follow_location c) (max_redirs c)
    (connect_timeout_ms c) (timeout_ms c) (low_speed_limit c) v (nobody c) (post c) (verbose c)
    (noprogress c) (response_code c) (content_length_download c) (speed_download c) (size_download
    c) (total_time c).
Definition set_nobody (v : Z) c : pal_curl_ctx_t W :=
  CurlCtx (url c) (useragent c) (range c) (postfields c) (postfieldsize c) (httpheader c) (errbuf c)
    (write_cb c) (write_data c) (xferinfo_cb c) (xferinfo_data c) (follow_location c) (max_redirs c)
    (connect_timeout_ms c) (timeout_ms c) (low_speed_limit c) (low_speed_time c) v (post c) (verbose
    c) (noprogress c) (response_code c) (content_length_download c) (speed_download c)
    (size_download c) (total_time c).
Definition set_post (v : Z) c : pal_curl_ctx_t W :=
  CurlCtx (url c) (useragent c) (range c) (postfields c) (postfieldsize c) (httpheader c) (errbuf c)
    (write_cb c) (write_data c) (xferinfo_cb c) (xferinfo_data c) (follow_location c) (max_redirs c)
    (connect_timeout_ms c) (timeout_ms c) (low_speed_limit c) (low_speed_time c) (nobody c) v
    (verbose c) (noprogress c) (response_code c) (content_length_download c) (speed_download c)
    (size_download c) (total_time c).
Definition set_verbose (v : Z) c : pal_curl_ctx_t W :=
  CurlCtx (url c) (useragent c) (range c) (postfields c) (postfieldsize c) (httpheader c) (errbuf c)
    (write_cb c) (write_data c) (xferinfo_cb c) (xferinfo_data c) (follow_location c) (max_redirs c)
    (connect_timeout_ms c) (timeout_ms c) (low_speed_limit c) (low_speed_time c) (nobody c) (post c)
    v (noprogress c) (response_code c) (content_length_download c) (speed_download c) (size_download
    c) (total_time c).
Definition set_noprogress (v : Z) c : pal_curl_ctx_t W :=
  CurlCtx (url c) (useragent c) (range c) (postfields c) (postfieldsize c) (httpheader c) (errbuf c)
    (write_cb c) (write_data c) (xferinfo_cb c) (xferinfo_data c) (follow_location c) (max_redirs c)
    (connect_timeout_ms c) (timeout_ms c) (low_speed_limit c) (low_speed_time c) (nobody c) (post c)
    (verbose c) v (response_code c) (content_length_download c) (speed_download c) (size_download c)
    (total_time c).
Definition set_response_code (v : Z) c : pal_curl_ctx_t W :=
  CurlCtx (url c) (useragent c) (range c) (postfields c) (postfieldsize c) (httpheader c) (errbuf c)
    (write_cb c) (write_data c) (xferinfo_cb c) (xferinfo_data c) (follow_location c) (max_redirs c)
    (connect_timeout_ms c) (timeout_ms c) (low_speed_limit c) (low_speed_time c) (nobody c) (post c)
    (verbose c) (noprogress c) v (content_length_download c) (speed_download c) (size_download c)
    (total_time c).
Definition set_content_length_download (v : spec_float) c : pal_curl_ctx_t W :=
  CurlCtx (url c) (useragent c) (range c) (postfields c) (postfieldsize c) (httpheader c) (errbuf c)
    (write_cb c) (write_data c) (xferinfo_cb c) (xferinfo_data c) (follow_location c) (max_redirs c)
    (connect_timeout_ms c) (timeout_ms c) (low_speed_limit c) (low_speed_time c) (nobody c) (post c)
    (verbose c) (noprogress c) (response_code c) v (speed_download c) (size_download c) (total_time
    c).
Definition set_speed_download (v : spec_float) c : pal_curl_ctx_t W :=
  CurlCtx (url c) (useragent c) (range c) (postfields c) (postfieldsize c) (httpheader c) (errbuf c)
    (write_cb c) (write_data c) (xferinfo_cb c) (xferinfo_data c) (follow_location c) (max_redirs c)
    (connect_timeout_ms c) (timeout_ms c) (low_speed_limit c) (low_speed_time c) (nobody c) (post c)
    (verbose c) (noprogress c) (response_code c) (content_length_download c) v (size_download c)
    (total_time c).
Definition set_size_download (v : spec_float) c : pal_curl_ctx_t W :=
  CurlCtx (url c) (useragent c) (range c) (postfields c) (postfieldsize c) (httpheader c) (errbuf c)
    (write_cb c) (write_data c) (xferinfo_cb c) (xferinfo_data c) (follow_location c) (max_redirs c)
    (connect_timeout_ms c) (timeout_ms c) (low_speed_limit c) (low_speed_time c) (nobody c) (post c)
    (verbose c) (noprogress c) (response_code c) (content_length_download c) (speed_download c) v
    (total_time c).
Definition set_total_time (v : spec_float) c : pal_curl_ctx_t W :=
  CurlCtx (url c) (useragent c) (range c) (postfields c) (postfieldsize c) (httpheader c) (errbuf c)
    (write_cb c) (write_data c) (xferinfo_cb c) (xferinfo_data c) (follow_location c) (max_redirs c)
    (connect_timeout_ms c) (timeout_ms c) (low_speed_limit c) (low_speed_time c) (nobody c) (post c)
    (verbose c) (noprogress c) (response_code c) (content_length_download c) (speed_download c)
    (size_download c) v.

End setters.

(** [http_resp_t] without [status_code], which nothing reads. *)
Record http_resp_t := HttpResp {
  content_length : Z;
  chunked : Z;
  location : bytes
}.

(** ** Strings *)

Definition skip_ws (s : bytes) : bytes := drop_while (fun c => (c =? 32) || (c =? 9)) s.

(** The value of a header line that starts with [prefix]. *)
Definition header_field (line prefix : bytes) : option bytes :=
  if strncaseeq line prefix (length prefix) then Some (drop (length prefix) line) else None.

(** What is in the buffer, [buf_size] and a formatted text; [None] for -1. *)
Definition append_str (buf_size : Z) (buf text : bytes) : option bytes :=
  if buf_size <=? strlen buf then None
  else if buf_size - strlen buf <=? strlen text then None
  else Some (buf ++ text).

(** ** URLs *)

(** An error code, or host, port and path. *)
Definition url_parse (url : bytes) (host_size path_size : Z) : Z + bytes * Z * bytes :=
  if (host_size <? 2) || (path_size <? 2) then inl CURLE_URL_MALFORMAT
  else if strneq url (str "http://") 7 then
    let p := drop 7 url in
    let slash := strchr p SLASH in
    let colon := match strchr p COLON, slash with
                 | Some c, Some sl => if (sl <? c)%nat then None else Some c
                 | c, _ => c
                 end in
    let host_len := match colon, slash with
                    | Some c, _ => c
                    | None, Some sl => sl
                    | None, None => length p
                    end in
    if (Z.of_nat host_len =? 0) || (host_size <=? Z.of_nat host_len) then inl CURLE_URL_MALFORMAT
    else
      let host := take host_len p in
      let port :=
        match colon with
        | None => Some 80
        | Some c =>
            let port_end := match slash with Some sl => sl | None => length p end in
            let port_len := (port_end - S c)%nat in
            if (Z.of_nat port_len =? 0) || (6 <=? Z.of_nat port_len) then None
            else
              match strtoll (take port_len (drop (S c) p)) with
              | (lport, []) => if (lport <=? 0) || (65535 <? lport) then None else Some lport
              | _ => None
              end
        end in
      match port with
      | None => inl CURLE_URL_MALFORMAT
      | Some port =>
          let path_start := match slash with Some sl => drop sl p | None => [SLASH] end in
          let path := match strchr path_start 35 with
                      | Some k => take k path_start
                      | None => path_start
                      end in
          let path := match path with [] => [SLASH] | _ => path end in
          if path_size <=? strlen path then inl CURLE_URL_MALFORMAT
          else inr (host, port, path)
      end
  else if strneq url (str "https://") 8 then inl CURLE_UNSUPPORTED_PROTOCOL
  else inl CURLE_URL_MALFORMAT.

(** The URL a Location header names; [strncpy] and [snprintf] truncate. *)
Definition resolve_redirect (base_url loc : bytes) (out_size : Z) : bytes :=
  if strneq loc (str "http://") 7 || strneq loc (str "https://") 8 then take (Z.to_nat (out_size - 1)) loc
  else
    match url_parse base_url 256 8 with
    | inl _ => take (Z.to_nat (out_size - 1)) loc
    | inr (host, port, _) =>
        snprintf_buf out_size
          (str "http://" ++ host ++ COLON :: fmt_d port
           ++ match loc with 47 :: _ => loc | _ => SLASH :: loc end)
    end.

(** ** The request *)

Section request.
Context {W : Type} (ctx : pal_curl_ctx_t W).

(** The length of the POST body. *)
Definition post_length (body : bytes) : Z :=
  if 0 <? postfieldsize ctx then postfieldsize ctx else strlen (cstr_of body).

Definition CRLF : bytes := [CR; LF].

Fixpoint append_headers (buf_size : Z) (hs : list (option bytes)) (buf : bytes) : option bytes :=
  match hs with
  | [] => Some buf
  | None :: hs' => append_headers buf_size hs' buf
  | Some h :: hs' =>
      match append_str buf_size buf (h ++ CRLF) with
      | None => None
      | Some buf => append_headers buf_size hs' buf
      end
  end.

(** The request in a buffer of [buf_size] bytes; [None] for -1. *)
Definition build_request (method host : bytes) (port : Z) (path : bytes) (buf_size : Z) : option bytes :=
  let ua := match useragent ctx with [] => DEFAULT_UA | ua => ua end in
  buf ← append_str buf_size []
    (method ++ SPACE :: path ++ str " HTTP/1.1" ++ CRLF
     ++ str "Host: " ++ host ++ COLON :: fmt_d port ++ CRLF
     ++ str "User-Agent: " ++ ua ++ CRLF
     ++ str "Accept: */*" ++ CRLF
     ++ str "Connection: close" ++ CRLF);
  buf ← match range ctx with
        | [] => Some buf
        | r => append_str buf_size buf (str "Range: bytes=" ++ r ++ CRLF)
        end;
  buf ← match postfields ctx with
        | Some body =>
            if post ctx =? 0 then Some buf
            else append_str buf_size buf
                   (str "Content-Type: application/x-www-form-urlencoded" ++ CRLF
                    ++ str "Content-Length: " ++ fmt_d (post_length body) ++ CRLF)
        | None => Some buf
        end;
  buf ← append_headers buf_size (httpheader ctx) buf;
  append_str buf_size buf CRLF.

End request.

(** ** The response headers *)

(** The status code; [hdr] is the C string in the header buffer. *)
Definition parse_status_line (hdr : bytes) : option Z :=
  if negb (strneq hdr (str "HTTP/1.") 7) then None
  else
    let rest := drop 7 hdr in
    match strchr rest SPACE with
    | None => None
    | Some sp =>
        let text := drop (S sp) rest in
        let '(code, end_) := strtoll text in
        if bool_decide (end_ = text) || (code <? 100) || (999 <? code) then None else Some code
    end.

(** One header line. *)
Definition header_line (line : bytes) (info : http_resp_t) : http_resp_t :=
  match header_field line (str "Content-Length:") with
  | Some val => HttpResp (strtoll (skip_ws val)).1 (chunked info) (location info)
  | None =>
      match header_field line (str "Transfer-Encoding:") with
      | Some val =>
          if strncaseeq (skip_ws val) (str "chunked") 7
          then HttpResp (content_length info) 1 (location info) else info
      | None =>
          match header_field line (str "Location:") with
          | Some val => HttpResp (content_length info) (chunked info) (take 2047 (skip_ws val))
          | None => info
          end
      end
  end.

(** The loop over the lines, from offset [p]; it advances, so the length of
    the buffer is fuel enough. *)
Fixpoint header_lines (n : nat) (hdr : bytes) (p hdr_end : nat) (info : http_resp_t) : http_resp_t :=
  match n with
  | O => info
  | S n' =>
      if (p <? hdr_end)%nat then
        let rest := drop p hdr in
        let next := strstr rest CRLF in
        let line_len := match next with Some k => k | None => (hdr_end - p)%nat end in
        match line_len with
        | O => info
        | _ =>
            let info := header_line (take line_len rest) info in
            match next with
            | None => info
            | Some k => header_lines n' hdr (p + k + 2) hdr_end info
            end
        end
      else info
  end.

Definition parse_header_fields (hdr : bytes) (hdr_len : nat) : http_resp_t :=
  let info := HttpResp (-1) 0 [] in
  match strstr hdr CRLF with
  | None => info
  | Some k => header_lines (S (length hdr)) hdr (k + 2) hdr_len info
  end.

(** ** The chunked decoder *)

Inductive chunked_state_e := CS_SIZE | CS_DATA | CS_CRLF | CS_TRAILER | CS_DONE.

(** [size_buf] holds the first [size_pos] characters. *)
Record chunked_ctx_t := ChunkedCtx {
  cs_state : chunked_state_e;
  size_buf : bytes;
  cs_remaining : Z;
  crlf_pos : Z
}.

Definition chunked_init : chunked_ctx_t := ChunkedCtx CS_SIZE [] 0 0.

(** The number in a size line: extensions are cut off at the first ';'. *)
Definition chunk_size (line : bytes) : option Z :=
  strtoull16 (take_while (fun c => negb (c =? 59)) (cstr_of line)).

Section body.
Context {W : Type} `{OS W} (fuel : nat).
Abbreviation im := (M (sysst W)).
Context (cb : option (bytes -> im Z)).

(** [written] is what is left in [written_out]. *)
Fixpoint chunked_process (n : nat) (cc : chunked_ctx_t) (input : bytes) (written : Z) :
    im (Z * chunked_ctx_t * Z) :=
  match n with
  | O => diverge
  | S n' =>
      match input with
      | [] => mret (match cs_state cc with CS_DONE => PAL_CHUNKED_DONE | _ => CURLE_OK end, cc, written)
      | c :: input' =>
          match cs_state cc with
          | CS_SIZE =>
              if c =? CR then chunked_process n' cc input' written
              else if c =? LF then
                match chunk_size (size_buf cc) with
                | None => mret (CURLE_RECV_ERROR, ChunkedCtx CS_SIZE [] 0 (crlf_pos cc), written)
                | Some v =>
                    chunked_process n'
                      (ChunkedCtx (if v =? 0 then CS_TRAILER else CS_DATA) [] v (crlf_pos cc)) input' written
                end
              else if 23 <=? strlen (size_buf cc) then mret (CURLE_RECV_ERROR, cc, written)
              else chunked_process n'
                     (ChunkedCtx CS_SIZE (size_buf cc ++ [c]) (cs_remaining cc) (crlf_pos cc)) input' written
          | CS_DATA =>
              let to_write := Z.min (strlen input) (cs_remaining cc) in
              let data := take (Z.to_nat to_write) input in
              wrote ← match cb with
                      | Some cb => if 0 <? to_write then w ← cb data; mret (Some w) else mret None
                      | None => mret None
                      end;
              let go written :=
                let left := cs_remaining cc - to_write in
                chunked_process n'
                  (if left =? 0 then ChunkedCtx CS_CRLF (size_buf cc) 0 0
                   else ChunkedCtx CS_DATA (size_buf cc) left (crlf_pos cc))
                  (drop (Z.to_nat to_write) input) written in
              match wrote with
              | None => go written
              | Some w =>
                  if w =? CURL_WRITEFUNC_PAUSE then mret (CURLE_ABORTED_BY_CALLBACK, cc, written)
                  else if negb (w =? to_write) then mret (CURLE_WRITE_ERROR, cc, written)
                  else go (u64 (written + to_write))
              end
          | CS_CRLF =>
              if (c =? CR) && (crlf_pos cc =? 0) then
                chunked_process n' (ChunkedCtx CS_CRLF (size_buf cc) (cs_remaining cc) 1) input' written
              else if (c =? LF) && (crlf_pos cc =? 1) then
                chunked_process n' (ChunkedCtx CS_SIZE (size_buf cc) (cs_remaining cc) 0) input' written
              else mret (CURLE_RECV_ERROR, cc, written)
          | CS_TRAILER =>
              mret (PAL_CHUNKED_DONE, ChunkedCtx CS_DONE (size_buf cc) (cs_remaining cc) (crlf_pos cc), written)
          | CS_DONE => mret (PAL_CHUNKED_DONE, cc, written)
          end
      end
  end.

(** ** The write callback with its retries *)

Fixpoint invoke_attempts (attempts : nat) (cb : bytes -> im Z) (data : bytes) : im Z :=
  match attempts with
  | O => mret CURLE_ABORTED_BY_CALLBACK
  | S attempts' =>
      wrote ← cb data;
      if wrote =? strlen data then mret CURLE_OK
      else if wrote =? CURL_WRITEFUNC_PAUSE then
        _ ← sys_call (SysUsleep PAL_PAUSE_DELAY_US);
        invoke_attempts attempts' cb data
      else mret CURLE_WRITE_ERROR
  end.

Definition invoke_write_cb (data : bytes) : im Z :=
  match cb, data with
  | None, _ | _, [] => mret CURLE_OK
  | Some cb, _ => invoke_attempts PAL_PAUSE_MAX_RETRIES cb data
  end.

(** ** Sockets *)

(** [select]; a timeout that is not positive is a NULL [timeval]. *)
Definition socket_wait (sock : Z) (for_write : bool) (timeout_ms : Z) : im Z :=
  sys_call (SysSelect sock for_write (if 0 <? timeout_ms then timeout_ms else -1)).

Fixpoint recv_retry (n : nat) (sock len : Z) : im (option bytes) :=
  match n with
  | O => diverge
  | S n' =>
      r ← sys_call (SysRecv sock len);
      match r with
      | Some b => mret (Some b)
      | None =>
          e ← get_errno;
          if e =? EINTR then recv_retry n' sock len else mret None
      end
  end.

Definition recv_timed (sock len timeout_ms : Z) : im (option bytes) :=
  if 0 <? timeout_ms then
    sel ← socket_wait sock false timeout_ms;
    if sel <? 0 then mret None
    else if sel =? 0 then _ ← set_errno ETIMEDOUT; mret None
    else recv_retry fuel sock len
  else recv_retry fuel sock len.

Fixpoint send_retry (n : nat) (sock : Z) (data : bytes) : im Z :=
  match n with
  | O => diverge
  | S n' =>
      r ← sys_call (SysSend sock data);
      if r <? 0 then
        e ← get_errno;
        if e =? EINTR then send_retry n' sock data else mret r
      else mret r
  end.

Fixpoint send_all_data (n : nat) (sock : Z) (data : bytes) (timeout_ms : Z) : im Z :=
  match n with
  | O => diverge
  | S n' =>
      match data with
      | [] => mret 0
      | _ =>
          sel ← (if 0 <? timeout_ms then socket_wait sock true timeout_ms else mret 1);
          if sel <=? 0 then mret (-1)
          else
            r ← send_retry fuel sock data;
            if r <=? 0 then mret (-1)
            else send_all_data n' sock (drop (Z.to_nat r) data) timeout_ms
      end
  end.

Definition send_all (sock : Z) (data : bytes) (timeout_ms : Z) : im Z :=
  send_all_data fuel sock data timeout_ms.

Definition O_NONBLOCK : Z := 2048.
Definition EINPROGRESS : Z := 115.

(** The loop over the addresses; -1 when none connects. *)
Fixpoint connect_any (addrs : list sockaddr_in) (timeout_ms : Z) : im Z :=
  match addrs with
  | [] => mret (-1)
  | addr :: addrs' =>
      sock ← sys_call (SysSocket 1);
      if sock <? 0 then connect_any addrs' timeout_ms
      else
        ready ← (if 0 <? timeout_ms then
                   flags ← sys_call (SysFcntlGet sock);
                   r ← sys_call (SysFcntlSet sock (Z.lor flags O_NONBLOCK));
                   mret (r =? 0)
                 else mret true);
        if negb ready then
          _ ← sys_call (SysClose sock);
          connect_any addrs' timeout_ms
        else
          r ← sys_call (SysConnect sock addr);
          e ← get_errno;
          connected ← (if r =? 0 then mret true
                       else if (r <? 0) && (e =? EINPROGRESS) && (0 <? timeout_ms) then
                         sel ← socket_wait sock true timeout_ms;
                         if 0 <? sel then
                           '(rc, so_err) ← sys_call (SysGetsockopt sock SO_ERROR);
                           mret ((if rc =? 0 then so_err else 0) =? 0)
                         else mret false
                       else mret false);
          if (connected : bool) then mret sock
          else
            _ ← sys_call (SysClose sock);
            connect_any addrs' timeout_ms
  end.

(** A socket, or the error for [err_out]. *)
Definition net_connect (host : bytes) (port timeout_ms : Z) : im (Z + Z) :=
  res ← sys_call (SysGetaddrinfo host (snprintf_buf 12 (fmt_d port)));
  match res with
  | None => mret (inl CURLE_COULDNT_RESOLVE_HOST)
  | Some addrs =>
      sock ← connect_any addrs timeout_ms;
      if sock <? 0 then mret (inl CURLE_COULDNT_CONNECT)
      else
        _ ← (if 0 <? timeout_ms then
               flags ← sys_call (SysFcntlGet sock);
               _ ← sys_call (SysFcntlSet sock (Z.land flags (Z.lnot O_NONBLOCK)));
               mret tt
             else mret tt);
        _ ← sys_call (SysSetsockopt sock TCP_NODELAY 1);
        mret (inr sock)
  end.

(** The header buffer when the end of the headers is in it, and their
    length with the empty line. *)
Fixpoint recv_headers_loop (n : nat) (sock timeout_ms : Z) (buf : bytes) (size : Z) : im (Z + bytes * nat) :=
  match n with
  | O => diverge
  | S n' =>
      if strlen buf <? size - 1 then
        r ← recv_timed sock (size - 1 - strlen buf) timeout_ms;
        match r with
        | None => mret (inl CURLE_RECV_ERROR)
        | Some [] => mret (inl (if strlen buf =? 0 then CURLE_GOT_NOTHING else CURLE_RECV_ERROR))
        | Some b =>
            let buf := buf ++ b in
            match strstr (cstr_of buf) (CRLF ++ CRLF) with
            | Some k => mret (inr (buf, (k + 4)%nat))
            | None => recv_headers_loop n' sock timeout_ms buf size
            end
        end
      else mret (inl CURLE_RECV_ERROR)
  end.

Definition http_recv_headers (sock timeout_ms size : Z) : im (Z + bytes * nat) :=
  recv_headers_loop fuel sock timeout_ms [] size.

End body.

(** ** Body streaming *)

Record speed_guard_t := SpeedGuard {
  last_sec : Z;
  sec_bytes : Z;
  slow_count : Z
}.

Section streams.
Context {W : Type} `{OS W} (fuel : nat) (ctx : pal_curl_ctx_t W).
Abbreviation im := (M (sysst W)).

Definition speed_guard_init : im speed_guard_t :=
  now ← sys_call SysTime;
  mret (SpeedGuard now 0 0).

(** False: too slow for too long. *)
Definition speed_guard_update (sg : speed_guard_t) (new_bytes : Z) : im (bool * speed_guard_t) :=
  let sg := SpeedGuard (last_sec sg) (u64 (sec_bytes sg + new_bytes)) (slow_count sg) in
  if low_speed_limit ctx <=? 0 then mret (true, sg)
  else
    now ← sys_call SysTime;
    let elapsed := now - last_sec sg in
    if elapsed <? 1 then mret (true, sg)
    else
      let speed := s64 (sec_bytes sg / u64 elapsed) in
      if speed <? low_speed_limit ctx then
        let slow := slow_count sg + to_int elapsed in
        if (0 <? low_speed_time ctx) && (to_int (low_speed_time ctx) <=? slow)
        then mret (false, SpeedGuard (last_sec sg) (sec_bytes sg) slow)
        else mret (true, SpeedGuard now 0 slow)
      else mret (true, SpeedGuard now 0 0).

Definition the_write_cb : option (bytes -> im Z) := (fun cb => cb (write_data ctx)) <$> write_cb ctx.

(** True when the progress callback asks to stop. *)
Definition report (dltotal dlnow : Z) : im bool :=
  match xferinfo_cb ctx with
  | Some cb => if noprogress ctx =? 0 then r ← cb (xferinfo_data ctx) dltotal dlnow; mret (negb (r =? 0)) else mret false
  | None => mret false
  end.

(** The loop of [stream_body_known_length]; results are the code and
    [*bytes_out]. *)
Fixpoint known_length_loop (n : nat) (sock total remaining : Z) (sg : speed_guard_t) (bytes_out : Z) : im (Z * Z) :=
  match n with
  | O => diverge
  | S n' =>
      if remaining <=? 0 then mret (CURLE_OK, bytes_out)
      else
        r ← recv_timed fuel sock (Z.min remaining BODY_BUF_SIZE) (timeout_ms ctx);
        match r with
        | None => mret (CURLE_RECV_ERROR, bytes_out)
        | Some [] => mret (CURLE_PARTIAL_FILE, bytes_out)
        | Some b =>
            rc ← invoke_write_cb the_write_cb b;
            if negb (rc =? CURLE_OK) then mret (rc, bytes_out)
            else
              let bytes_out := u64 (bytes_out + strlen b) in
              '(ok, sg) ← speed_guard_update sg (strlen b);
              if negb ok then mret (CURLE_OPERATION_TIMEDOUT, bytes_out)
              else
                stop ← report (s64 total) (s64 bytes_out);
                if (stop : bool) then mret (CURLE_ABORTED_BY_CALLBACK, bytes_out)
                else known_length_loop n' sock total (remaining - strlen b) sg bytes_out
        end
  end.

Definition stream_body_known_length (sock : Z) (prefix : bytes) (total : Z) : im (Z * Z) :=
  sg ← speed_guard_init;
  match prefix with
  | [] => known_length_loop fuel sock total total sg 0
  | _ =>
      let data := take (Z.to_nat total) prefix in
      rc ← invoke_write_cb the_write_cb data;
      if negb (rc =? CURLE_OK) then mret (rc, 0)
      else known_length_loop fuel sock total (total - strlen data) sg (u64 (strlen data))
  end.

Fixpoint chunked_loop (n : nat) (sock : Z) (cc : chunked_ctx_t) (sg : speed_guard_t) (bytes_out : Z) : im (Z * Z) :=
  match n with
  | O => diverge
  | S n' =>
      r ← recv_timed fuel sock BODY_BUF_SIZE (timeout_ms ctx);
      match r with
      | None => mret (CURLE_RECV_ERROR, bytes_out)
      | Some [] =>
          mret (match cs_state cc with CS_DONE | CS_TRAILER => CURLE_OK | _ => CURLE_PARTIAL_FILE end, bytes_out)
      | Some b =>
          '(r, cc, out) ← chunked_process the_write_cb (S (length b)) cc b bytes_out;
          '(ok, sg) ← speed_guard_update sg (u64 (out - bytes_out));
          if negb ok then mret (CURLE_OPERATION_TIMEDOUT, out)
          else if r =? PAL_CHUNKED_DONE then mret (CURLE_OK, out)
          else if negb (r =? CURLE_OK) then mret (r, out)
          else
            stop ← report 0 (s64 out);
            if (stop : bool) then mret (CURLE_ABORTED_BY_CALLBACK, out)
            else chunked_loop n' sock cc sg out
      end
  end.

Definition stream_body_chunked (sock : Z) (prefix : bytes) : im (Z * Z) :=
  sg ← speed_guard_init;
  match prefix with
  | [] => chunked_loop fuel sock chunked_init sg 0
  | _ =>
      '(r, cc, out) ← chunked_process the_write_cb (S (length prefix)) chunked_init prefix 0;
      if r =? PAL_CHUNKED_DONE then mret (CURLE_OK, out)
      else if negb (r =? CURLE_OK) then mret (r, out)
      else chunked_loop fuel sock cc sg out
  end.

Fixpoint until_close_loop (n : nat) (sock : Z) (sg : speed_guard_t) (bytes_out : Z) : im (Z * Z) :=
  match n with
  | O => diverge
  | S n' =>
      r ← recv_timed fuel sock BODY_BUF_SIZE (timeout_ms ctx);
      match r with
      | None => mret (CURLE_RECV_ERROR, bytes_out)
      | Some [] => mret (CURLE_OK, bytes_out)
      | Some b =>
          rc ← invoke_write_cb the_write_cb b;
          if negb (rc =? CURLE_OK) then mret (rc, bytes_out)
          else
            let bytes_out := u64 (bytes_out + strlen b) in
            '(ok, sg) ← speed_guard_update sg (strlen b);
            if negb ok then mret (CURLE_OPERATION_TIMEDOUT, bytes_out)
            else
              stop ← report 0 (s64 bytes_out);
              if (stop : bool) then mret (CURLE_ABORTED_BY_CALLBACK, bytes_out)
              else until_close_loop n' sock sg bytes_out
      end
  end.

Definition stream_body_until_close (sock : Z) (prefix : bytes) : im (Z * Z) :=
  sg ← speed_guard_init;
  match prefix with
  | [] => until_close_loop fuel sock sg 0
  | _ =>
      rc ← invoke_write_cb the_write_cb prefix;
      if negb (rc =? CURLE_OK) then mret (rc, 0) else until_close_loop fuel sock sg (u64 (strlen prefix))
  end.

End streams.

(** ** One transaction *)

Section perform.
Context {W : Type} `{OS W} (fuel : nat).
Abbreviation km := (M (st (pal_curl_ctx_t W) W)).

Definition set_errbuf_msg (msg : bytes) : km unit :=
  upd (fun c => match errbuf c with
                | None => c
                | Some _ => set_errbuf (Some (take (Z.to_nat (CURL_ERROR_SIZE - 1)) msg)) c
                end).

Definition PAL_LOG (text : bytes) : km unit :=
  v ← ask verbose;
  if v =? 0 then mret tt else sysc (SysStderr (str "[pal_curl] " ++ text)).

(** The arrows of two log lines, in UTF-8. *)
Definition RIGHT_ARROW : bytes := [226; 134; 146].
Definition LEFT_ARROW : bytes := [226; 134; 144].

(** The POST body: [plen] bytes from the pointer, which may run past the end
    of the caller's buffer. *)
Definition post_body (body : bytes) (plen : Z) : km bytes :=
  if plen <=? strlen body then mret (take (Z.to_nat plen) body)
  else
    beyond ← sysc (SysStale (plen - strlen body));
    mret (body ++ beyond).

(** What [perform_one] leaves: the code, the status, the redirect URL and the
    count of bytes delivered. *)
Record perform_result := PerformResult {
  pr_code : Z;
  pr_status : Z;
  pr_redirect : bytes;
  pr_bytes : Z
}.

Definition pr_error (code status : Z) (redirect : bytes) : perform_result := PerformResult code status redirect 0.

(** A failure after the connection is made. *)
Definition perform_fail (sock : Z) (msg : bytes) (code status : Z) (redirect : bytes) : km perform_result :=
  _ ← sysc (SysClose sock);
  _ ← set_errbuf_msg msg;
  mret (pr_error code status redirect).

(** From the response headers on: [buf] is the header buffer, [hdr_len] the
    length of the headers. *)
Definition perform_response (sock : Z) (url buf : bytes) (hdr_len : nat) : km perform_result :=
  let hdr := cstr_of buf in
  match parse_status_line hdr with
  | None => perform_fail sock (str "Malformed HTTP status line") CURLE_RECV_ERROR 0 []
  | Some status =>
      _ ← PAL_LOG (LEFT_ARROW ++ str " HTTP " ++ fmt_d status ++ [LF]);
      let resp := parse_header_fields hdr (hdr_len - 4) in
      _ ← upd (set_content_length_download
                 (if 0 <=? content_length resp then to_double (content_length resp) else to_double (-1)));
      let redirect := match location resp with [] => [] | loc => resolve_redirect url loc 2048 end in
      nobody ← ask nobody;
      if negb (nobody =? 0) || (400 <=? status) then
        _ ← sysc (SysClose sock);
        mret (PerformResult CURLE_OK status redirect 0)
      else
        ok ← sysc (SysMalloc BODY_BUF_SIZE);
        if negb ok then perform_fail sock (str "Out of memory for body buffer") CURLE_OUT_OF_MEMORY status redirect
        else
          ctx ← ask (fun c => c);
          let pfx := drop hdr_len buf in
          '(rc, bytes_out) ←
            io (if negb (chunked resp =? 0) then stream_body_chunked fuel ctx sock pfx
                else if 0 <=? content_length resp
                     then stream_body_known_length fuel ctx sock pfx (content_length resp)
                     else stream_body_until_close fuel ctx sock pfx);
          _ ← sysc (SysClose sock);
          mret (PerformResult rc status redirect bytes_out)
  end.

(** From the connection on: the request is sent and the headers are read. *)
Definition perform_request (sock : Z) (url host : bytes) (port : Z) (path : bytes) (conn_to : Z) : km perform_result :=
  _ ← PAL_LOG (str "Connected to " ++ host ++ COLON :: fmt_d port ++ [LF]);
  ctx ← ask (fun c => c);
  let method := if negb (nobody ctx =? 0) then str "HEAD"
                else if negb (post ctx =? 0) then str "POST" else str "GET" in
  match build_request ctx method host port path REQ_BUF_SIZE with
  | None => perform_fail sock (str "Request too large for buffer") CURLE_SEND_ERROR 0 []
  | Some req =>
      let send_to := if 0 <? timeout_ms ctx then timeout_ms ctx else conn_to in
      r ← io (send_all fuel sock req send_to);
      if negb (r =? 0) then perform_fail sock (str "Failed to send request headers") CURLE_SEND_ERROR 0 []
      else
        _ ← PAL_LOG (RIGHT_ARROW ++ SPACE :: method ++ SPACE :: path ++ [LF]);
        r ← match postfields ctx with
            | Some body =>
                if post ctx =? 0 then mret 0
                else
                  data ← post_body body (post_length ctx body);
                  io (send_all fuel sock data send_to)
            | None => mret 0
            end;
        if negb (r =? 0) then perform_fail sock (str "Failed to send POST body") CURLE_SEND_ERROR 0 []
        else
          let recv_to := if 0 <? timeout_ms ctx then timeout_ms ctx else DEFAULT_CONN_MS in
          h ← io (http_recv_headers fuel sock recv_to HDR_BUF_SIZE);
          match h with
          | inl rc => perform_fail sock (str "Failed to receive response headers") rc 0 []
          | inr (buf, hdr_len) => perform_response sock url buf hdr_len
          end
  end.

Definition perform_one (url : bytes) : km perform_result :=
  match url_parse url 256 1800 with
  | inl rc =>
      _ ← set_errbuf_msg (str "URL parse failed");
      mret (pr_error rc 0 [])
  | inr (host, port, path) =>
      ct ← ask connect_timeout_ms;
      let conn_to := if 0 <? ct then ct else DEFAULT_CONN_MS in
      c ← io (net_connect host port conn_to);
      match c with
      | inl conn_err =>
          _ ← set_errbuf_msg (str "Connection failed");
          mret (pr_error conn_err 0 [])
      | inr sock => perform_request sock url host port path conn_to
      end
  end.

(** ** The public interface *)

(** The loop of [curl_easy_perform]: one transaction per redirect. *)
Fixpoint perform_redirects (n : nat) (current_url : bytes) (redirects : Z) : km Z :=
  match n with
  | O => diverge
  | S n' =>
      max ← ask max_redirs;
      if (0 <=? max) && (to_int max <? redirects) then mret CURLE_TOO_MANY_REDIRECTS
      else
        r ← perform_one current_url;
        if negb (pr_code r =? CURLE_OK) then mret (pr_code r)
        else
          _ ← upd (set_response_code (pr_status r));
          _ ← upd (fun c => set_size_download (d_add (size_download c) (to_double (pr_bytes r))) c);
          follow ← ask follow_location;
          if (300 <=? pr_status r) && (pr_status r <? 400) && negb (follow =? 0)
             && negb (bool_decide (pr_redirect r = []))
          then
            let url := take 2047 (pr_redirect r) in
            _ ← PAL_LOG (str "Redirect " ++ fmt_d (redirects + 1) ++ SPACE :: RIGHT_ARROW ++ SPACE :: url ++ [LF]);
            perform_redirects n' url (redirects + 1)
          else if 400 <=? pr_status r then
            _ ← set_errbuf_msg (str "HTTP error status");
            mret CURLE_HTTP_RETURNED_ERROR
          else mret CURLE_OK
  end.

Definition timeval (r : option (Z * Z)) : Z * Z := default (0, 0) r.

Definition curl_easy_perform : km Z :=
  u ← ask url;
  match u with
  | [] =>
      _ ← set_errbuf_msg (str "No URL set");
      mret CURLE_URL_MALFORMAT
  | _ =>
      _ ← upd (fun c => set_content_length_download (to_double (-1))
                 (set_total_time d_zero (set_speed_download d_zero
                    (set_size_download d_zero (set_response_code 0 c)))));
      t0 ← sysc SysGettimeofday;
      rc ← perform_redirects fuel u 0;
      t1 ← sysc SysGettimeofday;
      let '(s0, u0) := timeval t0 in
      let '(s1, u1) := timeval t1 in
      let t := d_add (to_double (s1 - s0)) (d_mul (to_double (u1 - u0)) d_micro) in
      _ ← upd (fun c =>
                 let c := set_total_time t c in
                 if SFltb d_zero t then set_speed_download (d_div (size_download c) t) c else c);
      mret rc
  end.

End perform.

(** [calloc] and the defaults. *)
Definition curl_zero {W} : pal_curl_ctx_t W :=
  CurlCtx [] [] [] None 0 [] None None 0 None 0 0 0 0 0 0 0 0 0 0 0 0 d_zero d_zero d_zero d_zero.

Definition curl_easy_reset {W} (_ : pal_curl_ctx_t W) : pal_curl_ctx_t W :=
  set_content_length_download (to_double (-1))
    (set_noprogress 1
       (set_timeout_ms DEFAULT_TIMEOUT_MS
          (set_connect_timeout_ms DEFAULT_CONN_MS (set_max_redirs DEFAULT_MAX_REDIRS curl_zero)))).

(** [None] when [calloc] fails. *)
Definition curl_easy_init {W} `{OS W} : M (sysst W) (option (pal_curl_ctx_t W)) :=
  ok ← sys_call (SysMalloc 2536);
  mret (if (ok : bool) then
          Some (set_content_length_download (to_double (-1))
                  (set_noprogress 1
                     (set_timeout_ms DEFAULT_TIMEOUT_MS
                        (set_connect_timeout_ms DEFAULT_CONN_MS (set_max_redirs DEFAULT_MAX_REDIRS curl_zero)))))
        else None).

(** An option with its argument, as [va_arg] reads it. *)
Inductive curl_option {W : Type} :=
| CURLOPT_URL (v : option bytes)
| CURLOPT_WRITEDATA (v : Z)
| CURLOPT_ERRORBUFFER (v : option bytes)
| CURLOPT_POSTFIELDS (v : option bytes)
| CURLOPT_USERAGENT (v : option bytes)
| CURLOPT_HTTPHEADER (v : list (option bytes))
| CURLOPT_RANGE (v : option bytes)
| CURLOPT_XFERINFODATA (v : Z)
| CURLOPT_VERBOSE (v : Z)
| CURLOPT_NOPROGRESS (v : Z)
| CURLOPT_NOBODY (v : Z)
| CURLOPT_POST (v : Z)
| CURLOPT_FOLLOWLOCATION (v : Z)
| CURLOPT_MAXREDIRS (v : Z)
| CURLOPT_POSTFIELDSIZE (v : Z)
| CURLOPT_TIMEOUT (v : Z)
| CURLOPT_TIMEOUT_MS (v : Z)
| CURLOPT_CONNECTTIMEOUT (v : Z)
| CURLOPT_CONNECTTIMEOUT_MS (v : Z)
| CURLOPT_LOW_SPEED_LIMIT (v : Z)
| CURLOPT_LOW_SPEED_TIME (v : Z)
| CURLOPT_SSL_VERIFYPEER (v : Z)
| CURLOPT_WRITEFUNCTION (v : option (Z -> bytes -> M (sysst W) Z))
| CURLOPT_XFERINFOFUNCTION (v : option (Z -> Z -> Z -> M (sysst W) Z))
| CURLOPT_OTHER (id : Z).
Arguments curl_option : clear implicits.

Definition curl_easy_setopt {W} (ctx : pal_curl_ctx_t W) (option : curl_option W) : Z * pal_curl_ctx_t W :=
  match option with
  | CURLOPT_URL (Some u) => (CURLE_OK, set_url (take 2047 u) ctx)
  | CURLOPT_URL None => (CURLE_OK, ctx)
  | CURLOPT_WRITEDATA v => (CURLE_OK, set_write_data v ctx)
  | CURLOPT_ERRORBUFFER v => (CURLE_OK, set_errbuf v ctx)
  | CURLOPT_POSTFIELDS v => (CURLE_OK, set_post 1 (set_postfields v ctx))
  | CURLOPT_USERAGENT (Some ua) => (CURLE_OK, set_useragent (take 255 ua) ctx)
  | CURLOPT_USERAGENT None => (CURLE_OK, ctx)
  | CURLOPT_HTTPHEADER v => (CURLE_OK, set_httpheader v ctx)
  | CURLOPT_RANGE (Some r) => (CURLE_OK, set_range (take 63 r) ctx)
  | CURLOPT_RANGE None => (CURLE_OK, set_range [] ctx)
  | CURLOPT_XFERINFODATA v => (CURLE_OK, set_xferinfo_data v ctx)
  | CURLOPT_VERBOSE v => (CURLE_OK, set_verbose (to_int v) ctx)
  | CURLOPT_NOPROGRESS v => (CURLE_OK, set_noprogress (to_int v) ctx)
  | CURLOPT_NOBODY v => (CURLE_OK, set_nobody (to_int v) ctx)
  | CURLOPT_POST v => (CURLE_OK, set_post (to_int v) ctx)
  | CURLOPT_FOLLOWLOCATION v => (CURLE_OK, set_follow_location v ctx)
  | CURLOPT_MAXREDIRS v => (CURLE_OK, set_max_redirs v ctx)
  | CURLOPT_POSTFIELDSIZE v => (CURLE_OK, set_postfieldsize v ctx)
  | CURLOPT_TIMEOUT v => (CURLE_OK, set_timeout_ms (v * 1000) ctx)
  | CURLOPT_TIMEOUT_MS v => (CURLE_OK, set_timeout_ms v ctx)
  | CURLOPT_CONNECTTIMEOUT v => (CURLE_OK, set_connect_timeout_ms (v * 1000) ctx)
  | CURLOPT_CONNECTTIMEOUT_MS v => (CURLE_OK, set_connect_timeout_ms v ctx)
  | CURLOPT_LOW_SPEED_LIMIT v => (CURLE_OK, set_low_speed_limit v ctx)
  | CURLOPT_LOW_SPEED_TIME v => (CURLE_OK, set_low_speed_time v ctx)
  | CURLOPT_SSL_VERIFYPEER _ => (CURLE_OK, ctx)
  | CURLOPT_WRITEFUNCTION v => (CURLE_OK, set_write_cb v ctx)
  | CURLOPT_XFERINFOFUNCTION v => (CURLE_OK, set_xferinfo_cb v ctx)
  | CURLOPT_OTHER _ => (CURLE_UNKNOWN_OPTION, ctx)
  end.

Inductive curl_info :=
| CURLINFO_RESPONSE_CODE
| CURLINFO_CONTENT_LENGTH_DOWNLOAD
| CURLINFO_SIZE_DOWNLOAD
| CURLINFO_SPEED_DOWNLOAD
| CURLINFO_TOTAL_TIME
| CURLINFO_OTHER (id : Z).

(** The code, and the value stored: a [long] or a [double]. *)
Definition curl_easy_getinfo {W} (ctx : pal_curl_ctx_t W) (info : curl_info) : Z * option (Z + spec_float) :=
  match info with
  | CURLINFO_RESPONSE_CODE => (CURLE_OK, Some (inl (response_code ctx)))
  | CURLINFO_CONTENT_LENGTH_DOWNLOAD => (CURLE_OK, Some (inr (content_length_download ctx)))
  | CURLINFO_SIZE_DOWNLOAD => (CURLE_OK, Some (inr (size_download ctx)))
  | CURLINFO_SPEED_DOWNLOAD => (CURLE_OK, Some (inr (speed_download ctx)))
  | CURLINFO_TOTAL_TIME => (CURLE_OK, Some (inr (total_time ctx)))
  | CURLINFO_OTHER _ => (CURLE_UNKNOWN_OPTION, None)
  end.

Definition curl_easy_strerror (code : Z) : bytes :=
  if code =? CURLE_OK then str "No error"
  else if code =? CURLE_UNSUPPORTED_PROTOCOL then str "Unsupported protocol"
  else if code =? CURLE_URL_MALFORMAT then str "URL malformed or missing"
  else if code =? CURLE_COULDNT_RESOLVE_HOST then str "Could not resolve host"
  else if code =? CURLE_COULDNT_CONNECT then str "Failed to connect to host"
  else if code =? CURLE_PARTIAL_FILE then str "Transfer ended prematurely"
  else if code =? CURLE_HTTP_RETURNED_ERROR then str "HTTP response code indicates error"
  else if code =? CURLE_WRITE_ERROR then str "Write callback returned error"
  else if code =? CURLE_OUT_OF_MEMORY then str "Out of memory"
  else if code =? CURLE_OPERATION_TIMEDOUT then str "Operation timed out"
  else if code =? CURLE_ABORTED_BY_CALLBACK then str "Aborted by callback"
  else if code =? CURLE_TOO_MANY_REDIRECTS then str "Too many redirects"
  else if code =? CURLE_UNKNOWN_OPTION then str "Unknown option"
  else if code =? CURLE_GOT_NOTHING then str "Server returned no data"
  else if code =? CURLE_SEND_ERROR then str "Failed sending data to peer"
  else if code =? CURLE_RECV_ERROR then str "Failure receiving data from peer"
  else str "Unknown error code".

Definition curl_version : bytes := str "pal_curl/2.0 (PS4/PS5 shim; HTTP/1.1; no TLS)".

(** The list is the strings of its nodes. *)
Definition curl_slist_append {W} `{OS W} (lst : list (option bytes)) (data : option bytes) :
    M (sysst W) (list (option bytes)) :=
  match data with
  | None => mret lst
  | Some d =>
      node ← sys_call (SysMalloc 16);
      if negb node then mret lst
      else
        copy ← sys_call (SysMalloc (strlen d + 1));
        mret (if (copy : bool) then lst ++ [Some d] else lst)
  end.
