(* ===== verification/CurlSpec.v ===== *)
(** * What a download delivers

    The client of [Curl]: the chunked decoder against a decoder that reads
    one byte at a time, and the body a transaction hands to the write
    callback against the bytes received. *)

From S2P Require Import Prelude CLib FtpTypes Os Curl.
From S2P Require Import FtpState.

#[global] Instance chunked_state_eq_dec : EqDecision chunked_state_e.
Proof. solve_decision. Defined.

(** ** A reference decoder *)

(** One byte of a chunked stream: an error or the end, or the next state and
    the payload. *)
Definition dechunk_byte (cc : chunked_ctx_t) (c : Z) : Z + chunked_ctx_t * bytes :=
  match cs_state cc with
  | CS_SIZE =>
      if c =? CR then inr (cc, [])
      else if c =? LF then
        match chunk_size (size_buf cc) with
        | None => inl CURLE_RECV_ERROR
        | Some v => inr (ChunkedCtx (if v =? 0 then CS_TRAILER else CS_DATA) [] v (crlf_pos cc), [])
        end
      else if 23 <=? strlen (size_buf cc) then inl CURLE_RECV_ERROR
      else inr (ChunkedCtx CS_SIZE (size_buf cc ++ [c]) (cs_remaining cc) (crlf_pos cc), [])
  | CS_DATA =>
      inr (if cs_remaining cc - 1 =? 0 then ChunkedCtx CS_CRLF (size_buf cc) 0 0
           else ChunkedCtx CS_DATA (size_buf cc) (cs_remaining cc - 1) (crlf_pos cc), [c])
  | CS_CRLF =>
      if (c =? CR) && (crlf_pos cc =? 0) then inr (ChunkedCtx CS_CRLF (size_buf cc) (cs_remaining cc) 1, [])
      else if (c =? LF) && (crlf_pos cc =? 1) then inr (ChunkedCtx CS_SIZE (size_buf cc) (cs_remaining cc) 0, [])
      else inl CURLE_RECV_ERROR
  | CS_TRAILER | CS_DONE => inl PAL_CHUNKED_DONE
  end.

(** A stream: how it ends, [CURLE_OK] with the state when more may follow,
    and the payload. *)
Fixpoint dechunk (cc : chunked_ctx_t) (input : bytes) : (Z + chunked_ctx_t) * bytes :=
  match input with
  | [] => (inr cc, [])
  | c :: input' =>
      match dechunk_byte cc c with
      | inl r => (inl r, [])
      | inr (cc', out) => let '(r, out') := dechunk cc' input' in (r, out ++ out')
      end
  end.

Lemma dechunk_app cc a b :
  dechunk cc (a ++ b) =
  match dechunk cc a with
  | (inl r, out) => (inl r, out)
  | (inr cc', out) => let '(r, out') := dechunk cc' b in (r, out ++ out')
  end.
Proof.
  revert cc. induction a as [|c a IH]; intros cc; simpl.
  - by destruct (dechunk cc b).
  - destruct (dechunk_byte cc c) as [r|[cc' out]]; [done|]. rewrite IH.
    destruct (dechunk cc' a) as [[r|cc''] out']; [done|]. destruct (dechunk cc'' b) as [r out'']. by rewrite app_assoc.
Qed.

(** A run of payload bytes. *)
Lemma dechunk_data cc data :
  cs_state cc = CS_DATA -> data <> [] -> strlen data <= cs_remaining cc ->
  dechunk cc data =
    (inr (if cs_remaining cc - strlen data =? 0 then ChunkedCtx CS_CRLF (size_buf cc) 0 0
          else ChunkedCtx CS_DATA (size_buf cc) (cs_remaining cc - strlen data) (crlf_pos cc)), data).
Proof.
  revert cc. induction data as [|c data IH]; intros cc Hs Hne Hl; [done|]. unfold strlen in *.
  cbn [dechunk]. unfold dechunk_byte. rewrite Hs. cbn [length] in Hl.
  destruct (decide (data = [])) as [->|Hd].
  - by simpl.
  - destruct (Z.eqb_spec (cs_remaining cc - 1) 0) as [E|E].
    { destruct data; [done|]. cbn [length] in Hl. lia. }
    rewrite IH; [|done|done|simpl; lia]. cbn [cs_remaining size_buf crlf_pos length].
    replace (cs_remaining cc - Z.of_nat (S (length data))) with (cs_remaining cc - 1 - Z.of_nat (length data)) by lia.
    done.
Qed.

(** States of the decoder: a chunk being read is not exhausted. *)
Definition cc_ok (cc : chunked_ctx_t) : Prop :=
  (cs_state cc = CS_DATA -> 0 < cs_remaining cc) /\ cs_state cc <> CS_DONE.

Lemma hex_value_nonneg ds : 0 <= hex_value ds.
Proof.
  unfold hex_value. assert (forall a, 0 <= a -> 0 <= fold_left (fun a d => 16 * a + default 0 (xdigit d)) ds a)
    as H; [|apply H; lia].
  induction ds as [|d ds IH]; intros a Ha; [done|]. simpl. apply IH.
  unfold xdigit, isdigit. repeat case_match; simpl; zbool; lia.
Qed.

Lemma strtoull16_nonneg s v : strtoull16 s = Some v -> 0 <= v.
Proof.
  unfold strtoull16. match goal with |- context [let '(_, _) := ?x in _] => destruct x as [neg s2] end.
  match goal with |- context [take_while isxdigit ?x] => destruct (take_while isxdigit x) as [|z l] end; [done|].
  intros [= <-]. pose proof (hex_value_nonneg (z :: l)). repeat case_if; [lia| |done].
  unfold u64. apply Z.mod_pos_bound. lia.
Qed.

Lemma dechunk_byte_ok cc c cc' out : cc_ok cc -> dechunk_byte cc c = inr (cc', out) -> cc_ok cc'.
Proof.
  unfold dechunk_byte. intros Hcc. destruct Hcc as [Hr Hd]. destruct (cs_state cc) eqn:Es.
  - case_match; [intros [= <- <-]; by split; rewrite Es|]. case_match.
    + destruct (chunk_size (size_buf cc)) as [v|] eqn:Ev; [|done]. intros [= <- <-]. apply strtoull16_nonneg in Ev.
      unfold cc_ok. simpl. destruct (Z.eqb_spec v 0); split; try done. intros _. lia.
    + case_match; [done|]. intros [= <- <-]. by split.
  - intros [= <- <-]. specialize (Hr eq_refl). unfold cc_ok.
    destruct (Z.eqb_spec (cs_remaining cc - 1) 0); split; try done. simpl. lia.
  - repeat case_match; intros [= <- <-]; by split.
  - done.
  - done.
Qed.

Lemma dechunk_stop cc input q out :
  dechunk cc input = (inl q, out) -> q = CURLE_RECV_ERROR \/ q = PAL_CHUNKED_DONE.
Proof.
  revert cc out. induction input as [|c input IH]; intros cc out; [done|]. cbn [dechunk].
  destruct (dechunk_byte cc c) as [r|[cc1 out1]] eqn:E.
  - intros [= -> _]. unfold dechunk_byte in E. repeat case_match; naive_solver.
  - destruct (dechunk cc1 input) as [r out2] eqn:E2. intros [= -> _]. by eapply IH.
Qed.

Lemma dechunk_ok cc input cc' out : cc_ok cc -> dechunk cc input = (inr cc', out) -> cc_ok cc'.
Proof.
  revert cc out. induction input as [|c input IH]; intros cc out Hcc; simpl; [by intros [= <- _]|].
  destruct (dechunk_byte cc c) as [r|[cc1 out1]] eqn:E; [done|]. destruct (dechunk cc1 input) as [r out2] eqn:E2.
  intros [= -> _]. eapply IH; [|exact E2]. by eapply dechunk_byte_ok.
Qed.

(** ** What moved between the server and the callback *)

(** A computation that receives and sends nothing. *)
Definition dl_still (e : event) : Prop :=
  forall fd, event_received fd e = [] /\ event_sent fd e = [] /\ event_eof fd e = false.

(** A write callback that writes what it accepts to [fd]: everything when it
    returns the size of a buffer it is given, nothing when it asks for a
    pause. *)
Definition sink {W} (fd : Z) (f : bytes -> M (sysst W) Z) : Prop :=
  forall b s, strlen b <= BODY_BUF_SIZE -> wp (f b)
    (fun n s' => exists new, os_trace s' = new ++ os_trace s /\
       (forall sock, recv_on sock new = [] /\ eof_on sock new = false) /\
       (n = strlen b -> sent_on fd new = b) /\
       (n = CURL_WRITEFUNC_PAUSE -> n <> strlen b -> sent_on fd new = [])) (fun _ => True) s.

Section flow.
Context {W : Type} {os : OS W} {Hos : SaneOS W} (fuel : nat).
Context (sock fd : Z) (Hne : sock <> fd) (old : list event).

(** Since [old]: [got] was received, [out] written by the callback, and the
    end of the stream was or was not seen. *)
Definition dl_flow (got out : bytes) (eof : bool) (s : sysst W) : Prop :=
  exists new, os_trace s = new ++ old /\ recv_on sock new = got /\ sent_on fd new = out /\ eof_on sock new = eof.

Lemma recv_on_app x new tr : recv_on x (new ++ tr) = recv_on x tr ++ recv_on x new.
Proof. induction new as [|e new IH]; simpl; [by rewrite app_nil_r|]. by rewrite IH, app_assoc. Qed.

Lemma dl_flow_more got out eof s s' new :
  dl_flow got out eof s -> os_trace s' = new ++ os_trace s ->
  dl_flow (got ++ recv_on sock new) (out ++ sent_on fd new) (eof_on sock new || eof) s'.
Proof.
  intros (n & Ht & <- & <- & <-) Ht'. exists (new ++ n). unfold eof_on.
  rewrite Ht', Ht, app_assoc, recv_on_app, sent_on_app, existsb_app. done.
Qed.

Lemma dl_flow_still got out eof s s' e :
  dl_flow got out eof s -> os_trace s' = e :: os_trace s -> dl_still e -> dl_flow got out eof s'.
Proof.
  intros Hf Ht He. apply (dl_flow_more _ _ _ _ s' [e] Hf) in Ht as Hf'. simpl in Hf'. unfold eof_on in Hf'. simpl in Hf'.
  destruct (He sock) as (E1 & _ & E3). destruct (He fd) as (_ & E2 & _).
  by rewrite E1, E2, E3, !app_nil_r in Hf'.
Qed.

Context (f : bytes -> M (sysst W) Z) (Hf : sink fd f).

(** A call of the callback that accepts the data. *)
Lemma sink_flow b got out eof s :
  strlen b <= BODY_BUF_SIZE -> dl_flow got out eof s ->
  wp (f b) (fun n s' => (n = strlen b -> dl_flow got (out ++ b) eof s') /\
                        (n = CURL_WRITEFUNC_PAUSE -> n <> strlen b -> dl_flow got out eof s')) (fun _ => True) s.
Proof.
  intros Hb Hs. eapply wp_mono; [by apply Hf| |done]. intros n s' (new & Ht & Hr & Hn & Hp).
  apply (dl_flow_more _ _ _ _ s' new Hs) in Ht as Hs'. destruct (Hr sock) as [-> E2] in Hs'. rewrite E2, app_nil_r in Hs'.
  split.
  - intros E. by rewrite (Hn E) in Hs'.
  - intros E1 E3. by rewrite (Hp E1 E3), app_nil_r in Hs'.
Qed.

(** What [chunked_process] does compared with the reference decoder. *)
Definition chunked_ok (cc : chunked_ctx_t) (input got out : bytes) (eof : bool) (written : Z)
    (res : Z * chunked_ctx_t * Z) (s' : sysst W) : Prop :=
  let '(r, cc', w') := res in
  r = CURLE_WRITE_ERROR \/ r = CURLE_ABORTED_BY_CALLBACK \/
  exists o, dl_flow got (out ++ o) eof s' /\ w' = u64 (written + strlen o) /\
    match dechunk cc input with
    | (inr cc2, o2) => r = CURLE_OK /\ cc' = cc2 /\ o = o2
    | (inl q, o2) => r = q /\ o = o2
    end.

Lemma chunked_ok_step cc cc1 a o1 input got out eof written w1 res s' :
  dechunk cc a = (inr cc1, o1) -> w1 = u64 (written + strlen o1) ->
  chunked_ok cc1 input got (out ++ o1) eof w1 res s' -> chunked_ok cc (a ++ input) got out eof written res s'.
Proof.
  intros E -> Hr. unfold chunked_ok in *. destruct res as [[r cc'] w'].
  destruct Hr as [?|[?|(o & Hs & Hw & Hd)]]; [by left|by right; left|].
  right; right. exists (o1 ++ o). rewrite app_assoc. split; [done|]. split.
  - rewrite Hw. unfold u64, strlen. rewrite length_app, Nat2Z.inj_add, Zplus_mod_idemp_l. f_equal. lia.
  - rewrite dechunk_app, E. destruct (dechunk cc1 input) as [[q|cc2] o2]; naive_solver.
Qed.

Lemma u64_stable w : u64 w = w -> w = u64 (w + strlen []).
Proof. intros H. unfold strlen. simpl. by rewrite Z.add_0_r. Qed.

(** The run ends at [c] with [q]. *)
Lemma chunked_ok_stop cc c q input got out eof written cc' s :
  dechunk_byte cc c = inl q -> u64 written = written -> dl_flow got out eof s ->
  chunked_ok cc (c :: input) got out eof written (q, cc', written) s.
Proof.
  intros E Hw Hs. right; right. exists []. rewrite app_nil_r. split; [done|]. split; [by apply u64_stable|].
  simpl. by rewrite E.
Qed.

(** The payload that is there, in one call of the callback. *)
Lemma chunked_data_flow n cc input got out eof written s :
  (forall cc1 rest out1 w1 s1, cc_ok cc1 -> strlen rest <= BODY_BUF_SIZE -> (length rest < n)%nat -> u64 w1 = w1 -> dl_flow got out1 eof s1 ->
     wp (chunked_process (Some f) n cc1 rest w1) (chunked_ok cc1 rest got out1 eof w1) (fun _ => True) s1) ->
  cs_state cc = CS_DATA -> cc_ok cc -> input <> [] -> strlen input <= BODY_BUF_SIZE -> (length input < S n)%nat -> u64 written = written ->
  dl_flow got out eof s ->
  wp (chunked_process (Some f) (S n) cc input written) (chunked_ok cc input got out eof written) (fun _ => True) s.
Proof.
  intros IH Es Hcc Hi Hb Hn Hw Hs. assert (0 < cs_remaining cc) as Hr by (by apply Hcc).
  cbn [chunked_process]. destruct input as [|c input']; [done|]. rewrite Es. set (input := c :: input') in *.
  set (tw := Z.min (strlen input) (cs_remaining cc)). set (data := take (Z.to_nat tw) input).
  assert (0 < strlen input) as Hl by (unfold strlen, input; simpl; lia).
  assert (strlen data = tw) as Hd by (unfold data, tw, strlen in *; rewrite length_take; lia).
  destruct (Z.ltb_spec 0 tw) as [Ht|Ht]; [|unfold tw in *; lia].
  wp_step. wp_step. eapply wp_mono; [apply sink_flow; [unfold tw in *; lia|exact Hs]| |done]. intros w s1 [Hok _]. cbv beta. wp_step.
  case_if; [wp_step; by right; left|]. destruct (Z.eqb_spec w tw) as [->|]; cbn [negb]; [|wp_step; by left].
  set (cc1 := if cs_remaining cc - tw =? 0 then _ else _).
  assert (dechunk cc data = (inr cc1, data)) as E.
  { rewrite dechunk_data, Hd; [done|done| |unfold tw in *; lia]. intros E0. rewrite E0 in Hd. unfold strlen in Hd. simpl in Hd. lia. }
  eapply wp_mono; [apply (IH cc1 _ (out ++ data))| |done].
  - by eapply dechunk_ok.
  - unfold strlen in *. rewrite length_drop. lia.
  - rewrite length_drop. unfold strlen in Hl. lia.
  - unfold u64. by rewrite Zmod_mod.
  - apply Hok. done.
  - intros res s' Hres. rewrite <- (take_drop (Z.to_nat tw) input).
    eapply (chunked_ok_step cc cc1 data data); [done|by rewrite Hd|done].
Qed.

Lemma chunked_process_flow n cc input got out eof written s :
  cc_ok cc -> strlen input <= BODY_BUF_SIZE -> (length input < n)%nat -> u64 written = written ->
  dl_flow got out eof s ->
  wp (chunked_process (Some f) n cc input written) (chunked_ok cc input got out eof written) (fun _ => True) s.
Proof.
  revert cc input out written s. induction n as [|n IH]; intros cc input out written s Hcc Hb Hn Hw Hs; [lia|].
  destruct (decide (cs_state cc = CS_DATA /\ input <> [])) as [[Es Hi]|Hi]; [by apply chunked_data_flow|].
  cbn [chunked_process]. destruct input as [|c input].
  { wp_step. right; right. exists []. rewrite app_nil_r. split; [done|]. split; [by apply u64_stable|]. simpl.
    destruct Hcc as [_ Hd]. by destruct (cs_state cc). }
  cbn [length] in Hn.
  assert (forall cc1, dechunk_byte cc c = inr (cc1, []) ->
    wp (chunked_process (Some f) n cc1 input written) (chunked_ok cc (c :: input) got out eof written) (fun _ => True) s)
    as Hstep.
  { intros cc1 E. eapply wp_mono; [apply (IH cc1 input out written s)| |done]; [| |lia|done|done|].
    - by eapply dechunk_byte_ok.
    - unfold strlen in *. simpl in Hb. lia.
    - intros res s' Hr. eapply (chunked_ok_step cc cc1 [c] []); [by simpl; rewrite E|by apply u64_stable|].
      by rewrite app_nil_r. }
  assert (forall q cc1, dechunk_byte cc c = inl q ->
    wp (mret (q, cc1, written)) (chunked_ok cc (c :: input) got out eof written) (fun _ => True) s) as Hstop.
  { intros q cc1 E. wp_step. by apply chunked_ok_stop. }
  unfold dechunk_byte in Hstep, Hstop. destruct (cs_state cc) eqn:Es.
  - destruct (c =? CR); [by apply Hstep|]. destruct (c =? LF).
    + destruct (chunk_size (size_buf cc)); [by apply Hstep|by apply Hstop].
    + destruct (23 <=? strlen (size_buf cc)); [by apply Hstop|by apply Hstep].
  - exfalso. by apply Hi.
  - destruct ((c =? CR) && (crlf_pos cc =? 0)); [by apply Hstep|].
    destruct ((c =? LF) && (crlf_pos cc =? 1)); [by apply Hstep|by apply Hstop].
  - by apply Hstop.
  - by apply Hstop.
Qed.

Lemma recv_retry_flow n len got out eof s :
  0 <= len -> dl_flow got out eof s ->
  wp (recv_retry n sock len)
    (fun r s' => forall b, r = Some b -> strlen b <= len /\ dl_flow (got ++ b) out (bool_decide (b = []) || eof) s')
    (fun _ => True) s.
Proof.
  intros Hl. revert s. induction n as [|n IH]; intros s Hs; [done|]. cbn [recv_retry]. do 2 wp_step. rename H into E.
  match goal with |- wp _ _ _ ?s' => pose proof (dl_flow_more _ _ _ _ s' [Ev (SysRecv sock len) r] Hs eq_refl) as Hs' end.
  simpl in Hs'. unfold eof_on in Hs'. simpl in Hs'. rewrite Z.eqb_refl, app_nil_r, orb_false_r in Hs'.
  destruct r as [b|].
  - wp_step. intros ? [= <-]. split; [by eapply recv_le|]. by destruct b.
  - do 2 wp_step. rewrite app_nil_r in Hs'. wp_case; [by apply IH|by wp_step].
Qed.

Lemma recv_timed_flow len timeout got out eof s :
  0 <= len -> dl_flow got out eof s ->
  wp (recv_timed fuel sock len timeout)
    (fun r s' => forall b, r = Some b -> strlen b <= len /\ dl_flow (got ++ b) out (bool_decide (b = []) || eof) s')
    (fun _ => True) s.
Proof.
  intros Hl Hs. unfold recv_timed, socket_wait. wp_case; [|by apply recv_retry_flow]. do 2 wp_step.
  wp_case; [by wp_step|]. wp_case; [by repeat wp_step|]. apply recv_retry_flow; [done|].
  eapply dl_flow_still; [exact Hs|done|done].
Qed.

Lemma invoke_flow n data got out eof s :
  strlen data <= BODY_BUF_SIZE -> dl_flow got out eof s ->
  wp (invoke_attempts n f data) (fun rc s' => rc = CURLE_OK -> dl_flow got (out ++ data) eof s') (fun _ => True) s.
Proof.
  intros Hb. revert s. induction n as [|n IH]; intros s Hs; cbn [invoke_attempts]; [by wp_step|]. wp_step.
  eapply wp_mono; [by apply sink_flow| |done]. intros w s1 [Hok Hp]. cbv beta.
  destruct (Z.eqb_spec w (strlen data)); [wp_step; auto|]. destruct (Z.eqb_spec w CURL_WRITEFUNC_PAUSE); [|by wp_step].
  do 2 wp_step. apply IH. eapply dl_flow_still; [by apply Hp|done|done].
Qed.

Lemma invoke_write_cb_flow data got out eof s :
  strlen data <= BODY_BUF_SIZE -> dl_flow got out eof s ->
  wp (invoke_write_cb (Some f) data) (fun rc s' => rc = CURLE_OK -> dl_flow got (out ++ data) eof s') (fun _ => True) s.
Proof.
  intros Hb Hs. unfold invoke_write_cb. destruct data; [wp_step; by rewrite app_nil_r|]. by apply invoke_flow.
Qed.

(** ** The three kinds of body *)

Context (ctx : pal_curl_ctx_t W) (Hcb : the_write_cb ctx = Some f).
Context (Hx : forall g, xferinfo_cb ctx = Some g -> forall d a b s, exists new,
  os_trace (g d a b s).2 = new ++ os_trace s /\ Forall dl_still new).

Lemma still_moves_nothing new :
  Forall dl_still new -> forall x, recv_on x new = [] /\ sent_on x new = [] /\ eof_on x new = false.
Proof.
  unfold eof_on. induction 1 as [|e new He _ IH]; intros x; [done|]. simpl. destruct (He x) as (-> & -> & ->).
  destruct (IH x) as (-> & -> & ->). done.
Qed.

Lemma report_flow a b got out eof s :
  dl_flow got out eof s -> wp (report ctx a b) (fun _ => dl_flow got out eof) (fun _ => True) s.
Proof.
  intros Hs. unfold report. destruct (xferinfo_cb ctx) as [g|] eqn:Eg; [|by wp_step]. wp_case; [|by wp_step]. wp_step.
  destruct (Hx g eq_refl (xferinfo_data ctx) a b s) as (new & Ht & Hn).
  assert (dl_flow got out eof (g (xferinfo_data ctx) a b s).2) as Hs'.
  { apply (dl_flow_more _ _ _ _ _ _ Hs) in Ht. destruct (still_moves_nothing new Hn sock) as (E1 & _ & E3).
    destruct (still_moves_nothing new Hn fd) as (_ & E2 & _). by rewrite E1, E2, E3, !app_nil_r in Ht. }
  eapply wp_mono with (Q := fun _ => dl_flow got out eof) (B := fun _ => True); [| |done].
  - unfold wp. by destruct (g (xferinfo_data ctx) a b s) as [[r|] s'].
  - intros r s' Hr. cbv beta. by wp_step.
Qed.

Lemma speed_guard_flow sg n got out eof s :
  dl_flow got out eof s -> wp (speed_guard_update ctx sg n) (fun _ => dl_flow got out eof) (fun _ => True) s.
Proof.
  intros Hs. unfold speed_guard_update. wp_case; [by wp_step|]. do 2 wp_step.
  match goal with |- wp _ _ _ ?s' => assert (dl_flow got out eof s') as Hs' end.
  { eapply dl_flow_still; [exact Hs|done|done]. }
  repeat wp_case; by wp_step.
Qed.

(** The result of a stream: on success, [P] holds of what was received since,
    what was delivered and the end of the stream. *)
Definition stream_ok (P : bytes -> bytes -> bool -> Prop) (res : Z * Z) (s' : sysst W) : Prop :=
  res.1 = CURLE_OK -> exists got out eof, dl_flow got out eof s' /\ P got out eof /\ res.2 = u64 (strlen out).

Lemma known_length_flow n total remaining sg count got out eof s (Q : bytes -> bytes -> bool -> Prop) :
  0 <= remaining -> count = u64 (strlen out) -> dl_flow got out eof s ->
  (forall got' eof', strlen got' = remaining -> Q (got ++ got') (out ++ got') eof') ->
  wp (known_length_loop fuel ctx n sock total remaining sg count) (stream_ok Q) (fun _ => True) s.
Proof.
  revert remaining sg count got out eof s. induction n as [|n IH]; intros remaining sg count got out eof s Hr Hc Hs HQ; [done|].
  cbn [known_length_loop]. destruct (Z.leb_spec remaining 0).
  { wp_step. intros _. exists got, out, eof. split; [done|]. split; [|done].
    specialize (HQ [] eof). rewrite !app_nil_r in HQ. apply HQ. unfold strlen. simpl. lia. }
  wp_step. eapply wp_mono; [apply recv_timed_flow; [|exact Hs]| |done]; [unfold BODY_BUF_SIZE; lia|].
  intros [[|x b]|] s1 H1; cbv beta; [by wp_step| |by wp_step]. specialize (H1 _ eq_refl) as [Hl H1].
  set (d := x :: b) in *. wp_step. rewrite Hcb. eapply wp_mono; [apply invoke_write_cb_flow; [lia|exact H1]| |done].
  intros rc s2 H2. cbv beta. destruct (Z.eqb_spec rc CURLE_OK) as [->|]; cbn [negb]; [|by wp_step; intros ?; simpl in *].
  specialize (H2 eq_refl). wp_step. eapply wp_mono; [apply speed_guard_flow; exact H2| |done].
  intros [ok sg'] s3 H3. cbv beta. destruct ok; cbn [negb]; [|by wp_step].
  wp_step. eapply wp_mono; [apply report_flow; exact H3| |done]. intros [|] s4 H4; cbv beta; [by wp_step|].
  eapply IH; [lia| |exact H4|].
  - rewrite Hc. unfold u64, strlen. rewrite length_app, Nat2Z.inj_add. by rewrite Zplus_mod_idemp_l.
  - intros got' eof' Hg. rewrite <- !app_assoc. apply HQ. unfold strlen in *. rewrite length_app. lia.
Qed.

(** What the framing says of a body: [stream] is what follows the headers. *)
Definition body_known (total : Z) (stream out : bytes) (eof : bool) : Prop :=
  out = take (Z.to_nat total) stream /\ strlen out = total.

Definition body_chunked (stream out : bytes) (eof : bool) : Prop :=
  exists r, dechunk chunked_init stream = (r, out) /\
    (r = inl PAL_CHUNKED_DONE \/ exists cc, r = inr cc /\ cs_state cc = CS_TRAILER /\ eof = true).

Definition body_until_close (stream out : bytes) (eof : bool) : Prop := out = stream /\ eof = true.

Lemma dl_flow_time got out eof s :
  dl_flow got out eof s -> wp speed_guard_init (fun _ => dl_flow got out eof) (fun _ => True) s.
Proof. intros Hs. unfold speed_guard_init. repeat wp_step. eapply dl_flow_still; [exact Hs|done|done]. Qed.

Lemma take_prefix_app total prefix got :
  0 <= total -> strlen got = total - strlen (take (Z.to_nat total) prefix) ->
  take (Z.to_nat total) (prefix ++ got) = take (Z.to_nat total) prefix ++ got.
Proof.
  unfold strlen. rewrite length_take. intros Ht Hg. rewrite take_app. f_equal. destruct got as [|c got]; [by rewrite take_nil|].
  apply take_ge. simpl in *. lia.
Qed.

Lemma stream_known_flow prefix total s :
  strlen prefix <= BODY_BUF_SIZE -> 0 <= total -> dl_flow [] [] false s ->
  wp (stream_body_known_length fuel ctx sock prefix total)
    (stream_ok (fun got => body_known total (prefix ++ got))) (fun _ => True) s.
Proof.
  intros Hb Ht Hs. unfold stream_body_known_length. wp_step. eapply wp_mono; [apply dl_flow_time; exact Hs| |done].
  clear s Hs. intros sg s Hs. destruct prefix as [|c prefix'].
  - eapply (known_length_flow fuel total total sg 0 [] []); [done|done|exact Hs|]. intros got' eof' Hg. simpl. split; [|done].
    rewrite take_ge; [done|]. unfold strlen in Hg. lia.
  - set (prefix := c :: prefix') in *. clearbody prefix. wp_step. rewrite Hcb.
    eapply wp_mono; [apply invoke_write_cb_flow; [|exact Hs]| |done].
    { unfold strlen in *. rewrite length_take. lia. }
    intros rc s1 H1. cbv beta.
    destruct (Z.eqb_spec rc CURLE_OK) as [->|]; cbn [negb]; [|by wp_step; intros ?; simpl in *].
    pose proof (length_take prefix (Z.to_nat total)) as Hl.
    eapply known_length_flow; [|done|by apply H1|].
    + unfold strlen. lia.
    + intros got' eof' Hg. simpl in Hg |- *. split; [by rewrite take_prefix_app|].
      unfold strlen in *. rewrite length_app. lia.
Qed.

Lemma until_close_flow n sg count got out eof s (Q : bytes -> bytes -> bool -> Prop) :
  count = u64 (strlen out) -> dl_flow got out eof s ->
  (forall got', Q (got ++ got') (out ++ got') true) ->
  wp (until_close_loop fuel ctx n sock sg count) (stream_ok Q) (fun _ => True) s.
Proof.
  revert sg count got out eof s. induction n as [|n IH]; intros sg count got out eof s Hc Hs HQ; [done|].
  cbn [until_close_loop]. wp_step. eapply wp_mono; [apply recv_timed_flow; [done|exact Hs]| |done].
  intros [[|x b]|] s1 H1; cbv beta; [| |by wp_step].
  { wp_step. intros _. specialize (H1 _ eq_refl) as [_ H1]. rewrite app_nil_r in H1. eexists _, _, _. split; [exact H1|].
    split; [|done]. specialize (HQ []). by rewrite !app_nil_r in HQ. }
  specialize (H1 _ eq_refl) as [Hl H1]. set (d := x :: b) in *. wp_step. rewrite Hcb.
  eapply wp_mono; [apply invoke_write_cb_flow; [exact Hl|exact H1]| |done].
  intros rc s2 H2. cbv beta. destruct (Z.eqb_spec rc CURLE_OK) as [->|]; cbn [negb]; [|by wp_step; intros ?; simpl in *].
  specialize (H2 eq_refl). wp_step. eapply wp_mono; [apply speed_guard_flow; exact H2| |done].
  intros [ok sg'] s3 H3. cbv beta. destruct ok; cbn [negb]; [|by wp_step].
  wp_step. eapply wp_mono; [apply report_flow; exact H3| |done]. intros [|] s4 H4; cbv beta; [by wp_step|].
  eapply IH; [|exact H4|].
  - rewrite Hc. unfold u64, strlen. rewrite length_app, Nat2Z.inj_add. by rewrite Zplus_mod_idemp_l.
  - intros got'. rewrite <- !app_assoc. apply HQ.
Qed.

Lemma stream_until_close_flow prefix s :
  strlen prefix <= BODY_BUF_SIZE -> dl_flow [] [] false s ->
  wp (stream_body_until_close fuel ctx sock prefix)
    (stream_ok (fun got => body_until_close (prefix ++ got))) (fun _ => True) s.
Proof.
  intros Hb Hs. unfold stream_body_until_close. wp_step. eapply wp_mono; [apply dl_flow_time; exact Hs| |done].
  clear s Hs. intros sg s Hs. destruct prefix as [|c prefix'].
  - eapply (until_close_flow fuel sg 0 [] []); [done|exact Hs|]. by split.
  - set (prefix := c :: prefix') in *. clearbody prefix. wp_step. rewrite Hcb.
    eapply wp_mono; [apply invoke_write_cb_flow; [exact Hb|exact Hs]| |done]. intros rc s1 H1. cbv beta.
    destruct (Z.eqb_spec rc CURLE_OK) as [->|]; cbn [negb]; [|by wp_step; intros ?; simpl in *].
    eapply until_close_flow; [done|by apply H1|]. by split.
Qed.

Lemma chunked_loop_flow n sg cc count got out eof s (Q : bytes -> bytes -> bool -> Prop) :
  cc_ok cc -> count = u64 (strlen out) -> dl_flow got out eof s ->
  (forall got' out', dechunk cc got' = (inl PAL_CHUNKED_DONE, out') -> forall e, Q (got ++ got') (out ++ out') e) ->
  (forall got' out' cc', dechunk cc got' = (inr cc', out') -> cs_state cc' = CS_TRAILER ->
     Q (got ++ got') (out ++ out') true) ->
  wp (chunked_loop fuel ctx n sock cc sg count) (stream_ok Q) (fun _ => True) s.
Proof.
  revert sg cc count got out eof s. induction n as [|n IH]; intros sg cc count got out eof s Hcc Hc Hs H1 H2; [done|].
  cbn [chunked_loop]. wp_step. eapply wp_mono; [apply recv_timed_flow; [done|exact Hs]| |done].
  intros [[|x b]|] s1 Hr; cbv beta; [| |by wp_step].
  { wp_step. specialize (Hr _ eq_refl) as [_ Hr]. rewrite app_nil_r in Hr. intros Hok. eexists _, _, _. split; [exact Hr|].
    split; [|done]. specialize (H2 [] [] cc eq_refl). rewrite !app_nil_r in H2. apply H2.
    destruct Hcc as [_ Hd]. simpl in Hok. by destruct (cs_state cc). }
  specialize (Hr _ eq_refl) as [Hl Hr]. set (d := x :: b) in *. wp_step. rewrite Hcb.
  eapply wp_mono; [apply chunked_process_flow; [done|exact Hl|lia| |exact Hr]| |done].
  { rewrite Hc. unfold u64. by rewrite Zmod_mod. }
  intros [[r cc1] w1] s2 Hp. cbv beta. wp_step.
  destruct Hp as [->|[->|(o & Hs2 & Hw & Hd)]].
  1,2: eapply wp_mono; [apply wp_any| |done]; intros [ok sg'] s3 _; cbv beta; repeat wp_case; try discriminate; by wp_step.
  eapply wp_mono; [apply speed_guard_flow; exact Hs2| |done]. intros [[|] sg'] s3 H3; cbv beta; cbn [negb]; [|by wp_step].
  assert (w1 = u64 (strlen (out ++ o))) as Hw1.
  { rewrite Hw, Hc. unfold u64, strlen. rewrite length_app, Nat2Z.inj_add. by rewrite Zplus_mod_idemp_l. }
  destruct (dechunk cc d) as [[q|cc2] o2] eqn:Ed; destruct_and!; subst.
  - destruct (Z.eqb_spec q PAL_CHUNKED_DONE) as [->|]; [wp_step; intros _; eexists _, _, _; split; [exact H3|]; auto|].
    destruct (dechunk_stop _ _ _ _ Ed) as [-> | ->]; [|done]. wp_case; [by wp_step|discriminate].
  - wp_case; [discriminate|]. wp_case; [discriminate|]. wp_step. eapply wp_mono; [apply report_flow; exact H3| |done].
    intros [|] s4 H4; cbv beta; [by wp_step|].
    eapply IH; [by eapply dechunk_ok|done|exact H4| |].
    + intros got' out' E e. rewrite <- !app_assoc. apply H1. by rewrite dechunk_app, Ed, E.
    + intros got' out' cc' E Hcc'. rewrite <- !app_assoc. eapply H2; [|exact Hcc']. by rewrite dechunk_app, Ed, E.
Qed.

Lemma stream_chunked_flow prefix s :
  strlen prefix <= BODY_BUF_SIZE -> dl_flow [] [] false s ->
  wp (stream_body_chunked fuel ctx sock prefix)
    (stream_ok (fun got => body_chunked (prefix ++ got))) (fun _ => True) s.
Proof.
  intros Hb Hs. unfold stream_body_chunked. wp_step. eapply wp_mono; [apply dl_flow_time; exact Hs| |done].
  clear s Hs. intros sg s Hs.
  assert (cc_ok chunked_init) as Hcc by done.
  destruct prefix as [|c prefix'].
  - eapply (chunked_loop_flow fuel sg chunked_init 0 [] []); [done|done|exact Hs| |].
    + intros got' out' E e. eexists. split; [exact E|]. by left.
    + intros got' out' cc' E Hcc'. eexists. split; [exact E|]. right. by exists cc'.
  - set (prefix := c :: prefix') in *. clearbody prefix. wp_step. rewrite Hcb.
    eapply wp_mono; [apply chunked_process_flow; [done|exact Hb|lia|done|exact Hs]| |done].
    intros [[r cc1] w1] s1 Hp. cbv beta. destruct Hp as [->|[->|(o & Hs1 & Hw & Hd)]];
      [repeat wp_case; try discriminate; by wp_step..|].
    destruct (dechunk chunked_init prefix) as [[q|cc2] o2] eqn:Ed; destruct_and!; subst.
    + destruct (dechunk_stop _ _ _ _ Ed) as [-> | ->]; [repeat wp_case; try discriminate; by wp_step|].
      wp_case; [|discriminate]. wp_step. intros _. eexists _, _, _.
      split; [exact Hs1|]. split; [|done]. rewrite app_nil_r. eexists. split; [exact Ed|]. by left.
    + wp_case; [discriminate|]. wp_case; [discriminate|]. eapply chunked_loop_flow; [by eapply dechunk_ok|done|exact Hs1| |].
      * intros got' out' E e. eexists. cbn [app]. rewrite dechunk_app, Ed, E. split; [done|]. by left.
      * intros got' out' cc' E Hcc'. eexists. cbn [app]. rewrite dechunk_app, Ed, E. split; [done|]. right. by exists cc'.
Qed.


End flow.

(** ** One transaction *)

Section transaction.
Context {W : Type} {os : OS W} {Hos : SaneOS W} (fuel : nat).

(** Requests that receive nothing and send nothing except on [sock]. *)
Definition only_sends (sock : Z) (e : event) : Prop :=
  forall x, event_received x e = [] /\ event_eof x e = false /\ (x <> sock -> event_sent x e = []).

Lemma still_only_sends sock e : dl_still e -> only_sends sock e.
Proof. intros He x. by destruct (He x) as (? & ? & ?). Qed.

Lemma dl_flow_emits {A} sock fd old (m : M (sysst W) A) got out eof s Q B :
  fd <> sock -> emits (only_sends sock) m -> dl_flow sock fd old got out eof s ->
  (forall a s', dl_flow sock fd old got out eof s' -> Q a s') -> (forall s', B s') -> wp m Q B s.
Proof.
  intros Hne Hm Hs HQ HB. destruct (Hm s) as (new & Ht & Hn). unfold wp. destruct (m s) as [[a|] s'] eqn:E; [|done].
  apply HQ. apply (dl_flow_more _ _ _ _ _ _ _ s' new Hs) in Ht.
  assert (recv_on sock new = [] /\ sent_on fd new = [] /\ eof_on sock new = false) as (E1 & E2 & E3).
  { clear -Hn Hne. unfold eof_on. induction Hn as [|e new He _ (IH1 & IH2 & IH3)]; [done|]. simpl.
    destruct (He sock) as (-> & -> & _), (He fd) as (_ & _ & ->); [|done]. by rewrite IH1, IH2. }
  by rewrite E1, E2, E3, !app_nil_r in Ht.
Qed.

Lemma socket_wait_still fd w t : emits dl_still (socket_wait (W := W) fd w t).
Proof. unfold socket_wait. egos done. Qed.

#[local] Hint Resolve socket_wait_still : emits.

Lemma connect_any_still addrs t : emits dl_still (connect_any (W := W) addrs t).
Proof. induction addrs as [|a addrs IH]; cbn [connect_any]; egos done. Qed.

#[local] Hint Resolve connect_any_still : emits.

Lemma net_connect_still host port t : emits dl_still (net_connect (W := W) host port t).
Proof. unfold net_connect. egos done. Qed.

Lemma send_retry_only n sock data : emits (only_sends sock) (send_retry (W := W) n sock data).
Proof.
  induction n as [|n IH]; cbn [send_retry]; egos idtac.
  intros x. repeat split. intros Hx. simpl. by destruct (Z.eqb_spec sock x).
Qed.

Lemma emits_mono {A} (K K' : event -> Prop) (m : M (sysst W) A) :
  (forall e, K e -> K' e) -> emits K m -> emits K' m.
Proof. intros HK Hm s. destruct (Hm s) as (new & Ht & Hn). exists new. split; [done|]. by eapply Forall_impl. Qed.

#[local] Hint Resolve send_retry_only : emits.

Lemma send_all_only sock data t : emits (only_sends sock) (send_all (W := W) fuel sock data t).
Proof.
  unfold send_all. generalize fuel at 2. intros n. revert data. induction n as [|n IH]; intros data; cbn [send_all_data]; egos idtac;
    by apply still_only_sends.
Qed.

Lemma recv_headers_flow n sock fd old t size buf out s :
  dl_flow sock fd old buf out false s -> sock <> fd ->
  wp (recv_headers_loop fuel n sock t buf size)
    (fun r s' => match r with
                 | inl rc => rc <> CURLE_OK
                 | inr (buf', k) =>
                     dl_flow sock fd old buf' out false s' /\ strlen buf' < size /\
                     exists h, k = (h + 4)%nat /\ strstr (cstr_of buf') (CRLF ++ CRLF) = Some h
                 end)
    (fun _ => True) s.
Proof.
  intros Hs Hne. revert buf s Hs. induction n as [|n IH]; intros buf s Hs; [done|]. cbn [recv_headers_loop].
  destruct (Z.ltb_spec (strlen buf) (size - 1)); [|by wp_step]. wp_step.
  eapply wp_mono; [apply (recv_timed_flow fuel sock fd old); [|exact Hs]| |done]; [lia|].
  intros [[|x b]|] s1 H1; cbv beta; [wp_step; by case_if| |by wp_step]. specialize (H1 _ eq_refl) as [Hl H1].
  set (d := x :: b) in *. rewrite bool_decide_false in H1 by done.
  destruct (strstr (cstr_of (buf ++ d)) (CRLF ++ CRLF)) as [k|] eqn:Ek; [|by apply IH].
  wp_step. split; [done|]. split; [unfold strlen in *; rewrite length_app; lia|]. by exists k.
Qed.

(** What the response says of the body. *)
Definition body_of (resp : http_resp_t) (stream out : bytes) (eof : bool) : Prop :=
  if negb (chunked resp =? 0) then body_chunked stream out eof
  else if 0 <=? content_length resp then body_known (content_length resp) stream out eof
  else body_until_close stream out eof.

(** The outcome of a transaction that streamed a body. *)
Definition delivered (sock fd : Z) (old : list event) (r : perform_result) (s' : st (pal_curl_ctx_t W) W) : Prop :=
  exists buf h rest out eof,
    dl_flow sock fd old (buf ++ rest) out eof (sysw s') /\
    strstr (cstr_of buf) (CRLF ++ CRLF) = Some h /\
    parse_status_line (cstr_of buf) = Some (pr_status r) /\ pr_bytes r = u64 (strlen out) /\
    body_of (parse_header_fields (cstr_of buf) h) (drop (h + 4) buf ++ rest) out eof.

(** The same transaction seen from a later trace. *)
Lemma dl_flow_rebase sock fd old old' got out eof got0 (s : sysst W) mid :
  old' = mid ++ old -> recv_on sock mid = got0 -> sent_on fd mid = [] -> eof_on sock mid = false ->
  dl_flow sock fd old' got out eof s -> dl_flow sock fd old (got0 ++ got) out eof s.
Proof.
  intros -> <- Hm He (new & Ht & <- & <- & <-). exists (new ++ mid). unfold eof_on in *.
  rewrite Ht, app_assoc, recv_on_app, sent_on_app, existsb_app, Hm, He, orb_false_r. done.
Qed.

Definition finished_ok (sock fd : Z) (old : list event) (r : perform_result) (s' : st (pal_curl_ctx_t W) W) : Prop :=
  pr_code r = CURLE_OK -> pr_status r < 400 -> delivered sock fd old r s'.

Context (sock fd : Z) (Hne : sock <> fd) (old : list event).
Context (f : bytes -> M (sysst W) Z) (Hf : sink fd f).

(** The handle's callbacks: the sink, and progress reports that move no data. *)
Definition good_ctx (c : pal_curl_ctx_t W) : Prop :=
  the_write_cb c = Some f /\
  forall g, xferinfo_cb c = Some g -> forall d a b, emits dl_still (g d a b).

Abbreviation flow := (dl_flow sock fd old).

Lemma pal_log_flow text got out eof s :
  flow got out eof (sysw s) ->
  wp (PAL_LOG text) (fun _ s' => ses s' = ses s /\ flow got out eof (sysw s')) (fun _ => True) s.
Proof.
  intros Hs. unfold PAL_LOG. do 2 wp_step. wp_case; wp_step; [done|]. split; [done|].
  eapply dl_flow_still; [exact Hs|done|done].
Qed.

Lemma perform_fail_ok msg code status redirect s :
  code <> CURLE_OK -> wp (perform_fail sock msg code status redirect) (finished_ok sock fd old) (fun _ => True) s.
Proof. intros Hc. unfold perform_fail, set_errbuf_msg. repeat wp_step. by intros ?. Qed.

(** The body, whatever its framing. *)
Lemma stream_body_flow c resp pfx s :
  good_ctx c -> strlen pfx <= BODY_BUF_SIZE ->
  wp (if negb (chunked resp =? 0) then stream_body_chunked fuel c sock pfx
      else if 0 <=? content_length resp then stream_body_known_length fuel c sock pfx (content_length resp)
           else stream_body_until_close fuel c sock pfx)
    (stream_ok sock fd (os_trace s) (fun got => body_of resp (pfx ++ got))) (fun _ => True) s.
Proof.
  intros [Hc Hx] Hb. assert (dl_flow sock fd (os_trace s) [] [] false s) as Hs by (by exists []).
  unfold body_of. destruct (negb (chunked resp =? 0)).
  - by apply (stream_chunked_flow fuel sock fd _ f Hf).
  - destruct (Z.leb_spec 0 (content_length resp)).
    + by apply (stream_known_flow fuel sock fd _ f Hf).
    + by apply (stream_until_close_flow fuel sock fd _ f Hf).
Qed.

Lemma perform_response_flow url buf h s :
  good_ctx (ses s) -> nobody (ses s) = 0 -> flow buf [] false (sysw s) -> strlen buf < HDR_BUF_SIZE ->
  strstr (cstr_of buf) (CRLF ++ CRLF) = Some h ->
  wp (perform_response fuel sock url buf (h + 4)) (finished_ok sock fd old) (fun _ => True) s.
Proof.
  intros Hg Hn Hs Hlen Hh. unfold perform_response.
  destruct (parse_status_line (cstr_of buf)) as [status|] eqn:Est; [|by apply perform_fail_ok].
  rewrite Nat.add_sub. eapply wp_seq; [by apply pal_log_flow|]. intros ? s1 [E1 H1]. do 4 wp_step. cbn [ses sysw].
  rewrite E1. change (nobody (set_content_length_download _ ?c)) with (nobody c). rewrite Hn. cbn [Z.eqb negb orb].
  destruct (Z.leb_spec 400 status) as [Hst|Hst].
  { repeat wp_step. intros _ Hlt. simpl in Hlt. lia. }
  do 2 wp_step. wp_case; [by apply perform_fail_ok|]. do 3 wp_step. cbn [ses sysw].
  apply wp_io. cbn [sysw]. eapply wp_mono; [apply stream_body_flow| |done].
  { destruct Hg as [Hg1 Hg2]. by split. }
  { unfold strlen, HDR_BUF_SIZE, BODY_BUF_SIZE in *. rewrite length_drop. lia. }
  intros [rc n] s2 Hr. cbv beta. repeat wp_step. intros Hok _. cbn [pr_code pr_status pr_bytes] in *.
  destruct (Hr Hok) as (got & out & eof & Hfl & Hb & Hcount).
  exists buf, h, got, out, eof. cbn [sysw]. split; [|done].
  eapply (dl_flow_still _ _ _ _ _ _ s2); [|done|done].
  destruct H1 as (mid & Hmid & Hr1 & Hs1 & He1).
  eapply (dl_flow_rebase sock fd old _ got out eof buf s2 (Ev (SysMalloc BODY_BUF_SIZE) _ :: mid)); [|..|exact Hfl].
  - simpl. by rewrite Hmid.
  - simpl. by rewrite app_nil_r.
  - simpl. by rewrite app_nil_r.
  - done.
Qed.

Lemma io_flow {A} (m : M (sysst W) A) got out eof (s : st (pal_curl_ctx_t W) W) :
  emits (only_sends sock) m -> flow got out eof (sysw s) ->
  wp (io m) (fun _ s' => ses s' = ses s /\ flow got out eof (sysw s')) (fun _ => True) s.
Proof. intros Hm Hs. apply wp_io. eapply dl_flow_emits; [by apply not_eq_sym|exact Hm|exact Hs|done|done]. Qed.

Lemma post_flow (c : pal_curl_ctx_t W) t got out eof (s : st (pal_curl_ctx_t W) W) :
  flow got out eof (sysw s) ->
  wp (match postfields c with
      | Some body =>
          if post c =? 0 then mret 0
          else data ← post_body body (post_length c body); io (send_all fuel sock data t)
      | None => mret 0
      end) (fun _ s' => ses s' = ses s /\ flow got out eof (sysw s')) (fun _ => True) s.
Proof.
  intros Hs. wp_case; [|by wp_step]. wp_case; [by wp_step|].
  apply wp_seq with (Q := fun _ s' => ses s' = ses s /\ flow got out eof (sysw s')).
  - unfold post_body. wp_case; [by wp_step|]. repeat wp_step. split; [done|].
    eapply dl_flow_still; [exact Hs|done|done].
  - intros data s1 [<- H1]. apply io_flow; [apply send_all_only|done].
Qed.

Lemma perform_request_flow url host port path conn_to s :
  good_ctx (ses s) -> nobody (ses s) = 0 -> flow [] [] false (sysw s) ->
  wp (perform_request fuel sock url host port path conn_to) (finished_ok sock fd old) (fun _ => True) s.
Proof.
  intros Hg Hn Hs. unfold perform_request. eapply wp_seq; [by apply pal_log_flow|]. intros ? s1 [E1 H1]. do 2 wp_step.
  rewrite <- E1 in Hg, Hn. clear s E1 Hs. wp_case; [|by apply perform_fail_ok].
  eapply wp_seq; [apply io_flow; [apply send_all_only|exact H1]|]. intros r s2 [E2 H2]. wp_case; [by apply perform_fail_ok|].
  eapply wp_seq; [apply pal_log_flow; exact H2|]. intros ? s3 [E3 H3].
  eapply wp_seq; [apply post_flow; exact H3|]. intros r4 s4 [E4 H4]. wp_case; [by apply perform_fail_ok|].
  wp_step. apply wp_io. unfold http_recv_headers.
  eapply wp_mono; [apply recv_headers_flow; [exact H4|done]| |done].
  intros [rc|[buf k]] s5 H5; cbv beta; [by apply perform_fail_ok|]. destruct H5 as (H5 & Hl & h & -> & Hh).
  assert (ses s4 = ses s1) as E by congruence.
  apply perform_response_flow; cbn [ses sysw]; rewrite ?E; done.
Qed.

End transaction.

(** ** Requests *)

Section perform.
Context {W : Type} {os : OS W} {Hos : SaneOS W} (fuel : nat) (fd : Z).
(** The descriptor of the sink is in use, so no new socket gets its number. *)
Context (Hfd : forall w e w', os_step (SysSocket 1) w <> (fd, e, w')).
Context (f : bytes -> M (sysst W) Z) (Hf : sink fd f).

Lemma connect_any_fresh addrs t (s : sysst W) :
  0 <= fd -> wp (connect_any addrs t) (fun r _ => r <> fd) (fun _ => True) s.
Proof.
  intros Hp. revert s. induction addrs as [|a addrs IH]; intros s; cbn [connect_any]; [wp_step; lia|].
  do 2 wp_step. rename H into E. assert (r <> fd) as Hr by (intros ->; by apply Hfd in E).
  wp_case; [apply IH|]. eapply wp_seq; [apply wp_any|]. intros ready s1 _. wp_case; [do 2 wp_step; apply IH|].
  do 4 wp_step. eapply wp_seq; [apply wp_any|]. intros conn s2 _. wp_case; [by wp_step|]. do 2 wp_step. apply IH.
Qed.

Lemma url_parse_error url hs ps rc : url_parse url hs ps = inl rc -> rc <> CURLE_OK.
Proof. unfold url_parse. repeat case_match; naive_solver. Qed.

Lemma net_connect_fresh host port t (s : sysst W) :
  0 <= fd -> wp (net_connect host port t) (fun r _ => match r with inl rc => rc <> CURLE_OK | inr sock => sock <> fd end) (fun _ => True) s.
Proof.
  intros Hp. unfold net_connect. do 2 wp_step. wp_case; [|by wp_step]. eapply wp_seq; [by apply connect_any_fresh|].
  intros sock s1 Hs. cbv beta in Hs. wp_case; [by wp_step|]. eapply wp_seq; [apply wp_any|]. intros ? s2 _.
  by repeat wp_step.
Qed.

Lemma perform_one_flow url (s : st (pal_curl_ctx_t W) W) :
  0 <= fd -> good_ctx f (ses s) -> nobody (ses s) = 0 ->
  wp (perform_one fuel url)
    (fun r s' => pr_code r = CURLE_OK -> pr_status r < 400 ->
       exists sock, sock <> fd /\ delivered sock fd (os_trace (sysw s)) r s') (fun _ => True) s.
Proof.
  intros Hp Hg Hn. unfold perform_one. destruct (url_parse url 256 1800) as [rc|[[host port] path]] eqn:Eu.
  { apply url_parse_error in Eu. unfold set_errbuf_msg. repeat wp_step. by intros ?. }
  do 3 wp_step. apply wp_io. set (ct := if 0 <? _ then _ else _).
  assert (wp (net_connect host port ct) (fun r s' =>
    match r with
    | inl rc => rc <> CURLE_OK
    | inr sock => sock <> fd /\ dl_flow sock fd (os_trace (sysw s)) [] [] false s'
    end) (fun _ => True) (sysw s)) as Hnet.
  { eapply wp_mono; [apply wp_and; [by apply (net_connect_fresh host port ct)|]| |done].
    { apply (wp_emits dl_still). apply net_connect_still. }
    intros [rc|sock] s' [Hr (new & Ht & Hnew)]; [done|]. split; [done|]. exists new.
    destruct (still_moves_nothing new Hnew sock) as (E1 & _ & E3). by destruct (still_moves_nothing new Hnew fd) as (_ & E2 & _). }
  eapply wp_mono; [exact Hnet| |done]. intros [rc|sock] w Hw; cbv beta.
  - unfold set_errbuf_msg. repeat wp_step. by intros ?.
  - destruct Hw as [Hne Hw]. eapply wp_mono; [eapply (perform_request_flow fuel sock fd Hne); [exact Hf|..]| |done];
      [exact Hg|exact Hn|exact Hw|]. intros r s' Hr Hok Hst. exists sock. split; [done|]. by apply Hr.
Qed.

End perform.

(** ** The chunked coding *)

Definition hexc (c : Z) : Prop := 48 <= c <= 57 \/ 97 <= c <= 102.

Lemma hexc_digit c : hexc c -> isxdigit c = true.
Proof.
  intros Hc. unfold isxdigit, xdigit, isdigit. destruct Hc as [Hc|Hc].
  - replace ((48 <=? c) && (c <=? 57)) with true by lia. done.
  - replace ((48 <=? c) && (c <=? 57)) with false by lia. by replace ((97 <=? c) && (c <=? 102)) with true by lia.
Qed.

Lemma hex_value_snoc ds d : hex_value (ds ++ [d]) = 16 * hex_value ds + default 0 (xdigit d).
Proof. unfold hex_value. by rewrite fold_left_app. Qed.

Lemma digits_fuel_hex fuel k z acc :
  0 <= z < 2 ^ Z.of_nat fuel -> (0 < fuel)%nat -> z < 16 ^ Z.of_nat k -> (0 < k)%nat ->
  exists ds, digits_fuel fuel 16 z acc = ds ++ acc /\ ds <> [] /\ Forall hexc ds /\ hex_value ds = z /\ (length ds <= k)%nat.
Proof.
  revert k z acc. induction fuel as [|fuel IH]; intros k z acc Hz Hf Hk Hk0; [lia|].
  pose proof (Z.mod_pos_bound z 16 ltac:(lia)) as Hm. pose proof (Z.div_mod z 16 ltac:(lia)) as Hd.
  cbn [digits_fuel]. set (d := if z mod 16 <? 10 then 48 + z mod 16 else 87 + z mod 16).
  assert (hexc d /\ default 0 (xdigit d) = z mod 16) as [Hc Hv].
  { unfold hexc, xdigit, isdigit, d. destruct (Z.ltb_spec (z mod 16) 10); (split; [lia|]).
    - replace ((48 <=? 48 + z mod 16) && (48 + z mod 16 <=? 57)) with true by lia. simpl. lia.
    - replace ((48 <=? 87 + z mod 16) && (87 + z mod 16 <=? 57)) with false by lia.
      replace ((97 <=? 87 + z mod 16) && (87 + z mod 16 <=? 102)) with true by lia. simpl. lia. }
  destruct (Z.eqb_spec (z / 16) 0) as [E|E].
  - exists [d]. split; [done|]. split; [done|]. split; [by constructor|]. split; [|simpl; lia].
    change [d] with ([] ++ [d]). rewrite hex_value_snoc, Hv. unfold hex_value. simpl. lia.
  - rewrite Nat2Z.inj_succ, Z.pow_succ_r in Hz by lia.
    assert (0 < z / 16) by (pose proof (Z.div_pos z 16); lia).
    destruct k as [|k]; [lia|]. rewrite Nat2Z.inj_succ, Z.pow_succ_r in Hk by lia.
    assert (0 < k)%nat by (destruct k; [simpl in Hk; lia|lia]).
    destruct (IH k (z / 16) (d :: acc)) as (ds & -> & Hne & Hds & Hval & Hlen); [lia| |lia|done|].
    + destruct fuel; [simpl in Hz; lia|lia].
    + exists (ds ++ [d]). split; [by rewrite <- app_assoc|]. split; [by destruct ds|].
      split; [apply Forall_app; split; [done|by apply Forall_singleton]|]. split; [rewrite hex_value_snoc, Hval, Hv; lia|].
      rewrite length_app. simpl. lia.
Qed.

Lemma digits_hex z : 0 <= z < 2 ^ 64 ->
  exists ds, fmt_x z = ds /\ ds <> [] /\ Forall hexc ds /\ hex_value ds = z /\ (length ds <= 16)%nat.
Proof.
  intros Hz. unfold fmt_x, digits. destruct (digits_fuel_hex (S (Z.to_nat (Z.log2 z))) 16 z []) as (ds & E & H); [|lia..| |].
  - split; [lia|]. destruct (Z.eq_dec z 0) as [->|]; [done|]. rewrite Nat2Z.inj_succ, Z2Nat.id by apply Z.log2_nonneg.
    apply Z.log2_spec. lia.
  - change (16 ^ Z.of_nat 16) with (2 ^ 64). lia.
  - exists ds. rewrite E, app_nil_r. done.
Qed.

Lemma strtoull16_hex ds : ds <> [] -> Forall hexc ds -> hex_value ds < 2 ^ 64 -> strtoull16 ds = Some (hex_value ds).
Proof.
  intros Hne Hds Hv. unfold strtoull16.
  assert (take_while isxdigit ds = ds) as Htw.
  { apply take_while_all. eapply Forall_impl; [exact Hds|]. apply hexc_digit. }
  destruct ds as [|c l]; [done|]. apply Forall_cons in Hds as [Hc Hl]. unfold hexc in Hc.
  assert (isspace c = false) as Hs by (unfold isspace; lia). cbn [drop_while]. rewrite Hs.
  destruct (Z.eqb_spec c 45); [lia|]. destruct (Z.eqb_spec c 43); [lia|].
  assert (match c :: l with
          | z :: x :: d :: t => if (z =? 48) && ((x =? 120) || (x =? 88)) && isxdigit d then d :: t else c :: l
          | _ => c :: l
          end = c :: l) as ->.
  { destruct l as [|x [|d t]]; [done..|]. apply Forall_cons in Hl as [Hx _]. unfold hexc in Hx.
    by replace ((x =? 120) || (x =? 88)) with false by lia; rewrite andb_false_r. }
  rewrite Htw. destruct (Z.leb_spec (2 ^ 64) (hex_value (c :: l))); [lia|done].
Qed.

Lemma chunk_size_hex ds : ds <> [] -> Forall hexc ds -> hex_value ds < 2 ^ 64 -> chunk_size ds = Some (hex_value ds).
Proof.
  intros Hne Hds Hv. unfold chunk_size, cstr_of. rewrite !take_while_all; [by apply strtoull16_hex| |].
  - eapply Forall_impl; [exact Hds|]. intros c Hc. unfold hexc in Hc. cbv beta. lia.
  - rewrite take_while_all; (eapply Forall_impl; [exact Hds|]); intros c Hc; unfold hexc in Hc; cbv beta; lia.
Qed.

(** A chunk on the wire, and a whole body without trailers. *)
Definition encode_chunk (d : bytes) : bytes := fmt_x (strlen d) ++ CRLF ++ d ++ CRLF.
Definition encode_chunks (ds : list bytes) : bytes := concat (map encode_chunk ds) ++ str "0" ++ CRLF ++ CRLF.

Lemma dechunk_size ds buf r p :
  Forall hexc ds -> strlen buf + strlen ds <= 23 ->
  dechunk (ChunkedCtx CS_SIZE buf r p) ds = (inr (ChunkedCtx CS_SIZE (buf ++ ds) r p), []).
Proof.
  intros Hds. revert buf. induction Hds as [|c ds Hc _ IH]; intros buf Hl; [by rewrite app_nil_r|].
  unfold strlen in *. cbn [dechunk length] in *. unfold dechunk_byte. cbn [cs_state size_buf].
  unfold hexc in Hc. destruct (Z.eqb_spec c CR); [unfold CR in *; lia|]. destruct (Z.eqb_spec c LF); [unfold LF in *; lia|].
  destruct (Z.leb_spec 23 (strlen buf)); [unfold strlen in *; lia|]. cbn [cs_remaining crlf_pos].
  rewrite IH; [by rewrite <- app_assoc|]. rewrite length_app. simpl. lia.
Qed.

(** The size line of a chunk. *)
Lemma dechunk_size_line n r p rest :
  0 <= n < 2 ^ 64 ->
  dechunk (ChunkedCtx CS_SIZE [] r p) (fmt_x n ++ CRLF ++ rest) =
  dechunk (ChunkedCtx (if n =? 0 then CS_TRAILER else CS_DATA) [] n p) rest.
Proof.
  intros Hn. destruct (digits_hex n Hn) as (ds & -> & Hne & Hds & Hv & Hl).
  rewrite dechunk_app, (dechunk_size ds [] r p); [|done|unfold strlen; simpl; lia].
  cbn [app CRLF dechunk]. unfold dechunk_byte. cbn [cs_state]. rewrite Z.eqb_refl. cbn [dechunk cs_state].
  replace (LF =? CR) with false by done. rewrite Z.eqb_refl. cbn [size_buf crlf_pos]. rewrite chunk_size_hex by (done || lia).
  rewrite Hv. by destruct (dechunk _ rest).
Qed.

Lemma dechunk_chunk d r rest :
  d <> [] -> strlen d < 2 ^ 64 -> exists r',
  dechunk (ChunkedCtx CS_SIZE [] r 0) (encode_chunk d ++ rest) =
  let '(res, out) := dechunk (ChunkedCtx CS_SIZE [] r' 0) rest in (res, d ++ out).
Proof.
  intros Hne Hl. exists 0. unfold encode_chunk. rewrite <- !app_assoc. rewrite dechunk_size_line by (unfold strlen in *; lia).
  destruct (Z.eqb_spec (strlen d) 0); [destruct d; [done|unfold strlen in *; simpl in *; lia]|].
  rewrite dechunk_app, dechunk_data; [|done|done|simpl; lia]. cbn [cs_remaining size_buf crlf_pos].
  rewrite Z.sub_diag, Z.eqb_refl. cbn [app CRLF dechunk]. unfold dechunk_byte. cbn [cs_state crlf_pos size_buf cs_remaining].
  rewrite Z.eqb_refl. cbn [andb Z.eqb Pos.eqb dechunk cs_state crlf_pos size_buf cs_remaining].
  replace (LF =? CR) with false by done. rewrite Z.eqb_refl. cbn. by destruct (dechunk _ rest).
Qed.

Lemma dechunk_encode ds r :
  Forall (fun d => d <> [] /\ strlen d < 2 ^ 64) ds ->
  dechunk (ChunkedCtx CS_SIZE [] r 0) (encode_chunks ds) = (inl PAL_CHUNKED_DONE, concat ds).
Proof.
  intros Hds. revert r. unfold encode_chunks. induction Hds as [|d ds [Hne Hl] _ IH]; intros r.
  - change (concat (map encode_chunk []) ++ str "0" ++ CRLF ++ CRLF) with (fmt_x 0 ++ CRLF ++ CRLF).
    by rewrite dechunk_size_line by lia.
  - cbn [map concat]. rewrite <- app_assoc. destruct (dechunk_chunk d r (concat (map encode_chunk ds) ++ str "0" ++ CRLF ++ CRLF) Hne Hl) as [r' ->].
    by rewrite IH.
Qed.

(** ** Segments

    The decoder is fed the stream in the pieces in which it arrives, as
    [stream_body_chunked] does it. *)

Section segments.
Context {W : Type} {os : OS W} (f : bytes -> M (sysst W) Z).

Fixpoint decode_segments (cc : chunked_ctx_t) (segs : list bytes) (written : Z) : M (sysst W) (Z * Z) :=
  match segs with
  | [] => mret (CURLE_OK, written)
  | seg :: segs' =>
      '(r, cc, written) ← chunked_process (Some f) (S (length seg)) cc seg written;
      if r =? CURLE_OK then decode_segments cc segs' written else mret (r, written)
  end.

(** A callback that takes everything. *)
Definition accepts : Prop := forall b s, strlen b <= BODY_BUF_SIZE -> wp (f b) (fun n _ => n = strlen b) (fun _ => False) s.

Lemma chunked_process_accepts n cc input written s :
  accepts -> strlen input <= BODY_BUF_SIZE -> (length input < n)%nat -> cc_ok cc ->
  wp (chunked_process (Some f) n cc input written)
    (fun '(r, _, _) _ => r <> CURLE_WRITE_ERROR /\ r <> CURLE_ABORTED_BY_CALLBACK) (fun _ => False) s.
Proof.
  intros Ha. revert cc input written s. induction n as [|n IH]; intros cc input written s Hb Hn Hcc; [lia|].
  cbn [chunked_process]. destruct input as [|c input]; [wp_step; by case_match|].
  assert (strlen input <= BODY_BUF_SIZE /\ (length input < n)%nat) as [Hb' Hn'].
  { unfold strlen in *. simpl in *. lia. }
  assert (forall cc1, dechunk_byte cc c = inr (cc1, []) ->
    wp (chunked_process (Some f) n cc1 input written)
      (fun '(r, _, _) _ => r <> CURLE_WRITE_ERROR /\ r <> CURLE_ABORTED_BY_CALLBACK) (fun _ => False) s) as Hstep.
  { intros cc1 E. apply IH; [done|done|]. by eapply dechunk_byte_ok. }
  unfold dechunk_byte in Hstep. destruct (cs_state cc) eqn:Es.
  - repeat (case_match; try (wp_step; done)); by apply Hstep.
  - set (input' := c :: input) in *. set (tw := Z.min (strlen input') (cs_remaining cc)).
    set (data := take (Z.to_nat tw) input').
    assert (0 < cs_remaining cc) as Hr by (by apply Hcc).
    assert (0 < tw) as Htw by (unfold tw, input', strlen; simpl; lia).
    assert (strlen data = tw) as Hd by (unfold data, tw, strlen in *; rewrite length_take; lia).
    destruct (Z.ltb_spec 0 tw); [|lia]. do 2 wp_step.
    eapply wp_mono; [apply Ha; unfold tw in *; lia| |done]. intros w s1 ->. cbv beta. wp_step. rewrite Hd.
    destruct (Z.eqb_spec tw CURL_WRITEFUNC_PAUSE) as [E|_]; [unfold tw, CURL_WRITEFUNC_PAUSE, BODY_BUF_SIZE in *; lia|].
    rewrite Z.eqb_refl. cbn [negb]. apply IH.
    + unfold strlen in *. rewrite length_drop. lia.
    + rewrite length_drop. unfold input' in *. cbn [length] in *. lia.
    + eapply (dechunk_ok cc data _ data); [done|]. rewrite dechunk_data, Hd; [done|done| |unfold tw; lia].
      intros E. rewrite E in Hd. unfold strlen in Hd. simpl in Hd. lia.
  - repeat (case_match; try (wp_step; done)); by apply Hstep.
  - by wp_step.
  - by wp_step.
Qed.

Context {Hos : SaneOS W} (fd : Z) (Hf : sink fd f) (Ha : accepts).

Lemma decode_segments_flow old cc segs out out' written s :
  cc_ok cc -> Forall (fun seg => strlen seg <= BODY_BUF_SIZE) segs -> written = u64 (strlen out) ->
  dl_flow (fd + 1) fd old [] out false s -> dechunk cc (concat segs) = (inl PAL_CHUNKED_DONE, out') ->
  wp (decode_segments cc segs written)
    (fun '(r, n) s' => r = PAL_CHUNKED_DONE /\ n = u64 (strlen (out ++ out')) /\
                       dl_flow (fd + 1) fd old [] (out ++ out') false s') (fun _ => False) s.
Proof.
  intros Hcc Hsegs. revert cc out out' written s Hcc.
  induction Hsegs as [|seg segs Hb _ IH]; intros cc out out' written s Hcc Hw Hs Hd; [done|].
  cbn [decode_segments concat] in *. rewrite dechunk_app in Hd.
  eapply wp_seq; [eapply wp_mono; [apply wp_and; [apply (chunked_process_flow (fd + 1) fd); [exact Hf|exact Hcc|exact Hb|lia|
    by rewrite Hw; unfold u64; rewrite Zmod_mod|exact Hs]|
    apply chunked_process_accepts; [exact Ha|exact Hb|lia|exact Hcc]]|intros ? ? Hq; exact Hq|by intros ? [_ ?]]|].
  intros [[r cc1] w1] s1 [Hok [Hr1 Hr2]]. cbv beta. destruct Hok as [?|[?|(o & Hs1 & Hw1 & Ho)]]; [done..|].
  assert (w1 = u64 (strlen (out ++ o))) as Hw2.
  { rewrite Hw1, Hw. unfold u64, strlen. rewrite length_app, Nat2Z.inj_add. by rewrite Zplus_mod_idemp_l. }
  destruct (dechunk cc seg) as [[q|cc2] o2] eqn:Ed; destruct_and!; subst.
  - injection Hd as -> ->. wp_case; [discriminate|]. by wp_step.
  - cbn [Z.eqb CURLE_OK]. destruct (dechunk cc2 (concat segs)) as [q out2] eqn:Ed2. injection Hd as -> <-.
    rewrite app_assoc. apply IH; [by eapply dechunk_ok|done|done|done].
Qed.

End segments.

(** C18: what a server sends in chunks arrives.  A body made of any chunks,
    coded as RFC 7230 prescribes, fed to [chunked_process] in any pieces that
    fit its buffer, ends the decoder and hands the callback exactly the
    concatenation of the chunks, in order; the byte count is right. *)
Theorem chunked_roundtrip {W} {os : OS W} {Hos : SaneOS W} fd (f : bytes -> M (sysst W) Z) ds segs s :
  sink fd f -> accepts f -> Forall (fun d => d <> [] /\ strlen d < 2 ^ 64) ds ->
  Forall (fun seg => strlen seg <= BODY_BUF_SIZE) segs -> concat segs = encode_chunks ds ->
  exists s' new, decode_segments f chunked_init segs 0 s = (Some (PAL_CHUNKED_DONE, u64 (strlen (concat ds))), s') /\
    os_trace s' = new ++ os_trace s /\ sent_on fd new = concat ds.
Proof.
  intros Hf Ha Hds Hsegs Hc.
  pose proof (decode_segments_flow f fd Hf Ha (os_trace s) chunked_init segs [] (concat ds) 0 s) as H.
  unfold wp in H. destruct (decode_segments f chunked_init segs 0 s) as [[[r n]|] s'].
  - destruct H as (-> & -> & (new & Ht & _ & Hs & _)); [done|done|done|by exists []|by rewrite Hc; apply dechunk_encode|].
    exists s', new. done.
  - exfalso. apply H; [done|done|done|by exists []|]. rewrite Hc. by apply dechunk_encode.
Qed.

Lemma write_sink {W} {os : OS W} {Hos : SaneOS W} fd : sink (W := W) fd (fun b => sys_call (SysWrite fd b)).
Proof.
  intros b s Hb. wp_step. rename H into E. apply write_le in E. exists [Ev (SysWrite fd b) r]. split; [done|]. split; [done|].
  simpl. rewrite Z.eqb_refl. split.
  - intros ->. destruct (Z.ltb_spec 0 (strlen b)) as [Hl|Hl]; simpl.
    + apply take_ge. unfold strlen. lia.
    + destruct b; [done|]. unfold strlen in Hl. simpl in Hl. lia.
  - intros ->. unfold CURL_WRITEFUNC_PAUSE, BODY_BUF_SIZE in *. lia.
Qed.

Lemma chunked_roundtrip_witness :
  exists s' new,
    decode_segments (fun b => sys_call (SysWrite 12 b)) chunked_init
      [str "3" ++ CRLF ++ str "ab"; str "c" ++ CRLF ++ str "2" ++ CRLF ++ str "de" ++ CRLF ++ str "0"; CRLF ++ CRLF] 0
      toy_init = (Some (PAL_CHUNKED_DONE, 5), s') /\
    os_trace s' = new ++ [] /\ sent_on 12 new = str "abcde".
Proof.
  apply (chunked_roundtrip 12 (fun b => sys_call (SysWrite 12 b)) [str "abc"; str "de"]
    [str "3" ++ CRLF ++ str "ab"; str "c" ++ CRLF ++ str "2" ++ CRLF ++ str "de" ++ CRLF ++ str "0"; CRLF ++ CRLF]
    toy_init).
  - apply write_sink.
  - intros b s _. apply wp_sys_call. by intros r e w [= <- _ _].
  - by repeat constructor.
  - repeat constructor; vm_compute; by intros [=].
  - reflexivity.
Defined.
