(* ===== verification/Download.v ===== *)
(** * Downloads: [src/http_api.c] and [src/pal_curl.c] together

    The names a download may have, its write callback, its thread, and what
    ends up in its file.  The fields of a download's entry that the thread and
    the HTTP server share are cells of the system ([Os.shared_cell]); [slot]
    is the index of the entry.  The model is the console build, where the
    client is [Curl]. *)

From Stdlib Require Import SpecFloat.
From S2P Require Import Prelude CLib FtpTypes Os Curl.
From S2P Require Import FtpState FtpPath CurlSpec.

(** ** URLs and names *)

Definition dl_has_scheme (url scheme : bytes) : bool := strncaseeq url scheme (length scheme).

(** True, or the reason against; [console] is the build. *)
Definition dl_url_is_supported (console : bool) (url : bytes) : bool * bytes :=
  match url with
  | [] => (false, str "Missing url parameter")
  | _ =>
      if dl_has_scheme url (str "magnet:") then
        (false, str "Magnet links need a BitTorrent/DHT engine; this build supports direct HTTP URLs only")
      else if dl_has_scheme url (str "https://") then
        if console then
          (false, str "HTTPS URL downloads need TLS support; the PS4/PS5 downloader currently supports HTTP URLs only")
        else (true, [])
      else if dl_has_scheme url (str "http://") then (true, [])
      else (false, str "Unsupported URL scheme; use a direct http:// URL")
  end.

(** The characters replaced in a name. *)
Definition dl_bad_char (c : Z) : bool :=
  (c <? 32) || (c =? 47) || (c =? 92) || (c =? 58) || (c =? 42) || (c =? 63) || (c =? 34)
  || (c =? 60) || (c =? 62) || (c =? 124).

Definition dl_sanitize_filename (name : bytes) : bytes :=
  let name := map (fun c => if dl_bad_char c then 95 else c) name in
  if streq name (str ".") || streq name (str "..") then str "_" else name.

(** The last component of the URL without its query; [next_id] is
    [g_dl_next_id]. *)
Definition dl_extract_filename (next_id : Z) (url : bytes) (out_size : Z) : bytes :=
  let name := match strrchr url SLASH with Some k => drop (S k) url | None => url end in
  let name := match strchr name 63 with Some k => take k name | None => name end in
  if (strlen name =? 0) || (out_size <=? strlen name) then snprintf_buf out_size (str "download_" ++ fmt_d next_id)
  else dl_sanitize_filename name.

(** ** The thread *)

(** The integer part of a [double] that is not negative. *)
Definition d_trunc (d : spec_float) : Z :=
  match d with
  | S754_finite false m e => if 0 <=? e then Z.pos m * 2 ^ e else Z.pos m / 2 ^ (- e)
  | _ => 0
  end.

Section thread.
Context {W : Type} `{OS W} (fuel : nat) (strerror : Z -> bytes) (slot : Z).
Abbreviation im := (M (sysst W)).

(** [wctx] is the descriptor in the callback's user data. *)
Definition dl_curl_write (wctx : Z) (data : bytes) : im Z :=
  paused ← sys_call (SysLoad (DlPaused slot));
  if negb (paused =? 0) then mret CURL_WRITEFUNC_PAUSE
  else
    w ← sys_call (SysWrite wctx data);
    if w <=? 0 then mret 0
    else
      d ← sys_call (SysLoad (DlDownloaded slot));
      _ ← sys_call (SysStore (DlDownloaded slot) (u64 (d + w)));
      mret w.

Definition dl_message (text : bytes) : im unit := sys_call (SysDlMessage slot (snprintf_buf 256 text)).

Definition dl_failed (text : bytes) : im unit :=
  _ ← dl_message text;
  _ ← sys_call (SysStore (DlError slot) 1);
  _ ← sys_call (SysStore (DlDone slot) 1);
  sys_call (SysStore (DlActive slot) 0).

(** The options [dl_thread] sets, in order. *)
Definition dl_setup (url : bytes) (fd : Z) (c : pal_curl_ctx_t W) : pal_curl_ctx_t W :=
  fold_left (fun c o => (curl_easy_setopt c o).2)
    [CURLOPT_URL (Some url); CURLOPT_WRITEFUNCTION (Some dl_curl_write); CURLOPT_WRITEDATA fd;
     CURLOPT_FOLLOWLOCATION 1; CURLOPT_MAXREDIRS 10; CURLOPT_SSL_VERIFYPEER 0;
     CURLOPT_CONNECTTIMEOUT 30; CURLOPT_LOW_SPEED_LIMIT 1; CURLOPT_LOW_SPEED_TIME 60] c.

Definition dl_thread (url dst_path filename : bytes) : im unit :=
  let filepath := snprintf_buf 2048 (dst_path ++ SLASH :: filename) in
  fd ← sys_call (SysOpen filepath (Z.lor O_WRONLY (Z.lor O_CREAT O_TRUNC)) 420);
  if fd <? 0 then
    e ← get_errno;
    dl_failed (str "Cannot create file: " ++ strerror e)
  else
    curl ← curl_easy_init;
    match curl with
    | None =>
        _ ← sys_call (SysClose fd);
        dl_failed (str "curl_easy_init failed")
    | Some c =>
        '(res, c) ← with_state (dl_setup url fd c) (curl_easy_perform fuel);
        _ ← (if negb (res =? CURLE_OK) then
               _ ← dl_message (str "curl: " ++ curl_easy_strerror res);
               sys_call (SysStore (DlError slot) 1)
             else mret tt);
        _ ← (if SFltb d_zero (content_length_download c)
             then sys_call (SysStore (DlTotalSize slot) (d_trunc (content_length_download c))) else mret tt);
        _ ← sys_call (SysDlSpeed slot (speed_download c));
        _ ← sys_call (SysClose fd);
        _ ← sys_call (SysStore (DlDone slot) 1);
        sys_call (SysStore (DlActive slot) 0)
    end.

End thread.

(** ** The callback as a sink *)

Lemma dl_curl_write_sink {W} {os : OS W} {Hos : SaneOS W} slot fd : sink fd (dl_curl_write slot fd).
Proof.
  intros b s Hb. unfold dl_curl_write. do 2 wp_step. wp_case.
  - wp_step. exists [Ev (SysLoad (DlPaused slot)) r]. split; [done|]. split; [done|]. split; [|done].
    intros E. unfold CURL_WRITEFUNC_PAUSE, BODY_BUF_SIZE in *. lia.
  - do 2 wp_step. rename H0 into E. apply write_le in E. wp_case; zbool.
    + wp_step. eexists [_; _]. split; [done|]. split; [done|]. split; [|done]. intros E0.
      destruct b; [|unfold strlen in E0; simpl in E0; lia]. simpl. rewrite take_nil. by case_match.
    + do 5 wp_step. eexists [_; _; _; _]. split; [done|]. split; [done|]. split.
      * intros ->. simpl. rewrite Z.eqb_refl. destruct (Z.ltb_spec 0 (strlen b)); [|lia]. simpl. rewrite !app_nil_r.
        apply take_ge. unfold strlen. lia.
      * intros ->. unfold CURL_WRITEFUNC_PAUSE, BODY_BUF_SIZE in *. lia.
Qed.

(** C11: a download is complete and in order.  When [perform_one] reports success for
    a response that carries a body, with a callback that writes to [fd] the
    bytes it accepts (as the downloads' callback does), then what it wrote is
    the body of the message received on the socket: the first Content-Length
    bytes after the headers, all of them; or the payload of the chunks, up to
    the last one; or everything up to the end of the stream.  The count
    returned is the number of bytes written. *)
Theorem transfer_integrity {W} {os : OS W} {Hos : SaneOS W} fuel url fd f (s : st (pal_curl_ctx_t W) W) r s' :
  0 <= fd -> (forall w e w', os_step (SysSocket 1) w <> (fd, e, w')) -> sink fd f -> good_ctx f (ses s) ->
  nobody (ses s) = 0 -> perform_one fuel url s = (Some r, s') -> pr_code r = CURLE_OK -> pr_status r < 400 ->
  exists sock new buf h rest,
    os_trace (sysw s') = new ++ os_trace (sysw s) /\ recv_on sock new = buf ++ rest /\
    strstr (cstr_of buf) (CRLF ++ CRLF) = Some h /\ parse_status_line (cstr_of buf) = Some (pr_status r) /\
    body_of (parse_header_fields (cstr_of buf) h) (drop (h + 4) buf ++ rest) (sent_on fd new) (eof_on sock new) /\
    pr_bytes r = u64 (strlen (sent_on fd new)).
Proof.
  intros Hp Hfd Hf Hg Hn Hrun Hok Hst.
  pose proof (perform_one_flow fuel fd Hfd f Hf url s Hp Hg Hn) as H. unfold wp in H. rewrite Hrun in H.
  destruct (H Hok Hst) as (sock & Hne & buf & h & rest & out & eof & (new & Ht & Hr & Ho & He) & Hh & Hpl & Hc & Hb).
  exists sock, new, buf, h, rest. rewrite Ho, He. done.
Qed.

(** A server that answers with a chunked body, in three pieces. *)
Definition dl_toy (recvs : list bytes) : sysst toy := SysSt (Toy ((fun b => (Some b, 0)) <$> recvs) [] [] [] []) 0 [].

Definition dl_example : sysst toy :=
  dl_toy [str "HTTP/1.1 200 OK" ++ CRLF ++ str "Transfer-Encoding: chunked" ++ CRLF ++ CRLF ++ str "3" ++ CRLF ++ str "a";
          str "bc" ++ CRLF ++ str "2" ++ CRLF ++ str "de" ++ CRLF; str "0" ++ CRLF ++ CRLF].

Definition dl_example_ctx : pal_curl_ctx_t toy := dl_setup 0 (str "http://h/f") 12 (curl_easy_reset curl_zero).

Lemma run_split {A B} (x : A * B) a : x.1 = a -> x = (a, x.2).
Proof. by destruct x; simpl; intros ->. Qed.

Lemma transfer_integrity_witness :
  let run := perform_one 20 (str "http://h/f") (St dl_example_ctx dl_example) in
  let r := PerformResult CURLE_OK 200 [] 5 in
  run.1 = Some r /\
  exists sock new buf h rest,
    os_trace (sysw run.2) = new ++ [] /\ recv_on sock new = buf ++ rest /\
    strstr (cstr_of buf) (CRLF ++ CRLF) = Some h /\ parse_status_line (cstr_of buf) = Some (pr_status r) /\
    body_of (parse_header_fields (cstr_of buf) h) (drop (h + 4) buf ++ rest) (sent_on 12 new) (eof_on sock new) /\
    pr_bytes r = u64 (strlen (sent_on 12 new)).
Proof.
  intros run r. assert (run.1 = Some r) as Hr by (vm_compute; reflexivity). split; [exact Hr|].
  apply (transfer_integrity 20 (str "http://h/f") 12 (dl_curl_write 0 12) (St dl_example_ctx dl_example) r run.2).
  - done.
  - by intros w e w' [=].
  - apply dl_curl_write_sink.
  - by split.
  - reflexivity.
  - exact (run_split run (Some r) Hr).
  - reflexivity.
  - done.
Defined.

(** ** Names *)

Definition safe_name (name : bytes) : Prop :=
  name <> [] /\ strlen name < 256 /\ Forall (fun c => dl_bad_char c = false) name /\
  name <> str "." /\ name <> str "..".

Lemma sanitize_safe name : 0 < strlen name < 256 -> safe_name (dl_sanitize_filename name).
Proof.
  intros Hl. unfold dl_sanitize_filename. set (m := map _ name).
  assert (strlen m = strlen name) as Hm by (unfold m, strlen; by rewrite length_map).
  destruct (streq m (str ".") || streq m (str "..")) eqn:E.
  - repeat split; try done. by repeat constructor.
  - unfold streq in E. apply orb_false_iff in E as [E1 E2]. apply bool_decide_eq_false in E1, E2.
    split; [intros ->; unfold strlen in *; simpl in *; lia|]. split; [lia|]. split; [|done].
    unfold m. apply Forall_map. apply Forall_true. intros c. cbv beta. by destruct (dl_bad_char c) eqn:Ec.
Qed.

Lemma digits_hex_len id : 0 <= id < 2 ^ 31 ->
  Forall (fun c => isdigit c = true) (digits 10 id) /\ (length (digits 10 id) <= 32)%nat.
Proof.
  intros Hid. destruct (fmt_u_dec id) as (_ & Hd & _); [lia|]. split; [done|].
  unfold digits. etrans; [apply digits_fuel_length|]. simpl. destruct (Z.eq_dec id 0) as [->|]; [simpl; lia|].
  assert (Z.log2 id < 31) by (apply Z.log2_lt_pow2; lia). lia.
Qed.

Lemma download_id_safe id : 0 <= id < 2 ^ 31 -> safe_name (snprintf_buf 256 (str "download_" ++ fmt_d id)).
Proof.
  intros Hid. unfold fmt_d. destruct (Z.ltb_spec id 0); [lia|].
  destruct (digits_hex_len id Hid) as [Hd Hl].
  assert (snprintf_buf 256 (str "download_" ++ digits 10 id) = str "download_" ++ digits 10 id) as ->.
  { unfold snprintf_buf. apply take_ge. rewrite length_app. change (length (str "download_")) with 9%nat. lia. }
  split; [done|]. split; [unfold strlen; rewrite length_app; change (length (str "download_")) with 9%nat; lia|].
  split; [|done]. apply Forall_app. split; [by repeat constructor|]. eapply Forall_impl; [exact Hd|].
  intros c Hc. apply isdigit_range in Hc. unfold dl_bad_char. lia.
Qed.

(** The path is the last thing checked. *)
Lemma url_parse_path_size url hs ps ps' host port path :
  url_parse url hs ps = inr (host, port, path) -> 2 <= ps' <= strlen path -> url_parse url hs ps' = inl CURLE_URL_MALFORMAT.
Proof.
  unfold url_parse. intros H Hp. destruct (Z.ltb_spec hs 2); [done|]. destruct (Z.ltb_spec ps 2); [done|].
  destruct (Z.ltb_spec ps' 2); [lia|]. cbn [orb] in *. destruct (strneq url (str "http://") 7).
  2: { by destruct (strneq url (str "https://") 8). }
  cbv zeta in *. match type of H with (if ?b then _ else _) = _ => destruct b end; [done|].
  match type of H with (match ?x with Some _ => _ | None => _ end) = _ => destruct x as [q|] end; [|done].
  match type of H with (if _ <=? strlen ?x then _ else _) = _ => set (the_path := x) in * end.
  destruct (ps <=? strlen the_path); [done|]. injection H as _ _ Hpath. rewrite Hpath.
  by destruct (Z.leb_spec ps' (strlen path)); [|lia].
Qed.

Lemma strneq_take s pat n k : (n <= k)%nat -> strneq (take k s) pat n = strneq s pat n.
Proof.
  intros Hn. unfold strneq. destruct (decide (length s <= k)%nat) as [Hk|Hk]; [by rewrite (take_ge s)|].
  rewrite (take_app_le (take k s)) by (rewrite length_take; lia). rewrite take_take, Nat.min_l by done.
  by rewrite (take_app_le s) by lia.
Qed.

(** The name of a downloaded file is one harmless component.  Whatever the
    URL, the name made of it is not empty, fits its buffer, contains no
    slash, backslash or control character, and is neither '.' nor '..': the
    file is created in the directory chosen for it. *)
Theorem dl_filename_safe next_id url :
  0 <= next_id < 2 ^ 31 -> safe_name (dl_extract_filename next_id url 256).
Proof.
  intros Hid. unfold dl_extract_filename.
  match goal with |- context [if (strlen ?n =? 0) || _ then _ else _] => generalize n end. intros name.
  destruct ((strlen name =? 0) || (256 <=? strlen name)) eqn:E; [by apply download_id_safe|].
  apply sanitize_safe. pose proof (Nat2Z.is_nonneg (length name)). unfold strlen in *. zbool. lia.
Qed.

Lemma dl_filename_safe_witness : safe_name (dl_extract_filename 7 (str "http://h/a/b:c|d?x=1/..") 256).
Proof. apply (dl_filename_safe 7). lia. Defined.

(** ** Redirects *)

(** A relative redirect is lost when the current path has eight characters
    or more.  [resolve_redirect] parses the current URL with a buffer of eight
    bytes for the path; when the path does not fit, the Location is used as it
    is, and the next request fails because that is no URL. *)
Theorem relative_redirect_lost base host port path loc :
  url_parse base 256 1800 = inr (host, port, path) -> 8 <= strlen path ->
  strneq loc (str "http://") 7 = false -> strneq loc (str "https://") 8 = false ->
  resolve_redirect base loc 2048 = take 2047 loc /\
  url_parse (resolve_redirect base loc 2048) 256 1800 = inl CURLE_URL_MALFORMAT.
Proof.
  intros Hp Hl H1 H2. assert (resolve_redirect base loc 2048 = take 2047 loc) as E.
  { unfold resolve_redirect. rewrite H1, H2. cbn [orb]. by rewrite (url_parse_path_size _ _ _ 8 _ _ _ Hp). }
  split; [done|]. rewrite E. unfold url_parse. rewrite !strneq_take by (simpl; lia). by rewrite H1, H2.
Qed.

Lemma relative_redirect_lost_witness :
  resolve_redirect (str "http://h/download") (str "/files/f.bin") 2048 = str "/files/f.bin" /\
  url_parse (resolve_redirect (str "http://h/download") (str "/files/f.bin") 2048) 256 1800 = inl CURLE_URL_MALFORMAT.
Proof.
  apply (relative_redirect_lost (str "http://h/download") (str "h") 80 (str "/download")).
  - reflexivity.
  - by vm_compute.
  - reflexivity.
  - reflexivity.
Defined.

Definition stores_error (slot : Z) (e : event) : bool :=
  match e with
  | @Ev A c _ => match c with SysStore (DlError i) v => (i =? slot) && negb (v =? 0) | _ => false end
  end.

(** The body of a redirect ends up in the downloaded file.  The transaction
    that answers 302 streams its body to the write callback like any other, so
    a server that sends a short text with the redirect, as most do, corrupts
    the file; the download is reported as successful. *)
Theorem redirect_body_kept :
  let s := dl_toy [str "HTTP/1.1 302 Found" ++ CRLF ++ str "Location: http://h/g" ++ CRLF ++ str "Content-Length: 5"
                     ++ CRLF ++ CRLF ++ str "moved";
                   str "HTTP/1.1 200 OK" ++ CRLF ++ str "Content-Length: 4" ++ CRLF ++ CRLF ++ str "data"] in
  let tr := os_trace (dl_thread 30 (fun _ => []) 0 (str "http://h/f") (str "/d") (str "f") s).2 in
  sent_on 12 tr = str "moveddata" /\ existsb (stores_error 0) tr = false.
Proof. vm_compute. split; reflexivity. Qed.
