(* ===== verification/Unpack.v ===== *)
(** * Reading container files

    What [exfat_unpacker.c], [pkg_unpacker.c] and the parsers of
    [http_api.c] share: little- and big-endian fields of a byte buffer, and
    the promise of the C library's buffered files that back an image. *)

From S2P Require Import Prelude CLib Os.

(** ** Fields of a buffer *)

(** The byte at an index, 0 outside the buffer. *)
Definition byte_at (b : bytes) (i : Z) : Z := nth (Z.to_nat i) b 0.

(** Little-endian fields, as a load from a packed struct on a little-endian
    machine reads them. *)
Definition le16_at (b : bytes) (i : Z) : Z :=
  Z.lor (byte_at b i) (Z.shiftl (byte_at b (i + 1)) 8).
Definition le32_at (b : bytes) (i : Z) : Z :=
  Z.lor (Z.lor (Z.lor (byte_at b i) (Z.shiftl (byte_at b (i + 1)) 8))
               (Z.shiftl (byte_at b (i + 2)) 16)) (Z.shiftl (byte_at b (i + 3)) 24).
Definition le64_at (b : bytes) (i : Z) : Z :=
  Z.lor (le32_at b i) (Z.shiftl (le32_at b (i + 4)) 32).

(** Big-endian fields, as [read_be32] has them. *)
Definition be32_at (b : bytes) (i : Z) : Z :=
  Z.lor (Z.lor (Z.lor (Z.shiftl (byte_at b i) 24) (Z.shiftl (byte_at b (i + 1)) 16))
               (Z.shiftl (byte_at b (i + 2)) 8)) (byte_at b (i + 3)).

(** Encoders, for stating what well-formed containers look like. *)
Definition le16 (z : Z) : bytes := [z mod 256; z / 256 mod 256].
Definition le32 (z : Z) : bytes := [z mod 256; z / 256 mod 256; z / 65536 mod 256; z / 16777216 mod 256].
Definition le64 (z : Z) : bytes := le32 (z mod 2 ^ 32) ++ le32 (z / 2 ^ 32).

(** ** Lemmas on fields *)

Lemma u64_small z : 0 <= z < 2 ^ 64 -> u64 z = z.
Proof. apply Z.mod_small. Qed.

Lemma s64_small z : 0 <= z < 2 ^ 63 -> s64 z = z.
Proof. intros Hz. unfold s64. rewrite u64_small by lia. by rewrite (proj2 (Z.ltb_lt _ _)) by lia. Qed.

Lemma byte_at_app a b k : 0 <= k -> byte_at (a ++ b) (strlen a + k) = byte_at b k.
Proof. intros Hk. unfold byte_at, strlen. rewrite app_nth2 by lia. f_equal. lia. Qed.

Lemma byte_at_l a b k : 0 <= k < strlen a -> byte_at (a ++ b) k = byte_at a k.
Proof. unfold strlen. intros Hk. unfold byte_at. rewrite app_nth1 by lia. done. Qed.

Lemma byte_at_range b i : Forall is_byte b -> is_byte (byte_at b i).
Proof.
  intros Hb. unfold byte_at. destruct (nth_in_or_default (Z.to_nat i) b 0) as [Hin | ->].
  - rewrite Forall_forall in Hb. apply Hb. by apply list_elem_of_In.
  - done.
Qed.

Lemma lor_shiftl a b n : 0 <= n -> 0 <= a < 2 ^ n -> 0 <= b -> Z.lor a (Z.shiftl b n) = a + b * 2 ^ n.
Proof.
  intros Hn Ha Hb. rewrite <- Z.shiftl_mul_pow2 by lia. symmetry. apply Z.add_nocarry_lor.
  apply Z.bits_inj'. intros m Hm. rewrite Z.land_spec, Z.shiftl_spec, Z.bits_0 by lia.
  destruct (decide (m < n)); [rewrite (Z.testbit_neg_r b) by lia; apply andb_false_r|].
  rewrite <- (Z.mod_small a (2 ^ n)) by lia. rewrite Z.mod_pow2_bits_high by lia. done.
Qed.

Section fields.
Context (b : bytes) (i : Z) (Hb : Forall is_byte b).

Lemma le16_at_sum : le16_at b i = byte_at b i + byte_at b (i + 1) * 256.
Proof.
  destruct (byte_at_range b i Hb), (byte_at_range b (i + 1) Hb).
  unfold le16_at. rewrite lor_shiftl by lia. lia.
Qed.

Lemma le32_at_sum :
  le32_at b i = byte_at b i + byte_at b (i + 1) * 256 + byte_at b (i + 2) * 65536
                + byte_at b (i + 3) * 16777216.
Proof.
  destruct (byte_at_range b i Hb), (byte_at_range b (i + 1) Hb),
    (byte_at_range b (i + 2) Hb), (byte_at_range b (i + 3) Hb).
  unfold le32_at. rewrite (lor_shiftl (byte_at b i)), (lor_shiftl (byte_at b i + _)), lor_shiftl by lia. lia.
Qed.

Lemma le16_at_range : 0 <= le16_at b i < 2 ^ 16.
Proof.
  rewrite le16_at_sum. destruct (byte_at_range b i Hb), (byte_at_range b (i + 1) Hb). lia.
Qed.

Lemma le32_at_range : 0 <= le32_at b i < 2 ^ 32.
Proof.
  rewrite le32_at_sum. destruct (byte_at_range b i Hb), (byte_at_range b (i + 1) Hb),
    (byte_at_range b (i + 2) Hb), (byte_at_range b (i + 3) Hb). lia.
Qed.

End fields.

Lemma le64_at_sum b i : Forall is_byte b -> le64_at b i = le32_at b i + le32_at b (i + 4) * 2 ^ 32.
Proof.
  intros Hb. pose proof (le32_at_range b i Hb). pose proof (le32_at_range b (i + 4) Hb).
  unfold le64_at. rewrite lor_shiftl; lia.
Qed.

Lemma le64_at_range b i : Forall is_byte b -> 0 <= le64_at b i < 2 ^ 64.
Proof.
  intros Hb. rewrite le64_at_sum by done. pose proof (le32_at_range b i Hb).
  pose proof (le32_at_range b (i + 4) Hb). lia.
Qed.

Lemma be32_at_range b i : Forall is_byte b -> 0 <= be32_at b i < 2 ^ 32.
Proof.
  intros Hb. pose proof (byte_at_range b i Hb) as []. pose proof (byte_at_range b (i + 1) Hb) as [].
  pose proof (byte_at_range b (i + 2) Hb) as []. pose proof (byte_at_range b (i + 3) Hb) as [].
  assert (be32_at b i = Z.lor (Z.lor (Z.lor (byte_at b (i + 3)) (Z.shiftl (byte_at b (i + 2)) 8))
            (Z.shiftl (byte_at b (i + 1)) 16)) (Z.shiftl (byte_at b i) 24)) as ->.
  { apply Z.bits_inj'. intros n _. unfold be32_at. rewrite !Z.lor_spec.
    by repeat match goal with |- context [Z.testbit ?x n] => destruct (Z.testbit x n) end. }
  rewrite (lor_shiftl (byte_at b (i + 3))), (lor_shiftl (byte_at b (i + 3) + _)), lor_shiftl by lia. lia.
Qed.

(** Fields in a concatenation, and fields written by the encoders. *)
Lemma le16_at_app a b k : 0 <= k -> le16_at (a ++ b) (strlen a + k) = le16_at b k.
Proof. intros Hk. unfold le16_at. by rewrite <- Z.add_assoc, !byte_at_app by lia. Qed.

Lemma le32_at_app a b k : 0 <= k -> le32_at (a ++ b) (strlen a + k) = le32_at b k.
Proof. intros Hk. unfold le32_at. by rewrite <- !Z.add_assoc, !byte_at_app by lia. Qed.

Lemma le64_at_app a b k : 0 <= k -> le64_at (a ++ b) (strlen a + k) = le64_at b k.
Proof. intros Hk. unfold le64_at. by rewrite <- !Z.add_assoc, !le32_at_app by lia. Qed.

(** A field from its bytes. *)
Lemma le16_dec d i z : 0 <= z < 2 ^ 16 ->
  byte_at d i = z mod 256 -> byte_at d (i + 1) = z / 256 mod 256 -> le16_at d i = z.
Proof.
  intros Hz H0 H1. unfold le16_at. rewrite H0, H1.
  rewrite lor_shiftl by (Z.div_mod_to_equations; lia). Z.div_mod_to_equations. lia.
Qed.

Lemma le32_dec d i z : 0 <= z < 2 ^ 32 ->
  byte_at d i = z mod 256 -> byte_at d (i + 1) = z / 256 mod 256 ->
  byte_at d (i + 2) = z / 65536 mod 256 -> byte_at d (i + 3) = z / 16777216 mod 256 -> le32_at d i = z.
Proof.
  intros Hz H0 H1 H2 H3. unfold le32_at. rewrite H0, H1, H2, H3.
  rewrite (lor_shiftl (z mod 256)), (lor_shiftl (z mod 256 + _)), lor_shiftl
    by (Z.div_mod_to_equations; lia).
  Z.div_mod_to_equations. lia.
Qed.

Lemma le64_dec d i z : 0 <= z < 2 ^ 64 ->
  le32_at d i = z mod 2 ^ 32 -> le32_at d (i + 4) = z / 2 ^ 32 -> le64_at d i = z.
Proof.
  intros Hz H0 H1. unfold le64_at. rewrite H0, H1.
  rewrite lor_shiftl by (Z.div_mod_to_equations; lia). Z.div_mod_to_equations. lia.
Qed.

(** ** Slices *)

Lemma slice_byte b off len : Forall is_byte b -> Forall is_byte (slice b off len).
Proof. intros Hb. by apply Forall_take, Forall_drop. Qed.

Lemma strlen_app a b : strlen (a ++ b) = strlen a + strlen b.
Proof. unfold strlen. rewrite length_app. lia. Qed.

Lemma strlen_nonneg b : 0 <= strlen b.
Proof. unfold strlen. lia. Qed.

Lemma strlen_slice b off len : 0 <= off -> 0 <= len ->
  strlen (slice b off len) = Z.min len (Z.max 0 (strlen b - off)).
Proof. intros Ho Hl. unfold slice, strlen. rewrite length_take, length_drop. lia. Qed.

Lemma take_slice (b : bytes) off m n : 0 <= m <= n -> take (Z.to_nat m) (slice b off n) = slice b off m.
Proof. intros Hm. unfold slice. rewrite take_take. f_equal. lia. Qed.

(** ** Images *)

(** A buffered file [f] over the bytes [img]: a seek that succeeds sets the
    position, a read gives bytes of the image from there, possibly fewer than
    asked for, and requests on other objects leave the position alone. *)
Class ImageOS (W : Type) {os : OS W} (f : Z) (img : bytes) := {
  file_pos : W -> Z;
  fopen_img : forall path w g e w',
    os_step (SysFopen path (str "rb")) w = (Some g, e, w') -> g = f /\ file_pos w' = 0;
  fseek_img : forall off w e w', 0 <= off ->
    os_step (SysFseek f off SEEK_SET) w = (0, e, w') -> file_pos w' = off;
  fread_img : forall len w b e w', 0 <= len -> 0 <= file_pos w ->
    os_step (SysFread f len) w = (b, e, w') ->
    strlen b <= len /\ b = slice img (file_pos w) (strlen b) /\ file_pos w' = file_pos w + strlen b;
  fseek_end_img : forall off w e w',
    os_step (SysFseek f off SEEK_END) w = (0, e, w') -> file_pos w' = strlen img + off;
  ftell_img : forall w r e w', os_step (SysFtell f) w = (r, e, w') ->
    file_pos w' = file_pos w /\ (r = file_pos w \/ r = -1);
  write_img : forall fd buf w n e w',
    os_step (SysWrite fd buf) w = (n, e, w') -> file_pos w' = file_pos w
}.

(** Files that do not fail: seeks succeed, and a read is short at the end of
    the image only. *)
Class ReliableOS (W : Type) {os : OS W} (f : Z) (img : bytes) {io : ImageOS W f img} : Prop := {
  fseek_ok : forall off w r e w', 0 <= off ->
    os_step (SysFseek f off SEEK_SET) w = (r, e, w') -> r = 0;
  fread_full : forall len w b e w', 0 <= len -> 0 <= file_pos w ->
    os_step (SysFread f len) w = (b, e, w') -> strlen b = Z.min len (Z.max 0 (strlen img - file_pos w))
}.

(** What a seek followed by a read gives. *)
Definition read_at {W} {os : OS W} (f : Z) (img : bytes) `{!ImageOS W f img} (off len : Z) (b : bytes) (w : W) : Prop :=
  strlen b <= len /\ b = slice img off (strlen b) /\ file_pos w = off + strlen b /\
  (ReliableOS W f img -> strlen b = Z.min len (Z.max 0 (strlen img - off))).

Lemma seek_read_at {W} {os : OS W} f img `{!ImageOS W f img} off len w0 e0 w1 b e1 w2 :
  0 <= off -> 0 <= len -> os_step (SysFseek f off SEEK_SET) w0 = (0, e0, w1) ->
  os_step (SysFread f len) w1 = (b, e1, w2) -> read_at f img off len b w2.
Proof.
  intros Ho Hl H0 H1. apply fseek_img in H0 as Hp; [|done].
  destruct (fread_img _ _ _ _ _ Hl ltac:(rewrite Hp; lia) H1) as (? & Hs & Hq). rewrite Hp in Hs, Hq.
  split_and!; try done. intros HR. eapply fread_full in H1; [|done|lia]. by rewrite Hp in H1.
Qed.

Section seek_read.
Context {W : Type} {os : OS W} (f : Z) (img : bytes) `{!ImageOS W f img}.

Lemma wp_seek_read {A} off len (fail : Z -> M (sysst W) A) (k : bytes -> M (sysst W) A) Q B s :
  0 <= off -> 0 <= len ->
  (forall r s', r <> 0 -> ~ ReliableOS W f img -> wp (fail r) Q B s') ->
  (forall b s', read_at f img off len b (os_state s') -> wp (k b) Q B s') ->
  wp (r ← sys_call (SysFseek f off SEEK_SET);
      if negb (r =? 0) then fail r else b ← sys_call (SysFread f len); k b) Q B s.
Proof.
  intros Ho Hl Hf Hk. wp_step. wp_step. case_if; simpl.
  - apply Hf; [by zbool|]. intros HR.
    match goal with H : os_step _ _ = _ |- _ => apply fseek_ok in H; [|done] end. zbool. congruence.
  - wp_step. wp_step. zbool. subst. apply Hk. by eapply seek_read_at.
Qed.

Lemma wp_seek_readc {T A} off len (fail : Z -> M (st T W) A) (k : bytes -> M (st T W) A) Q B s :
  0 <= off -> 0 <= len ->
  (forall r s', r <> 0 -> ses s' = ses s ->
     os_trace (sysw s') = Ev (SysFseek f off SEEK_SET) r :: os_trace (sysw s) ->
     ~ ReliableOS W f img -> wp (fail r) Q B s') ->
  (forall b s', ses s' = ses s ->
     os_trace (sysw s') = Ev (SysFread f len) b :: Ev (SysFseek f off SEEK_SET) 0 :: os_trace (sysw s) ->
     read_at f img off len b (os_state (sysw s')) -> wp (k b) Q B s') ->
  wp (r ← sysc (SysFseek f off SEEK_SET);
      if negb (r =? 0) then fail r else b ← sysc (SysFread f len); k b) Q B s.
Proof.
  intros Ho Hl Hf Hk. wp_step. wp_step. case_if; simpl.
  - apply Hf; [by zbool | done | done |]. intros HR.
    match goal with H : os_step _ _ = _ |- _ => apply fseek_ok in H; [|done] end. zbool. congruence.
  - wp_step. wp_step. zbool. subst. apply Hk; [done | done |]. by eapply seek_read_at.
Qed.

End seek_read.

(** ** A concrete image file

    The bytes [img] behind file 20, over the scripted system. *)

Record img_world (img : bytes) := ImgWorld { iw_pos : Z; iw_toy : toy }.
Arguments ImgWorld {img} _ _.
Arguments iw_pos {img} _.
Arguments iw_toy {img} _.

Definition img_step {img A} (c : sys A) (w : img_world img) : A * Z * img_world img :=
  match c in sys A return (toy -> A * Z * toy) -> A * Z * img_world img with
  | SysFopen _ _ => fun _ => (Some 20, 0, ImgWorld 0 (iw_toy w))
  | SysFseek _ off whence => fun _ =>
      (0, 0, ImgWorld (if whence =? SEEK_END then strlen img + off else off) (iw_toy w))
  | SysFtell _ => fun _ => (iw_pos w, 0, w)
  | SysFread _ len => fun _ =>
      let b := clip len (drop (Z.to_nat (iw_pos w)) img) in
      (b, 0, ImgWorld (iw_pos w + strlen b) (iw_toy w))
  | _ => fun k => let '(r, e, t) := k (iw_toy w) in (r, e, ImgWorld (iw_pos w) t)
  end (toy_step c).

#[global] Instance img_os img : OS (img_world img) := @img_step img.

Lemma clip_slice img pos len : 0 <= len -> 0 <= pos ->
  let b := clip len (drop (Z.to_nat pos) img) in
  strlen b = Z.min len (Z.max 0 (strlen img - pos)) /\ b = slice img pos (strlen b).
Proof.
  intros Hl Hp. unfold clip. set (d := drop _ img).
  assert (Hd : strlen d = Z.max 0 (strlen img - pos)) by (unfold d, strlen; rewrite length_drop; lia).
  assert (Hb : strlen (take (Z.to_nat (Z.min len (strlen d))) d) = Z.min len (strlen d))
    by (unfold strlen; rewrite length_take; unfold strlen in *; lia).
  split; [by rewrite Hb, Hd|]. rewrite Hb. unfold slice. done.
Qed.

#[global, program] Instance img_image img : ImageOS (img_world img) 20 img := {| file_pos := iw_pos |}.
Next Obligation. intros img path w g e w' [= <- _ <-]. done. Qed.
Next Obligation. intros img off w e w' _ [= _ <-]. done. Qed.
Next Obligation.
  intros img len w b e w' Hl Hp [= <- _ <-]. simpl.
  destruct (clip_slice img (iw_pos w) len Hl Hp) as [Hb Hs]. split_and!; [lia | done | done].
Qed.
Next Obligation. intros img off w e w' [= _ <-]. done. Qed.
Next Obligation. intros img w r e w' [= <- _ <-]. auto. Qed.
Next Obligation. intros img fd buf w n e w' [= _ _ <-]. done. Qed.

#[global] Instance img_reliable img : ReliableOS (img_world img) 20 img.
Proof.
  split.
  - by intros off w r e w' _ [= <- _ _].
  - intros len w b e w' Hl Hp [= <- _ <-]. by apply clip_slice.
Qed.

Definition img_init (img : bytes) : sysst (img_world img) := SysSt (ImgWorld 0 (os_state toy_init)) 0 [].
