(* ===== verification/Exfat.v ===== *)
(** * exFAT images

    The image parser of [exfat_unpacker.c]: boot sector, allocation table,
    cluster reads, directory entry sets and file extraction.  The layouts of
    the packed structs and the constants are those of [exfat_unpacker.h].
    Null pointer arguments are not modelled except where a field of the
    context can be null. *)

From S2P Require Import Prelude CLib Os Unpack.

(** ** Constants *)

Definition EXFAT_BOOT_SIGNATURE : Z := 43605.                (* 0xAA55 *)
Definition EXFAT_FS_NAME : bytes := str "EXFAT   ".
Definition EXFAT_ENTRY_SIZE : Z := 32.
Definition EXFAT_MAX_FILENAME_LEN : Z := 255.
Definition EXFAT_ENTRY_TYPE_FILE_DIR : Z := 133.             (* 0x85 *)
Definition EXFAT_ENTRY_TYPE_STREAM_EXT : Z := 192.           (* 0xC0 *)
Definition EXFAT_ENTRY_TYPE_FILENAME : Z := 193.             (* 0xC1 *)
Definition EXFAT_ENTRY_TYPE_EOD : Z := 0.
Definition EXFAT_FLAG_NO_FAT_CHAIN : Z := 2.
Definition EXFAT_ATTR_DIRECTORY : Z := 16.
Definition EXFAT_FAT_END_OF_CHAIN : Z := 4294967295.         (* 0xFFFFFFFF *)
Definition EXFAT_FAT_BAD_CLUSTER : Z := 4294967287.          (* 0xFFFFFFF7 *)
Definition EXFAT_IO_CHUNK_SIZE : Z := 256 * 1024.

(** ** Data *)

(** [exfat_boot_sector_t], 512 bytes on disk. *)
Record exfat_boot_sector_t := BootSector {
  jump_boot : bytes;
  fs_name : bytes;
  must_be_zero : bytes;
  partition_offset : Z;
  volume_length : Z;
  fat_offset : Z;
  fat_length : Z;
  cluster_heap_offset : Z;
  total_clusters : Z;
  root_dir_first_cluster : Z;
  volume_serial : Z;
  fs_revision : Z;
  volume_flags : Z;
  bytes_per_sector_shift : Z;
  sectors_per_cluster_shift : Z;
  num_fats : Z;
  drive_select : Z;
  percent_in_use : Z;
  boot_reserved : bytes;
  boot_code : bytes;
  boot_signature : Z
}.

(** The struct as [fread] fills it from 512 bytes. *)
Definition boot_of (b : bytes) : exfat_boot_sector_t := {|
  jump_boot := slice b 0 3;
  fs_name := slice b 3 8;
  must_be_zero := slice b 11 53;
  partition_offset := le64_at b 64;
  volume_length := le64_at b 72;
  fat_offset := le32_at b 80;
  fat_length := le32_at b 84;
  cluster_heap_offset := le32_at b 88;
  total_clusters := le32_at b 92;
  root_dir_first_cluster := le32_at b 96;
  volume_serial := le32_at b 100;
  fs_revision := le16_at b 104;
  volume_flags := le16_at b 106;
  bytes_per_sector_shift := byte_at b 108;
  sectors_per_cluster_shift := byte_at b 109;
  num_fats := byte_at b 110;
  drive_select := byte_at b 111;
  percent_in_use := byte_at b 112;
  boot_reserved := slice b 113 7;
  boot_code := slice b 120 390;
  boot_signature := le16_at b 510
|}.

(** [exfat_context_t]; [fat_table] is the table's memory, as read. *)
Record exfat_context_t := ExfatContext {
  image_file : option Z;
  boot_sector : exfat_boot_sector_t;
  bytes_per_sector : Z;
  sectors_per_cluster : Z;
  bytes_per_cluster : Z;
  cluster_heap_offset_bytes : Z;
  fat_table : option bytes;
  fat_entries : Z
}.

(** [exfat_file_info_t] *)
Record exfat_file_info_t := FileInfo {
  filename : bytes;
  attributes : Z;
  first_cluster : Z;
  data_length : Z;
  create_time : Z;
  last_modified_time : Z;
  last_accessed_time : Z;
  is_directory : bool;
  no_fat_chain : bool
}.

#[global] Instance exfat_file_info_eq_dec : EqDecision exfat_file_info_t.
Proof. solve_decision. Defined.

(** ** Inline helpers *)

Definition exfat_is_valid_cluster (c : Z) : bool := (2 <=? c) && (c <? EXFAT_FAT_BAD_CLUSTER).
Definition exfat_is_end_of_chain (c : Z) : bool := EXFAT_FAT_BAD_CLUSTER <=? c.
Definition exfat_is_directory (attr : Z) : bool := negb (Z.land attr EXFAT_ATTR_DIRECTORY =? 0).

(** ** Directory entry sets *)

(** The loop of [exfat_utf16_to_utf8] on the units left; [out] is what is
    written so far. *)
Fixpoint utf16_loop (units : list Z) (utf8_size : Z) (out : bytes) : bytes :=
  match units with
  | [] => out
  | ch :: units' =>
      if negb (strlen out <? utf8_size - 1) then out
      else if ch =? 0 then out
      else if ch <? 128 then utf16_loop units' utf8_size (out ++ [ch])
      else if ch <? 2048 then
        if utf8_size <=? strlen out + 2 then out
        else utf16_loop units' utf8_size
               (out ++ [Z.lor 192 (Z.shiftr ch 6); Z.lor 128 (Z.land ch 63)])
      else
        if utf8_size <=? strlen out + 3 then out
        else utf16_loop units' utf8_size
               (out ++ [Z.lor 224 (Z.shiftr ch 12); Z.lor 128 (Z.land (Z.shiftr ch 6) 63);
                        Z.lor 128 (Z.land ch 63)])
  end.

Definition exfat_utf16_to_utf8 (units : list Z) (utf8_size : Z) : bytes :=
  utf16_loop units utf8_size [].

(** [n] UTF-16LE units of a buffer. *)
Definition units_at (b : bytes) (i : Z) (n : nat) : list Z :=
  (fun k => le16_at b (i + 2 * Z.of_nat k)) <$> seq 0 n.

(** What the walk over the secondary entries accumulates. *)
Record name_acc := NameAcc {
  na_info : exfat_file_info_t;
  name_chars_collected : Z;
  name_length : Z;
  name_buf : bytes
}.

Definition NAME_BUF_SIZE : Z := EXFAT_MAX_FILENAME_LEN * 4 + 1.
Definition CHUNK_SIZE : Z := 15 * 4 + 1.

(** The walk over [n] secondary entries, the next one at [sec]. *)
Fixpoint parse_secondaries (data : bytes) (n : nat) (sec : Z) (a : name_acc) : name_acc :=
  match n with
  | O => a
  | S n =>
      let stype := byte_at data sec in
      if stype =? EXFAT_ENTRY_TYPE_STREAM_EXT then
        let info := na_info a in
        parse_secondaries data n (sec + EXFAT_ENTRY_SIZE)
          (NameAcc (FileInfo (filename info) (attributes info)
                      (le32_at data (sec + 20)) (le64_at data (sec + 24))
                      (create_time info) (last_modified_time info) (last_accessed_time info)
                      (is_directory info)
                      (negb (Z.land (byte_at data (sec + 1)) EXFAT_FLAG_NO_FAT_CHAIN =? 0)))
             (name_chars_collected a) (byte_at data (sec + 3)) (name_buf a))
      else if stype =? EXFAT_ENTRY_TYPE_FILENAME then
        let chars_remaining := name_length a - name_chars_collected a in
        if chars_remaining <=? 0 then a
        else
          let chars_here := if chars_remaining <? 15 then chars_remaining else 15 in
          let chunk := exfat_utf16_to_utf8 (units_at data (sec + 2) (Z.to_nat chars_here)) CHUNK_SIZE in
          if strlen (name_buf a) + strlen chunk <? NAME_BUF_SIZE then
            parse_secondaries data n (sec + EXFAT_ENTRY_SIZE)
              (NameAcc (na_info a) (name_chars_collected a + chars_here) (name_length a)
                 (name_buf a ++ chunk))
          else parse_secondaries data n (sec + EXFAT_ENTRY_SIZE) a
      else parse_secondaries data n (sec + EXFAT_ENTRY_SIZE) a
  end.

(** [exfat_parse_file_entry]: bytes consumed and the descriptor; [None] for
    the result -1. *)
Definition exfat_parse_file_entry (data : bytes) (offset : Z) : option (Z * exfat_file_info_t) :=
  if strlen data <=? offset then None
  else if negb (byte_at data offset =? EXFAT_ENTRY_TYPE_FILE_DIR) then None
  else
    let secondary_count := byte_at data (offset + 1) in
    let total_bytes := (1 + secondary_count) * EXFAT_ENTRY_SIZE in
    if strlen data <? offset + total_bytes then None
    else
      let attr := le16_at data (offset + 4) in
      let info := FileInfo [] attr 0 0 (le32_at data (offset + 8)) (le32_at data (offset + 12))
                    (le32_at data (offset + 16)) (exfat_is_directory attr) false in
      let a := parse_secondaries data (Z.to_nat secondary_count) (offset + EXFAT_ENTRY_SIZE)
                 (NameAcc info 0 0 []) in
      let info := na_info a in
      Some (total_bytes,
            FileInfo (snprintf_buf (EXFAT_MAX_FILENAME_LEN + 1) (name_buf a)) (attributes info)
              (first_cluster info) (data_length info) (create_time info)
              (last_modified_time info) (last_accessed_time info) (is_directory info)
              (no_fat_chain info)).

(** The entries of one cluster, from [offset]; the flag tells whether the
    end-of-directory entry was met.  [None] when the fuel is used up. *)
Fixpoint scan_cluster (fuel : nat) (data : bytes) (max_entries offset : Z)
    (entries : list exfat_file_info_t) : option (list exfat_file_info_t * bool) :=
  match fuel with
  | O => None
  | S fuel =>
      if (offset + EXFAT_ENTRY_SIZE <=? strlen data) && (Z.of_nat (length entries) <? max_entries) then
        let etype := byte_at data offset in
        if etype =? EXFAT_ENTRY_TYPE_EOD then Some (entries, true)
        else if negb (etype =? EXFAT_ENTRY_TYPE_FILE_DIR) then
          scan_cluster fuel data max_entries (offset + EXFAT_ENTRY_SIZE) entries
        else
          match exfat_parse_file_entry data offset with
          | None => scan_cluster fuel data max_entries (offset + EXFAT_ENTRY_SIZE) entries
          | Some (consumed, info) =>
              scan_cluster fuel data max_entries (offset + consumed)
                (if bool_decide (filename info = []) then entries else entries ++ [info])
          end
      else Some (entries, false)
  end.

(** ** The image file *)

(** [perror]; the system's text for [errno] is left out. *)
Definition perror {W} `{OS W} (s : bytes) : M (sysst W) unit := sys_call (SysStderr s).

Definition exfat_stderr {W} `{OS W} (s : bytes) : M (sysst W) unit :=
  sys_call (SysStderr (str "[exFAT] " ++ s ++ [LF])).

(** [%04X] *)
Definition fmt_04X (z : Z) : bytes := pad_left 48 4 (toupper <$> digits 16 z).

Section exfat.
Context {W : Type} {os : OS W}.

Definition exfat_validate_boot_sector (boot : exfat_boot_sector_t) : M (sysst W) Z :=
  if negb (streq (fs_name boot) EXFAT_FS_NAME) then
    _ ← exfat_stderr (str "invalid filesystem name"); mret (-1)
  else if negb (boot_signature boot =? EXFAT_BOOT_SIGNATURE) then
    _ ← exfat_stderr (str "invalid boot signature: 0x" ++ fmt_04X (boot_signature boot)); mret (-1)
  else if (bytes_per_sector_shift boot <? 9) || (12 <? bytes_per_sector_shift boot) then
    _ ← exfat_stderr (str "BytesPerSectorShift=" ++ fmt_u (bytes_per_sector_shift boot)
                      ++ str " out of range [9,12]");
    mret (-1)
  else if 25 <? bytes_per_sector_shift boot + sectors_per_cluster_shift boot then
    _ ← exfat_stderr (str "shift sum " ++ fmt_u (bytes_per_sector_shift boot) ++ str "+"
                      ++ fmt_u (sectors_per_cluster_shift boot) ++ str " > 25 (cluster too large)");
    mret (-1)
  else mret 0.

(** [exfat_read_boot_sector]: the result and the context. *)
Definition exfat_read_boot_sector (ctx : exfat_context_t) : M (sysst W) (Z * exfat_context_t) :=
  match image_file ctx with
  | None => mret (-1, ctx)
  | Some f =>
      r ← sys_call (SysFseek f 0 SEEK_SET);
      if negb (r =? 0) then _ ← perror (str "[exFAT] fseeko boot sector"); mret (-1, ctx)
      else
        b ← sys_call (SysFread f 512);
        if negb (strlen b =? 512) then _ ← perror (str "[exFAT] fread boot sector"); mret (-1, ctx)
        else
          let boot := boot_of b in
          v ← exfat_validate_boot_sector boot;
          if negb (v =? 0) then
            mret (-1, ExfatContext (Some f) boot (bytes_per_sector ctx) (sectors_per_cluster ctx)
                        (bytes_per_cluster ctx) (cluster_heap_offset_bytes ctx) (fat_table ctx)
                        (fat_entries ctx))
          else
            let bps := u32 (Z.shiftl 1 (bytes_per_sector_shift boot)) in
            let spc := u32 (Z.shiftl 1 (sectors_per_cluster_shift boot)) in
            mret (0, ExfatContext (Some f) boot bps spc (u32 (bps * spc))
                       (u64 (cluster_heap_offset boot * bps)) (fat_table ctx) (fat_entries ctx))
  end.

Definition set_fat (t : option bytes) (n : Z) (ctx : exfat_context_t) : exfat_context_t :=
  ExfatContext (image_file ctx) (boot_sector ctx) (bytes_per_sector ctx) (sectors_per_cluster ctx)
    (bytes_per_cluster ctx) (cluster_heap_offset_bytes ctx) t n.

Definition exfat_read_fat (ctx : exfat_context_t) : M (sysst W) (Z * exfat_context_t) :=
  match image_file ctx with
  | None => mret (-1, ctx)
  | Some f =>
      let boot := boot_sector ctx in
      let fat_offset_bytes := u64 (fat_offset boot * bytes_per_sector ctx) in
      let fat_size_bytes := u64 (fat_length boot * bytes_per_sector ctx) in
      let min_entries := u64 (total_clusters boot + 2) in
      let available := fat_size_bytes / 4 in
      if available <? min_entries then
        _ ← exfat_stderr (str "FAT too small: " ++ fmt_u available ++ str " entries, need "
                          ++ fmt_u min_entries);
        mret (-1, ctx)
      else
        ok ← sys_call (SysMalloc fat_size_bytes);
        if negb ok then _ ← perror (str "[exFAT] malloc FAT"); mret (-1, set_fat None (fat_entries ctx) ctx)
        else
          r ← sys_call (SysFseek f (s64 fat_offset_bytes) SEEK_SET);
          if negb (r =? 0) then
            _ ← perror (str "[exFAT] fseeko FAT"); mret (-1, set_fat None available ctx)
          else
            b ← sys_call (SysFread f fat_size_bytes);
            if negb (strlen b =? fat_size_bytes) then
              _ ← perror (str "[exFAT] fread FAT"); mret (-1, set_fat None available ctx)
            else mret (0, set_fat (Some b) available ctx)
  end.

Definition exfat_get_next_cluster (ctx : exfat_context_t) (cluster : Z) : Z :=
  match fat_table ctx with
  | None => EXFAT_FAT_END_OF_CHAIN
  | Some fat =>
      if u32 (fat_entries ctx) <=? cluster then EXFAT_FAT_END_OF_CHAIN
      else le32_at fat (4 * cluster)
  end.

Definition exfat_free_fat (ctx : exfat_context_t) : exfat_context_t :=
  match fat_table ctx with
  | Some _ => set_fat None 0 ctx
  | None => ctx
  end.

Definition exfat_get_cluster_offset (ctx : exfat_context_t) (cluster : Z) : Z :=
  cluster_heap_offset_bytes ctx +u64 (u64 (u32 (cluster - 2) * bytes_per_cluster ctx)).

(** [exfat_read_cluster]: [None] for -1, else the bytes read. *)
Definition exfat_read_cluster (ctx : exfat_context_t) (cluster size : Z) : M (sysst W) (option bytes) :=
  match image_file ctx with
  | None => mret None
  | Some f =>
      if negb (exfat_is_valid_cluster cluster) then
        _ ← exfat_stderr (str "invalid cluster " ++ fmt_u cluster); mret None
      else
        let offset := exfat_get_cluster_offset ctx cluster in
        let bytes_to_read := if size <? bytes_per_cluster ctx then size else bytes_per_cluster ctx in
        r ← sys_call (SysFseek f (s64 offset) SEEK_SET);
        if negb (r =? 0) then _ ← perror (str "[exFAT] fseeko cluster"); mret None
        else b ← sys_call (SysFread f bytes_to_read); mret (Some b)
  end.

(** ** Directories *)

(** The loop over the chain of a directory. *)
Fixpoint directory_loop (fuel : nat) (ctx : exfat_context_t) (max_entries cluster : Z)
    (entries : list exfat_file_info_t) : M (sysst W) (list exfat_file_info_t) :=
  match fuel with
  | O => diverge
  | S fuel =>
      if exfat_is_valid_cluster cluster && (Z.of_nat (length entries) <? max_entries) then
        got ← exfat_read_cluster ctx cluster (bytes_per_cluster ctx);
        match got with
        | None | Some [] => mret entries
        | Some data =>
            match scan_cluster (S (length data)) data max_entries 0 entries with
            | None => diverge
            | Some (entries, true) => mret entries
            | Some (entries, false) =>
                let next := exfat_get_next_cluster ctx cluster in
                if exfat_is_end_of_chain next then mret entries
                else directory_loop fuel ctx max_entries next entries
            end
        end
      else mret entries
  end.

(** [exfat_read_directory]: [None] for -1, else the entries; the result of
    the code is their number. *)
Definition exfat_read_directory (fuel : nat) (ctx : exfat_context_t) (first_cluster max_entries : Z) :
    M (sysst W) (option (list exfat_file_info_t)) :=
  if max_entries <=? 0 then mret None
  else
    ok ← sys_call (SysMalloc (bytes_per_cluster ctx));
    if negb ok then _ ← perror (str "[exFAT] malloc directory buffer"); mret None
    else entries ← directory_loop fuel ctx max_entries first_cluster []; mret (Some entries).

(** ** File data *)

(** The reads of one cluster's [want] bytes in pieces; the result is whether
    they all succeeded. *)
Fixpoint cluster_pieces {T} (fuel : nat) (f : Z) (write_cb : bytes -> M (st T W) Z)
    (cluster_off want cluster_done : Z) : M (st T W) bool :=
  match fuel with
  | O => diverge
  | S fuel =>
      if cluster_done <? want then
        let chunk := if EXFAT_IO_CHUNK_SIZE <? want - cluster_done then EXFAT_IO_CHUNK_SIZE
                     else want - cluster_done in
        r ← sysc (SysFseek f (s64 (cluster_off +u64 cluster_done)) SEEK_SET);
        if negb (r =? 0) then _ ← io (perror (str "[exFAT] fseeko file data")); mret false
        else
          b ← sysc (SysFread f chunk);
          match b with
          | [] => mret false
          | _ =>
              rc ← write_cb b;
              if negb (rc =? 0) then mret false
              else cluster_pieces fuel f write_cb cluster_off want (cluster_done + strlen b)
          end
      else mret true
  end.

(** The loop over the clusters of a file. *)
Fixpoint file_data_loop {T} (fuel : nat) (ctx : exfat_context_t) (f : Z) (info : exfat_file_info_t)
    (write_cb : bytes -> M (st T W) Z) (remaining cluster : Z) : M (st T W) Z :=
  match fuel with
  | O => diverge
  | S fuel' =>
      if (0 <? remaining) && exfat_is_valid_cluster cluster then
        let want := if remaining <? bytes_per_cluster ctx then remaining else bytes_per_cluster ctx in
        ok ← cluster_pieces (S (Z.to_nat want)) f write_cb (exfat_get_cluster_offset ctx cluster) want 0;
        if negb ok then mret (-1)
        else
          let remaining := remaining - want in
          if remaining =? 0 then mret 0
          else if no_fat_chain info then
            file_data_loop fuel' ctx f info write_cb remaining (cluster +u32 1)
          else
            let next := exfat_get_next_cluster ctx cluster in
            if exfat_is_end_of_chain next then
              _ ← io (exfat_stderr (str "chain ended with " ++ fmt_u remaining ++ str " bytes left"));
              mret 0
            else file_data_loop fuel' ctx f info write_cb remaining next
      else mret 0
  end.

(** The fuel is one more than the clusters the length needs; an image file
    is open in every caller. *)
Definition exfat_read_file_data {T} (ctx : exfat_context_t) (f : Z) (info : exfat_file_info_t)
    (write_cb : bytes -> M (st T W) Z) : M (st T W) Z :=
  if negb (exfat_is_valid_cluster (first_cluster info)) && (0 <? data_length info) then
    _ ← io (exfat_stderr (str "invalid first cluster " ++ fmt_u (first_cluster info))); mret (-1)
  else
    file_data_loop (S (S (Z.to_nat (data_length info / bytes_per_cluster ctx)))) ctx f info write_cb
      (data_length info) (first_cluster info).

(** The callbacks.  The in-memory one has its own state, [mem_ctx_t]: the
    bytes written so far and the capacity of the buffer. *)
Definition write_cb_file {T} (file : Z) (buf : bytes) : M (st T W) Z :=
  n ← sysc (SysFwrite file buf); mret (if n =? strlen buf then 0 else -1).

Fixpoint write_cb_fd {T} (fuel : nat) (fd : Z) (buf : bytes) : M (st T W) Z :=
  match fuel with
  | O => diverge
  | S fuel =>
      if 0 <? strlen buf then
        n ← sysc (SysWrite fd buf);
        if n <=? 0 then _ ← io (perror (str "[exFAT] write")); mret (-1)
        else write_cb_fd fuel fd (drop (Z.to_nat n) buf)
      else mret 0
  end.

Record mem_ctx_t := MemCtx { mem_buf : bytes; mem_cap : Z }.

Definition write_cb_mem (buf : bytes) : M (st mem_ctx_t W) Z :=
  m ← ask id;
  if mem_cap m <? strlen (mem_buf m) + strlen buf then
    _ ← upd (fun m => MemCtx (mem_buf m ++ take (Z.to_nat (mem_cap m - strlen (mem_buf m))) buf) (mem_cap m));
    mret (-1)
  else _ ← upd (fun m => MemCtx (mem_buf m ++ buf) (mem_cap m)); mret 0.

Definition exfat_extract_file (ctx : exfat_context_t) (f : Z) (info : exfat_file_info_t)
    (output_path : bytes) : M (sysst W) Z :=
  o ← sys_call (SysFopen output_path (str "wb"));
  match o with
  | None => _ ← perror (str "[exFAT] fopen output"); mret (-1)
  | Some out =>
      '(rc, _) ← with_state tt (exfat_read_file_data ctx f info (write_cb_file out));
      _ ← sys_call (SysFclose out);
      mret rc
  end.

(** A [write] that makes progress takes a byte at least: the fuel of the
    callback is one more than the bytes it is given. *)
Definition exfat_extract_file_fd (ctx : exfat_context_t) (f : Z) (info : exfat_file_info_t)
    (output_fd : Z) : M (sysst W) Z :=
  if output_fd <? 0 then mret (-1)
  else
    '(rc, _) ← with_state tt
      (exfat_read_file_data ctx f info (fun buf => write_cb_fd (S (length buf)) output_fd buf));
    mret rc.

(** [exfat_extract_to_buffer]: the result, and the bytes stored at the start
    of the buffer. *)
Definition exfat_extract_to_buffer (ctx : exfat_context_t) (f : Z) (info : exfat_file_info_t)
    (buf_size : Z) : M (sysst W) (Z * bytes) :=
  if buf_size =? 0 then mret (-1, [])
  else if buf_size <? data_length info then
    _ ← exfat_stderr (str "buffer too small: need " ++ fmt_u (data_length info) ++ str ", have "
                      ++ fmt_u buf_size);
    mret (-1, [])
  else
    '(rc, m) ← with_state (MemCtx [] buf_size) (exfat_read_file_data ctx f info write_cb_mem);
    if negb (rc =? 0) then mret (-1, mem_buf m) else mret (strlen (mem_buf m), mem_buf m).

(** ** Context *)

Definition exfat_zero : exfat_context_t :=
  ExfatContext None (boot_of (replicate 512 0)) 0 0 0 0 None 0.

Definition exfat_cleanup (ctx : exfat_context_t) : M (sysst W) exfat_context_t :=
  _ ← match image_file ctx with
      | Some f => _ ← sys_call (SysFclose f); mret tt
      | None => mret tt
      end;
  mret (exfat_free_fat (ExfatContext None (boot_sector ctx) (bytes_per_sector ctx)
          (sectors_per_cluster ctx) (bytes_per_cluster ctx) (cluster_heap_offset_bytes ctx)
          (fat_table ctx) (fat_entries ctx))).

Definition exfat_init (image_path : bytes) : M (sysst W) (Z * exfat_context_t) :=
  o ← sys_call (SysFopen image_path (str "rb"));
  match o with
  | None => _ ← perror (str "[exFAT] fopen image"); mret (-1, exfat_zero)
  | Some f =>
      '(rc, ctx) ← exfat_read_boot_sector
        (ExfatContext (Some f) (boot_of (replicate 512 0)) 0 0 0 0 None 0);
      if negb (rc =? 0) then ctx ← exfat_cleanup ctx; mret (-1, ctx)
      else
        '(rc, ctx) ← exfat_read_fat ctx;
        if negb (rc =? 0) then ctx ← exfat_cleanup ctx; mret (-1, ctx)
        else mret (0, ctx)
  end.

(** [exfat_dos_time_to_unix]: the time's fields, handed to [mktime]. *)
Definition dos_time_fields (dos_time : Z) : tm_t := {|
  tm_sec := Z.land dos_time 31 * 2;
  tm_min := Z.land (Z.shiftr dos_time 5) 63;
  tm_hour := Z.land (Z.shiftr dos_time 11) 31;
  tm_mday := Z.land (Z.shiftr dos_time 16) 31;
  tm_mon := Z.land (Z.shiftr dos_time 21) 15 - 1;
  tm_year := Z.land (Z.shiftr dos_time 25) 127 + 80
|}.

Definition exfat_dos_time_to_unix (dos_time : Z) : M (sysst W) Z :=
  sys_call (SysMktime (dos_time_fields dos_time)).

End exfat.
