(* ===== verification/ExfatSpec.v ===== *)
(** * Correctness of the exFAT parser

    What an opened volume promises, that extraction returns the contents of
    the file's cluster chain, that entry sets are read back as they are laid
    out, and what malformed volumes do. *)

From S2P Require Import Prelude CLib Os Unpack Exfat.

(** ** Opened volumes *)

(** The context describes the volume in [img]: geometry in range, and the
    allocation table complete in memory. *)
Record exfat_wf (f : Z) (img : bytes) (ctx : exfat_context_t) : Prop := ExfatWf {
  wf_file : image_file ctx = Some f;
  wf_boot : boot_sector ctx = boot_of (slice img 0 512);
  wf_name : fs_name (boot_sector ctx) = EXFAT_FS_NAME;
  wf_shift : 9 <= bytes_per_sector_shift (boot_sector ctx) <= 12;
  wf_cluster_shift : 0 <= sectors_per_cluster_shift (boot_sector ctx) /\
    bytes_per_sector_shift (boot_sector ctx) + sectors_per_cluster_shift (boot_sector ctx) <= 25;
  wf_bps : bytes_per_sector ctx = 2 ^ bytes_per_sector_shift (boot_sector ctx);
  wf_bpc : bytes_per_cluster ctx =
    2 ^ (bytes_per_sector_shift (boot_sector ctx) + sectors_per_cluster_shift (boot_sector ctx));
  wf_heap : cluster_heap_offset_bytes ctx = cluster_heap_offset (boot_sector ctx) * bytes_per_sector ctx;
  wf_fat : fat_table ctx = Some (slice img (fat_offset (boot_sector ctx) * bytes_per_sector ctx)
                                           (fat_length (boot_sector ctx) * bytes_per_sector ctx));
  wf_fat_len : strlen (slice img (fat_offset (boot_sector ctx) * bytes_per_sector ctx)
                                 (fat_length (boot_sector ctx) * bytes_per_sector ctx)) =
    fat_length (boot_sector ctx) * bytes_per_sector ctx;
  wf_entries : fat_entries ctx = fat_length (boot_sector ctx) * bytes_per_sector ctx / 4;
  wf_covers : total_clusters (boot_sector ctx) + 2 <= fat_entries ctx
}.

Lemma pow2_range a lo hi : 0 <= lo -> lo <= a <= hi -> 2 ^ lo <= 2 ^ a <= 2 ^ hi.
Proof. intros Hl Ha. split; apply Z.pow_le_mono_r; lia. Qed.

(** A branch that logs and returns an error. *)
Ltac fail_branch := unfold perror, exfat_stderr; repeat (wp_step; []); simpl; done || lia.

Section volume.
Context {W : Type} {os : OS W} {f : Z} {img : bytes} `{!ImageOS W f img}.
Context (Hbytes : Forall is_byte img).

Lemma boot_ranges : let b := boot_of (slice img 0 512) in
  0 <= fat_offset b < 2 ^ 32 /\ 0 <= fat_length b < 2 ^ 32 /\ 0 <= cluster_heap_offset b < 2 ^ 32 /\
  0 <= total_clusters b < 2 ^ 32 /\ 0 <= sectors_per_cluster_shift b.
Proof.
  simpl. pose proof (slice_byte img 0 512 Hbytes) as Hb.
  split_and!; first [apply le32_at_range | apply byte_at_range]; done.
Qed.

(** What validation lets through. *)
Lemma boot_validate_ok boot (s : sysst W) :
  wp (exfat_validate_boot_sector boot)
    (fun v _ => v = 0 -> fs_name boot = EXFAT_FS_NAME /\ 9 <= bytes_per_sector_shift boot <= 12 /\
       bytes_per_sector_shift boot + sectors_per_cluster_shift boot <= 25) (fun _ => True) s.
Proof.
  unfold exfat_validate_boot_sector, exfat_stderr. case_if; [fail_branch|].
  case_if; [fail_branch|]. case_if; [fail_branch|]. case_if; [fail_branch|].
  wp_step. intros _. zbool.
  match goal with H : streq _ _ = true |- _ => apply streq_true in H end. split; [done | lia].
Qed.

(** The context after the boot sector, before the table. *)
Definition boot_read (ctx : exfat_context_t) : Prop :=
  let boot := boot_sector ctx in
  image_file ctx = Some f /\ boot = boot_of (slice img 0 512) /\ fs_name boot = EXFAT_FS_NAME /\
  9 <= bytes_per_sector_shift boot <= 12 /\ 0 <= sectors_per_cluster_shift boot /\
  bytes_per_sector_shift boot + sectors_per_cluster_shift boot <= 25 /\
  bytes_per_sector ctx = 2 ^ bytes_per_sector_shift boot /\
  bytes_per_cluster ctx = 2 ^ (bytes_per_sector_shift boot + sectors_per_cluster_shift boot) /\
  cluster_heap_offset_bytes ctx = cluster_heap_offset boot * bytes_per_sector ctx.

Lemma read_boot_ok ctx (s : sysst W) :
  image_file ctx = Some f ->
  wp (exfat_read_boot_sector ctx) (fun r _ => r.1 = 0 -> boot_read r.2) (fun _ => True) s.
Proof.
  intros Hf. unfold exfat_read_boot_sector. rewrite Hf.
  apply (wp_seek_read f img); [lia | lia | |].
  { intros r s' _ _. fail_branch. }
  intros b s' (Hlen & Hb & _). case_if; [fail_branch|].
  apply negb_false_iff, Z.eqb_eq in Heqb0. rewrite Heqb0 in Hb. subst b.
  remember (boot_of (slice img 0 512)) as boot eqn:Hboot.
  eapply wp_seq; [apply boot_validate_ok|]. intros v s'' Hv. cbv beta zeta. case_if; [wp_step; done|].
  wp_step. intros _. zbool. destruct (Hv ltac:(done)) as (Hn & Hs & Hc).
  pose proof boot_ranges as Hr. rewrite <- Hboot in Hr. cbv zeta in Hr.
  destruct Hr as (_ & _ & Hheap & _ & Hsc). unfold boot_read.
  cbn [fst snd boot_sector image_file bytes_per_sector bytes_per_cluster cluster_heap_offset_bytes].
  assert (Hp : forall n, 0 <= n <= 25 -> u32 (Z.shiftl 1 n) = 2 ^ n).
  { intros n Hn'. rewrite Z.shiftl_1_l. pose proof (pow2_range n 0 25 ltac:(lia) Hn').
    apply Z.mod_small. lia. }
  pose proof (pow2_range (bytes_per_sector_shift boot) 9 12 ltac:(lia) Hs).
  rewrite !Hp by lia. rewrite <- Z.pow_add_r by lia.
  pose proof (pow2_range (bytes_per_sector_shift boot + sectors_per_cluster_shift boot) 0 25
                ltac:(lia) ltac:(lia)).
  split_and!; try done; try lia; apply Z.mod_small; [lia|].
  split; [apply Z.mul_nonneg_nonneg; lia|]. nia.
Qed.

Lemma read_fat_ok ctx (s : sysst W) :
  boot_read ctx ->
  wp (exfat_read_fat ctx) (fun r _ => r.1 = 0 -> exfat_wf f img r.2) (fun _ => True) s.
Proof.
  intros (Hf & Hboot & Hn & Hs & Hc & Hsc & Hbps & Hbpc & Hheap).
  pose proof boot_ranges as (Ho & Hl & _ & Ht & _). rewrite <- Hboot in Ho, Hl, Ht.
  pose proof (pow2_range (bytes_per_sector_shift (boot_sector ctx)) 9 12 ltac:(lia) Hs) as Hp.
  rewrite <- Hbps in Hp. unfold exfat_read_fat. rewrite Hf.
  assert (Hmul : forall z, 0 <= z < 2 ^ 32 -> 0 <= z * bytes_per_sector ctx < 2 ^ 44).
  { intros z Hz. split; [apply Z.mul_nonneg_nonneg; lia | nia]. }
  pose proof (Hmul _ Ho) as Ho'. pose proof (Hmul _ Hl) as Hl'.
  rewrite !u64_small by lia. case_if; [fail_branch|].
  wp_step. wp_step. case_if; [fail_branch|].
  rewrite s64_small by lia.
  apply (wp_seek_read f img); [lia | lia | |].
  { intros ? s' _ _. fail_branch. }
  intros b s' (_ & Hb & _). case_if; [fail_branch|]. wp_step. intros _. zbool.
  match goal with H : strlen b = _ |- _ => rewrite H in Hb end. split; cbn; try done; by rewrite <- Hb.
Qed.

Lemma exfat_init_ok path (s : sysst W) :
  wp (exfat_init path) (fun r _ => r.1 = 0 -> exfat_wf f img r.2) (fun _ => True) s.
Proof.
  unfold exfat_init. wp_step. wp_step.
  match goal with H : os_step _ _ = (?r, _, _) |- _ => destruct r as [g|]; [|fail_branch] end.
  match goal with H : os_step _ _ = _ |- _ => apply fopen_img in H as [-> _] end.
  assert (Hclean : forall ctx s', wp (ctx ← exfat_cleanup ctx; mret (-1, ctx))
            (fun r _ => r.1 = 0 -> exfat_wf f img r.2) (fun _ => True) s').
  { intros ctx s'. eapply wp_seq; [apply wp_any|]. intros. by wp_step. }
  eapply wp_seq; [by apply read_boot_ok|]. intros [rc ctx] s' Hb. case_if; [apply Hclean|].
  zbool. eapply wp_seq; [by apply read_fat_ok, Hb|]. intros [rc' ctx'] s'' Hw.
  case_if; [apply Hclean|]. zbool. wp_step. intros _. by apply Hw.
Qed.

End volume.

(** ** Contents of a file *)

Section contents.
Context (img : bytes) (ctx : exfat_context_t) (info : exfat_file_info_t).

(** The clusters of the file: a contiguous run or the chain in the table. *)
Definition next_of (c : Z) : Z :=
  if no_fat_chain info then c +u32 1 else exfat_get_next_cluster ctx c.

Fixpoint chain (n : nat) (c : Z) : list Z :=
  match n with
  | O => []
  | S n => if exfat_is_valid_cluster c then c :: chain n (next_of c) else []
  end.

Definition cluster_pos (c : Z) : Z := cluster_heap_offset_bytes ctx + (c - 2) * bytes_per_cluster ctx.

Definition cluster_bytes (c : Z) : bytes := slice img (cluster_pos c) (bytes_per_cluster ctx).

(** The clusters a length needs. *)
Definition clusters_for (len : Z) : nat :=
  Z.to_nat ((len + bytes_per_cluster ctx - 1) / bytes_per_cluster ctx).

Definition file_clusters : list Z := chain (clusters_for (data_length info)) (first_cluster info).

(** The first [data_length] bytes of the file's clusters. *)
Definition file_contents : bytes :=
  take (Z.to_nat (data_length info)) (concat (cluster_bytes <$> file_clusters)).

End contents.

Section extract.
Context {W : Type} {os : OS W} {f : Z} {img : bytes} `{!ImageOS W f img}.
Context (Hbytes : Forall is_byte img) {ctx : exfat_context_t} (Hwf : exfat_wf f img ctx).

Lemma bpc_range : 512 <= bytes_per_cluster ctx <= 2 ^ 25.
Proof.
  rewrite (wf_bpc _ _ _ Hwf). destruct (wf_shift _ _ _ Hwf), (wf_cluster_shift _ _ _ Hwf).
  apply (pow2_range _ 9 25); lia.
Qed.

Lemma heap_range : 0 <= cluster_heap_offset_bytes ctx < 2 ^ 44.
Proof.
  pose proof (boot_ranges Hbytes) as (_ & _ & Hh & _). rewrite <- (wf_boot _ _ _ Hwf) in Hh.
  pose proof (pow2_range _ 9 12 ltac:(lia) (wf_shift _ _ _ Hwf)) as Hp.
  rewrite <- (wf_bps _ _ _ Hwf) in Hp. rewrite (wf_heap _ _ _ Hwf).
  split; [apply Z.mul_nonneg_nonneg; lia | nia].
Qed.

(** The offset of a valid cluster does not wrap. *)
Lemma cluster_offset c : exfat_is_valid_cluster c = true ->
  exfat_get_cluster_offset ctx c = cluster_pos ctx c /\ 0 <= cluster_pos ctx c < 2 ^ 58.
Proof.
  unfold exfat_is_valid_cluster, EXFAT_FAT_BAD_CLUSTER. intros Hc. zbool.
  pose proof bpc_range. pose proof heap_range. unfold exfat_get_cluster_offset, cluster_pos.
  assert (0 <= (c - 2) * bytes_per_cluster ctx < 2 ^ 57).
  { split; [apply Z.mul_nonneg_nonneg; lia | nia]. }
  unfold u64, u32. rewrite (Z.mod_small (c - 2)), (Z.mod_small ((c - 2) * _)), Z.mod_small by lia. lia.
Qed.

(** A callback that takes the file's bytes: [D t tr d] says that [d] has been
    delivered in component state [t] after trace [tr]; [sure] that the
    callback cannot fail while at most [cap] bytes are delivered. *)
Context {T : Type} (cb : bytes -> M (st T W) Z) (D : T -> list event -> bytes -> Prop).
Context (cap : Z) (sure : Prop).
Context (D_seek : forall t tr d off r, D t tr d -> D t (Ev (SysFseek f off SEEK_SET) r :: tr) d).
Context (D_read : forall t tr d len r, D t tr d -> D t (Ev (SysFread f len) r :: tr) d).
Context (D_err : forall t tr d line r, D t tr d -> D t (Ev (SysStderr line) r :: tr) d).
Context (cb_spec : forall b d s, D (ses s) (os_trace (sysw s)) d -> strlen d + strlen b <= cap ->
  wp (cb b) (fun rc s' => (rc = 0 -> D (ses s') (os_trace (sysw s')) (d ++ b)) /\ (sure -> rc = 0))
    (fun _ => False) s).

Lemma pieces_spec fuel off want done pre s :
  0 <= off < 2 ^ 58 -> 0 <= done <= want -> want <= 2 ^ 25 -> (Z.to_nat (want - done) < fuel)%nat ->
  strlen pre + want <= cap -> strlen (slice img off done) = done ->
  D (ses s) (os_trace (sysw s)) (pre ++ slice img off done) ->
  wp (cluster_pieces fuel f cb off want done)
    (fun ok s' =>
       (ok = true -> strlen (slice img off want) = want /\
          D (ses s') (os_trace (sysw s')) (pre ++ slice img off want)) /\
       (ReliableOS W f img -> sure -> off + want <= strlen img -> ok = true))
    (fun _ => False) s.
Proof.
  revert done s. induction fuel as [|fuel IH]; intros done s Ho Hd Hw Hfuel Hcap Hlen HD; [lia|].
  simpl. case_if; zbool; [|wp_step; assert (done = want) as -> by lia; done].
  set (chunk := if _ <? _ then _ else _).
  assert (Hch : 0 < chunk <= want - done)
    by (unfold chunk, EXFAT_IO_CHUNK_SIZE; case_if; zbool; lia).
  rewrite u64_small, s64_small by lia.
  apply (wp_seek_readc f img); [lia | lia | |].
  { intros r s' _ Hs Ht HR. unfold perror. wp_step. apply wp_io. wp_step. wp_step. split; [done|].
    intros HR'. done. }
  intros b s' Hs Ht (Hb & Heq & _ & Hfull).
  destruct b as [|x b'] eqn:Eb.
  { wp_step. split; [done|]. intros HR _ Him. specialize (Hfull HR). unfold strlen at 1 in Hfull.
    simpl in Hfull. lia. }
  rewrite <- Eb in *. assert (Hpos : 0 < strlen b) by (subst b; unfold strlen; simpl; lia).
  assert (Happ : slice img off done ++ b = slice img off (done + strlen b)).
  { rewrite Heq at 1. apply slice_app; lia. }
  eapply wp_seq; [apply (cb_spec b (pre ++ slice img off done));
    [rewrite Hs, Ht; by apply D_read, D_seek | rewrite strlen_app; lia] |].
  intros rc s'' [Hrc Hsure]. cbv beta. case_if; zbool; [wp_step; split; [done|]; intros; tauto|].
  specialize (Hrc Heqb0). rewrite <- app_assoc, Happ in Hrc.
  apply IH; try lia; [|done]. rewrite <- Happ, strlen_app. lia.
Qed.

(** The first [n] bytes of the clusters of a chain, one cluster at a time. *)
Lemma take_chain_last rem c rest : 0 <= rem <= bytes_per_cluster ctx -> 0 <= cluster_pos ctx c ->
  strlen (slice img (cluster_pos ctx c) rem) = rem ->
  take (Z.to_nat rem) (cluster_bytes img ctx c ++ rest) = slice img (cluster_pos ctx c) rem.
Proof.
  intros Hr Hp Hl. rewrite strlen_slice in Hl by lia. rewrite take_app_le; [by apply take_slice|].
  pose proof (strlen_slice img (cluster_pos ctx c) (bytes_per_cluster ctx)) as Hs.
  unfold cluster_bytes. unfold strlen in *. lia.
Qed.

Lemma take_chain_more rem c rest : bytes_per_cluster ctx <= rem ->
  strlen (cluster_bytes img ctx c) = bytes_per_cluster ctx ->
  take (Z.to_nat rem) (cluster_bytes img ctx c ++ rest) =
  cluster_bytes img ctx c ++ take (Z.to_nat (rem - bytes_per_cluster ctx)) rest.
Proof.
  intros Hr Hl. unfold strlen in Hl. rewrite take_app_ge by lia. do 2 f_equal. lia.
Qed.

Lemma chain_invalid info n c : exfat_is_valid_cluster c = false -> chain ctx info n c = [].
Proof. intros Hc. destruct n; [done|]. simpl. by rewrite Hc. Qed.

Lemma end_invalid c : exfat_is_end_of_chain c = true -> exfat_is_valid_cluster c = false.
Proof. unfold exfat_is_end_of_chain, exfat_is_valid_cluster. intros H. zbool. lia. Qed.

(** What a run over the chain from [c] delivers after [pre]. *)
Definition chain_post (info : exfat_file_info_t) (n : nat) (rem c : Z) (pre : bytes) (rc : Z) (s : st T W) : Prop :=
  (rc = 0 -> D (ses s) (os_trace (sysw s))
     (pre ++ take (Z.to_nat rem) (concat (cluster_bytes img ctx <$> chain ctx info n c)))) /\
  (ReliableOS W f img -> sure ->
   Forall (fun c => cluster_pos ctx c + bytes_per_cluster ctx <= strlen img) (chain ctx info n c) -> rc = 0).

Lemma chain_post_end info n rem c pre s : exfat_is_valid_cluster c = false ->
  D (ses s) (os_trace (sysw s)) pre -> chain_post info n rem c pre 0 s.
Proof.
  intros Hc HD. split; [|done]. rewrite chain_invalid by done. simpl. by rewrite take_nil, app_nil_r.
Qed.

(** One more cluster in front. *)
Lemma chain_post_step info n rem c pre rc s :
  exfat_is_valid_cluster c = true -> bytes_per_cluster ctx <= rem ->
  strlen (cluster_bytes img ctx c) = bytes_per_cluster ctx ->
  chain_post info n (rem - bytes_per_cluster ctx) (next_of ctx info c) (pre ++ cluster_bytes img ctx c) rc s ->
  chain_post info (S n) rem c pre rc s.
Proof.
  intros Hc Hr Hl [H0 H1]. split; simpl; rewrite Hc; simpl.
  - intros ->. rewrite take_chain_more by done. rewrite app_assoc. by apply H0.
  - intros HR Hs [_ HF]%Forall_cons. by apply H1.
Qed.

Lemma loop_spec info n fuel rem c pre s :
  0 <= rem -> rem < Z.of_nat fuel * bytes_per_cluster ctx -> rem <= Z.of_nat n * bytes_per_cluster ctx ->
  strlen pre + rem <= cap -> D (ses s) (os_trace (sysw s)) pre ->
  wp (file_data_loop fuel ctx f info cb rem c) (chain_post info n rem c pre) (fun _ => False) s.
Proof.
  pose proof bpc_range as Hbpc.
  revert n rem c pre s. induction fuel as [|fuel IH]; intros n rem c pre s Hrem Hfuel Hn Hcap HD; [lia|].
  cbn [file_data_loop]. destruct (exfat_is_valid_cluster c) eqn:Hc;
    [|rewrite andb_false_r; wp_step; by apply chain_post_end].
  case_if; zbool; cycle 1.
  { destruct Heqb; [|done]. wp_step. assert (rem = 0) as -> by lia. split; [|done]. simpl.
    by rewrite app_nil_r. }
  destruct n as [|n]; [lia|]. destruct (cluster_offset c Hc) as [-> Hpos].
  set (want := if rem <? _ then _ else _).
  assert (Hwant : want = Z.min rem (bytes_per_cluster ctx)) by (unfold want; case_if; zbool; lia).
  eapply wp_seq; [apply (pieces_spec _ _ _ _ pre); try lia; [done | by rewrite app_nil_r]|].
  intros ok s' [Hok Hrel]. cbv beta zeta. case_if; zbool; subst ok.
  { wp_step. split; [done|]. intros HR Hs. simpl. rewrite Hc. intros [HF _]%Forall_cons.
    exfalso. discriminate Hrel; try done. lia. }
  destruct (Hok eq_refl) as [Hl HD']. case_if; zbool.
  - wp_step. assert (want = rem) as Hr by lia. rewrite Hr in *. split; [|done]. intros _. simpl. rewrite Hc.
    simpl. rewrite take_chain_last; [done | lia | lia | done].
  - assert (want = bytes_per_cluster ctx) as Hr by lia. rewrite Hr in *.
    assert (Hnext : forall m, m = file_data_loop fuel ctx f info cb (rem - bytes_per_cluster ctx) (next_of ctx info c) ->
      wp m (chain_post info (S n) rem c pre) (fun _ => False) s').
    { intros m ->. fold (cluster_bytes img ctx c) in Hl, HD'.
      eapply wp_mono; [apply (IH n _ _ (pre ++ cluster_bytes img ctx c)); [lia | lia | lia | rewrite strlen_app; lia | exact HD'] | | done].
      intros rc s'' Hp. apply chain_post_step; [done | lia | done | done]. }
    unfold next_of in Hnext. destruct (no_fat_chain info) eqn:Hnf; [by apply Hnext|].
    case_if; [|by apply Hnext].
    wp_step. apply wp_io. unfold exfat_stderr. wp_step. wp_step.
    apply chain_post_step; [done | lia | done |]. apply chain_post_end.
    + unfold next_of. rewrite Hnf. by apply end_invalid.
    + simpl. by apply D_err.
Qed.

Lemma file_data_spec info s :
  0 <= data_length info <= cap -> D (ses s) (os_trace (sysw s)) [] ->
  wp (exfat_read_file_data ctx f info cb)
    (fun rc s' => (rc = 0 -> D (ses s') (os_trace (sysw s')) (file_contents img ctx info)) /\
       (ReliableOS W f img -> sure ->
        Forall (fun c => cluster_pos ctx c + bytes_per_cluster ctx <= strlen img) (file_clusters ctx info) ->
        (data_length info = 0 \/ exfat_is_valid_cluster (first_cluster info) = true) -> rc = 0))
    (fun _ => False) s.
Proof.
  intros Hl HD. pose proof bpc_range as Hbpc. unfold exfat_read_file_data. case_if; zbool.
  - wp_step. apply wp_io. unfold exfat_stderr. wp_step. wp_step. split; [done|]. intros _ _ _ [|Hv]; [lia|].
    congruence.
  - pose proof (Z.div_mod (data_length info) (bytes_per_cluster ctx) ltac:(lia)).
    pose proof (Z.mod_pos_bound (data_length info) (bytes_per_cluster ctx) ltac:(lia)).
    pose proof (Z.div_pos (data_length info) (bytes_per_cluster ctx) ltac:(lia) ltac:(lia)).
    eapply wp_mono; [apply (loop_spec info (clusters_for ctx (data_length info)) _ _ _ []) | |done];
      try done; try lia.
    + pose proof (Z.div_mod (data_length info + bytes_per_cluster ctx - 1) (bytes_per_cluster ctx) ltac:(lia)).
      pose proof (Z.mod_pos_bound (data_length info + bytes_per_cluster ctx - 1) (bytes_per_cluster ctx) ltac:(lia)).
      unfold clusters_for. rewrite Z2Nat.id; [nia | apply Z.div_pos; lia].
    + unfold strlen. simpl. lia.
    + intros rc s' [H0' H1']. split; [exact H0'|]. intros. by apply H1'.
Qed.
End extract.

(** The in-memory callback. *)
Lemma mem_cb_spec {W} {os : OS W} cap b d (s : st mem_ctx_t W) :
  mem_buf (ses s) = d /\ mem_cap (ses s) = cap -> strlen d + strlen b <= cap ->
  wp (write_cb_mem b)
    (fun rc s' => (rc = 0 -> mem_buf (ses s') = d ++ b /\ mem_cap (ses s') = cap) /\ (True -> rc = 0))
    (fun _ => False) s.
Proof.
  intros [Hd Hc] Hl. unfold write_cb_mem. wp_step. wp_step. unfold id. rewrite Hc, Hd.
  case_if; zbool; [lia|]. wp_step. wp_step. wp_step. simpl. by rewrite Hd.
Qed.

(** The descriptor's callback. *)
Lemma fd_cb_spec {T W} {os : OS W} fd fuel old b d (s : st T W) :
  (length b < fuel)%nat -> sent_on fd (os_trace (sysw s)) = old ++ d ->
  wp (write_cb_fd fuel fd b)
    (fun rc s' => (rc = 0 -> sent_on fd (os_trace (sysw s')) = old ++ d ++ b) /\ (False -> rc = 0))
    (fun _ => False) s.
Proof.
  revert b d s. induction fuel as [|fuel IH]; intros b d s Hf Hs; [lia|]. simpl.
  case_if; zbool; [|wp_step; split; [|done]; intros _; destruct b; [by rewrite app_nil_r|];
    unfold strlen in Heqb0; simpl in Heqb0; lia].
  wp_step. wp_step. case_if; zbool; [wp_step; apply wp_io; unfold perror; wp_step; wp_step; done|].
  eapply wp_mono; [apply (IH _ (d ++ take (Z.to_nat r) b)) | | done].
  - rewrite length_drop. unfold strlen in *. lia.
  - simpl. rewrite Hs, Z.eqb_refl, (proj2 (Z.ltb_lt 0 r)) by lia. simpl. by rewrite app_assoc.
  - intros rc s' [H0 H1]. split; [|done]. intros Hrc. rewrite (H0 Hrc). f_equal.
    by rewrite <- app_assoc, take_drop.
Qed.

Section volumes.
Context {W : Type} {os : OS W} {f : Z} {img : bytes} `{!ImageOS W f img}.

(** C19: opening an image that is not rejected leaves a context in which every
    access the parser makes is in range: the cluster size is a power of two of
    at most 32 MiB, the byte offset of every cluster number it follows is
    computed without wrap-around, and every index it looks up lies inside the
    allocation table, which holds an entry for each cluster of the volume. *)
Theorem exfat_open_bounds path s ctx s' :
  Forall is_byte img ->
  exfat_init path s = (Some (0, ctx), s') ->
  image_file ctx = Some f /\
  512 <= bytes_per_cluster ctx <= 2 ^ 25 /\
  (forall c, exfat_is_valid_cluster c = true ->
     exfat_get_cluster_offset ctx c = cluster_pos ctx c /\ 0 <= cluster_pos ctx c < 2 ^ 58) /\
  exists fat, fat_table ctx = Some fat /\
    4 * (total_clusters (boot_sector ctx) + 2) <= strlen fat /\
    forall c, 0 <= c -> exfat_get_next_cluster ctx c <> EXFAT_FAT_END_OF_CHAIN -> 4 * c + 4 <= strlen fat.
Proof.
  intros Hb Hi. pose proof (exfat_init_ok Hb path s) as Hw. unfold wp in Hw. rewrite Hi in Hw.
  specialize (Hw eq_refl). split; [apply (wf_file _ _ _ Hw)|]. split; [apply (bpc_range Hw)|].
  split; [intros c; apply (cluster_offset Hb Hw)|].
  destruct Hw as [_ Hboot _ _ _ _ _ _ Hfat Hlen Hent Hcov]. simpl in *.
  pose proof (boot_ranges Hb) as (_ & _ & _ & Ht & _). rewrite <- Hboot in Ht.
  pose proof (Z.mul_div_le (fat_length (boot_sector ctx) * bytes_per_sector ctx) 4 ltac:(lia)) as Hle.
  eexists. split; [exact Hfat|]. rewrite Hlen. split; [lia|]. intros c Hc Hn.
  unfold exfat_get_next_cluster in Hn. rewrite Hfat in Hn. case_if; [done|]. zbool. unfold u32 in *.
  pose proof (Z.mod_le (fat_entries ctx) (2 ^ 32) ltac:(lia) ltac:(lia)). lia.
Qed.

Definition inside (ctx : exfat_context_t) (info : exfat_file_info_t) : Prop :=
  Forall (fun c => cluster_pos ctx c + bytes_per_cluster ctx <= strlen img) (file_clusters ctx info) /\
  (data_length info = 0 \/ exfat_is_valid_cluster (first_cluster info) = true).

Lemma extract_mem_spec ctx info size t :
  Forall is_byte img -> exfat_wf f img ctx -> 0 <= data_length info <= size ->
  wp (with_state (MemCtx [] size) (exfat_read_file_data ctx f info write_cb_mem))
    (fun r _ => (r.1 = 0 -> mem_buf r.2 = file_contents img ctx info) /\
       (ReliableOS W f img -> inside ctx info -> r.1 = 0)) (fun _ => False) t.
Proof.
  intros Hb Hw Hl. apply wp_with_state.
  eapply wp_mono; [apply (file_data_spec Hb Hw write_cb_mem
    (fun m _ d => mem_buf m = d /\ mem_cap m = size) size True); try done; intros; by apply mem_cb_spec | | done].
  intros rc t' [H0 H1]. simpl. split; [intros Hrc; by destruct (H0 Hrc)|].
  intros HR [Hc Hv]. by apply H1.
Qed.

Lemma extract_buffer_spec ctx info size t :
  Forall is_byte img -> exfat_wf f img ctx -> 0 <= data_length info <= size -> 0 < size ->
  wp (exfat_extract_to_buffer ctx f info size)
    (fun r _ => (r.1 <> -1 -> r.2 = file_contents img ctx info /\ r.1 = strlen r.2) /\
       (ReliableOS W f img -> inside ctx info -> r.1 <> -1)) (fun _ => False) t.
Proof.
  intros Hb Hw Hl Hsz. unfold exfat_extract_to_buffer. case_if; zbool; [lia|]. case_if; zbool; [lia|].
  eapply wp_seq; [by apply extract_mem_spec|]. intros [rc m] t' [H0 H1]. simpl in *.
  case_if; zbool; wp_step; simpl.
  - split; [done|]. intros HR Hi. by destruct (Heqb1 (H1 HR Hi)).
  - rewrite (H0 Heqb1). split; [done|]. pose proof (strlen_nonneg (file_contents img ctx info)). lia.
Qed.

(** C12: extraction into a buffer that is large enough always returns.  Unless
    it returns -1, what it stored is the first [data_length] bytes of the
    file's clusters, taken from the image in the order of the contiguous run
    or of the chain in the allocation table, and the result is their number;
    and when seeks and reads do not fail and the clusters lie inside the
    image it does not return -1. *)
Theorem exfat_extract_correct path s ctx s' info size t :
  Forall is_byte img ->
  exfat_init path s = (Some (0, ctx), s') ->
  0 <= data_length info <= size -> 0 < size ->
  exists n buf t', exfat_extract_to_buffer ctx f info size t = (Some (n, buf), t') /\
    (n <> -1 -> buf = file_contents img ctx info /\ n = strlen buf) /\
    (ReliableOS W f img -> inside ctx info -> n <> -1).
Proof.
  intros Hb Hi Hl Hsz. pose proof (exfat_init_ok Hb path s) as Hw. unfold wp in Hw. rewrite Hi in Hw.
  pose proof (extract_buffer_spec ctx info size t Hb (Hw eq_refl) Hl Hsz) as Hx. unfold wp in Hx.
  destruct (exfat_extract_to_buffer _ _ _ _ _) as [[[n buf]|] t']; [|done]. by exists n, buf, t'.
Qed.

(** The same for a descriptor: what a successful extraction wrote. *)
Lemma extract_fd_correct ctx info fd t :
  Forall is_byte img -> exfat_wf f img ctx -> 0 <= data_length info ->
  wp (exfat_extract_file_fd ctx f info fd)
    (fun rc t' => rc = 0 -> sent_on fd (os_trace t') = sent_on fd (os_trace t) ++ file_contents img ctx info)
    (fun _ => False) t.
Proof.
  intros Hb Hw Hl. unfold exfat_extract_file_fd. case_if; [by wp_step|].
  apply wp_seq with (Q := fun r t' => r.1 = 0 ->
    sent_on fd (os_trace t') = sent_on fd (os_trace t) ++ file_contents img ctx info);
    [apply wp_with_state; eapply wp_mono; [apply (file_data_spec Hb Hw (fun buf => write_cb_fd (S (length buf)) fd buf)
             (fun _ tr d => sent_on fd tr = sent_on fd (os_trace t) ++ d) (data_length info) False) | |] |].
  - intros. simpl. by rewrite app_nil_r.
  - intros. simpl. by rewrite app_nil_r.
  - intros. simpl. by rewrite app_nil_r.
  - intros b d s Hs _. apply fd_cb_spec; [lia | done].
  - lia.
  - simpl. by rewrite app_nil_r.
  - intros rc t' [H0 _]. exact H0.
  - done.
  - intros [rc u] t' H0. by wp_step.
Qed.

End volumes.
