(* ===== verification/ExfatDir.v ===== *)
(** * Directory entry sets

    A file's entry set as the exFAT specification lays it out, that
    [exfat_parse_file_entry] reads it back, and the bounds of the name
    buffers for any data. *)

From S2P Require Import Prelude CLib Os Unpack Exfat ExfatSpec.

(** ** The layout *)

(** The 0x85 entry. *)
Definition file_entry (secondaries checksum : Z) (i : exfat_file_info_t) : bytes :=
  [EXFAT_ENTRY_TYPE_FILE_DIR; secondaries] ++ le16 checksum ++ le16 (attributes i) ++ [0; 0] ++
  le32 (create_time i) ++ le32 (last_modified_time i) ++ le32 (last_accessed_time i) ++ replicate 12 0.

(** The 0xC0 entry. *)
Definition stream_ext_entry (chars hash : Z) (i : exfat_file_info_t) : bytes :=
  [EXFAT_ENTRY_TYPE_STREAM_EXT; if no_fat_chain i then 3 else 1; 0; chars] ++ le16 hash ++ [0; 0] ++
  le64 (data_length i) ++ replicate 4 0 ++ le32 (first_cluster i) ++ le64 (data_length i).

(** A 0xC1 entry: at most 15 units of the name, padded. *)
Definition name_entry (units : list Z) : bytes :=
  [EXFAT_ENTRY_TYPE_FILENAME; 0] ++ flat_map le16 (units ++ replicate (15 - length units) 0).

Fixpoint name_entries (n : nat) (units : list Z) : bytes :=
  match n with
  | O => []
  | S n => name_entry (take 15 units) ++ name_entries n (drop 15 units)
  end.

Definition name_entry_count (units : list Z) : nat := Nat.div (length units + 14) 15.

Definition entry_set (checksum hash : Z) (units : list Z) (i : exfat_file_info_t) : bytes :=
  let n := name_entry_count units in
  file_entry (Z.of_nat (S n)) checksum i ++ stream_ext_entry (Z.of_nat (length units)) hash i ++
  name_entries n units.

(** UTF-8 of a code unit. *)
Definition utf8_of (u : Z) : bytes :=
  if u <? 128 then [u]
  else if u <? 2048 then [192 + u / 64; 128 + u mod 64]
  else [224 + u / 4096; 128 + u / 64 mod 64; 128 + u mod 64].

Definition utf8 (units : list Z) : bytes := flat_map utf8_of units.

Definition name_unit (u : Z) : Prop := 0 < u < 2 ^ 16.

(** The descriptor's fields have their widths, and its attributes tell
    directories. *)
Definition info_ok (i : exfat_file_info_t) : Prop :=
  0 <= attributes i < 2 ^ 16 /\ 0 <= create_time i < 2 ^ 32 /\ 0 <= last_modified_time i < 2 ^ 32 /\
  0 <= last_accessed_time i < 2 ^ 32 /\ 0 <= first_cluster i < 2 ^ 32 /\
  0 <= data_length i < 2 ^ 64 /\ is_directory i = exfat_is_directory (attributes i).

(** ** UTF-8 *)

Lemma utf8_of_bits u : name_unit u ->
  utf8_of u = if u <? 128 then [u]
    else if u <? 2048 then [Z.lor 192 (Z.shiftr u 6); Z.lor 128 (Z.land u 63)]
    else [Z.lor 224 (Z.shiftr u 12); Z.lor 128 (Z.land (Z.shiftr u 6) 63); Z.lor 128 (Z.land u 63)].
Proof.
  intros Hu. unfold name_unit in Hu. unfold utf8_of.
  assert (Hor : forall hi lo n, 0 <= lo < 2 ^ n -> 0 <= n -> 0 <= hi -> Z.lor (hi * 2 ^ n) lo = hi * 2 ^ n + lo).
  { intros hi lo n Hlo Hn Hhi. rewrite Z.lor_comm, <- Z.shiftl_mul_pow2, lor_shiftl by lia.
    rewrite Z.shiftl_mul_pow2 by lia. lia. }
  assert (H192 : forall lo, 0 <= lo < 32 -> Z.lor 192 lo = 192 + lo) by (intros; by apply (Hor 6 _ 5)).
  assert (H128 : forall lo, 0 <= lo < 64 -> Z.lor 128 lo = 128 + lo) by (intros; by apply (Hor 2 _ 6)).
  assert (H224 : forall lo, 0 <= lo < 16 -> Z.lor 224 lo = 224 + lo) by (intros; by apply (Hor 14 _ 4)).
  rewrite !Z.shiftr_div_pow2 by lia. change 63 with (Z.ones 6). rewrite !Z.land_ones by lia.
  case_if; [done|]. case_if; zbool.
  - rewrite H192, H128 by (Z.div_mod_to_equations; lia). done.
  - rewrite H224, !H128 by (Z.div_mod_to_equations; lia). done.
Qed.

Lemma length_utf8_of u : (1 <= length (utf8_of u) <= 3)%nat.
Proof. unfold utf8_of. repeat case_if; simpl; lia. Qed.

Lemma length_utf8 units : (length (utf8 units) <= 3 * length units)%nat.
Proof.
  induction units as [|u units IH]; simpl; [lia|]. rewrite length_app.
  pose proof (length_utf8_of u). lia.
Qed.

(** Nothing is cut while the buffer has room for three bytes a unit. *)
Lemma utf16_loop_all units size out :
  Forall name_unit units -> strlen out + 3 * Z.of_nat (length units) < size ->
  utf16_loop units size out = out ++ utf8 units.
Proof.
  revert out. induction units as [|u units IH]; intros out Hu Hs; [by rewrite app_nil_r|].
  apply Forall_cons in Hu as [Hu Hus]. simpl in *. pose proof (utf8_of_bits u Hu) as Hb.
  pose proof (length_utf8_of u) as Hl. unfold name_unit in Hu.
  assert (Hrec : forall d, d = utf8_of u -> utf16_loop units size (out ++ d) = out ++ utf8_of u ++ utf8 units).
  { intros d ->. rewrite IH; [by rewrite <- app_assoc | done |]. rewrite strlen_app. unfold strlen at 2. lia. }
  assert ((strlen out <? size - 1) = true) as -> by (apply Z.ltb_lt; lia). simpl.
  rewrite (proj2 (Z.eqb_neq u 0)) by lia. case_if; [by apply Hrec|]. case_if.
  - rewrite (proj2 (Z.leb_gt _ _)) by lia. by apply Hrec.
  - rewrite (proj2 (Z.leb_gt _ _)) by lia. by apply Hrec.
Qed.

(** The result fits its buffer with the final NUL, for any units. *)
Lemma utf16_loop_fits units size out :
  strlen out < size -> strlen (utf16_loop units size out) < size.
Proof.
  revert out. induction units as [|u units IH]; intros out Hs; simpl; [done|].
  repeat case_if; zbool; try done; apply IH; rewrite strlen_app; unfold strlen at 2; simpl; lia.
Qed.

(** ** The walk over the secondary entries *)

Lemma units_at_app a b k n : 0 <= k -> units_at (a ++ b) (strlen a + k) n = units_at b k n.
Proof.
  intros Hk. unfold units_at. apply list_fmap_ext. intros i x _.
  by rewrite <- Z.add_assoc, le16_at_app by lia.
Qed.

Lemma units_at_flat units rest : Forall (fun u => 0 <= u < 2 ^ 16) units ->
  units_at (flat_map le16 units ++ rest) 0 (length units) = units.
Proof.
  induction units as [|u units IH]; intros Hu; [done|]. apply Forall_cons in Hu as [Hu Hus].
  unfold units_at in *. cbn [length seq fmap list_fmap]. f_equal.
  - apply le16_dec; [done | reflexivity | reflexivity].
  - rewrite <- IH at 2 by done. rewrite <- fmap_S_seq. rewrite <- list_fmap_compose.
    apply list_fmap_ext. intros i x _. cbn [compose flat_map]. unfold compose. rewrite <- app_assoc.
    rewrite <- (le16_at_app (le16 u) _ (0 + 2 * Z.of_nat x)) by lia. f_equal.
    unfold strlen. simpl length. lia.
Qed.

Lemma length_flat_le16 units : length (flat_map le16 units) = (2 * length units)%nat.
Proof. induction units as [|u units IH]; [done|]. cbn [flat_map]. rewrite length_app, IH. simpl. lia. Qed.

Lemma strlen_name_entry units : (length units <= 15)%nat -> strlen (name_entry units) = EXFAT_ENTRY_SIZE.
Proof.
  intros Hl. unfold name_entry, strlen. rewrite length_app, length_flat_le16, length_app, length_replicate.
  simpl length. unfold EXFAT_ENTRY_SIZE. lia.
Qed.

(** The units of one name entry, converted. *)
Lemma name_chunk a units rest : Forall name_unit units -> (length units <= 15)%nat ->
  exfat_utf16_to_utf8 (units_at (a ++ name_entry units ++ rest) (strlen a + 2) (length units)) CHUNK_SIZE
  = utf8 units.
Proof.
  intros Hu Hl. rewrite units_at_app by lia. unfold name_entry.
  change 2 with (strlen [EXFAT_ENTRY_TYPE_FILENAME; 0] + 0). rewrite <- app_assoc, units_at_app by lia.
  rewrite flat_map_app, <- app_assoc, units_at_flat.
  - unfold exfat_utf16_to_utf8, CHUNK_SIZE. apply utf16_loop_all; [done|]. unfold strlen. simpl. lia.
  - eapply Forall_impl; [done|]. unfold name_unit. lia.
Qed.

Lemma parse_names n a units rest acc :
  Forall name_unit units -> (15 * n < length units + 15)%nat -> (length units <= 15 * n)%nat ->
  name_chars_collected acc + Z.of_nat (length units) = name_length acc ->
  strlen (name_buf acc) + 3 * Z.of_nat (length units) < NAME_BUF_SIZE ->
  parse_secondaries (a ++ name_entries n units ++ rest) n (strlen a) acc =
  NameAcc (na_info acc) (name_length acc) (name_length acc) (name_buf acc ++ utf8 units).
Proof.
  revert a units acc. induction n as [|n IH]; intros a units acc Hu Hn Hle Hc Hb.
  { destruct units; [|simpl in Hle; lia]. simpl. rewrite app_nil_r. destruct acc. simpl in *.
    f_equal. lia. }
  cbn [parse_secondaries name_entries]. set (us := take 15 units). rewrite <- app_assoc.
  assert (Hl : length us = Nat.min 15 (length units)) by apply length_take.
  assert (byte_at (a ++ name_entry us ++ name_entries n (drop 15 units) ++ rest) (strlen a)
          = EXFAT_ENTRY_TYPE_FILENAME) as ->
    by (rewrite <- (Z.add_0_r (strlen a)), byte_at_app by lia; reflexivity).
  change (EXFAT_ENTRY_TYPE_FILENAME =? EXFAT_ENTRY_TYPE_STREAM_EXT) with false.
  change (EXFAT_ENTRY_TYPE_FILENAME =? EXFAT_ENTRY_TYPE_FILENAME) with true. cbv beta iota zeta.
  rewrite (proj2 (Z.leb_gt _ _)) by lia.
  set (here := if _ <? 15 then _ else 15).
  assert (Z.to_nat here = length us) as -> by (unfold here; case_if; zbool; lia).
  assert (Hhere : here = Z.of_nat (length us)) by (unfold here; case_if; zbool; lia).
  rewrite name_chunk by (first [by apply Forall_take | lia]).
  pose proof (length_utf8 us) as Hlu.
  rewrite (proj2 (Z.ltb_lt _ _)) by (unfold strlen in *; lia).
  rewrite app_assoc, <- (strlen_name_entry us), <- strlen_app, IH; simpl; try lia.
  - rewrite <- app_assoc. unfold utf8, us. by rewrite <- flat_map_app, take_drop.
  - by apply Forall_drop.
  - rewrite length_drop. lia.
  - rewrite length_drop. lia.
  - rewrite length_drop. lia.
  - rewrite strlen_app, length_drop. unfold strlen in *. lia.
Qed.

(** ** Entry sets *)

Lemma strlen_name_entries n units : strlen (name_entries n units) = Z.of_nat n * EXFAT_ENTRY_SIZE.
Proof.
  revert units. induction n as [|n IH]; intros units; [done|]. cbn [name_entries].
  rewrite strlen_app, IH, strlen_name_entry by (rewrite length_take; lia). lia.
Qed.

Lemma strlen_entry_set checksum hash units i :
  strlen (entry_set checksum hash units i) = (2 + Z.of_nat (name_entry_count units)) * EXFAT_ENTRY_SIZE.
Proof.
  unfold entry_set. rewrite !strlen_app, strlen_name_entries. unfold strlen. simpl length.
  unfold EXFAT_ENTRY_SIZE. lia.
Qed.

Lemma name_entry_count_bound units : (length units <= 255)%nat ->
  (length units <= 15 * name_entry_count units)%nat /\ (15 * name_entry_count units < length units + 15)%nat /\
  (name_entry_count units <= 17)%nat.
Proof.
  intros Hl. unfold name_entry_count.
  pose proof (Nat.div_mod_eq (length units + 14) 15). pose proof (Nat.mod_upper_bound (length units + 14) 15). lia.
Qed.

(** The fields of the two fixed entries. *)
Lemma file_entry_fields sc checksum i rest : info_ok i ->
  let d := file_entry sc checksum i ++ rest in
  byte_at d 0 = EXFAT_ENTRY_TYPE_FILE_DIR /\ byte_at d 1 = sc /\ le16_at d 4 = attributes i /\
  le32_at d 8 = create_time i /\ le32_at d 12 = last_modified_time i /\ le32_at d 16 = last_accessed_time i.
Proof.
  intros (Ha & Hc & Hm & Hac & _). split_and!; try reflexivity;
    first [apply le16_dec | apply le32_dec]; first [done | reflexivity].
Qed.

Lemma stream_ext_fields chars hash i rest : info_ok i ->
  let d := stream_ext_entry chars hash i ++ rest in
  byte_at d 0 = EXFAT_ENTRY_TYPE_STREAM_EXT /\ byte_at d 3 = chars /\
  negb (Z.land (byte_at d 1) EXFAT_FLAG_NO_FAT_CHAIN =? 0) = no_fat_chain i /\
  le32_at d 20 = first_cluster i /\ le64_at d 24 = data_length i.
Proof.
  intros (_ & _ & _ & _ & Hf & Hl & _). split_and!; try reflexivity.
  - unfold stream_ext_entry. by destruct (no_fat_chain i).
  - apply le32_dec; first [done | reflexivity].
  - apply le64_dec; [done | |]; apply le32_dec; first [reflexivity | Z.div_mod_to_equations; lia].
Qed.

(** The walk over the stream extension and the name entries. *)
Lemma parse_secondaries_set a units hash i post info :
  info_ok i -> Forall name_unit units -> (length units <= 255)%nat ->
  attributes info = attributes i -> create_time info = create_time i ->
  last_modified_time info = last_modified_time i -> last_accessed_time info = last_accessed_time i ->
  is_directory info = is_directory i ->
  let n := name_entry_count units in
  let chars := Z.of_nat (length units) in
  parse_secondaries (a ++ stream_ext_entry chars hash i ++ name_entries n units ++ post) (S n) (strlen a)
    (NameAcc info 0 0 []) =
  NameAcc (FileInfo (filename info) (attributes i) (first_cluster i) (data_length i) (create_time i)
             (last_modified_time i) (last_accessed_time i) (is_directory i) (no_fat_chain i))
    chars chars (utf8 units).
Proof.
  intros Hi Hu Hl <- <- <- <- <- n chars.
  destruct (name_entry_count_bound units Hl) as (Hn1 & Hn2 & _).
  destruct (stream_ext_fields chars hash i (name_entries n units ++ post) Hi) as (S0 & S3 & S1 & S20 & S24).
  cbn [parse_secondaries]. set (se := stream_ext_entry chars hash i) in *.
  assert (byte_at (a ++ se ++ name_entries n units ++ post) (strlen a) = EXFAT_ENTRY_TYPE_STREAM_EXT) as ->
    by (rewrite <- (Z.add_0_r (strlen a)), byte_at_app by lia; done).
  rewrite Z.eqb_refl, le32_at_app, le64_at_app, !byte_at_app, S1, S3, S20, S24 by lia.
  assert (strlen a + EXFAT_ENTRY_SIZE = strlen (a ++ se)) as -> by (rewrite strlen_app; done).
  rewrite app_assoc, parse_names; [done | done | lia | lia | done |].
  unfold NAME_BUF_SIZE, EXFAT_MAX_FILENAME_LEN, strlen. simpl. lia.
Qed.


(** ** Any data *)

Lemma parse_secondaries_fits data n sec a :
  strlen (name_buf a) < NAME_BUF_SIZE -> strlen (name_buf (parse_secondaries data n sec a)) < NAME_BUF_SIZE.
Proof.
  revert sec a. induction n as [|n IH]; intros sec a Ha; simpl; [done|].
  repeat case_if; try done; apply IH; simpl; try done; zbool; rewrite strlen_app; lia.
Qed.

(** Whatever the bytes of a directory are, a set that is accepted lies
    inside the data and has at least one entry, the name collected from it
    fits the name buffer with its terminator, and so does the name stored in
    the descriptor's 256 bytes. *)
Theorem parse_entry_bounds data offset consumed info :
  Forall is_byte data ->
  exfat_parse_file_entry data offset = Some (consumed, info) ->
  EXFAT_ENTRY_SIZE <= consumed /\ offset + consumed <= strlen data /\
  strlen (filename info) <= EXFAT_MAX_FILENAME_LEN /\
  forall n a, strlen (name_buf a) < NAME_BUF_SIZE ->
    strlen (name_buf (parse_secondaries data n (offset + EXFAT_ENTRY_SIZE) a)) < NAME_BUF_SIZE.
Proof.
  intros Hb. unfold exfat_parse_file_entry. destruct (byte_at_range data (offset + 1) Hb) as [Hsc _].
  case_if; [done|]. case_if; [done|]. case_if; [done|]. zbool. intros [= <- <-]. cbn [filename].
  unfold EXFAT_ENTRY_SIZE in *. split; [lia|]. split; [lia|]. split.
  - unfold snprintf_buf, strlen. rewrite length_take. unfold EXFAT_MAX_FILENAME_LEN. lia.
  - intros n a. apply parse_secondaries_fits.
Qed.

(** The scan of a cluster ends: each step moves on by an entry at least. *)
Lemma scan_cluster_total fuel data max offset entries :
  Forall is_byte data -> 0 <= offset -> (0 < fuel)%nat ->
  strlen data - offset < Z.of_nat fuel * EXFAT_ENTRY_SIZE ->
  scan_cluster fuel data max offset entries <> None.
Proof.
  intros Hb. revert offset entries. induction fuel as [|fuel IH]; intros offset entries Ho Hpos Hf; [lia|].
  cbn [scan_cluster]. unfold EXFAT_ENTRY_SIZE in *. case_if; [|done]. zbool. case_if; [done|].
  case_if; [apply IH; lia|].
  destruct (exfat_parse_file_entry data offset) as [[c i]|] eqn:Hp; [|apply IH; lia].
  assert (32 <= c); [|apply IH; lia]. revert Hp. unfold exfat_parse_file_entry.
  pose proof (byte_at_range data (offset + 1) Hb) as [? _]. repeat case_if; try done.
  intros [= <- _]. unfold EXFAT_ENTRY_SIZE. lia.
Qed.

(** ** Volumes for evaluation

    512-byte sectors and clusters: the boot sector, one sector of table, and
    the clusters from number 2 on. *)

Definition demo_boot : bytes :=
  replicate 3 0 ++ EXFAT_FS_NAME ++ replicate 53 0 ++ le64 0 ++ le64 7 ++ le32 1 ++ le32 1 ++ le32 2 ++
  le32 5 ++ le32 2 ++ le32 0 ++ le16 256 ++ le16 0 ++ [9; 0; 1; 128; 0] ++ replicate 397 0 ++ [85; 170].

Definition sector (b : bytes) : bytes := b ++ replicate (512 - length b) 0.

Definition demo_image (fat : list Z) (clusters : list bytes) : bytes :=
  demo_boot ++ sector (flat_map le32 fat) ++ concat (sector <$> clusters).

Definition demo_ctx (img : bytes) : exfat_context_t :=
  match (exfat_init (str "game.exfat") (img_init img)).1 with Some (_, ctx) => ctx | None => exfat_zero end.

(** A file of 700 bytes in clusters 4 and 3. *)
Definition demo_info : exfat_file_info_t :=
  FileInfo (str "param.sfo") 32 4 700 0 0 0 false false.

Definition demo_units : list Z := str "param.sfo".

Definition demo_volume : bytes :=
  demo_image [0; 0; EXFAT_FAT_END_OF_CHAIN; EXFAT_FAT_END_OF_CHAIN; 3]
    [entry_set 0 0 demo_units demo_info; replicate 188 66; replicate 512 65].

(** The root directory has one deleted entry after the other, and its cluster
    is followed by itself. *)
Definition cyclic_volume : bytes := demo_image [0; 0; 2] [concat (replicate 16 (5 :: replicate 31 0))].

Lemma exfat_open_bounds_witness :
  Forall is_byte demo_volume /\
  (exfat_init (str "game.exfat") (img_init demo_volume)).1 = Some (0, demo_ctx demo_volume) /\
  512 <= bytes_per_cluster (demo_ctx demo_volume) <= 2 ^ 25.
Proof.
  assert (Hb : Forall is_byte demo_volume) by by_compute.
  assert (Hi : (exfat_init (str "game.exfat") (img_init demo_volume)).1 = Some (0, demo_ctx demo_volume))
    by (vm_compute; reflexivity).
  split; [exact Hb|]. split; [exact Hi|].
  destruct (exfat_init _ _) as [r s'] eqn:E. simpl in Hi. subst r.
  exact (proj1 (proj2 (exfat_open_bounds _ _ _ _ Hb E))).
Defined.

Lemma exfat_extract_correct_witness :
  Forall is_byte demo_volume /\ inside (img := demo_volume) (demo_ctx demo_volume) demo_info /\
  file_contents demo_volume (demo_ctx demo_volume) demo_info = replicate 512 65 ++ replicate 188 66 /\
  exists t', exfat_extract_to_buffer (demo_ctx demo_volume) 20 demo_info 1000 (img_init demo_volume) =
    (Some (700, file_contents demo_volume (demo_ctx demo_volume) demo_info), t').
Proof.
  assert (Hb : Forall is_byte demo_volume) by by_compute.
  assert (Hi : (exfat_init (str "game.exfat") (img_init demo_volume)).1 = Some (0, demo_ctx demo_volume))
    by (vm_compute; reflexivity).
  assert (Hc : file_contents demo_volume (demo_ctx demo_volume) demo_info = replicate 512 65 ++ replicate 188 66)
    by (vm_compute; reflexivity).
  assert (Hin : inside (img := demo_volume) (demo_ctx demo_volume) demo_info).
  { split; [by_compute | right; vm_compute; reflexivity]. }
  split; [exact Hb|]. split; [exact Hin|]. split; [exact Hc|].
  destruct (exfat_init _ _) as [r s'] eqn:E. simpl in Hi. subst r.
  destruct (exfat_extract_correct _ _ _ _ demo_info 1000 (img_init demo_volume) Hb E
              ltac:(cbn; lia) ltac:(lia)) as (n & buf & t' & Hrun & Hok & Hrel).
  destruct (Hok (Hrel _ Hin)) as [-> ->]. exists t'. rewrite Hrun, Hc. reflexivity.
Defined.


Lemma parse_entry_bounds_witness :
  let data := entry_set 7 9 demo_units demo_info in
  Forall is_byte data /\ exfat_parse_file_entry data 0 = Some (96, demo_info) /\ 0 + 96 <= strlen data.
Proof.
  assert (Hb : Forall is_byte (entry_set 7 9 demo_units demo_info)) by by_compute.
  assert (Hp : exfat_parse_file_entry (entry_set 7 9 demo_units demo_info) 0 = Some (96, demo_info))
    by (vm_compute; reflexivity).
  exact (conj Hb (conj Hp (proj1 (proj2 (parse_entry_bounds _ _ _ _ Hb Hp))))).
Defined.

(** ** A directory that follows itself *)

Definition cyclic_data : bytes := concat (replicate 16 (5 :: replicate 31 0)).

Lemma cyclic_read (t : sysst (img_world cyclic_volume)) : exists t',
  exfat_read_cluster (demo_ctx cyclic_volume) 2 512 t = (Some (Some cyclic_data), t').
Proof.
  assert (image_file (demo_ctx cyclic_volume) = Some 20) as Hf by (vm_compute; reflexivity).
  assert (bytes_per_cluster (demo_ctx cyclic_volume) = 512) as Hc by (vm_compute; reflexivity).
  assert (exfat_get_cluster_offset (demo_ctx cyclic_volume) 2 = 1024) as Ho by (vm_compute; reflexivity).
  assert (clip 512 (drop (Z.to_nat 1024) cyclic_volume) = cyclic_data) as Hr by (vm_compute; reflexivity).
  unfold exfat_read_cluster. rewrite Hf, Hc, Ho.
  change (negb (exfat_is_valid_cluster 2)) with false. change (512 <? 512) with false. cbv beta iota zeta.
  rewrite s64_small by lia. unfold mbind, M_bind, mret, M_ret, sys_call, os_step, img_os, img_step.
  cbv beta iota zeta. change (negb (0 =? 0)) with false. cbv beta iota zeta. cbn [iw_pos os_state].
  change (1024 =? SEEK_END) with false. change (SEEK_SET =? SEEK_END) with false. cbv beta iota zeta.
  cbn [iw_pos os_state]. rewrite Hr. by eexists.
Qed.

Lemma cyclic_loop fuel (t : sysst (img_world cyclic_volume)) :
  (directory_loop fuel (demo_ctx cyclic_volume) 256 2 [] t).1 = None.
Proof.
  revert t. induction fuel as [|fuel IH]; intros t; [done|]. cbn [directory_loop].
  replace (exfat_is_valid_cluster 2 && _) with true by reflexivity.
  assert (bytes_per_cluster (demo_ctx cyclic_volume) = 512) as -> by (vm_compute; reflexivity).
  destruct (cyclic_read t) as [t' Ht]. unfold mbind, M_bind. rewrite Ht.
  assert (scan_cluster (S (length cyclic_data)) cyclic_data 256 0 [] = Some ([], false)) as Hs
    by (vm_compute; reflexivity).
  assert (exfat_get_next_cluster (demo_ctx cyclic_volume) 2 = 2) as Hn by (vm_compute; reflexivity).
  destruct cyclic_data eqn:E; [discriminate E|]. rewrite Hs, Hn. apply IH.
Qed.

Lemma directory_diverges {W} {os : OS W} fuel ctx c t :
  (forall n w, (os_step (SysMalloc n) w).1.1 = true) ->
  (forall t, (directory_loop fuel ctx 256 c [] t).1 = None) ->
  (exfat_read_directory fuel ctx c 256 t).1 = None.
Proof.
  intros Hm Hl. unfold exfat_read_directory. change (256 <=? 0) with false. cbv iota.
  unfold mbind, M_bind, sys_call. specialize (Hm (bytes_per_cluster ctx) (os_state t)).
  destruct (os_step _ _) as [[r e] w]. simpl in Hm. subst r. simpl.
  match goal with |- context [directory_loop _ _ _ _ _ ?u] => specialize (Hl u) end.
  destruct (directory_loop _ _ _ _ _ _) as [[r|] u]; done.
Qed.

(** An image whose root directory's cluster is followed by itself in the
    allocation table opens without an error, and reading its root directory
    never returns, however many steps it is given: nothing bounds the length
    of the chain. *)
Theorem cyclic_directory_hangs :
  (exfat_init (str "game.exfat") (img_init cyclic_volume)).1 = Some (0, demo_ctx cyclic_volume) /\
  forall fuel (t : sysst (img_world cyclic_volume)),
    (exfat_read_directory fuel (demo_ctx cyclic_volume)
       (root_dir_first_cluster (boot_sector (demo_ctx cyclic_volume))) 256 t).1 = None.
Proof.
  split; [vm_compute; reflexivity|]. intros fuel t.
  assert (root_dir_first_cluster (boot_sector (demo_ctx cyclic_volume)) = 2) as -> by (vm_compute; reflexivity).
  apply directory_diverges; [done | apply cyclic_loop].
Qed.
