(* ===== verification/Pkg.v ===== *)
(** * PKG containers

    [pkg_unpacker.c]: opening a container (header, entry table, and the check
    that every entry lies inside the file), looking entries up, and
    extracting them into memory or to a descriptor. *)

From S2P Require Import Prelude CLib Os Unpack.

(** ** Constants and data *)

Definition PKG_MAGIC_CNT : Z := 2135117396.                  (* 0x7F434E54 *)
Definition PKG_MAGIC_PKG : Z := 2135968583.                  (* 0x7F504B47 *)
Definition PKG_HEADER_SIZE : Z := 4096.
Definition PKG_CONTENT_ID_LEN : Z := 36.
Definition PKG_MAX_ENTRY_COUNT : Z := 10000.
Definition PKG_MAX_ENTRY_SIZE : Z := 64 * 1024 * 1024.
Definition PKG_MIN_TABLE_OFFSET : Z := PKG_HEADER_SIZE.
Definition PKG_ENTRY_RECORD_SIZE : Z := 32.
Definition PKG_ENTRY_ID_PARAM_SFO : Z := 4096.               (* 0x1000 *)
Definition PKG_ENTRY_ID_ICON0_PNG : Z := 4608.               (* 0x1200 *)
Definition PKG_ENTRY_FLAG_ENCRYPTED : Z := 2147483648.       (* 0x80000000 *)
Definition COPY_BUF_SIZE : Z := 65536.

(** [pkg_error_t] *)
Definition PKG_OK : Z := 0.
Definition PKG_ERR_PARAM : Z := -1.
Definition PKG_ERR_IO : Z := -2.
Definition PKG_ERR_FORMAT : Z := -3.
Definition PKG_ERR_RANGE : Z := -4.
Definition PKG_ERR_NOMEM : Z := -5.
Definition PKG_ERR_ENCRYPTED : Z := -6.
Definition PKG_ERR_BUFFER_SMALL : Z := -7.

Definition HDR_OFF_MAGIC : Z := 0.
Definition HDR_OFF_ENTRY_COUNT : Z := 16.
Definition HDR_OFF_TABLE_OFFSET : Z := 24.
Definition HDR_OFF_CONTENT_ID : Z := 64.

Definition EOFF_ID : Z := 0.
Definition EOFF_FILENAME_OFFSET : Z := 4.
Definition EOFF_FLAGS1 : Z := 8.
Definition EOFF_FLAGS2 : Z := 12.
Definition EOFF_OFFSET : Z := 16.
Definition EOFF_SIZE : Z := 20.

(** [pkg_header_t]; [content_id] is the 36 bytes before the terminator. *)
Record pkg_header_t := PkgHeader {
  pkg_magic : Z; pkg_type : Z; pkg_file_count : Z; pkg_entry_count : Z; pkg_table_offset : Z;
  content_id : bytes
}.

Record pkg_entry_t := PkgEntry {
  pe_id : Z; pe_filename_offset : Z; pe_flags1 : Z; pe_flags2 : Z; pe_offset : Z; pe_size : Z
}.

#[global] Instance pkg_entry_eq_dec : EqDecision pkg_entry_t.
Proof. solve_decision. Defined.

(** [pkg_context_t]; [pkg_entries] is [None] for a null array. *)
Record pkg_context_t := PkgContext {
  pkg_file : option Z;
  pkg_file_size : Z;
  pkg_header : pkg_header_t;
  pkg_entries : option (list pkg_entry_t);
  pkg_num_entries : Z
}.

Definition pkg_entry_is_encrypted (e : pkg_entry_t) : bool :=
  negb (Z.land (pe_flags1 e) PKG_ENTRY_FLAG_ENCRYPTED =? 0).

Definition pkg_header_zero : pkg_header_t := PkgHeader 0 0 0 0 0 (replicate 36 0).

(** One record of the entry table. *)
Definition pkg_entry_of (e_buf : bytes) : pkg_entry_t :=
  PkgEntry (be32_at e_buf EOFF_ID) (be32_at e_buf EOFF_FILENAME_OFFSET) (be32_at e_buf EOFF_FLAGS1)
    (be32_at e_buf EOFF_FLAGS2) (be32_at e_buf EOFF_OFFSET) (be32_at e_buf EOFF_SIZE).

(** [%08X] and [%02X] *)
Definition fmt_0X (w : nat) (z : Z) : bytes := pad_left 48 w (toupper <$> digits 16 z).

Section pkg.
Context {W : Type} {os : OS W}.

Definition pkg_cleanup (ctx : pkg_context_t) : M (sysst W) pkg_context_t :=
  _ ← match pkg_file ctx with
      | Some f => _ ← sys_call (SysFclose f); mret tt
      | None => mret tt
      end;
  mret (PkgContext None 0 (pkg_header ctx) None 0).

(** [get_file_size]: the error or the size. *)
Definition get_file_size (f : Z) : M (sysst W) (Z + Z) :=
  saved ← sys_call (SysFtell f);
  if saved =? -1 then mret (inl PKG_ERR_IO)
  else
    r ← sys_call (SysFseek f 0 SEEK_END);
    if negb (r =? 0) then mret (inl PKG_ERR_IO)
    else
      end_ ← sys_call (SysFtell f);
      r ← sys_call (SysFseek f saved SEEK_SET);
      if negb (r =? 0) then mret (inl PKG_ERR_IO)
      else if end_ <? 0 then mret (inl PKG_ERR_IO)
      else mret (inr (u64 end_)).

(** The loop over [n] entry records. *)
Fixpoint pkg_read_entries (n : nat) (f file_size : Z) (acc : list pkg_entry_t) :
    M (sysst W) (Z + list pkg_entry_t) :=
  match n with
  | O => mret (inr acc)
  | S n =>
      e_buf ← sys_call (SysFread f PKG_ENTRY_RECORD_SIZE);
      if negb (strlen e_buf =? PKG_ENTRY_RECORD_SIZE) then mret (inl PKG_ERR_IO)
      else
        let e := pkg_entry_of e_buf in
        let entry_end := pe_offset e +u64 pe_size e in
        if (entry_end <? pe_offset e) || (file_size <? entry_end) then mret (inl PKG_ERR_FORMAT)
        else pkg_read_entries n f file_size (acc ++ [e])
  end.

Definition pkg_magic_message (magic : Z) (hdr : bytes) : M (sysst W) unit :=
  _ ← sys_call (SysStderr (str "[PKG] invalid magic: 0x" ++ fmt_0X 8 magic ++ str " (expected 0x"
                          ++ fmt_0X 8 PKG_MAGIC_CNT ++ str " or 0x" ++ fmt_0X 8 PKG_MAGIC_PKG
                          ++ str ")" ++ [LF]));
  sys_call (SysStderr (str "[PKG] Dump:" ++ flat_map (fun b => SPACE :: fmt_0X 2 b) (take 16 hdr) ++ [LF])).

(** [sizeof(pkg_entry_t)] is 24. *)
Definition pkg_init (pkg_path : bytes) : M (sysst W) (Z * pkg_context_t) :=
  let ctx0 := PkgContext None 0 pkg_header_zero None 0 in
  if bool_decide (pkg_path = []) then mret (PKG_ERR_PARAM, ctx0)
  else
    o ← sys_call (SysFopen pkg_path (str "rb"));
    match o with
    | None => mret (PKG_ERR_IO, ctx0)
    | Some f =>
        let fail (hdr : pkg_header_t) (size rc : Z) :=
          ctx ← pkg_cleanup (PkgContext (Some f) size hdr None 0); mret (rc, ctx) in
        sz ← get_file_size f;
        match sz with
        | inl rc => fail pkg_header_zero 0 rc
        | inr file_size =>
            if file_size <? PKG_HEADER_SIZE then fail pkg_header_zero file_size PKG_ERR_FORMAT
            else
              hdr ← sys_call (SysFread f PKG_HEADER_SIZE);
              if negb (strlen hdr =? PKG_HEADER_SIZE) then fail pkg_header_zero file_size PKG_ERR_IO
              else
                let magic := be32_at hdr HDR_OFF_MAGIC in
                if negb (magic =? PKG_MAGIC_CNT) && negb (magic =? PKG_MAGIC_PKG) then
                  _ ← pkg_magic_message magic hdr;
                  fail pkg_header_zero file_size PKG_ERR_FORMAT
                else
                  let entry_count := be32_at hdr HDR_OFF_ENTRY_COUNT in
                  if (entry_count =? 0) || (PKG_MAX_ENTRY_COUNT <? entry_count) then
                    _ ← sys_call (SysStderr (str "[PKG] invalid entry count: " ++ fmt_u entry_count ++ [LF]));
                    fail (PkgHeader magic 0 0 0 0 (replicate 36 0)) file_size PKG_ERR_FORMAT
                  else
                    let table_offset := be32_at hdr HDR_OFF_TABLE_OFFSET in
                    let h1 := PkgHeader magic 0 0 entry_count 0 (replicate 36 0) in
                    if table_offset <? PKG_MIN_TABLE_OFFSET then fail h1 file_size PKG_ERR_FORMAT
                    else
                      let table_bytes := u64 (entry_count * PKG_ENTRY_RECORD_SIZE) in
                      let table_end := table_offset +u64 table_bytes in
                      if (table_end <? table_offset) || (file_size <? table_end) then
                        fail h1 file_size PKG_ERR_FORMAT
                      else
                        let header := PkgHeader magic 0 0 entry_count table_offset
                                        (slice hdr HDR_OFF_CONTENT_ID PKG_CONTENT_ID_LEN) in
                        let alloc_bytes := u64 (entry_count * 24) in
                        if negb (alloc_bytes / 24 =? entry_count) then fail header file_size PKG_ERR_RANGE
                        else
                          ok ← sys_call (SysMalloc alloc_bytes);
                          if negb ok then fail header file_size PKG_ERR_NOMEM
                          else
                            r ← sys_call (SysFseek f table_offset SEEK_SET);
                            if negb (r =? 0) then fail header file_size PKG_ERR_IO
                            else
                              es ← pkg_read_entries (Z.to_nat entry_count) f file_size [];
                              match es with
                              | inl rc => fail header file_size rc
                              | inr es =>
                                  mret (PKG_OK, PkgContext (Some f) file_size header (Some es) entry_count)
                              end
        end
    end.

Definition pkg_find_entry_by_id (ctx : pkg_context_t) (id : Z) : option pkg_entry_t :=
  match pkg_entries ctx with
  | None => None
  | Some es => find (fun e => pe_id e =? id) (take (Z.to_nat (pkg_num_entries ctx)) es)
  end.

(** [pkg_extract_to_buffer]: the result and the bytes stored. *)
Definition pkg_extract_to_buffer (ctx : pkg_context_t) (e : pkg_entry_t) (buf_size : Z) :
    M (sysst W) (Z * bytes) :=
  match pkg_file ctx with
  | None => mret (PKG_ERR_PARAM, [])
  | Some f =>
      if buf_size =? 0 then mret (PKG_ERR_PARAM, [])
      else if pkg_entry_is_encrypted e then mret (PKG_ERR_ENCRYPTED, [])
      else if PKG_MAX_ENTRY_SIZE <? pe_size e then mret (PKG_ERR_RANGE, [])
      else if buf_size <? pe_size e then mret (PKG_ERR_BUFFER_SMALL, [])
      else if pe_size e =? 0 then mret (0, [])
      else
        r ← sys_call (SysFseek f (pe_offset e) SEEK_SET);
        if negb (r =? 0) then mret (PKG_ERR_IO, [])
        else
          got ← sys_call (SysFread f (pe_size e));
          if negb (strlen got =? pe_size e) then mret (PKG_ERR_IO, got)
          else mret (strlen got, got)
  end.

(** The write loop of one block; false for an error. *)
Fixpoint pkg_write_all (fuel : nat) (output_fd : Z) (p : bytes) : M (sysst W) bool :=
  match fuel with
  | O => diverge
  | S fuel =>
      if 0 <? strlen p then
        n ← sys_call (SysWrite output_fd p);
        if n <? 0 then
          e ← get_errno;
          if e =? EINTR then pkg_write_all fuel output_fd p else mret false
        else if n =? 0 then mret false
        else pkg_write_all fuel output_fd (drop (Z.to_nat n) p)
      else mret true
  end.

(** The copy loop: [blocks] bounds the blocks, [fuel] the writes of one. *)
Fixpoint pkg_copy_loop (blocks fuel : nat) (f output_fd remaining : Z) : M (sysst W) Z :=
  match blocks with
  | O => diverge
  | S blocks =>
      if 0 <? remaining then
        let to_read := if remaining <? COPY_BUF_SIZE then remaining else COPY_BUF_SIZE in
        got ← sys_call (SysFread f to_read);
        if strlen got =? 0 then mret PKG_ERR_IO
        else if negb (strlen got =? to_read) then mret PKG_ERR_IO
        else
          ok ← pkg_write_all fuel output_fd got;
          if negb ok then mret PKG_ERR_IO
          else pkg_copy_loop blocks fuel f output_fd (remaining - strlen got)
      else mret PKG_OK
  end.

Definition pkg_extract_file_fd (fuel : nat) (ctx : pkg_context_t) (e : pkg_entry_t) (output_fd : Z) :
    M (sysst W) Z :=
  match pkg_file ctx with
  | None => mret PKG_ERR_PARAM
  | Some f =>
      if output_fd <? 0 then mret PKG_ERR_PARAM
      else if pkg_entry_is_encrypted e then mret PKG_ERR_ENCRYPTED
      else if PKG_MAX_ENTRY_SIZE <? pe_size e then mret PKG_ERR_RANGE
      else
        r ← sys_call (SysFseek f (pe_offset e) SEEK_SET);
        if negb (r =? 0) then mret PKG_ERR_IO
        else pkg_copy_loop (S (S (Z.to_nat (pe_size e / COPY_BUF_SIZE)))) fuel f output_fd (pe_size e)
  end.

End pkg.
