(* ===== verification/PkgSpec.v ===== *)
(** * Correctness of the PKG reader *)

From S2P Require Import Prelude CLib Os Unpack Pkg.

(** The entry's data lies inside the image. *)
Definition entry_inside (img : bytes) (e : pkg_entry_t) : Prop :=
  0 <= pe_offset e < 2 ^ 32 /\ 0 <= pe_size e < 2 ^ 32 /\ pe_offset e + pe_size e <= strlen img.

(** What an opened container promises: its size is the image's, and every
    entry lies inside the image. *)
Record pkg_wf (f : Z) (img : bytes) (ctx : pkg_context_t) : Prop := PkgWf {
  pw_file : pkg_file ctx = Some f;
  pw_size : pkg_file_size ctx = strlen img;
  pw_entries : exists es, pkg_entries ctx = Some es /\ pkg_num_entries ctx = Z.of_nat (length es) /\
    1 <= pkg_num_entries ctx <= PKG_MAX_ENTRY_COUNT /\
    Forall (entry_inside img) es /\
    forall i e, es !! i = Some e ->
      e = pkg_entry_of (slice img (pkg_table_offset (pkg_header ctx) + 32 * Z.of_nat i) 32)
}.

Section open.
Context {W : Type} {os : OS W} {f : Z} {img : bytes} `{!ImageOS W f img}.
Context (Hbytes : Forall is_byte img) (Hsize : strlen img < 2 ^ 63).

Lemma get_file_size_ok (s : sysst W) :
  file_pos (os_state s) = 0 ->
  wp (get_file_size f) (fun r s' => (forall rc, r = inl rc -> rc < 0) /\
      forall n, r = inr n -> n = strlen img /\ file_pos (os_state s') = 0)
    (fun _ => True) s.
Proof.
  intros Hp. unfold get_file_size. wp_step. wp_step.
  match goal with H : os_step _ _ = _ |- _ => apply ftell_img in H as [Hp1 Hr1] end.
  case_if; [wp_step; split; [by intros ? [= <-] | done]|]. wp_step. wp_step. case_if; [wp_step; split; [by intros ? [= <-] | done]|]. zbool. subst.
  match goal with H : os_step (SysFseek _ _ _) _ = _ |- _ => apply fseek_end_img in H as Hp2 end.
  wp_step. wp_step. simpl in *.
  match goal with H : os_step (SysFtell _) _ = _ |- _ => apply ftell_img in H as [Hp3 Hr3] end.
  wp_step. wp_step. case_if; [wp_step; split; [by intros ? [= <-] | done]|]. zbool. subst.
  assert (r = 0) as -> by (destruct Hr1; lia).
  match goal with H : os_step (SysFseek _ _ SEEK_SET) _ = _ |- _ => apply fseek_img in H as Hp4; [|done] end.
  case_if; [wp_step; split; [by intros ? [= <-] | done]|]. wp_step. zbool. split; [done|]. intros n [= <-]. simpl. split; [|done].
  destruct Hr3 as [->|]; [|lia]. rewrite Hp2 in *. unfold u64. rewrite Z.mod_small; unfold strlen in *; lia.
Qed.

(** An entry record read at the position. *)
Lemma read_entries_ok n acc base (s : sysst W) :
  0 <= base -> file_pos (os_state s) = base + 32 * Z.of_nat (length acc) ->
  Forall (entry_inside img) acc ->
  (forall i e, acc !! i = Some e -> e = pkg_entry_of (slice img (base + 32 * Z.of_nat i) 32)) ->
  wp (pkg_read_entries n f (strlen img) acc)
    (fun r _ => (forall rc, r = inl rc -> rc < 0) /\
      forall es, r = inr es -> length es = (length acc + n)%nat /\
      Forall (entry_inside img) es /\
      (forall i e, es !! i = Some e -> e = pkg_entry_of (slice img (base + 32 * Z.of_nat i) 32)))
    (fun _ => True) s.
Proof.
  intros Hb. revert acc s. induction n as [|n IH]; intros acc s Hp HF Hi; cbn [pkg_read_entries].
  { wp_step. split; [done|]. intros es [= <-]. split; [lia|]. done. }
  wp_step. wp_step. rename r into b.
  match goal with H : os_step _ _ = _ |- _ => apply fread_img in H as (_ & Hs & Hp'); [|done|lia] end.
  case_if; [wp_step; split; [by intros ? [= <-] | done]|]. zbool. rewrite Heqb0 in Hs, Hp'.
  set (ent := pkg_entry_of b) in *.
  assert (He : 0 <= pe_offset ent < 2 ^ 32 /\ 0 <= pe_size ent < 2 ^ 32).
  { split; apply be32_at_range; rewrite Hs; by apply slice_byte. }
  change (pkg_entry_of b) with ent. rewrite (u64_small (pe_offset ent + pe_size ent)) by lia.
  case_if; [wp_step; split; [by intros ? [= <-] | done]|]. zbool.
  eapply wp_mono; [apply (IH (acc ++ [ent])) | |done].
  - simpl. rewrite Hp', Hp, length_app. simpl. unfold PKG_ENTRY_RECORD_SIZE. lia.
  - apply Forall_app. split; [done|]. apply Forall_singleton. unfold entry_inside. lia.
  - intros i e' [Hl|[Hge Hl]]%lookup_app_Some; [by apply Hi|].
    apply list_lookup_singleton_Some in Hl as [Hi0 <-]. unfold ent. rewrite Hs, Hp. do 2 f_equal; lia.
  - intros r s' [Hl0 Hr0]. split; [done|]. intros es Hes. destruct (Hr0 es Hes) as (Hl & HF' & Hi').
    split; [|done]. rewrite Hl, length_app. simpl. lia.
Qed.

Lemma pkg_init_ok path (s : sysst W) :
  wp (pkg_init path) (fun r _ => r.1 = 0 -> pkg_wf f img r.2) (fun _ => True) s.
Proof.
  unfold pkg_init. case_if; [by wp_step|]. wp_step. wp_step.
  match goal with H : os_step _ _ = (?r, _, _) |- _ => destruct r as [g|]; [|by wp_step] end.
  match goal with H : os_step _ _ = _ |- _ => apply fopen_img in H as [-> Hp0] end.
  cbv zeta. assert (Hfail : forall hdr size rc s', rc < 0 ->
            wp (ctx ← pkg_cleanup (PkgContext (Some f) size hdr None 0); mret (rc, ctx))
            (fun r _ => r.1 = 0 -> pkg_wf f img r.2) (fun _ => True) s').
  { intros hdr size rc s' Hrc. eapply wp_seq; [apply wp_any|]. intros. wp_step. simpl. lia. }
  eapply wp_seq; [by apply get_file_size_ok|]. intros sz s1 [Hl Hr].
  destruct sz as [rc|n]; [by apply Hfail, Hl|]. destruct (Hr n eq_refl) as [-> Hp1].
  case_if; [by apply Hfail|]. wp_step. wp_step. rename r into hdr.
  match goal with H : os_step _ _ = _ |- _ => apply fread_img in H as (_ & Hs & _); [|done|lia] end.
  case_if; [by apply Hfail|]. zbool.
  assert (Hhdr : Forall is_byte hdr) by (rewrite Hs; by apply slice_byte).
  case_if; [eapply wp_seq; [apply wp_any|]; intros; by apply Hfail|]. clear Heqb2.
  case_if; [wp_step; wp_step; by apply Hfail|]. zbool.
  pose proof (be32_at_range hdr HDR_OFF_ENTRY_COUNT Hhdr) as Hc.
  pose proof (be32_at_range hdr HDR_OFF_TABLE_OFFSET Hhdr) as Ht.
  case_if; [by apply Hfail|]. case_if; [by apply Hfail|]. case_if; [by apply Hfail|].
  wp_step. wp_step. case_if; [by apply Hfail|]. wp_step. wp_step. case_if; [by apply Hfail|]. zbool. subst.
  match goal with H : os_step (SysFseek _ _ _) _ = _ |- _ => apply fseek_img in H as Hp2; [|lia] end.
  eapply wp_seq; [eapply (read_entries_ok _ [] (be32_at hdr HDR_OFF_TABLE_OFFSET)); [lia | simpl; lia | done | done]|].
  intros es s2 [He0 He1]. destruct es as [rc|es]; [by apply Hfail, He0|].
  destruct (He1 es eq_refl) as (Hlen & HF & Hi). wp_step. intros _. split; [done | done |].
  exists es. simpl in *. split_and!; try done; lia.
Qed.

End open.

Section extract.
Context {W : Type} {os : OS W} {f : Z} {img : bytes} `{!ImageOS W f img}.

Lemma write_all_ok fuel fd p (s : sysst W) :
  wp (pkg_write_all fuel fd p)
    (fun ok s' => file_pos (os_state s') = file_pos (os_state s) /\
       (ok = true -> sent_on fd (os_trace s') = sent_on fd (os_trace s) ++ p)) (fun _ => True) s.
Proof.
  revert p s. induction fuel as [|fuel IH]; intros p s; [done|]. cbn [pkg_write_all].
  case_if; zbool; cycle 1.
  { wp_step. split; [done|]. intros _. destruct p; [by rewrite app_nil_r|]. unfold strlen in *. simpl in *. lia. }
  wp_step. wp_step. rename r into n.
  match goal with H : os_step _ _ = _ |- _ => apply write_img in H as Hp end.
  case_if; zbool.
  - wp_step. wp_step. case_if; [|by wp_step]. eapply wp_mono; [apply IH | |done]. simpl.
    intros ok s' [Hp' Hs]. split; [congruence|]. intros Hok. rewrite (Hs Hok).
    rewrite (proj2 (Z.ltb_ge 0 n)), andb_false_r, app_nil_r by lia. done.
  - case_if; [by wp_step|]. zbool. eapply wp_mono; [apply IH | |done]. simpl.
    intros ok s' [Hp' Hs]. split; [congruence|]. intros Hok. rewrite (Hs Hok), Z.eqb_refl.
    rewrite (proj2 (Z.ltb_lt 0 n)) by lia. simpl. by rewrite <- app_assoc, take_drop.
Qed.

Lemma copy_loop_ok blocks fuel fd pos remaining (s : sysst W) :
  0 <= pos -> 0 <= remaining -> file_pos (os_state s) = pos ->
  wp (pkg_copy_loop blocks fuel f fd remaining)
    (fun rc s' => rc = PKG_OK ->
       strlen (slice img pos remaining) = remaining /\
       sent_on fd (os_trace s') = sent_on fd (os_trace s) ++ slice img pos remaining) (fun _ => True) s.
Proof.
  revert pos remaining s. induction blocks as [|blocks IH]; intros pos remaining s Hp Hr Hpos; [done|].
  cbn [pkg_copy_loop]. case_if; zbool; cycle 1.
  { wp_step. intros _. assert (remaining = 0) as -> by lia. unfold slice. simpl. by rewrite app_nil_r. }
  set (to_read := if _ <? _ then _ else _).
  assert (Hto : 0 < to_read <= remaining) by (unfold to_read, COPY_BUF_SIZE; case_if; zbool; lia).
  wp_step. wp_step. rename r into got.
  match goal with H : os_step _ _ = _ |- _ => apply fread_img in H as (_ & Hs & Hp1); [|lia|lia] end.
  case_if; [by wp_step|]. case_if; [by wp_step|]. zbool.
  eapply wp_seq; [apply write_all_ok|]. intros ok s1 [Hp2 Hsent]. cbv beta. case_if; [by wp_step|]. zbool.
  eapply wp_mono; [apply (IH (pos + strlen got)) | |done]; [lia | lia | simpl in *; congruence |].
  intros rc s2 Hrc Hok. destruct (Hrc Hok) as [Hl Hs2]. rewrite Hpos in Hs.
  assert (Happ : slice img pos remaining = got ++ slice img (pos + strlen got) (remaining - strlen got)).
  { rewrite Hs at 1. rewrite slice_app by lia. f_equal. lia. }
  rewrite Happ, strlen_app, Hl, Hs2, Hsent by done. split; [lia|]. simpl. by rewrite app_nil_r, app_assoc.
Qed.

Lemma extract_fd_ok fuel ctx e fd (s : sysst W) :
  pkg_file ctx = Some f -> entry_inside img e ->
  wp (pkg_extract_file_fd fuel ctx e fd)
    (fun rc s' => rc = PKG_OK -> sent_on fd (os_trace s') =
       sent_on fd (os_trace s) ++ slice img (pe_offset e) (pe_size e)) (fun _ => True) s.
Proof.
  intros Hf (Ho & Hz & _). unfold pkg_extract_file_fd. rewrite Hf. case_if; [by wp_step|].
  case_if; [by wp_step|]. case_if; [by wp_step|]. wp_step. wp_step. case_if; [by wp_step|]. zbool. subst.
  match goal with H : os_step _ _ = _ |- _ => apply fseek_img in H as Hp; [|lia] end.
  eapply wp_mono; [apply (copy_loop_ok _ _ _ (pe_offset e)); [lia | lia | done] | |done].
  intros rc s' Hrc Hok. destruct (Hrc Hok) as [_ ->]. simpl. by rewrite app_nil_r.
Qed.

Definition readable (e : pkg_entry_t) (size : Z) : Prop :=
  pkg_entry_is_encrypted e = false /\ pe_size e <= PKG_MAX_ENTRY_SIZE /\ pe_size e <= size /\ 0 < size.

(** The error codes are negative. *)
Ltac neg_code :=
  wp_step; cbn [fst]; unfold PKG_ERR_PARAM, PKG_ERR_ENCRYPTED, PKG_ERR_RANGE, PKG_ERR_BUFFER_SMALL, PKG_ERR_IO;
  split; [intros ?; exfalso; lia|].

Lemma extract_buffer_ok ctx e size (s : sysst W) :
  pkg_file ctx = Some f -> entry_inside img e -> 0 <= size ->
  wp (pkg_extract_to_buffer ctx e size)
    (fun r _ => (0 <= r.1 -> r = (pe_size e, slice img (pe_offset e) (pe_size e)) /\ readable e size) /\
       (ReliableOS W f img -> readable e size -> 0 <= r.1)) (fun _ => False) s.
Proof.
  intros Hf (Ho & Hz & Hin) Hsz. unfold pkg_extract_to_buffer, readable. rewrite Hf.
  case_if; zbool; [neg_code; lia|]. case_if; [neg_code; intros _ [? _]; congruence|].
  case_if; zbool; [neg_code; lia|]. case_if; zbool; [neg_code; lia|]. case_if; zbool.
  { wp_step. cbn [fst]. split; [|done]. intros _. rewrite Heqb3. split; [done|]. split; [done|]. lia. }
  apply (wp_seek_read f img); [lia | lia | |].
  { intros r s' _ HR. neg_code. intros. done. }
  intros b s' (_ & Hb & _ & Hfull). case_if; zbool.
  - neg_code. intros HR _. rewrite Hfull in Heqb4 by done. lia.
  - wp_step. cbn [fst]. split; [|lia]. intros _. rewrite Heqb4 in *. rewrite <- Hb. split; [done|]. split; [done|]. lia.
Qed.

End extract.

Section container.
Context {W : Type} {os : OS W} {f : Z} {img : bytes} `{!ImageOS W f img}.

(** C13: an entry of an opened container is one of the records of its table, and
    extracting it yields the entry's bytes of the file and nothing else.
    Extraction into memory always returns; a result that is not an error is
    the entry's size, with the whole entry stored, and it happens only for
    entries that are not encrypted, at most 64 MiB and no larger than the
    buffer; for those it always happens when seeks and reads do not fail.
    Extraction to a descriptor that reports success has written exactly the
    entry's bytes. *)
Theorem pkg_extract_correct path s ctx s' id e size t :
  Forall is_byte img -> strlen img < 2 ^ 63 ->
  pkg_init path s = (Some (PKG_OK, ctx), s') ->
  pkg_find_entry_by_id ctx id = Some e -> 0 <= size ->
  let data := slice img (pe_offset e) (pe_size e) in
  (exists i, e = pkg_entry_of (slice img (pkg_table_offset (pkg_header ctx) + 32 * i) 32)) /\ pe_id e = id /\
  strlen data = pe_size e /\
  (exists r buf t', pkg_extract_to_buffer ctx e size t = (Some (r, buf), t') /\
     (0 <= r -> r = pe_size e /\ buf = data /\ readable e size) /\
     (ReliableOS W f img -> readable e size -> 0 <= r)) /\
  (forall fuel fd t', pkg_extract_file_fd fuel ctx e fd t = (Some PKG_OK, t') ->
     sent_on fd (os_trace t') = sent_on fd (os_trace t) ++ data).
Proof.
  intros Hb Hs Hi Hf Hsz data. pose proof (pkg_init_ok Hb Hs path s) as Hw. unfold wp in Hw. rewrite Hi in Hw.
  destruct (Hw eq_refl) as [Hfile _ (es & Hes & Hn & _ & HF & Htab)]. simpl in *.
  unfold pkg_find_entry_by_id in Hf. rewrite Hes, Hn, Nat2Z.id, take_ge in Hf by lia.
  apply find_some in Hf as [Hin Hid]. apply list_elem_of_In, list_elem_of_lookup in Hin as [i Hi'].
  pose proof (proj1 (Forall_lookup _ _) HF i e Hi') as He.
  split; [eexists; by eapply Htab|]. split; [by zbool|].
  split; [destruct He as (? & ? & ?); unfold data; rewrite strlen_slice; lia|]. split.
  - pose proof (extract_buffer_ok ctx e size t Hfile He Hsz) as Hx. unfold wp in Hx.
    destruct (pkg_extract_to_buffer _ _ _ _) as [[[r buf]|] t']; [|done]. exists r, buf, t'.
    destruct Hx as [H0 H1]. split; [done|]. split; [|done]. intros Hr.
    destruct (H0 Hr) as [[= -> ->] Hread]. done.
  - intros fuel fd t' Hrun. pose proof (extract_fd_ok fuel ctx e fd t Hfile He) as Hx. unfold wp in Hx.
    rewrite Hrun in Hx. by apply Hx.
Qed.

End container.

(** ** A container for evaluation *)

Definition be32 (z : Z) : bytes := [z / 16777216 mod 256; z / 65536 mod 256; z / 256 mod 256; z mod 256].

(** A header of 4096 bytes, one entry record, and the entry's data. *)
Definition demo_container (data : bytes) : bytes :=
  be32 PKG_MAGIC_CNT ++ replicate 12 0 ++ be32 1 ++ replicate 4 0 ++ be32 PKG_HEADER_SIZE ++ replicate 36 0 ++
  str "UP0001-CUSA00001_00-DEMO000000000000" ++ replicate 3996 0 ++
  be32 PKG_ENTRY_ID_PARAM_SFO ++ be32 0 ++ be32 0 ++ be32 0 ++ be32 4128 ++ be32 (strlen data) ++ replicate 8 0 ++
  data.

Definition demo_pkg_ctx (data : bytes) : pkg_context_t :=
  match (pkg_init (str "game.pkg") (img_init (demo_container data))).1 with
  | Some (_, ctx) => ctx
  | None => PkgContext None 0 pkg_header_zero None 0
  end.

Lemma pkg_extract_correct_witness :
  let img := demo_container (str "hello") in
  let e := PkgEntry PKG_ENTRY_ID_PARAM_SFO 0 0 0 4128 5 in
  Forall is_byte img /\ strlen img < 2 ^ 63 /\
  (pkg_init (str "game.pkg") (img_init img)).1 = Some (PKG_OK, demo_pkg_ctx (str "hello")) /\
  pkg_find_entry_by_id (demo_pkg_ctx (str "hello")) PKG_ENTRY_ID_PARAM_SFO = Some e /\
  exists t', pkg_extract_to_buffer (demo_pkg_ctx (str "hello")) e 10 (img_init img) = (Some (5, str "hello"), t').
Proof.
  intros img e.
  assert (Hb : Forall is_byte img) by by_compute.
  assert (Hs : strlen img < 2 ^ 63) by (vm_compute; reflexivity).
  assert (Hi : (pkg_init (str "game.pkg") (img_init img)).1 = Some (PKG_OK, demo_pkg_ctx (str "hello")))
    by (vm_compute; reflexivity).
  assert (Hf : pkg_find_entry_by_id (demo_pkg_ctx (str "hello")) PKG_ENTRY_ID_PARAM_SFO = Some e)
    by (vm_compute; reflexivity).
  assert (Hd : slice img (pe_offset e) (pe_size e) = str "hello") by (vm_compute; reflexivity).
  split; [exact Hb|]. split; [exact Hs|]. split; [exact Hi|]. split; [exact Hf|].
  destruct (pkg_init _ _) as [r s'] eqn:E. simpl in Hi. subst r.
  destruct (pkg_extract_correct _ _ _ _ _ _ 10 (img_init img) Hb Hs E Hf ltac:(lia))
    as (_ & _ & _ & (r & buf & t' & Hrun & Hok & Hrel) & _).
  destruct (Hok (Hrel _ ltac:(by_compute))) as (-> & -> & _). exists t'. rewrite Hrun, Hd. reflexivity.
Defined.
