(* ===== verification/Sfo.v ===== *)
(** * Title metadata: PARAM.SFO and param.json

    The helpers of [http_api.c] that look a string up in an SFO table or in a
    JSON text, and derive a title id from a content id.  An SFO is read from
    memory of which only the first [size] bytes were filled; a byte outside
    them is whatever the memory holds there, a request to the system
    ([SysStale]). *)

From S2P Require Import Prelude CLib Os Unpack.

Section sfo.
Context {W : Type} {os : OS W}.

(** One byte of memory, and the two loads. *)
Definition sfo_byte (sfo : bytes) (i : Z) : M (sysst W) Z :=
  if (0 <=? i) && (i <? strlen sfo) then mret (byte_at sfo i)
  else b ← sys_call (SysStale 1); mret (byte_at b 0).

Definition sfo_le16 (sfo : bytes) (i : Z) : M (sysst W) Z :=
  b0 ← sfo_byte sfo i;
  b1 ← sfo_byte sfo (i + 1);
  mret (Z.lor b0 (Z.shiftl b1 8)).

Definition sfo_le32 (sfo : bytes) (i : Z) : M (sysst W) Z :=
  b0 ← sfo_byte sfo i;
  b1 ← sfo_byte sfo (i + 1);
  b2 ← sfo_byte sfo (i + 2);
  b3 ← sfo_byte sfo (i + 3);
  mret (Z.lor (Z.lor (Z.lor b0 (Z.shiftl b1 8)) (Z.shiftl b2 16)) (Z.shiftl b3 24)).

(** [strcmp(key, req_key) == 0] with the key in memory: it reads up to the
    first difference. *)
Fixpoint sfo_strcmp (sfo : bytes) (i : Z) (req_key : bytes) : M (sysst W) bool :=
  c ← sfo_byte sfo i;
  match req_key with
  | [] => mret (c =? 0)
  | k :: req_key' => if c =? k then sfo_strcmp sfo (i + 1) req_key' else mret false
  end.

(** The text [%.*s] prints: up to a NUL or [prec] bytes, a negative precision
    counting as none. *)
Fixpoint sfo_text (fuel : nat) (sfo : bytes) (i prec : Z) : M (sysst W) bytes :=
  match fuel with
  | O => diverge
  | S fuel =>
      if prec =? 0 then mret []
      else
        c ← sfo_byte sfo i;
        if c =? 0 then mret []
        else rest ← sfo_text fuel sfo (i + 1) (if prec <? 0 then prec else prec - 1); mret (c :: rest)
  end.

Definition sfo_string_format (fmt : Z) : bool :=
  (fmt =? 516) || (fmt =? 4) || (fmt =? 0) || (fmt =? 1028).      (* 0x0204, 0x0004, 0, 0x0404 *)

(** The loop over the index, at entry [i]. *)
Fixpoint sfo_entries (fuel : nat) (sfo : bytes) (key_table_ofs data_table_ofs count i : Z)
    (req_key : bytes) (out_max : Z) : M (sysst W) (option bytes) :=
  match fuel with
  | O => diverge
  | S fuel' =>
      if i <? count then
        let entry := 20 + u32 (i * 16) in
        key_ofs ← sfo_le16 sfo entry;
        fmt ← sfo_le16 sfo (entry + 2);
        data_len ← sfo_le32 sfo (entry + 4);
        data_ofs ← sfo_le32 sfo (entry + 12);
        if strlen sfo <=? key_table_ofs +u32 key_ofs then mret None
        else
          same ← sfo_strcmp sfo (key_table_ofs + key_ofs) req_key;
          if same && sfo_string_format fmt
             && (u32 (data_table_ofs + data_ofs + data_len) <=? strlen sfo) then
            text ← sfo_text fuel sfo (data_table_ofs + data_ofs)
                     (to_int (if 0 <? data_len then data_len - 1 else 0));
            mret (Some (snprintf_buf out_max text))
          else sfo_entries fuel' sfo key_table_ofs data_table_ofs count (i + 1) req_key out_max
      else mret None
  end.

(** [sfo_get_string(sfo, size, req_key, out, out_max)]: the text stored in
    [out], [None] for -1. *)
Definition sfo_get_string (fuel : nat) (sfo req_key : bytes) (out_max : Z) : M (sysst W) (option bytes) :=
  if (strlen sfo <? 20) || (out_max =? 0) then mret None
  else if negb (le32_at sfo 0 =? 1179865088) then mret None        (* 0x46535000 *)
  else
    let key_table_ofs := le32_at sfo 8 in
    let data_table_ofs := le32_at sfo 12 in
    let count := le32_at sfo 16 in
    if (strlen sfo <=? key_table_ofs) || (strlen sfo <=? data_table_ofs) then mret None
    else if strlen sfo <? u32 (20 + count * 16) then mret None
    else sfo_entries fuel sfo key_table_ofs data_table_ofs count 0 req_key out_max.

End sfo.

(** ** JSON *)

Definition json_skip (c : Z) : bool := (c =? 32) || (c =? 9) || (c =? 10) || (c =? 58).

(** The copy loop of [json_get_string], with room for [room] characters. *)
Fixpoint json_copy (pos : bytes) (room : nat) : bytes :=
  match room, pos with
  | S room, c :: pos' =>
      if c =? 34 then []
      else match pos' with
           | d :: pos'' =>
               if c =? 92 then
                 (if d =? 110 then 10 else if d =? 116 then 9 else d) :: json_copy pos'' room
               else c :: json_copy pos' room
           | [] => c :: json_copy pos' room
           end
  | _, _ => []
  end.

(** [json_get_string(json, key, out, out_size)]: the result and [out]. *)
Definition json_get_string (json key : bytes) (out_size : Z) : Z * bytes :=
  let needle := 34 :: key ++ [34] in
  if 128 <=? strlen needle then (-1, [])
  else match strstr json needle with
  | None => (-1, [])
  | Some i =>
      match drop_while json_skip (drop (i + length needle) json) with
      | c :: pos => if c =? 34 then (0, json_copy pos (Z.to_nat (out_size - 1))) else (-1, [])
      | [] => (-1, [])
      end
  end.

(** ** Title ids *)

Definition isalpha (c : Z) : bool := isupper c || islower c.

(** Four letters and five digits at the start. *)
Definition title_id_at (s : bytes) : bool :=
  match s with
  | a :: b :: c :: d :: e :: f :: g :: h :: i :: _ =>
      isalpha a && isalpha b && isalpha c && isalpha d && isdigit e && isdigit f && isdigit g
      && isdigit h && isdigit i
  | _ => false
  end.

(** [title_id_from_content_id]: [None] for -1. *)
Fixpoint title_id_from_content_id (content_id : bytes) : option bytes :=
  match content_id with
  | [] => None
  | _ :: rest =>
      if title_id_at content_id then Some (toupper <$> take 9 content_id)
      else title_id_from_content_id rest
  end.
