(* ===== verification/SfoSpec.v ===== *)
(** * Correctness of the metadata readers

    A lookup in a well-formed SFO table finds the value that was stored and
    reads nothing outside the table; malformed tables make it read memory the
    program does not own. *)

From S2P Require Import Prelude CLib Os Unpack Sfo.

(** ** Reads inside the table *)

Section inside.
Context {W : Type} {os : OS W} (sfo : bytes).

Lemma sfo_byte_in i (s : sysst W) : 0 <= i < strlen sfo -> sfo_byte sfo i s = (Some (byte_at sfo i), s).
Proof.
  intros Hi. unfold sfo_byte. by rewrite (proj2 (Z.leb_le _ _)), (proj2 (Z.ltb_lt _ _)) by lia.
Qed.

Lemma sfo_le16_in i (s : sysst W) : 0 <= i -> i + 2 <= strlen sfo -> sfo_le16 sfo i s = (Some (le16_at sfo i), s).
Proof.
  intros H0 H1. unfold sfo_le16, mbind, M_bind. by rewrite !sfo_byte_in by lia.
Qed.

Lemma sfo_le32_in i (s : sysst W) : 0 <= i -> i + 4 <= strlen sfo -> sfo_le32 sfo i s = (Some (le32_at sfo i), s).
Proof.
  intros H0 H1. unfold sfo_le32, mbind, M_bind. rewrite sfo_byte_in by lia. rewrite sfo_byte_in by lia.
  rewrite sfo_byte_in by lia. by rewrite sfo_byte_in by lia.
Qed.

(** A NUL-terminated string in memory: comparing, and printing it. *)
Lemma sfo_strcmp_in key rest pre req (s : sysst W) :
  sfo = pre ++ key ++ 0 :: rest -> no_nul key -> no_nul req ->
  sfo_strcmp sfo (strlen pre) req s = (Some (streq key req), s).
Proof.
  revert pre req. induction key as [|k key IH]; intros pre req Hs Hk Hr.
  - assert (Hb : byte_at sfo (strlen pre) = 0).
    { rewrite Hs. rewrite <- (Z.add_0_r (strlen pre)), byte_at_app by lia. done. }
    assert (strlen pre < strlen sfo) by (rewrite Hs, !strlen_app; unfold strlen; simpl; lia).
    destruct req as [|r req]; cbn [sfo_strcmp]; unfold mbind, M_bind;
      rewrite sfo_byte_in, Hb by (pose proof (strlen_nonneg pre); lia); [done|].
    apply Forall_cons in Hr as [Hr _]. rewrite (proj2 (Z.eqb_neq 0 r)) by lia. done.
  - apply Forall_cons in Hk as [Hk0 Hk].
    assert (Hb : byte_at sfo (strlen pre) = k).
    { rewrite Hs. rewrite <- (Z.add_0_r (strlen pre)), byte_at_app by lia. done. }
    assert (strlen pre < strlen sfo) by (rewrite Hs, !strlen_app; unfold strlen; simpl; lia).
    destruct req as [|r req]; cbn [sfo_strcmp]; unfold mbind, M_bind;
      rewrite sfo_byte_in, Hb by (pose proof (strlen_nonneg pre); lia).
    + rewrite (proj2 (Z.eqb_neq k 0)) by done. done.
    + apply Forall_cons in Hr as [Hr0 Hr]. destruct (Z.eqb_spec k r) as [->|Hne].
      * assert (strlen pre + 1 = strlen (pre ++ [r])) as -> by (rewrite strlen_app; done).
        rewrite IH; [|by rewrite <- app_assoc|done|done]. do 2 f_equal. unfold streq.
        apply bool_decide_ext. split; congruence.
      * unfold streq. rewrite bool_decide_eq_false_2 by congruence. done.
Qed.

Lemma sfo_text_in v rest pre fuel (s : sysst W) :
  sfo = pre ++ v ++ 0 :: rest -> no_nul v -> (length v < fuel)%nat ->
  sfo_text fuel sfo (strlen pre) (strlen v) s = (Some v, s).
Proof.
  revert pre fuel. induction v as [|c v IH]; intros pre fuel Hs Hv Hf; (destruct fuel as [|fuel]; [simpl in Hf; lia|]);
    cbn [sfo_text]; [done|].
  apply Forall_cons in Hv as [Hc Hv].
  assert (Hb : byte_at sfo (strlen pre) = c).
  { rewrite Hs. rewrite <- (Z.add_0_r (strlen pre)), byte_at_app by lia. done. }
  assert (strlen pre < strlen sfo) by (rewrite Hs, !strlen_app; unfold strlen; simpl; lia).
  assert (strlen (c :: v) = strlen v + 1) as -> by (unfold strlen; simpl; lia).
  pose proof (strlen_nonneg v). pose proof (strlen_nonneg pre). rewrite (proj2 (Z.eqb_neq _ 0)) by lia. unfold mbind, M_bind.
  rewrite sfo_byte_in, Hb by lia. rewrite (proj2 (Z.eqb_neq c 0)) by done.
  rewrite (proj2 (Z.ltb_ge _ 0)) by lia.
  assert (strlen pre + 1 = strlen (pre ++ [c])) as -> by (rewrite strlen_app; done).
  assert (strlen v + 1 - 1 = strlen v) as -> by lia.
  rewrite IH; [done | by rewrite <- app_assoc | done | simpl in Hf; lia].
Qed.

End inside.

(** ** Well-formed tables *)

Abbreviation sfo_table := (list (bytes * bytes)).

Definition sfo_record (key_ofs data_len data_ofs : Z) : bytes :=
  le16 key_ofs ++ le16 516 ++ le32 data_len ++ le32 data_len ++ le32 data_ofs.

(** The index of [es] when its strings start at the given offsets. *)
Fixpoint sfo_index (key_ofs data_ofs : Z) (es : sfo_table) : bytes :=
  match es with
  | [] => []
  | (k, v) :: es' =>
      sfo_record key_ofs (strlen v + 1) data_ofs ++
      sfo_index (key_ofs + (strlen k + 1)) (data_ofs + (strlen v + 1)) es'
  end.

Definition sfo_keys (es : sfo_table) : bytes := flat_map (fun e => e.1 ++ [0]) es.
Definition sfo_values (es : sfo_table) : bytes := flat_map (fun e => e.2 ++ [0]) es.

Definition key_table (es : sfo_table) : Z := 20 + 16 * Z.of_nat (length es).
Definition data_table (es : sfo_table) : Z := key_table es + strlen (sfo_keys es).

Definition sfo_header (es : sfo_table) : bytes :=
  le32 1179865088 ++ le32 257 ++ le32 (key_table es) ++ le32 (data_table es) ++ le32 (Z.of_nat (length es)).

Definition sfo_file (es : sfo_table) : bytes :=
  sfo_header es ++ sfo_index 0 0 es ++ sfo_keys es ++ sfo_values es.

Definition sfo_ok (es : sfo_table) : Prop :=
  es <> [] /\ Forall (fun e => no_nul e.1 /\ no_nul e.2) es /\ strlen (sfo_file es) < 2 ^ 16.

Lemma sfo_index_app a b xs ys :
  sfo_index a b (xs ++ ys) =
  sfo_index a b xs ++ sfo_index (a + strlen (sfo_keys xs)) (b + strlen (sfo_values xs)) ys.
Proof.
  revert a b. induction xs as [|[k v] xs IH]; intros a b; cbn [app sfo_index].
  - cbn. by rewrite !Z.add_0_r.
  - rewrite IH, <- app_assoc. do 2 f_equal. unfold sfo_keys, sfo_values. cbn [flat_map fst snd].
    rewrite !strlen_app. f_equal; unfold strlen; simpl; lia.
Qed.

Lemma strlen_sfo_index a b es : strlen (sfo_index a b es) = 16 * Z.of_nat (length es).
Proof.
  revert a b. induction es as [|[k v] es IH]; intros a b; [done|]. cbn [sfo_index length].
  rewrite strlen_app, IH. unfold strlen at 1. simpl length. lia.
Qed.

Lemma sfo_keys_app xs ys : sfo_keys (xs ++ ys) = sfo_keys xs ++ sfo_keys ys.
Proof. apply flat_map_app. Qed.

Lemma sfo_values_app xs ys : sfo_values (xs ++ ys) = sfo_values xs ++ sfo_values ys.
Proof. apply flat_map_app. Qed.

(** The fields of a record. *)
Lemma sfo_record_fields pre k l d rest :
  0 <= k < 2 ^ 16 -> 0 <= l < 2 ^ 32 -> 0 <= d < 2 ^ 32 ->
  let sfo := pre ++ sfo_record k l d ++ rest in
  le16_at sfo (strlen pre) = k /\ le16_at sfo (strlen pre + 2) = 516 /\
  le32_at sfo (strlen pre + 4) = l /\ le32_at sfo (strlen pre + 12) = d.
Proof.
  intros Hk Hl Hd. cbv zeta. rewrite <- (Z.add_0_r (strlen pre)) at 1.
  rewrite !le16_at_app, !le32_at_app by lia.
  split_and!; first [apply le16_dec | apply le32_dec]; first [done | reflexivity].
Qed.

Definition sfo_lookup (es : sfo_table) (key : bytes) (out_max : Z) : option bytes :=
  (fun e => snprintf_buf out_max e.2) <$> find (fun e => streq e.1 key) es.

Section lookup.
Context {W : Type} {os : OS W} (es : sfo_table) (Hok : sfo_ok es).

(** Where an entry's record, key and value are, inside the file. *)
Definition entry_places (done : sfo_table) (k v : bytes) : Prop :=
  exists pi ri pk rk pv rv,
    sfo_file es = pi ++ sfo_record (strlen (sfo_keys done)) (strlen v + 1) (strlen (sfo_values done)) ++ ri /\
    strlen pi = 20 + 16 * Z.of_nat (length done) /\
    sfo_file es = pk ++ k ++ 0 :: rk /\ strlen pk = key_table es + strlen (sfo_keys done) /\
    sfo_file es = pv ++ v ++ 0 :: rv /\ strlen pv = data_table es + strlen (sfo_values done).

Lemma sfo_split done k v rest : es = done ++ (k, v) :: rest -> entry_places done k v.
Proof.
  intros Hes. set (hdr := sfo_header es). assert (Hh : strlen hdr = 20) by done.
  exists (hdr ++ sfo_index 0 0 done), 
    (sfo_index (strlen (sfo_keys done) + (strlen k + 1)) (strlen (sfo_values done) + (strlen v + 1)) rest
       ++ sfo_keys es ++ sfo_values es),
    (hdr ++ sfo_index 0 0 es ++ sfo_keys done), (sfo_keys rest ++ sfo_values es),
    (hdr ++ sfo_index 0 0 es ++ sfo_keys es ++ sfo_values done), (sfo_values rest).
  assert (Hk : sfo_keys es = sfo_keys done ++ k ++ 0 :: sfo_keys rest).
  { rewrite Hes, sfo_keys_app. f_equal. unfold sfo_keys. simpl. by rewrite <- app_assoc. }
  assert (Hv : sfo_values es = sfo_values done ++ v ++ 0 :: sfo_values rest).
  { rewrite Hes, sfo_values_app. f_equal. unfold sfo_values. simpl. by rewrite <- app_assoc. }
  unfold sfo_file. fold hdr. split_and!.
  - rewrite Hes at 1. rewrite sfo_index_app, !Z.add_0_l. cbn [sfo_index]. by rewrite <- !app_assoc.
  - rewrite strlen_app, strlen_sfo_index, Hh. lia.
  - rewrite Hk at 1. rewrite <- !app_assoc. simpl. done.
  - rewrite !strlen_app, strlen_sfo_index, Hh. unfold key_table. lia.
  - rewrite Hv at 1. by rewrite <- !app_assoc.
  - rewrite !strlen_app, strlen_sfo_index, Hh. unfold data_table, key_table. lia.
Qed.

(** Everything an entry names ends inside the file. *)
Lemma entry_bounds done k v : entry_places done k v ->
  20 + 16 * Z.of_nat (length done) + 16 <= strlen (sfo_file es) /\
  0 <= strlen (sfo_keys done) /\ 0 <= strlen (sfo_values done) /\ 0 <= strlen k /\ 0 <= strlen v /\
  20 <= key_table es <= data_table es /\
  key_table es + strlen (sfo_keys done) + strlen k < strlen (sfo_file es) /\
  data_table es + strlen (sfo_values done) + strlen v < strlen (sfo_file es).
Proof.
  intros (pi & ri & pk & rk & pv & rv & Ei & Li & Ek & Lk & Ev & Lv).
  apply (f_equal strlen) in Ei, Ek, Ev. rewrite !strlen_app in Ei, Ek, Ev. rewrite Li in Ei.
  rewrite Lk in Ek. rewrite Lv in Ev.
  assert (Hr : forall a b c, strlen (sfo_record a b c) = 16) by done.
  assert (Hc : forall l, strlen (0 :: l) = strlen l + 1) by (intros; unfold strlen; simpl; lia).
  rewrite Hr in Ei. rewrite Hc in Ek, Ev. unfold data_table, key_table in *.
  pose proof (strlen_nonneg ri). pose proof (strlen_nonneg rk). pose proof (strlen_nonneg rv).
  pose proof (strlen_nonneg (sfo_keys es)). split_and!; try apply strlen_nonneg; lia.
Qed.

Lemma u32_id z : 0 <= z < 2 ^ 32 -> u32 z = z.
Proof. apply Z.mod_small. Qed.

Lemma sfo_entries_ok rest done fuel key out_max (s : sysst W) :
  es = done ++ rest -> no_nul key -> (length (sfo_file es) + length rest < fuel)%nat ->
  sfo_entries fuel (sfo_file es) (key_table es) (data_table es) (Z.of_nat (length es))
    (Z.of_nat (length done)) key out_max s = (Some (sfo_lookup rest key out_max), s).
Proof.
  destruct Hok as (_ & HF & Hsz). revert done fuel.
  induction rest as [|[k v] rest IH]; intros done fuel Hes Hkey Hf; (destruct fuel as [|fuel]; [lia|]);
    cbn [sfo_entries].
  { rewrite app_nil_r in Hes. by rewrite Hes, Z.ltb_irrefl. }
  pose proof (sfo_split done k v rest Hes) as Hpl. pose proof (entry_bounds done k v Hpl) as Hb.
  destruct Hpl as (pi & ri & pk & rk & pv & rv & Ei & Li & Ek & Lk & Ev & Lv).
  assert (Hn : no_nul k /\ no_nul v).
  { rewrite Hes in HF. apply Forall_app in HF as [_ HF]. by apply Forall_cons in HF as [HF _]. }
  assert (Hlen : length es = (length done + S (length rest))%nat) by (rewrite Hes, length_app; done).
  rewrite (proj2 (Z.ltb_lt _ _)), u32_id, (Z.mul_comm _ 16), <- Li by lia.
  destruct (sfo_record_fields pi (strlen (sfo_keys done)) (strlen v + 1) (strlen (sfo_values done)) ri
    ltac:(lia) ltac:(lia) ltac:(lia)) as (F0 & F2 & F4 & F12). rewrite <- Ei in F0, F2, F4, F12.
  unfold mbind, M_bind. rewrite !sfo_le16_in by lia. rewrite !sfo_le32_in by lia.
  rewrite F0, F2, F4, F12, u32_id, (proj2 (Z.leb_gt _ _)), <- Lk by lia.
  rewrite (sfo_strcmp_in _ k rk pk key s Ek (proj1 Hn) Hkey).
  unfold sfo_lookup. cbn [find fst length] in *. destruct (streq k key) eqn:Hkk; cycle 1.
  { assert (Z.of_nat (length done) + 1 = Z.of_nat (length (done ++ [(k, v)]))) as ->
      by (rewrite length_app; simpl; lia).
    cbn [andb]. rewrite IH; [done | by rewrite <- app_assoc | done | lia]. }
  change (sfo_string_format 516) with true.
  rewrite u32_id, (proj2 (Z.leb_le (data_table es + _ + _) _)), (proj2 (Z.ltb_lt 0 (strlen v + 1))) by lia.
  cbn [andb]. assert (to_int (strlen v + 1 - 1) = strlen v) as ->.
  { unfold to_int. rewrite u32_id, (proj2 (Z.ltb_lt _ _)) by lia. lia. }
  rewrite <- Lv, (sfo_text_in _ v rv pv (S fuel) s Ev (proj2 Hn)); [done|]. unfold strlen in *. lia.
Qed.

Lemma sfo_get_lookup fuel key out_max (s : sysst W) :
  no_nul key -> 0 < out_max -> (length (sfo_file es) + length es < fuel)%nat ->
  sfo_get_string fuel (sfo_file es) key out_max s = (Some (sfo_lookup es key out_max), s).
Proof.
  intros Hk Ho Hf.
  assert (exists k v rest, es = (k, v) :: rest) as (k & v & rest & Ees).
  { destruct Hok as [Hne _]. destruct es as [|[k v] rest]; [done | eauto]. }
  pose proof (sfo_split [] k v rest Ees) as Hpl. pose proof (entry_bounds [] k v Hpl) as Hb. simpl in Hb.
  assert (Hsz : strlen (sfo_file es) < 2 ^ 16) by apply Hok.
  assert (Hn : 20 + 16 * Z.of_nat (length es) <= strlen (sfo_file es)) by (unfold key_table in Hb; lia).
  assert (Hd : 0 <= strlen v + strlen (sfo_values [])) by (unfold strlen; lia).
  unfold sfo_get_string. rewrite (proj2 (Z.ltb_ge _ _)), (proj2 (Z.eqb_neq out_max 0)) by lia. cbn [orb].
  assert (H0 : le32_at (sfo_file es) 0 = 1179865088) by (apply le32_dec; done).
  assert (H8 : le32_at (sfo_file es) 8 = key_table es) by (apply le32_dec; first [lia | reflexivity]).
  assert (H12 : le32_at (sfo_file es) 12 = data_table es) by (apply le32_dec; first [lia | reflexivity]).
  assert (H16 : le32_at (sfo_file es) 16 = Z.of_nat (length es)) by (apply le32_dec; first [lia | reflexivity]).
  rewrite H0, H8, H12, H16, !(proj2 (Z.leb_gt _ _)) by lia. cbn [orb negb Z.eqb Pos.eqb].
  rewrite u32_id, (proj2 (Z.ltb_ge _ _)) by lia.
  by apply (sfo_entries_ok es []).
Qed.

(** A lookup in a well-formed SFO table returns the first value stored
    under the key, cut to the caller's buffer, and reports a missing key; it
    reads no byte outside the table. *)
Theorem sfo_lookup_correct fuel key out_max (s : sysst W) :
  no_nul key -> 0 < out_max -> (length (sfo_file es) + length es < fuel)%nat ->
  sfo_get_string fuel (sfo_file es) key out_max s = (Some (sfo_lookup es key out_max), s).
Proof. apply sfo_get_lookup. Qed.

End lookup.

Definition demo_table : sfo_table :=
  [(str "CONTENT_ID", str "UP0001-CUSA00001_00-DEMO000000000000"); (str "TITLE", str "Demo");
   (str "TITLE_ID", str "CUSA00001")].

Lemma sfo_lookup_correct_witness :
  sfo_ok demo_table /\
  sfo_get_string 300 (sfo_file demo_table) (str "TITLE_ID") 64 toy_init = (Some (Some (str "CUSA00001")), toy_init).
Proof.
  assert (Hok : sfo_ok demo_table).
  { split; [discriminate|]. split; by_compute. }
  split; [exact Hok|].
  exact (sfo_lookup_correct demo_table Hok 300 (str "TITLE_ID") 64 toy_init ltac:(by_compute) ltac:(lia)
           ltac:(by_compute)).
Defined.

(** ** Malformed tables *)

(** Two malformed tables that pass the size checks make the lookup read
    outside the table.  In the first the number of entries times their size
    wraps around to zero, so a table of 20 bytes passes for one with 2^28
    entries and its index is read behind it.  In the second the end of a value
    wraps around, so the value is read four gigabytes behind the table, and
    what is there is returned as the title. *)
Theorem sfo_over_read :
  let wrap_count := le32 1179865088 ++ le32 257 ++ le32 0 ++ le32 0 ++ le32 (2 ^ 28) in
  let wrap_value := le32 1179865088 ++ le32 257 ++ le32 36 ++ le32 42 ++ le32 1 ++
                    le16 0 ++ le16 516 ++ le32 8 ++ le32 8 ++ le32 (2 ^ 32 - 8) ++ str "TITLE" ++ [0; 0] in
  let r1 := sfo_get_string 50 wrap_count (str "TITLE") 64 toy_init in
  let r2 := sfo_get_string 50 wrap_value (str "TITLE") 64 toy_init in
  foreign_bytes (os_trace r1.2) = 12 /\
  foreign_bytes (os_trace r2.2) = 7 /\ r2.1 = Some (Some (str "???????")).
Proof. vm_compute. done. Qed.

(** ** Title ids *)

(** A title id derived from a content id is four capital letters and five
    digits. *)
Lemma title_id_shape s t : title_id_from_content_id s = Some t ->
  exists a b, t = a ++ b /\ length a = 4%nat /\ length b = 5%nat /\
    Forall (fun c => isupper c = true) a /\ Forall (fun c => isdigit c = true) b.
Proof.
  induction s as [|x s IH]; [done|]. cbn [title_id_from_content_id].
  destruct (title_id_at (x :: s)) eqn:Ht; [|done]. intros [= <-].
  destruct s as [|x1 [|x2 [|x3 [|x4 [|x5 [|x6 [|x7 [|x8 s]]]]]]]]; try done.
  unfold title_id_at in Ht. zbool.
  assert (Hup : forall c, isalpha c = true -> isupper (toupper c) = true).
  { intros c. unfold isalpha, toupper, isupper, islower. intros Hc.
    repeat match goal with |- context [if ?b then _ else _] => destruct b eqn:? end; zbool;
      repeat match goal with H : _ \/ _ |- _ => destruct H end; zbool; try (apply andb_true_iff; split; apply Z.leb_le); lia. }
  assert (Hdig : forall c, isdigit c = true -> toupper c = c).
  { intros c Hc. apply isdigit_range in Hc. unfold toupper, islower. by rewrite (proj2 (Z.leb_gt _ _)) by lia. }
  exists (toupper <$> [x; x1; x2; x3]), [x4; x5; x6; x7; x8].
  cbn [fmap list_fmap app take length]. split_and!; try done.
  - by rewrite (Hdig x4), (Hdig x5), (Hdig x6), (Hdig x7), (Hdig x8).
  - repeat constructor; auto.
  - repeat constructor; auto.
Qed.
