(* ===== verification/HttpParser.v ===== *)
(** * The HTTP request parser: [src/http_parser.c]

    The parser works in place: it writes NUL bytes into the receive buffer
    and the request holds pointers into it.  A pointer is an offset into the
    buffer, and the string it denotes is what the buffer holds from there to
    the next NUL when the pointer is read ([cstr_at]). *)

From S2P Require Import Prelude CLib.

(** ** include/http_config.h *)

Definition HTTP_MAX_CONNECTIONS : nat := 100.
Definition HTTP_REQUEST_BUFFER_SIZE : Z := 8192.
Definition HTTP_RESPONSE_BUFFER_SIZE : Z := 8192.
Definition HTTP_URI_MAX_LENGTH : Z := 2048.
Definition HTTP_HEADER_MAX_COUNT : nat := 32.
Definition HTTP_SENDFILE_CHUNK_SIZE : Z := 512 * 1024.
Definition HTTP_CSRF_TOKEN_LENGTH : nat := 32.
Definition HTTP_UPLOAD_CHUNK_SIZE : Z := 512 * 1024.
Definition HTTP_UPLOAD_RCVBUF_SIZE : Z := 2 * 1024 * 1024.
Definition HTTP_DOWNLOAD_PREAD_CHUNK : Z := 2 * 1024 * 1024.

(** ** include/http_parser.h *)

Inductive http_method_t :=
| HTTP_METHOD_GET | HTTP_METHOD_POST | HTTP_METHOD_HEAD | HTTP_METHOD_UNKNOWN.

#[global] Instance http_method_eq_dec : EqDecision http_method_t.
Proof. solve_decision. Defined.

(** Offsets of the name and of the value. *)
Record http_header_t := Header { h_name : nat; h_value : nat }.

(** [uri] is the C string in the [uri] array; [num_headers] is the length of
    [headers]; [body] is an offset. *)
Record http_request_t := Request {
  method : http_method_t;
  uri : bytes;
  version_major : Z;
  version_minor : Z;
  headers : list http_header_t;
  body : option nat;
  body_length : Z
}.

(** [memset(request, 0, sizeof)]; the zero of the enumeration is GET. *)
Definition request_zero : http_request_t := Request HTTP_METHOD_GET [] 0 0 [] None 0.

(** ** Helpers *)

(** The C string at offset [p]. *)
Definition cstr_at (buf : bytes) (p : nat) : bytes := cstr_of (drop p buf).

(** [*p = c] *)
Definition poke (p : nat) (c : Z) (buf : bytes) : bytes := <[p := c]> buf.

(** The bytes of [[p, e)]. *)
Definition span (buf : bytes) (p e : nat) : bytes := take (e - p) (drop p buf).

Definition find_char (buf : bytes) (p e : nat) (c : Z) : option nat :=
  Nat.add p <$> strchr (span buf p e) c.

Fixpoint crlf_in (s : bytes) : option nat :=
  match s with
  | [] => None
  | x :: s' => match s' with
               | y :: _ => if (x =? CR) && (y =? LF) then Some 0%nat else S <$> crlf_in s'
               | [] => None
               end
  end.

Definition find_crlf (buf : bytes) (p e : nat) : option nat := Nat.add p <$> crlf_in (span buf p e).

(** An optional sign. *)
Definition strip_sign (s : bytes) : bool * bytes :=
  match s with
  | c :: t => if c =? 45 then (true, t) else if c =? 43 then (false, t) else (false, s)
  | [] => (false, s)
  end.

(** [%d] of [sscanf]: [strtol] saturates and the result is truncated to
    [int]. *)
Definition scan_d (s : bytes) : option (Z * bytes) :=
  let '(neg, s2) := strip_sign (drop_while isspace s) in
  match take_while isdigit s2 with
  | [] => None
  | ds =>
      let v := u32 (clamp_ll (if (neg : bool) then - dec_value ds else dec_value ds)) in
      Some (if v <? 2 ^ 31 then v else v - 2 ^ 32, drop_while isdigit s2)
  end.

(** [sscanf(s, "HTTP/%d.%d", &major, &minor)], when it returns 2. *)
Definition scan_version (s : bytes) : option (Z * Z) :=
  if strneq s (str "HTTP/") 5 then
    match scan_d (drop 5 s) with
    | Some (major, 46 :: rest) =>
        match scan_d rest with Some (minor, _) => Some (major, minor) | None => None end
    | _ => None
    end
  else None.

(** ** The request line *)

Definition method_of (s : bytes) : http_method_t :=
  if streq s (str "GET") then HTTP_METHOD_GET
  else if streq s (str "POST") then HTTP_METHOD_POST
  else if streq s (str "HEAD") then HTTP_METHOD_HEAD
  else HTTP_METHOD_UNKNOWN.

(** From the URI on: result code, buffer and request; the line ends at [e]. *)
Definition parse_target (buf : bytes) (uri_start e : nat) (r : http_request_t) :
    Z * bytes * http_request_t :=
  if (e <=? uri_start)%nat then (-1, buf, r)
  else
    match find_char buf uri_start e SPACE with
    | None => (-1, buf, r)
    | Some sp2 =>
        let buf := poke sp2 0 buf in
        let uri_len := Z.of_nat (sp2 - uri_start) in
        let uri_len := if HTTP_URI_MAX_LENGTH <=? uri_len then HTTP_URI_MAX_LENGTH - 1
                       else uri_len in
        let r := Request (method r) (cstr_of (take (Z.to_nat uri_len) (drop uri_start buf)))
                   (version_major r) (version_minor r) (headers r) (body r) (body_length r) in
        let ver_start := S sp2 in
        if (e <=? ver_start)%nat then (-1, buf, r)
        else
          match scan_version (cstr_at buf ver_start) with
          | None => (-1, buf, r)
          | Some (major, minor) =>
              (0, buf, Request (method r) (uri r) major minor (headers r) (body r) (body_length r))
          end
    end.

Definition parse_request_line (buf : bytes) (line e : nat) (r : http_request_t) :
    Z * bytes * http_request_t :=
  match find_char buf line e SPACE with
  | None => (-1, buf, r)
  | Some sp1 =>
      let buf := poke sp1 0 buf in
      parse_target buf (S sp1) e
        (Request (method_of (cstr_at buf line)) (uri r) (version_major r) (version_minor r)
           (headers r) (body r) (body_length r))
  end.

(** ** Headers *)

(** Offset of the first byte at or after [p] that is neither a space nor a tab. *)
Definition skip_ows (buf : bytes) (p : nat) : nat :=
  (p + length (take_while (fun c => (c =? 32) || (c =? 9))%Z (drop p buf)))%nat.

Definition parse_header_line (buf : bytes) (line : nat) (r : http_request_t) :
    bytes * http_request_t :=
  if (HTTP_HEADER_MAX_COUNT <=? length (headers r))%nat then (buf, r)
  else
    match strchr (cstr_at buf line) COLON with
    | None => (buf, r)
    | Some i =>
        let colon := (line + i)%nat in
        let buf := poke colon 0 buf in
        (buf, Request (method r) (uri r) (version_major r) (version_minor r)
                (headers r ++ [Header line (skip_ows buf (S colon))]) (body r) (body_length r))
    end.

(** The header loop; every line takes at least two bytes, so the length of
    the buffer bounds the number of turns. *)
Fixpoint parse_headers (fuel : nat) (buf : bytes) (line e : nat) (r : http_request_t) :
    bytes * http_request_t :=
  match fuel with
  | O => (buf, r)
  | S fuel' =>
      if (e <=? line)%nat then (buf, r)
      else
        match find_crlf buf line e with
        | None => (buf, r)
        | Some crlf =>
            let buf := poke crlf 0 buf in
            if nth line buf 0 =? 0 then
              let body_start := (crlf + 2)%nat in
              if (body_start <? e)%nat
              then (buf, Request (method r) (uri r) (version_major r) (version_minor r) (headers r)
                           (Some body_start) (Z.of_nat (e - body_start)))
              else (buf, r)
            else
              let '(buf, r) := parse_header_line buf line r in
              parse_headers fuel' buf (crlf + 2)%nat e r
        end
  end.

(** [buffer] holds the array, of which [length] bytes are valid. *)
Definition http_parse_request (buffer : option bytes) (length : nat) :
    Z * bytes * http_request_t :=
  match buffer with
  | None => (-1, [], request_zero)
  | Some buf =>
      if (length =? 0)%nat then (-1, buf, request_zero)
      else
        match find_crlf buf 0 length with
        | None => (-2, buf, request_zero)
        | Some crlf =>
            let buf := poke crlf 0 buf in
            let '(rc, buf, r) := parse_request_line buf 0 crlf request_zero in
            if negb (rc =? 0) then (-1, buf, r)
            else
              let '(buf, r) := parse_headers length buf (crlf + 2)%nat length r in
              (0, buf, r)
        end
  end.

(** The value of the first header with that name, case-insensitively. *)
Definition http_get_header (buf : bytes) (r : http_request_t) (name : bytes) : option bytes :=
  (fun h => cstr_at buf (h_value h)) <$>
    find (fun h => strcaseeq (cstr_at buf (h_name h)) name) (headers r).

(** ** Round trip *)

(** The text of a request: method, target, version, headers with the blanks
    before their value, body. *)
Record request_text := RequestText {
  t_method : bytes;
  t_uri : bytes;
  t_major : Z;
  t_minor : Z;
  t_headers : list (bytes * bytes * bytes);
  t_body : bytes
}.

Definition CRLF : bytes := [CR; LF].

Definition render_header (h : bytes * bytes * bytes) : bytes :=
  let '(name, ows, value) := h in name ++ COLON :: ows ++ value.

Definition render_headers (hs : list (bytes * bytes * bytes)) : bytes :=
  concat (map (fun h => render_header h ++ CRLF) hs).

Definition render_line (t : request_text) : bytes :=
  t_method t ++ SPACE :: t_uri t ++ SPACE :: str "HTTP/" ++ fmt_u (t_major t) ++ DOT :: fmt_u (t_minor t).

Definition render_request (t : request_text) : bytes :=
  render_line t ++ CRLF ++ render_headers (t_headers t) ++ CRLF ++ t_body t.

Definition blank (c : Z) : bool := (c =? 32) || (c =? 9).

(** A string without NUL, CR and the character [sep]. *)
Definition token (sep : Z) (s : bytes) : Prop := Forall (fun c => c <> 0 /\ c <> CR /\ c <> sep) s.

Definition header_ok (h : bytes * bytes * bytes) : Prop :=
  let '(name, ows, value) := h in
  token COLON name /\ Forall (fun c => blank c = true) ows /\ token 0 value /\
  match value with [] => True | c :: _ => blank c = false end.

Definition text_ok (t : request_text) : Prop :=
  token SPACE (t_method t) /\ token SPACE (t_uri t) /\ strlen (t_uri t) < HTTP_URI_MAX_LENGTH /\
  0 <= t_major t < 2 ^ 31 /\ 0 <= t_minor t < 2 ^ 31 /\
  Forall header_ok (t_headers t) /\ (length (t_headers t) <= HTTP_HEADER_MAX_COUNT)%nat.

(** The headers as strings. *)
Definition header_strings (buf : bytes) (r : http_request_t) : list (bytes * bytes) :=
  map (fun h => (cstr_at buf (h_name h), cstr_at buf (h_value h))) (headers r).

(** The body as bytes. *)
Definition body_bytes (buf : bytes) (r : http_request_t) : bytes :=
  match body r with Some p => take (Z.to_nat (body_length r)) (drop p buf) | None => [] end.

(** *** Searching *)

Lemma span_app pre s t : span (pre ++ s ++ t) (length pre) (length pre + length s) = s.
Proof.
  unfold span. rewrite drop_app_length, Nat.add_comm, Nat.add_sub. apply take_app_length.
Qed.

Lemma crlf_in_cons x y s :
  crlf_in (x :: y :: s) = if (x =? CR) && (y =? LF) then Some 0%nat else S <$> crlf_in (y :: s).
Proof. done. Qed.

Lemma crlf_in_app s t : CR ∉ s -> crlf_in (s ++ CR :: LF :: t) = Some (length s).
Proof.
  induction s as [|x s IH]; intros Hs; [done|].
  assert (x <> CR) as Hx by set_solver. assert (CR ∉ s) as Hs' by set_solver.
  specialize (IH Hs'). apply Z.eqb_neq in Hx. rewrite <- app_comm_cons.
  destruct (s ++ CR :: LF :: t) eqn:E; [by destruct s|]. by rewrite crlf_in_cons, Hx, IH.
Qed.

Lemma find_crlf_app pre s t k :
  CR ∉ s ->
  find_crlf (pre ++ (s ++ CR :: LF :: t) ++ k) (length pre) (length pre + length (s ++ CR :: LF :: t))
    = Some (length pre + length s)%nat.
Proof. intros Hs. unfold find_crlf. by rewrite span_app, crlf_in_app. Qed.

Lemma find_char_app pre s c t k :
  c ∉ s ->
  find_char (pre ++ (s ++ c :: t) ++ k) (length pre) (length pre + length (s ++ c :: t)) c
    = Some (length pre + length s)%nat.
Proof. intros Hs. unfold find_char. by rewrite span_app, strchr_app_l. Qed.

Lemma cstr_at_app pre s t : no_nul s -> cstr_at (pre ++ s ++ 0 :: t) (length pre) = s.
Proof. intros Hs. unfold cstr_at. rewrite drop_app_length. by apply cstr_of_nul. Qed.

Lemma poke_app pre s x t c :
  poke (length pre + length s) c (pre ++ s ++ x :: t) = pre ++ s ++ c :: t.
Proof. unfold poke. rewrite <- length_app, !(app_assoc pre s). apply insert_middle. Qed.

Lemma token_no_nul sep s : token sep s -> no_nul s.
Proof. intros Hs. eapply Forall_impl; [exact Hs|]. by intros c (? & _). Qed.

Lemma token_not_in sep s : token sep s -> (CR ∉ s) /\ (sep ∉ s).
Proof.
  intros Hs. split; (intros Hin); unfold token in Hs; rewrite Forall_forall in Hs;
    by destruct (Hs _ Hin) as (_ & ? & ?).
Qed.

Lemma blanks_no_nul s : Forall (fun c => blank c = true) s -> no_nul s.
Proof. intros Hs. eapply Forall_impl; [exact Hs|]. by intros c Hc ->. Qed.

Lemma blanks_no_cr s : Forall (fun c => blank c = true) s -> CR ∉ s.
Proof. rewrite Forall_forall. intros Hs Hin. by specialize (Hs _ Hin). Qed.

(** *** Headers *)

(** What the parser leaves in the buffer for a header line, and the offsets
    it records. *)
Definition marked_header (h : bytes * bytes * bytes) : bytes :=
  let '(name, ows, value) := h in name ++ 0 :: ows ++ value ++ [0; LF].

Definition marked_headers (hs : list (bytes * bytes * bytes)) : bytes :=
  concat (map marked_header hs).

Fixpoint offsets (p : nat) (hs : list (bytes * bytes * bytes)) : list http_header_t :=
  match hs with
  | [] => []
  | (name, ows, value) as h :: hs' =>
      Header p (p + length name + 1 + length ows) :: offsets (p + length (marked_header h)) hs'
  end.

Lemma length_marked h : length (marked_header h) = (length (render_header h) + 2)%nat.
Proof. destruct h as [[n o] v]. simpl. rewrite !length_app; simpl. rewrite !length_app; simpl. lia. Qed.

Lemma render_header_ok h :
  header_ok h -> no_nul (render_header h) /\ CR ∉ render_header h.
Proof.
  destruct h as [[n o] v]. intros (Hn & Ho & Hv & _). simpl. split.
  - apply no_nul_app. split; [by eapply token_no_nul|]. constructor; [done|].
    apply no_nul_app. split; [by apply blanks_no_nul | by eapply token_no_nul].
  - apply token_not_in in Hn as [Hn _], Hv as [Hv _]. apply blanks_no_cr in Ho.
    rewrite elem_of_app, elem_of_cons, elem_of_app. intros [?|[[=]|[?|?]]]; done.
Qed.

Lemma skip_ows_app pre ows value t :
  Forall (fun c => blank c = true) ows ->
  match value with [] => True | c :: _ => blank c = false end ->
  skip_ows (pre ++ ows ++ value ++ 0 :: t) (length pre) = (length pre + length ows)%nat.
Proof.
  intros Ho Hv. unfold skip_ows. rewrite drop_app_length. f_equal. f_equal.
  destruct value as [|c value]; simpl; by apply take_while_app_stop.
Qed.

(** One header line. *)
Lemma parse_header_line_app pre h t r :
  header_ok h -> (length (headers r) < HTTP_HEADER_MAX_COUNT)%nat ->
  parse_header_line (pre ++ render_header h ++ 0 :: t) (length pre) r =
    let '(name, ows, value) := h in
    (pre ++ name ++ 0 :: ows ++ value ++ 0 :: t,
     Request (method r) (uri r) (version_major r) (version_minor r)
       (headers r ++ [Header (length pre) (length pre + length name + 1 + length ows)])
       (body r) (body_length r)).
Proof.
  intros Hh Hr. pose proof (render_header_ok h Hh) as [Hnul _].
  unfold parse_header_line. destruct (Nat.leb_spec HTTP_HEADER_MAX_COUNT (length (headers r))); [lia|].
  rewrite cstr_at_app by done. destruct h as [[n o] v]. destruct Hh as (Hn & Ho & _ & Hv).
  simpl render_header. rewrite strchr_app_l by (by apply (token_not_in COLON)).
  rewrite <- (app_assoc n). rewrite <- app_comm_cons, <- app_assoc, poke_app.
  f_equal. do 4 f_equal.
  assert (E : forall X, pre ++ n ++ 0 :: X = (pre ++ n ++ [0]) ++ X) by (intros; by rewrite <- !app_assoc).
  rewrite E. replace (S (length pre + length n)) with (length (pre ++ n ++ [0]))
    by (rewrite !length_app; simpl; lia).
  rewrite skip_ows_app by done. rewrite !length_app. simpl. lia.
Qed.

(** The request once the headers [hs] at offset [p] and the body are read. *)
Definition with_rest (p : nat) (hs : list (bytes * bytes * bytes)) (b : bytes) (r : http_request_t) :
    http_request_t :=
  let q := (p + length (render_headers hs) + 2)%nat in
  match b with
  | [] => Request (method r) (uri r) (version_major r) (version_minor r)
            (headers r ++ offsets p hs) (body r) (body_length r)
  | _ => Request (method r) (uri r) (version_major r) (version_minor r)
           (headers r ++ offsets p hs) (Some q) (strlen b)
  end.

Lemma parse_headers_end fuel pre b k r :
  parse_headers (S fuel) (pre ++ (CRLF ++ b) ++ k) (length pre) (length pre + length (CRLF ++ b)) r
    = (pre ++ [0; LF] ++ b ++ k, with_rest (length pre) [] b r).
Proof.
  change (CRLF ++ b) with ([] ++ CR :: LF :: b). cbn [parse_headers].
  destruct (Nat.leb_spec (length pre + length ([] ++ CR :: LF :: b)) (length pre)) as [Hc|_];
    [simpl in Hc; lia|].
  rewrite find_crlf_app by set_solver. rewrite <- app_assoc, <- app_comm_cons, poke_app.
  rewrite app_nth2, Nat.sub_diag by lia. simpl. unfold with_rest. simpl. rewrite app_nil_r.
  destruct b as [|c b]; simpl.
  - rewrite (proj2 (Nat.ltb_ge _ _)) by lia. by destruct r.
  - rewrite (proj2 (Nat.ltb_lt _ _)) by lia. do 3 f_equal; unfold strlen; simpl; lia.
Qed.

Lemma render_headers_cons h hs : render_headers (h :: hs) = (render_header h ++ CRLF) ++ render_headers hs.
Proof. done. Qed.

Lemma first_not_nul h pre t : header_ok h -> nth (length pre) (pre ++ render_header h ++ t) 0 <> 0.
Proof.
  intros Hh. rewrite app_nth2, Nat.sub_diag by lia. destruct h as [[[|c n] o] v]; [done|].
  destruct Hh as (Hn & _). by apply Forall_cons_1 in Hn as [(? & _) _].
Qed.

Lemma parse_headers_app hs : forall fuel pre b k r,
  Forall header_ok hs -> (length (headers r) + length hs <= HTTP_HEADER_MAX_COUNT)%nat ->
  (length hs < fuel)%nat ->
  parse_headers fuel (pre ++ (render_headers hs ++ CRLF ++ b) ++ k) (length pre)
    (length pre + length (render_headers hs ++ CRLF ++ b)) r
    = (pre ++ marked_headers hs ++ [0; LF] ++ b ++ k, with_rest (length pre) hs b r).
Proof.
  induction hs as [|h hs IH]; intros fuel pre b k r Hok Hlen Hf; (destruct fuel as [|fuel]; [simpl in Hf; lia|]).
  { apply parse_headers_end. }
  apply Forall_cons_1 in Hok as [Hh Hok]. pose proof (render_header_ok h Hh) as [_ Hcr].
  set (tl := render_headers hs ++ CRLF ++ b).
  assert (E : render_headers (h :: hs) ++ CRLF ++ b = render_header h ++ CR :: LF :: tl)
    by (rewrite render_headers_cons, <- !app_assoc; done).
  rewrite E. cbn [parse_headers].
  destruct (Nat.leb_spec (length pre + length (render_header h ++ CR :: LF :: tl)) (length pre)) as [Hc|_];
    [rewrite length_app in Hc; simpl in Hc; lia|].
  rewrite find_crlf_app by done. rewrite <- app_assoc, <- app_comm_cons, poke_app.
  destruct (Z.eqb_spec (nth (length pre) (pre ++ render_header h ++ 0 :: (LF :: tl) ++ k) 0) 0) as [Hz|_];
    [by apply first_not_nul in Hz|].
  rewrite parse_header_line_app; [|done|simpl in Hlen; lia].
  pose proof (length_marked h) as Hm. destruct h as [[n o] v] eqn:Eh. rewrite <- Eh in *.
  set (pre' := pre ++ marked_header h).
  assert (Eb : pre ++ n ++ 0 :: o ++ v ++ 0 :: (LF :: tl) ++ k = pre' ++ tl ++ k)
    by (unfold pre'; rewrite Eh; simpl; rewrite <- !app_assoc; simpl; rewrite <- !app_assoc; done).
  rewrite Eb. replace (length pre + length (render_header h) + 2)%nat with (length pre')
    by (unfold pre'; rewrite length_app, Hm; lia).
  replace (length pre + length (render_header h ++ CR :: LF :: tl))%nat with (length pre' + length tl)%nat
    by (unfold pre'; rewrite !length_app, Hm; simpl; lia).
  unfold tl. rewrite IH; [|done|simpl in *; rewrite length_app; simpl; lia|simpl in *; lia].
  f_equal; [unfold pre', marked_headers; simpl; by rewrite <- !app_assoc|].
  assert (Eo : offsets (length pre) (h :: hs) =
     Header (length pre) (length pre + length n + 1 + length o) :: offsets (length pre') hs)
    by (unfold pre'; rewrite Eh, length_app; done).
  assert (El : (length pre' + length (render_headers hs) + 2 = length pre + length (render_headers (h :: hs)) + 2)%nat)
    by (unfold pre'; rewrite render_headers_cons, !length_app, Hm; simpl; lia).
  unfold with_rest. rewrite Eo, El. destruct b; simpl; by rewrite <- app_assoc.
Qed.

(** *** The request line *)

Lemma scan_d_fmt z t :
  0 <= z < 2 ^ 31 -> match t with [] => True | c :: _ => isdigit c = false end ->
  scan_d (fmt_u z ++ t) = Some (z, t).
Proof.
  intros Hz Ht. destruct (fmt_u_dec z) as (Hne & Hd & Hv); [lia|].
  assert (Htw : take_while isdigit (fmt_u z ++ t) = fmt_u z /\ drop_while isdigit (fmt_u z ++ t) = t).
  { destruct t as [|c t]; [rewrite app_nil_r; by rewrite take_while_all, drop_while_all|].
    split; [by apply take_while_app_stop | by apply drop_while_app_stop]. }
  destruct Htw as [Htw Hdw]. unfold scan_d. destruct (fmt_u z) as [|c ds] eqn:E; [done|].
  apply Forall_cons_1 in Hd as [Hc Hd]. apply isdigit_range in Hc.
  assert (isspace c = false) as Hsp.
  { unfold isspace. rewrite orb_false_iff, andb_false_iff, Z.eqb_neq, !Z.leb_gt. lia. }
  rewrite <- app_comm_cons. cbn [drop_while]. rewrite Hsp, app_comm_cons.
  assert (Hm : strip_sign ((c :: ds) ++ t) = (false, (c :: ds) ++ t)).
  { simpl. destruct (Z.eqb_spec c 45); [lia|]. destruct (Z.eqb_spec c 43); [lia|]. done. }
  rewrite Hm, Htw, Hdw, Hv.
  unfold clamp_ll, LLONG_MIN, LLONG_MAX, u32. rewrite Z.min_r, Z.max_r by lia.
  rewrite Z.mod_small by lia. destruct (Z.ltb_spec z (2 ^ 31)); [done|lia].
Qed.

Lemma scan_version_fmt major minor :
  0 <= major < 2 ^ 31 -> 0 <= minor < 2 ^ 31 ->
  scan_version (str "HTTP/" ++ fmt_u major ++ DOT :: fmt_u minor) = Some (major, minor).
Proof.
  intros Ha Hi. unfold scan_version.
  replace (strneq _ _ _) with true
    by (symmetry; apply (strneq_prefix _ (str "HTTP/")); [by_compute | by eexists]).
  change (drop 5 (str "HTTP/" ++ ?X)) with X. rewrite scan_d_fmt by done.
  rewrite <- (app_nil_r (fmt_u minor)). by rewrite scan_d_fmt.
Qed.

Definition render_version (t : request_text) : bytes :=
  str "HTTP/" ++ fmt_u (t_major t) ++ DOT :: fmt_u (t_minor t).

Lemma digits_no c z : ~ 48 <= c <= 57 -> 0 <= z -> c ∉ fmt_u z.
Proof.
  intros Hc Hz Hin. destruct (fmt_u_dec z Hz) as (_ & Hd & _). rewrite Forall_forall in Hd.
  by apply Hc, isdigit_range, Hd.
Qed.

Lemma render_version_no t c :
  0 <= t_major t -> 0 <= t_minor t -> (c ∉ str "HTTP/.0123456789") -> c ∉ render_version t.
Proof.
  intros Ha Hi Hc. unfold render_version.
  assert (~ 48 <= c <= 57) as Hr.
  { intros Hr. apply Hc. assert (c = 48 \/ c = 49 \/ c = 50 \/ c = 51 \/ c = 52 \/ c = 53 \/ c = 54
      \/ c = 55 \/ c = 56 \/ c = 57) as Hs by lia. clear Hr Hc. repeat destruct Hs as [->|Hs]; subst; by_compute. }
  rewrite !elem_of_app, elem_of_cons. intros [Hin|[Hin|[Hin|Hin]]].
  - apply Hc. change (str "HTTP/.0123456789") with (str "HTTP/" ++ str ".0123456789").
    apply elem_of_app. by left.
  - by apply digits_no in Hin.
  - subst. apply Hc. by_compute.
  - by apply digits_no in Hin.
Qed.

Lemma render_version_no_nul t : 0 <= t_major t -> 0 <= t_minor t -> no_nul (render_version t).
Proof.
  intros Ha Hi. apply Forall_forall. intros c Hc ->. revert Hc. apply render_version_no; [done..|by_compute].
Qed.

Lemma cstr_of_all s : no_nul s -> cstr_of s = s.
Proof.
  intros Hs. apply take_while_all. eapply Forall_impl; [exact Hs|]. intros c Hc. simpl.
  by apply negb_true_iff, Z.eqb_neq.
Qed.

(** Associate concatenations to the right. *)
Ltac apps := repeat (rewrite <- app_assoc || rewrite <- app_comm_cons).

Ltac lens := repeat (rewrite length_app || cbn [length]); lia.

Lemma parse_target_app pre t k r :
  text_ok t ->
  parse_target (pre ++ (t_uri t ++ SPACE :: render_version t) ++ 0 :: k) (length pre)
    (length pre + length (t_uri t ++ SPACE :: render_version t)) r =
    (0, pre ++ t_uri t ++ 0 :: render_version t ++ 0 :: k,
     Request (method r) (t_uri t) (t_major t) (t_minor t) (headers r) (body r) (body_length r)).
Proof.
  intros (_ & Hu & Hul & Ha & Hi & _). pose proof (render_version_no_nul t ltac:(lia) ltac:(lia)) as Hv.
  assert (Hsc : scan_version (render_version t) = Some (t_major t, t_minor t))
    by (apply scan_version_fmt; lia).
  assert (Hl : (0 < length (render_version t))%nat) by (unfold render_version; rewrite length_app; simpl; lia).
  set (v := render_version t) in *. clearbody v. unfold parse_target.
  destruct (Nat.leb_spec (length pre + length (t_uri t ++ SPACE :: v)) (length pre)) as [Hc|_];
    [rewrite length_app in Hc; simpl in Hc; lia|].
  rewrite find_char_app by (by apply (token_not_in SPACE)).
  rewrite <- (app_assoc (t_uri t)), <- app_comm_cons, poke_app.
  rewrite (Nat.add_comm (length pre) (length (t_uri t))), Nat.add_sub.
  destruct (Z.leb_spec HTTP_URI_MAX_LENGTH (Z.of_nat (length (t_uri t)))); [unfold strlen in Hul; lia|].
  rewrite Nat2Z.id, drop_app_length, take_app_length, cstr_of_all by (by eapply token_no_nul).
  destruct (Nat.leb_spec (length pre + length (t_uri t ++ SPACE :: v)) (S (length (t_uri t) + length pre)))
    as [Hc|_]; [rewrite length_app in Hc; simpl in Hc; lia|].
  assert (Ev : pre ++ t_uri t ++ 0 :: v ++ 0 :: k = (pre ++ t_uri t ++ [0]) ++ v ++ 0 :: k)
    by (by rewrite <- !app_assoc).
  rewrite Ev. replace (S (length (t_uri t) + length pre)) with (length (pre ++ t_uri t ++ [0])) by lens.
  by rewrite cstr_at_app, Hsc by done.
Qed.

Lemma parse_request_line_app t k :
  text_ok t ->
  parse_request_line (render_line t ++ 0 :: k) 0 (length (render_line t)) request_zero =
    (0, t_method t ++ 0 :: t_uri t ++ 0 :: render_version t ++ 0 :: k,
     Request (method_of (t_method t)) (t_uri t) (t_major t) (t_minor t) [] None 0).
Proof.
  intros Ht. pose proof Ht as (Hm & _). pose proof (parse_target_app (t_method t ++ [0]) t k) as Hpt.
  unfold parse_request_line. change (render_line t) with (t_method t ++ SPACE :: t_uri t ++ SPACE :: render_version t).
  set (v := t_uri t ++ SPACE :: render_version t) in *.
  pose proof (find_char_app [] (t_method t) SPACE v (0 :: k)) as Hf.
  cbn [length app Nat.add] in Hf. rewrite Hf by (by apply (token_not_in SPACE)). clear Hf.
  pose proof (poke_app [] (t_method t) SPACE (v ++ 0 :: k) 0) as Hp.
  cbn [length app Nat.add] in Hp. rewrite <- (app_assoc (t_method t)), <- app_comm_cons, Hp. clear Hp.
  pose proof (cstr_at_app [] (t_method t) (v ++ 0 :: k)) as Hc.
  cbn [length app] in Hc. rewrite Hc by (by eapply token_no_nul). clear Hc.
  assert (Ep : forall X, t_method t ++ 0 :: X = (t_method t ++ [0]) ++ X) by (intros; by rewrite <- app_assoc).
  rewrite Ep. replace (S (length (t_method t))) with (length (t_method t ++ [0])) by lens.
  replace (length (t_method t ++ SPACE :: v)) with (length (t_method t ++ [0%Z]) + length v)%nat by lens.
  rewrite Hpt by done. by rewrite <- (app_assoc (t_method t)).
Qed.

(** *** The whole request *)

Lemma header_strings_app hs : forall pre k,
  Forall header_ok hs ->
  map (fun h => (cstr_at (pre ++ marked_headers hs ++ k) (h_name h),
                 cstr_at (pre ++ marked_headers hs ++ k) (h_value h))) (offsets (length pre) hs)
    = map (fun h => (h.1.1, h.2)) hs.
Proof.
  induction hs as [|[[n o] v] hs IH]; intros pre k Hok; [done|].
  apply Forall_cons_1 in Hok as [(Hn & Ho & Hv & _) Hok].
  set (h := (n, o, v)).
  change (offsets (length pre) (h :: hs)) with (Header (length pre) (length pre + length n + 1 + length o)
    :: offsets (length pre + length (marked_header h)) hs). cbn [map].
  assert (E : pre ++ marked_headers (h :: hs) ++ k = (pre ++ marked_header h) ++ marked_headers hs ++ k)
    by (unfold marked_headers; simpl; by rewrite <- !app_assoc).
  f_equal.
  - assert (E1 : pre ++ marked_headers (h :: hs) ++ k = pre ++ n ++ 0 :: (o ++ v ++ [0; LF]) ++ marked_headers hs ++ k)
      by (rewrite E; unfold h, marked_header; by apps).
    cbn [h_name h_value]. apply pair_equal_spec. split; [rewrite E1; apply cstr_at_app; by eapply token_no_nul|].
    assert (E2 : pre ++ marked_headers (h :: hs) ++ k = (pre ++ n ++ [0] ++ o) ++ v ++ 0 :: LF :: marked_headers hs ++ k)
      by (rewrite E; unfold h, marked_header; by apps).
    rewrite E2. replace (length pre + length n + 1 + length o)%nat with (length (pre ++ n ++ [0] ++ o)) by lens.
    apply cstr_at_app. by eapply token_no_nul.
  - rewrite <- length_app, E. by apply IH.
Qed.

Lemma length_render_headers hs : (length hs <= length (render_headers hs))%nat.
Proof. induction hs as [|h hs IH]; [done|]. rewrite render_headers_cons. simpl. rewrite !length_app. simpl. lia. Qed.

(** The buffer after a successful parse of [render_request t]. *)
Definition parsed_buffer (t : request_text) (k : bytes) : bytes :=
  t_method t ++ 0 :: t_uri t ++ 0 :: render_version t ++ [0; LF]
    ++ marked_headers (t_headers t) ++ [0; LF] ++ t_body t ++ k.

Lemma parse_rendered t k :
  text_ok t ->
  http_parse_request (Some (render_request t ++ k)) (length (render_request t)) =
    (0, parsed_buffer t k,
     with_rest (length (render_line t) + 2) (t_headers t) (t_body t)
       (Request (method_of (t_method t)) (t_uri t) (t_major t) (t_minor t) [] None 0)).
Proof.
  intros Ht. pose proof Ht as (Hm & Hu & _ & Ha & Hi & Hh & Hlen).
  assert (Hcr : CR ∉ render_line t).
  { change (render_line t) with (t_method t ++ SPACE :: t_uri t ++ SPACE :: render_version t).
    apply token_not_in in Hm as [Hm _], Hu as [Hu _].
    rewrite !elem_of_app, elem_of_cons, elem_of_app, elem_of_cons.
    intros [?|[[=]|[?|[[=]|Hv]]]]; try done. revert Hv. apply render_version_no; [lia..|by_compute]. }
  set (tl := render_headers (t_headers t) ++ CRLF ++ t_body t).
  assert (Er : render_request t = render_line t ++ CR :: LF :: tl) by done.
  unfold http_parse_request. destruct (Nat.eqb_spec (length (render_request t)) 0) as [E|_];
    [rewrite Er, length_app in E; simpl in E; lia|].
  pose proof (find_crlf_app [] (render_line t) tl k Hcr) as Hf. cbn [length app Nat.add] in Hf.
  rewrite <- Er in Hf. rewrite Hf. clear Hf.
  rewrite Er, <- app_assoc, <- !app_comm_cons.
  pose proof (poke_app [] (render_line t) CR (LF :: tl ++ k) 0) as Hp. cbn [length app Nat.add] in Hp.
  rewrite Hp. clear Hp. rewrite parse_request_line_app by done. cbn [negb Z.eqb].
  set (pre := t_method t ++ 0 :: t_uri t ++ 0 :: render_version t ++ [0; LF]).
  assert (Ep : t_method t ++ 0 :: t_uri t ++ 0 :: render_version t ++ 0 :: LF :: tl ++ k = pre ++ tl ++ k)
    by (unfold pre; by apps).
  assert (El : length pre = (length (render_line t) + 2)%nat).
  { change (render_line t) with (t_method t ++ SPACE :: t_uri t ++ SPACE :: render_version t). unfold pre. lens. }
  rewrite Ep, <- El. replace (length (render_line t ++ CR :: LF :: tl)) with (length pre + length tl)%nat
    by (rewrite El; lens).
  unfold tl. rewrite parse_headers_app; [|done|done|pose proof (length_render_headers (t_headers t)); rewrite length_app; lia].
  f_equal. unfold parsed_buffer, pre. by apps.
Qed.

Lemma find_map_fmap {A B} (f : A -> B) (P : B -> bool) l : find P (map f l) = f <$> find (fun a => P (f a)) l.
Proof. induction l as [|a l IH]; simpl; [done|]. by destruct (P (f a)). Qed.

Lemma get_header_strings buf r name :
  http_get_header buf r name = snd <$> find (fun h => strcaseeq h.1 name) (header_strings buf r).
Proof.
  unfold http_get_header, header_strings. rewrite find_map_fmap, <- option_fmap_compose. done.
Qed.

Lemma headers_of_render t k :
  text_ok t ->
  let r := with_rest (length (render_line t) + 2) (t_headers t) (t_body t)
             (Request (method_of (t_method t)) (t_uri t) (t_major t) (t_minor t) [] None 0) in
  header_strings (parsed_buffer t k) r = map (fun h => (h.1.1, h.2)) (t_headers t) /\
  body_bytes (parsed_buffer t k) r = t_body t.
Proof.
  intros (_ & _ & _ & _ & _ & Hh & _). cbv zeta.
  set (pre := t_method t ++ 0 :: t_uri t ++ 0 :: render_version t ++ [0; LF]).
  set (hs := t_headers t) in *.
  assert (El : (length (render_line t) + 2)%nat = length pre).
  { change (render_line t) with (t_method t ++ SPACE :: t_uri t ++ SPACE :: render_version t). unfold pre. lens. }
  assert (Eb : parsed_buffer t k = pre ++ marked_headers hs ++ [0; LF] ++ t_body t ++ k)
    by (unfold parsed_buffer, pre, hs; by apps).
  rewrite El, Eb. split.
  - unfold header_strings, with_rest. destruct (t_body t); apply header_strings_app; done.
  - unfold body_bytes, with_rest. destruct (t_body t) as [|c b] eqn:E; [done|]. cbn [body body_length].
    assert (Hl : length (render_headers hs) = length (marked_headers hs)).
    { clear. induction hs as [|h hs IH]; [done|]. unfold marked_headers in *.
      rewrite render_headers_cons. cbn [map concat]. rewrite !length_app, IH, length_marked. simpl. lia. }
    rewrite Hl. replace (length pre + length (marked_headers hs) + 2)%nat
      with (length (pre ++ marked_headers hs ++ [0; LF])) by lens.
    assert (Ea : pre ++ marked_headers hs ++ [0; LF] ++ (c :: b) ++ k
       = (pre ++ marked_headers hs ++ [0; LF]) ++ (c :: b) ++ k) by (by rewrite <- !app_assoc).
    rewrite Ea, drop_app_length. unfold strlen. rewrite Nat2Z.id. apply take_app_length.
Qed.

(** C36: parsing inverts printing.  For every request whose method and target
    contain no space, whose header names contain no colon and which has at
    most HTTP_HEADER_MAX_COUNT headers, [http_parse_request] run on its text
    (whatever follows it in the buffer) succeeds and yields the method, the
    target, the version, all headers in order without the blanks before their
    values, and the body byte for byte; [http_get_header] then finds the
    first header of a name, ignoring case. *)
Theorem http_parse_roundtrip t k :
  text_ok t ->
  let out := http_parse_request (Some (render_request t ++ k)) (length (render_request t)) in
  let buf := out.1.2 in
  let r := out.2 in
  out.1.1 = 0 /\ method r = method_of (t_method t) /\ uri r = t_uri t /\
  version_major r = t_major t /\ version_minor r = t_minor t /\
  header_strings buf r = map (fun h => (h.1.1, h.2)) (t_headers t) /\
  body_bytes buf r = t_body t /\
  forall name, http_get_header buf r name =
    snd <$> find (fun h => strcaseeq h.1.1 name) (t_headers t).
Proof.
  intros Ht. cbv zeta. rewrite parse_rendered by done. destruct (headers_of_render t k Ht) as [Hh Hb].
  cbn [fst snd]. split; [done|].
  do 4 (split; [by unfold with_rest; destruct (t_body t)|]).
  split; [exact Hh|]. split; [exact Hb|]. intros name.
  rewrite get_header_strings, Hh, find_map_fmap. by destruct (find _ _).
Qed.

Definition sample_text : request_text :=
  RequestText (str "POST") (str "/api/mkdir?path=/a&name=b") 1 1
    [(str "Host", str " ", str "10.0.0.2:8888"); (str "x-csrf-token", [], str "00ff")] (str "a b").

Lemma http_parse_roundtrip_witness :
  let out := http_parse_request (Some (render_request sample_text ++ str "zz")) (length (render_request sample_text)) in
  out.1.1 = 0 /\ method out.2 = HTTP_METHOD_POST /\ http_get_header out.1.2 out.2 (str "X-CSRF-Token") = Some (str "00ff").
Proof.
  destruct (http_parse_roundtrip sample_text (str "zz")) as (H0 & Hm & _ & _ & _ & _ & _ & Hg).
  - unfold text_ok, token, header_ok, token. repeat split; try (vm_compute; lia); repeat constructor; try done.
  - cbv zeta. split; [exact H0|]. split; [exact Hm|]. by rewrite Hg.
Defined.
