(* ===== verification/HttpState.v ===== *)
(** * State of the HTTP server

    The static variables of [src/http_response.c], [src/http_csrf.c],
    [src/http_api.c] and [src/http_server.c] as one record, with the heap the
    handlers allocate bodies on.  The HTTP code runs in the single thread of
    the event loop, so one state and the order of the calls are enough; the
    copy thread it starts is a request to the system. *)

From S2P Require Import Prelude CLib Os HttpParser.

(** ** Memory

    A body pointer is a static object, the array [mem_inline] of the response
    itself (both by value), or an address in a heap block. *)
Inductive ptr :=
| PStatic (b : bytes)
| PHeap (block off : nat).

(** ** include/http_response.h *)

Inductive http_status_t :=
| HTTP_STATUS_200_OK | HTTP_STATUS_201_CREATED | HTTP_STATUS_204_NO_CONTENT
| HTTP_STATUS_301_MOVED | HTTP_STATUS_304_NOT_MODIFIED
| HTTP_STATUS_400_BAD_REQUEST | HTTP_STATUS_403_FORBIDDEN | HTTP_STATUS_404_NOT_FOUND
| HTTP_STATUS_405_METHOD_NOT_ALLOWED | HTTP_STATUS_409_CONFLICT
| HTTP_STATUS_500_INTERNAL_ERROR.

(** [data] is the first [used] bytes of the array. *)
Record http_response_t := Response {
  data : bytes;
  mem_body : option ptr;
  mem_length : Z;
  mem_sent : Z;
  mem_body_owned : Z;
  mem_segs : list (option ptr * Z);
  mem_seg_index : nat;
  mem_seg_sent : Z;
  sendfile_fd : Z;
  sendfile_offset : Z;
  sendfile_count : Z;
  sendfile_safe : Z;
  stream_dir : option Z;
  stream_path : bytes
}.

Definition set_data (v : bytes) (s : http_response_t) : http_response_t :=
  Response v (mem_body s) (mem_length s) (mem_sent s) (mem_body_owned s) (mem_segs s)
    (mem_seg_index s) (mem_seg_sent s) (sendfile_fd s) (sendfile_offset s) (sendfile_count
    s) (sendfile_safe s) (stream_dir s) (stream_path s).

Definition set_mem_body (v : option ptr) (s : http_response_t) : http_response_t :=
  Response (data s) v (mem_length s) (mem_sent s) (mem_body_owned s) (mem_segs s)
    (mem_seg_index s) (mem_seg_sent s) (sendfile_fd s) (sendfile_offset s) (sendfile_count
    s) (sendfile_safe s) (stream_dir s) (stream_path s).

Definition set_mem_length (v : Z) (s : http_response_t) : http_response_t :=
  Response (data s) (mem_body s) v (mem_sent s) (mem_body_owned s) (mem_segs s)
    (mem_seg_index s) (mem_seg_sent s) (sendfile_fd s) (sendfile_offset s) (sendfile_count
    s) (sendfile_safe s) (stream_dir s) (stream_path s).

Definition set_mem_sent (v : Z) (s : http_response_t) : http_response_t :=
  Response (data s) (mem_body s) (mem_length s) v (mem_body_owned s) (mem_segs s)
    (mem_seg_index s) (mem_seg_sent s) (sendfile_fd s) (sendfile_offset s) (sendfile_count
    s) (sendfile_safe s) (stream_dir s) (stream_path s).

Definition set_mem_body_owned (v : Z) (s : http_response_t) : http_response_t :=
  Response (data s) (mem_body s) (mem_length s) (mem_sent s) v (mem_segs s) (mem_seg_index
    s) (mem_seg_sent s) (sendfile_fd s) (sendfile_offset s) (sendfile_count s)
    (sendfile_safe s) (stream_dir s) (stream_path s).

Definition set_mem_segs (v : list (option ptr * Z)) (s : http_response_t) : http_response_t :=
  Response (data s) (mem_body s) (mem_length s) (mem_sent s) (mem_body_owned s) v
    (mem_seg_index s) (mem_seg_sent s) (sendfile_fd s) (sendfile_offset s) (sendfile_count
    s) (sendfile_safe s) (stream_dir s) (stream_path s).

Definition set_mem_seg_index (v : nat) (s : http_response_t) : http_response_t :=
  Response (data s) (mem_body s) (mem_length s) (mem_sent s) (mem_body_owned s) (mem_segs s)
    v (mem_seg_sent s) (sendfile_fd s) (sendfile_offset s) (sendfile_count s) (sendfile_safe
    s) (stream_dir s) (stream_path s).

Definition set_mem_seg_sent (v : Z) (s : http_response_t) : http_response_t :=
  Response (data s) (mem_body s) (mem_length s) (mem_sent s) (mem_body_owned s) (mem_segs s)
    (mem_seg_index s) v (sendfile_fd s) (sendfile_offset s) (sendfile_count s)
    (sendfile_safe s) (stream_dir s) (stream_path s).

Definition set_sendfile_fd (v : Z) (s : http_response_t) : http_response_t :=
  Response (data s) (mem_body s) (mem_length s) (mem_sent s) (mem_body_owned s) (mem_segs s)
    (mem_seg_index s) (mem_seg_sent s) v (sendfile_offset s) (sendfile_count s)
    (sendfile_safe s) (stream_dir s) (stream_path s).

Definition set_sendfile_offset (v : Z) (s : http_response_t) : http_response_t :=
  Response (data s) (mem_body s) (mem_length s) (mem_sent s) (mem_body_owned s) (mem_segs s)
    (mem_seg_index s) (mem_seg_sent s) (sendfile_fd s) v (sendfile_count s) (sendfile_safe
    s) (stream_dir s) (stream_path s).

Definition set_sendfile_count (v : Z) (s : http_response_t) : http_response_t :=
  Response (data s) (mem_body s) (mem_length s) (mem_sent s) (mem_body_owned s) (mem_segs s)
    (mem_seg_index s) (mem_seg_sent s) (sendfile_fd s) (sendfile_offset s) v (sendfile_safe
    s) (stream_dir s) (stream_path s).

Definition set_sendfile_safe (v : Z) (s : http_response_t) : http_response_t :=
  Response (data s) (mem_body s) (mem_length s) (mem_sent s) (mem_body_owned s) (mem_segs s)
    (mem_seg_index s) (mem_seg_sent s) (sendfile_fd s) (sendfile_offset s) (sendfile_count
    s) v (stream_dir s) (stream_path s).

Definition set_stream_dir (v : option Z) (s : http_response_t) : http_response_t :=
  Response (data s) (mem_body s) (mem_length s) (mem_sent s) (mem_body_owned s) (mem_segs s)
    (mem_seg_index s) (mem_seg_sent s) (sendfile_fd s) (sendfile_offset s) (sendfile_count
    s) (sendfile_safe s) v (stream_path s).

Definition set_stream_path (v : bytes) (s : http_response_t) : http_response_t :=
  Response (data s) (mem_body s) (mem_length s) (mem_sent s) (mem_body_owned s) (mem_segs s)
    (mem_seg_index s) (mem_seg_sent s) (sendfile_fd s) (sendfile_offset s) (sendfile_count
    s) (sendfile_safe s) (stream_dir s) v.

Definition used (r : http_response_t) : Z := strlen (data r).

(** [mem_seg_count] is 0 or 3; the segments in use. *)
Definition mem_seg_count (r : http_response_t) : nat := length (mem_segs r).

(** [memset(resp, 0, sizeof)] *)
Definition response_zero : http_response_t := Response [] None 0 0 0 [] 0 0 0 0 0 0 None [].

(** ** The copy started by [/api/copy] *)

Record copy_progress_t := CopyProgress {
  cp_bytes_copied : Z;
  cp_total_bytes : Z;
  cp_active : Z;
  cp_done : Z;
  cp_error : Z;
  cp_cancel : Z;
  cp_paused : Z;
  cp_error_code : Z;
  cp_error_errno : Z
}.

Definition set_cp_active (v : Z) (s : copy_progress_t) : copy_progress_t :=
  CopyProgress (cp_bytes_copied s) (cp_total_bytes s) v (cp_done s) (cp_error s) (cp_cancel
    s) (cp_paused s) (cp_error_code s) (cp_error_errno s).

Definition set_cp_cancel (v : Z) (s : copy_progress_t) : copy_progress_t :=
  CopyProgress (cp_bytes_copied s) (cp_total_bytes s) (cp_active s) (cp_done s) (cp_error s)
    v (cp_paused s) (cp_error_code s) (cp_error_errno s).

Definition set_cp_paused (v : Z) (s : copy_progress_t) : copy_progress_t :=
  CopyProgress (cp_bytes_copied s) (cp_total_bytes s) (cp_active s) (cp_done s) (cp_error s)
    (cp_cancel s) v (cp_error_code s) (cp_error_errno s).

(** ** Connections *)

(** [server] tells whether the pointer is non-NULL; [buffer] is the whole
    array of HTTP_REQUEST_BUFFER_SIZE bytes. *)
Record http_connection_t := Connection {
  conn_server : bool;
  conn_fd : Z;
  buffer : bytes;
  buffer_used : Z;
  upload_active : Z;
  upload_fd : Z;
  upload_remaining : Z;
  upload_chunk_buf : option nat
}.

Definition set_conn_server (v : bool) (s : http_connection_t) : http_connection_t :=
  Connection v (conn_fd s) (buffer s) (buffer_used s) (upload_active s) (upload_fd s)
    (upload_remaining s) (upload_chunk_buf s).

Definition set_conn_fd (v : Z) (s : http_connection_t) : http_connection_t :=
  Connection (conn_server s) v (buffer s) (buffer_used s) (upload_active s) (upload_fd s)
    (upload_remaining s) (upload_chunk_buf s).

Definition set_buffer (v : bytes) (s : http_connection_t) : http_connection_t :=
  Connection (conn_server s) (conn_fd s) v (buffer_used s) (upload_active s) (upload_fd s)
    (upload_remaining s) (upload_chunk_buf s).

Definition set_buffer_used (v : Z) (s : http_connection_t) : http_connection_t :=
  Connection (conn_server s) (conn_fd s) (buffer s) v (upload_active s) (upload_fd s)
    (upload_remaining s) (upload_chunk_buf s).

Definition set_upload_active (v : Z) (s : http_connection_t) : http_connection_t :=
  Connection (conn_server s) (conn_fd s) (buffer s) (buffer_used s) v (upload_fd s)
    (upload_remaining s) (upload_chunk_buf s).

Definition set_upload_fd (v : Z) (s : http_connection_t) : http_connection_t :=
  Connection (conn_server s) (conn_fd s) (buffer s) (buffer_used s) (upload_active s) v
    (upload_remaining s) (upload_chunk_buf s).

Definition set_upload_remaining (v : Z) (s : http_connection_t) : http_connection_t :=
  Connection (conn_server s) (conn_fd s) (buffer s) (buffer_used s) (upload_active s)
    (upload_fd s) v (upload_chunk_buf s).

Definition set_upload_chunk_buf (v : option nat) (s : http_connection_t) : http_connection_t :=
  Connection (conn_server s) (conn_fd s) (buffer s) (buffer_used s) (upload_active s)
    (upload_fd s) (upload_remaining s) v.

Definition connection_zero : http_connection_t :=
  Connection false 0 (replicate (Z.to_nat HTTP_REQUEST_BUFFER_SIZE) 0) 0 0 0 0 None.

(** ** Background jobs

    The tables of the download manager, of the archive extraction and of the
    title installation.  The speed of a download is left out: only the thread
    of the build with a transfer library sets it. *)

Record dl_entry_t := DlEntry {
  dl_active : Z;
  dl_done : Z;
  dl_paused : Z;
  dl_error : Z;
  dl_id : Z;
  dl_url : bytes;
  dl_dst_path : bytes;
  dl_filename : bytes;
  dl_error_msg : bytes;
  dl_total_size : Z;
  dl_downloaded : Z;
  dl_start_time : Z
}.

Definition dl_zero : dl_entry_t := DlEntry 0 0 0 0 0 [] [] [] [] 0 0 0.

Definition DL_MAX_ACTIVE : nat := 4.

Record extract_t := Extract {
  ex_active : Z;
  ex_done : Z;
  ex_cancelled : Z;
  ex_error : Z;
  ex_bytes_extracted : Z;
  ex_total_bytes : Z;
  ex_error_msg : bytes
}.

Record game_install_t := GameInstall {
  gi_active : Z;
  gi_task_id : Z;
  gi_title_id : bytes;
  gi_path : bytes;
  gi_last_percent : Z;
  gi_last_error : Z;
  gi_last_length : Z;
  gi_last_transferred : Z
}.

Record jobs_t := Jobs {
  g_downloads : list dl_entry_t;
  g_dl_next_id : Z;
  g_extract : extract_t;
  g_game_install_state : game_install_t
}.

Definition jobs_init : jobs_t :=
  Jobs (replicate DL_MAX_ACTIVE dl_zero) 1 (Extract 0 0 0 0 0 0 []) (GameInstall 0 0 [] [] 0 0 0 0).

(** ** All of it *)

Record http_state := HttpState {
  g_response_pool : list http_response_t;
  g_response_in_use : list Z;
  g_csrf_token : bytes;
  g_csrf_initialized : Z;
  g_http_root : bytes;
  g_copy_progress : copy_progress_t;
  g_http_connections : list http_connection_t;
  connection_count : Z;
  listen_fd : Z;
  g_http_server_in_use : Z;
  heap : gmap nat bytes;
  heap_fault : bool;
  g_jobs : jobs_t
}.

Definition set_g_response_pool (v : list http_response_t) (s : http_state) : http_state :=
  HttpState v (g_response_in_use s) (g_csrf_token s) (g_csrf_initialized s) (g_http_root s)
    (g_copy_progress s) (g_http_connections s) (connection_count s) (listen_fd s)
    (g_http_server_in_use s) (heap s) (heap_fault s) (g_jobs s).

Definition set_g_response_in_use (v : list Z) (s : http_state) : http_state :=
  HttpState (g_response_pool s) v (g_csrf_token s) (g_csrf_initialized s) (g_http_root s)
    (g_copy_progress s) (g_http_connections s) (connection_count s) (listen_fd s)
    (g_http_server_in_use s) (heap s) (heap_fault s) (g_jobs s).

Definition set_g_csrf_token (v : bytes) (s : http_state) : http_state :=
  HttpState (g_response_pool s) (g_response_in_use s) v (g_csrf_initialized s) (g_http_root
    s) (g_copy_progress s) (g_http_connections s) (connection_count s) (listen_fd s)
    (g_http_server_in_use s) (heap s) (heap_fault s) (g_jobs s).

Definition set_g_csrf_initialized (v : Z) (s : http_state) : http_state :=
  HttpState (g_response_pool s) (g_response_in_use s) (g_csrf_token s) v (g_http_root s)
    (g_copy_progress s) (g_http_connections s) (connection_count s) (listen_fd s)
    (g_http_server_in_use s) (heap s) (heap_fault s) (g_jobs s).

Definition set_g_http_root (v : bytes) (s : http_state) : http_state :=
  HttpState (g_response_pool s) (g_response_in_use s) (g_csrf_token s) (g_csrf_initialized
    s) v (g_copy_progress s) (g_http_connections s) (connection_count s) (listen_fd s)
    (g_http_server_in_use s) (heap s) (heap_fault s) (g_jobs s).

Definition set_g_copy_progress (v : copy_progress_t) (s : http_state) : http_state :=
  HttpState (g_response_pool s) (g_response_in_use s) (g_csrf_token s) (g_csrf_initialized
    s) (g_http_root s) v (g_http_connections s) (connection_count s) (listen_fd s)
    (g_http_server_in_use s) (heap s) (heap_fault s) (g_jobs s).

Definition set_g_http_connections (v : list http_connection_t) (s : http_state) : http_state :=
  HttpState (g_response_pool s) (g_response_in_use s) (g_csrf_token s) (g_csrf_initialized
    s) (g_http_root s) (g_copy_progress s) v (connection_count s) (listen_fd s)
    (g_http_server_in_use s) (heap s) (heap_fault s) (g_jobs s).

Definition set_connection_count (v : Z) (s : http_state) : http_state :=
  HttpState (g_response_pool s) (g_response_in_use s) (g_csrf_token s) (g_csrf_initialized
    s) (g_http_root s) (g_copy_progress s) (g_http_connections s) v (listen_fd s)
    (g_http_server_in_use s) (heap s) (heap_fault s) (g_jobs s).

Definition set_listen_fd (v : Z) (s : http_state) : http_state :=
  HttpState (g_response_pool s) (g_response_in_use s) (g_csrf_token s) (g_csrf_initialized
    s) (g_http_root s) (g_copy_progress s) (g_http_connections s) (connection_count s) v
    (g_http_server_in_use s) (heap s) (heap_fault s) (g_jobs s).

Definition set_g_http_server_in_use (v : Z) (s : http_state) : http_state :=
  HttpState (g_response_pool s) (g_response_in_use s) (g_csrf_token s) (g_csrf_initialized
    s) (g_http_root s) (g_copy_progress s) (g_http_connections s) (connection_count s)
    (listen_fd s) v (heap s) (heap_fault s) (g_jobs s).

Definition set_heap (v : gmap nat bytes) (s : http_state) : http_state :=
  HttpState (g_response_pool s) (g_response_in_use s) (g_csrf_token s) (g_csrf_initialized
    s) (g_http_root s) (g_copy_progress s) (g_http_connections s) (connection_count s)
    (listen_fd s) (g_http_server_in_use s) v (heap_fault s) (g_jobs s).

Definition set_heap_fault (v : bool) (s : http_state) : http_state :=
  HttpState (g_response_pool s) (g_response_in_use s) (g_csrf_token s) (g_csrf_initialized
    s) (g_http_root s) (g_copy_progress s) (g_http_connections s) (connection_count s)
    (listen_fd s) (g_http_server_in_use s) (heap s) v (g_jobs s).

Definition set_g_jobs (v : jobs_t) (s : http_state) : http_state :=
  HttpState (g_response_pool s) (g_response_in_use s) (g_csrf_token s) (g_csrf_initialized
    s) (g_http_root s) (g_copy_progress s) (g_http_connections s) (connection_count s)
    (listen_fd s) (g_http_server_in_use s) (heap s) (heap_fault s) v.

(** The state at program start. *)
Definition http_state_init : http_state :=
  HttpState (replicate HTTP_MAX_CONNECTIONS response_zero) (replicate HTTP_MAX_CONNECTIONS 0) [] 0 [SLASH]
    (CopyProgress 0 0 0 0 0 0 0 0 0) (replicate HTTP_MAX_CONNECTIONS connection_zero) 0 0 0 ∅ false jobs_init.

(** ** The monad *)

Abbreviation hm W := (M (st http_state W)).

Section memory.
Context {W : Type} `{OS W}.

(** [malloc]: a block with the given contents; [None] when it fails. *)
Definition malloc (b : bytes) : hm W (option nat) :=
  ok ← sysc (SysMalloc (strlen b));
  if (ok : bool) then
    i ← ask (fun s => fresh (dom (heap s)));
    _ ← upd (fun s => set_heap (<[i := b]> (heap s)) s);
    mret (Some i)
  else mret None.

(** [free]; a block that is not allocated is a fault. *)
Definition free (i : nat) : hm W unit :=
  upd (fun s => match heap s !! i with
                | Some _ => set_heap (delete i (heap s)) s
                | None => set_heap_fault true s
                end).

(** [len] bytes at a pointer.  To read a freed block is a fault, and what it
    holds is up to the system. *)
Definition load (p : ptr) (len : nat) : hm W bytes :=
  match p with
  | PStatic b => mret (take len b)
  | PHeap i off =>
      h ← ask heap;
      match h !! i with
      | Some b => mret (take len (drop off b))
      | None => _ ← upd (set_heap_fault true); sysc (SysStale (Z.of_nat len))
      end
  end.

End memory.
