(* ===== verification/HttpResponse.v ===== *)
(** * HTTP responses: [src/http_response.c]

    Responses live in a static pool; a pointer to one is its index, NULL is
    [None].  The functions that only build the text are also given as pure
    functions on a response ([add_header], [set_body], ...), which the pointer
    versions apply. *)

From S2P Require Import Prelude CLib FtpTypes Os HttpParser HttpState.

Definition status_code (s : http_status_t) : Z :=
  match s with
  | HTTP_STATUS_200_OK => 200 | HTTP_STATUS_201_CREATED => 201 | HTTP_STATUS_204_NO_CONTENT => 204
  | HTTP_STATUS_301_MOVED => 301 | HTTP_STATUS_304_NOT_MODIFIED => 304
  | HTTP_STATUS_400_BAD_REQUEST => 400 | HTTP_STATUS_403_FORBIDDEN => 403
  | HTTP_STATUS_404_NOT_FOUND => 404 | HTTP_STATUS_405_METHOD_NOT_ALLOWED => 405
  | HTTP_STATUS_409_CONFLICT => 409 | HTTP_STATUS_500_INTERNAL_ERROR => 500
  end.

Definition status_text (s : http_status_t) : bytes :=
  match s with
  | HTTP_STATUS_200_OK => str "OK"
  | HTTP_STATUS_201_CREATED => str "Created"
  | HTTP_STATUS_204_NO_CONTENT => str "No Content"
  | HTTP_STATUS_301_MOVED => str "Moved Permanently"
  | HTTP_STATUS_304_NOT_MODIFIED => str "Not Modified"
  | HTTP_STATUS_400_BAD_REQUEST => str "Bad Request"
  | HTTP_STATUS_403_FORBIDDEN => str "Forbidden"
  | HTTP_STATUS_404_NOT_FOUND => str "Not Found"
  | HTTP_STATUS_405_METHOD_NOT_ALLOWED => str "Method Not Allowed"
  | HTTP_STATUS_409_CONFLICT => str "Conflict"
  | HTTP_STATUS_500_INTERNAL_ERROR => str "Internal Server Error"
  end.

(** ** Building the text *)

(** [ensure_space(resp, extra) < 0] *)
Definition no_space (r : http_response_t) (extra : Z) : bool :=
  u64 (HTTP_RESPONSE_BUFFER_SIZE - used r) <? extra.

Definition append (b : bytes) (r : http_response_t) : http_response_t := set_data (data r ++ b) r.

Definition header_line (name value : bytes) : bytes := name ++ str ": " ++ value ++ CRLF.

(** Every builder returns the C result and the response. *)
Definition add_header (name value : bytes) (r : http_response_t) : Z * http_response_t :=
  let needed := strlen (header_line name value) in
  if no_space r (needed + 1) then (-1, r) else (0, append (header_line name value) r).

Definition finalize (r : http_response_t) : Z * http_response_t :=
  if no_space r 2 then (-1, r) else (0, append CRLF r).

Definition append_raw (d : bytes) (r : http_response_t) : Z * http_response_t :=
  if no_space r (strlen d) then (-1, r) else (0, append d r).

Definition content_length_line (length : Z) : bytes := header_line (str "Content-Length") (fmt_u length).

Definition set_body (b : bytes) (r : http_response_t) : Z * http_response_t :=
  let length := strlen b in
  let needed := u64 (strlen (content_length_line length) + 2 + length) in
  if no_space r needed then (-1, r)
  else
    let '(rc, r) := add_header (str "Content-Length") (fmt_u length) r in
    if negb (rc =? 0) then (-1, r) else (0, append b (append CRLF r)).

(** The Content-Length header and the blank line of a body sent separately. *)
Definition set_body_owned (p : ptr) (length : Z) (r : http_response_t) : Z * http_response_t :=
  if length =? 0 then (-1, r)
  else match mem_body r with
  | Some _ => (-1, r)
  | None =>
      if no_space r (strlen (content_length_line length) + 2) then (-1, r)
      else
        let '(rc, r) := add_header (str "Content-Length") (fmt_u length) r in
        if negb (rc =? 0) then (-1, r)
        else (0, set_mem_body_owned 1 (set_mem_sent 0 (set_mem_length length
                   (set_mem_body (Some p) (append CRLF r)))))
  end.

Definition set_body_ref (p : ptr) (length : Z) (r : http_response_t) : Z * http_response_t :=
  match mem_body r with
  | Some _ => (-1, r)
  | None =>
      if length =? 0 then (-1, r)
      else if no_space r (strlen (content_length_line length) + 2) then (-1, r)
      else
        let '(rc, r) := add_header (str "Content-Length") (fmt_u length) r in
        if negb (rc =? 0) then (-1, r)
        else
          let '(rc, r) := finalize r in
          if negb (rc =? 0) then (-1, r)
          else (0, set_mem_sent 0 (set_mem_length length (set_mem_body (Some p) r)))
  end.

Definition SIZE_MAX : Z := 2 ^ 64 - 1.

Definition size_add_checked (a b : Z) : option Z := if SIZE_MAX - b <? a then None else Some (a + b).

Definition MEM_INLINE : Z := 160.

(** [insert] is copied into [mem_inline]. *)
Definition set_body_splice (prefix : ptr) (prefix_len : Z) (insert : bytes) (suffix : ptr)
    (suffix_len : Z) (r : http_response_t) : Z * http_response_t :=
  let insert_len := strlen insert in
  if negb (mem_seg_count r =? 0)%nat then (-1, r)
  else if MEM_INLINE <=? insert_len then (-1, r)
  else match size_add_checked prefix_len insert_len with
  | None => (-1, r)
  | Some total =>
      match size_add_checked total suffix_len with
      | None => (-1, r)
      | Some total =>
          if total =? 0 then (-1, r)
          else if no_space r (strlen (content_length_line total) + 2) then (-1, r)
          else
            let '(rc, r) := add_header (str "Content-Length") (fmt_u total) r in
            if negb (rc =? 0) then (-1, r)
            else
              let '(rc, r) := finalize r in
              if negb (rc =? 0) then (-1, r)
              else (0, set_mem_seg_sent 0 (set_mem_seg_index 0 (set_mem_segs
                      [(Some prefix, prefix_len);
                       (if 0 <? insert_len then Some (PStatic insert) else None, insert_len);
                       (Some suffix, suffix_len)] r)))
      end
  end.

(** ** The pool *)

(** The index of the first zero. *)
Fixpoint first_free (l : list Z) : option nat :=
  match l with
  | [] => None
  | x :: l' => if x =? 0 then Some 0%nat else S <$> first_free l'
  end.

Definition resp_at (s : http_state) (i : nat) : http_response_t :=
  default response_zero (g_response_pool s !! i).

Definition on_resp (i : nat) (f : http_response_t -> http_response_t) (s : http_state) : http_state :=
  set_g_response_pool (alter f i (g_response_pool s)) s.

Section response.
Context {W : Type} `{OS W}.

(** Apply a builder through a pointer; a NULL pointer gives -1. *)
Definition with_resp (resp : option nat) (f : http_response_t -> Z * http_response_t) : hm W Z :=
  match resp with
  | None => mret (-1)
  | Some i =>
      r ← ask (fun s => resp_at s i);
      let '(rc, r) := f r in
      _ ← upd (on_resp i (fun _ => r));
      mret rc
  end.

Definition http_response_add_header (resp : option nat) (name value : bytes) : hm W Z :=
  with_resp resp (add_header name value).
Definition http_response_set_body (resp : option nat) (b : bytes) : hm W Z :=
  with_resp resp (set_body b).
Definition http_response_set_body_owned (resp : option nat) (p : ptr) (length : Z) : hm W Z :=
  with_resp resp (set_body_owned p length).
Definition http_response_set_body_ref (resp : option nat) (p : ptr) (length : Z) : hm W Z :=
  with_resp resp (set_body_ref p length).
Definition http_response_set_body_splice (resp : option nat) (prefix : ptr) (prefix_len : Z)
    (insert : bytes) (suffix : ptr) (suffix_len : Z) : hm W Z :=
  with_resp resp (set_body_splice prefix prefix_len insert suffix suffix_len).
Definition http_response_append_raw (resp : option nat) (d : bytes) : hm W Z :=
  with_resp resp (append_raw d).
Definition http_response_finalize (resp : option nat) : hm W Z := with_resp resp finalize.

Definition http_response_destroy (resp : option nat) : hm W unit :=
  match resp with
  | None => mret tt
  | Some i =>
      r ← ask (fun s => resp_at s i);
      _ ← (if 0 <=? sendfile_fd r then
             _ ← sysc (SysClose (sendfile_fd r)); upd (on_resp i (set_sendfile_fd (-1)))
           else mret tt);
      _ ← match stream_dir r with
          | Some d => _ ← sysc (SysClosedir d); upd (on_resp i (set_stream_dir None))
          | None => mret tt
          end;
      _ ← match mem_body r with
          | Some (PHeap b _) =>
              if negb (mem_body_owned r =? 0) then
                _ ← free b; upd (on_resp i (fun r => set_mem_body_owned 0 (set_mem_body None r)))
              else mret tt
          | _ => mret tt
          end;
      upd (fun s => set_g_response_in_use (<[i := 0]> (g_response_in_use s)) s)
  end.

(** The headers every response starts with, in order. *)
Definition standard_headers : list (bytes * bytes) :=
  [(str "X-Content-Type-Options", str "nosniff");
   (str "X-Frame-Options", str "DENY");
   (str "Referrer-Policy", str "no-referrer");
   (str "Cache-Control", str "no-store");
   (str "Content-Security-Policy",
    str "default-src 'self'; connect-src *; img-src 'self' data: blob:; style-src 'self' 'unsafe-inline' https://fonts.googleapis.com; style-src-elem 'self' 'unsafe-inline' https://fonts.googleapis.com; font-src 'self' data: https://fonts.gstatic.com; script-src 'self' 'unsafe-inline' blob:; script-src-elem 'self' 'unsafe-inline' blob:; object-src 'none'; base-uri 'none'; frame-ancestors 'none'")].

(** The chain of [||]: stop at the first failure. *)
Fixpoint add_headers (hs : list (bytes * bytes)) (r : http_response_t) : Z * http_response_t :=
  match hs with
  | [] => (0, r)
  | (name, value) :: hs' =>
      let '(rc, r) := add_header name value r in
      if negb (rc =? 0) then (rc, r) else add_headers hs' r
  end.

Definition status_line (status : http_status_t) : bytes :=
  str "HTTP/1.1 " ++ fmt_d (status_code status) ++ SPACE :: status_text status ++ CRLF.

Definition http_response_create (status : http_status_t) : hm W (option nat) :=
  free_slot ← ask (fun s => first_free (g_response_in_use s));
  match free_slot with
  | None => mret None
  | Some i =>
      _ ← upd (fun s => set_g_response_in_use (<[i := 1]> (g_response_in_use s)) s);
      let r := set_data (snprintf_buf HTTP_RESPONSE_BUFFER_SIZE (status_line status))
                 (set_sendfile_fd (-1) response_zero) in
      _ ← upd (on_resp i (fun _ => r));
      if HTTP_RESPONSE_BUFFER_SIZE <=? strlen (status_line status) then
        _ ← http_response_destroy (Some i); mret None
      else
        rc ← with_resp (Some i) (add_headers standard_headers);
        if negb (rc =? 0) then _ ← http_response_destroy (Some i); mret None
        else mret (Some i)
  end.

End response.
