(* ===== verification/HttpCsrf.v ===== *)
(** * CSRF tokens: [src/http_csrf.c]

    The token is drawn from the random device when the server starts and
    compared with the X-CSRF-Token header of a request. *)

From S2P Require Import Prelude CLib FtpTypes Os HttpParser HttpState.

Definition set_token (t : bytes) (init : Z) (s : http_state) : http_state :=
  set_g_csrf_initialized init (set_g_csrf_token t s).

Section csrf.
Context {W : Type} `{OS W}.

Definition http_csrf_init : hm W Z :=
  _ ← upd (set_token [] 0);
  fd ← sysc (SysOpen (str "/dev/urandom") O_RDONLY 0);
  if fd <? 0 then _ ← upd (fun s => set_g_csrf_token [] s); mret (-1)
  else
    d ← sysc (SysRead fd (Z.of_nat (HTTP_CSRF_TOKEN_LENGTH / 2)));
    match d with
    | Some random_bytes =>
        _ ← sysc (SysClose fd);
        if (length random_bytes =? HTTP_CSRF_TOKEN_LENGTH / 2)%nat then
          _ ← upd (set_token (concat (map fmt_02x random_bytes)) 1);
          mret 0
        else _ ← upd (fun s => set_g_csrf_token [] s); mret (-1)
    | None =>
        _ ← sysc (SysClose fd);
        _ ← upd (fun s => set_g_csrf_token [] s);
        mret (-1)
    end.

Definition http_csrf_get_token : hm W bytes := ask g_csrf_token.

End csrf.

(** The loop over the headers: the value of the first X-CSRF-Token. *)
Definition csrf_header (buf : bytes) (r : http_request_t) : option bytes :=
  (fun h => cstr_at buf (h_value h)) <$>
    find (fun h => strcaseeq (cstr_at buf (h_name h)) (str "X-CSRF-Token")) (headers r).

Definition http_csrf_validate (s : http_state) (buf : bytes) (r : http_request_t) : Z :=
  if g_csrf_initialized s =? 0 then -1
  else match csrf_header buf r with
       | None => -1
       | Some token => if negb (streq token (g_csrf_token s)) then -1 else 0
       end.
