(* ===== verification/HttpQuery.v ===== *)
(** * Query strings, path checks and JSON text of [src/http_api.c]

    The helpers of the handlers that work on strings.  A query string is the
    C string from the question mark on; a parameter is decoded into a
    fixed-size array, of which [out] is the C string. *)

From S2P Require Import Prelude CLib FtpTypes FtpPath Os HttpParser HttpState.

(** ** Percent decoding *)

(** The value of a hexadecimal digit, [None] for 0xFFFFFFFF. *)
Definition hex_digit (c : Z) : option Z :=
  if (48 <=? c) && (c <=? 57) then Some (c - 48)
  else if (65 <=? c) && (c <=? 70) then Some (10 + (c - 65))
  else if (97 <=? c) && (c <=? 102) then Some (10 + (c - 97))
  else None.

Definition PERCENT : Z := 37.
Definition PLUS : Z := 43.
Definition AMP : Z := 38.

(** The decoding loop, with room for [room] more characters: whether it ran
    to its end, and what it wrote.  It fails on an encoded NUL. *)
Fixpoint decode_loop (s : bytes) (room : nat) : bool * bytes :=
  match s, room with
  | ch :: rest, S room' =>
      if ch =? AMP then (true, [])
      else
        let plain := let '(ok, out) := decode_loop rest room' in
                     (ok, (if ch =? PLUS then SPACE else ch) :: out) in
        if ch =? PERCENT then
          match rest with
          | hi :: lo :: rest' =>
              match hex_digit hi, hex_digit lo with
              | Some v_hi, Some v_lo =>
                  let decoded := Z.lor (Z.shiftl v_hi 4) v_lo in
                  if decoded =? 0 then (false, [])
                  else let '(ok, out) := decode_loop rest' room' in (ok, decoded :: out)
              | _, _ => plain
              end
          | _ => plain
          end
        else plain
  | _, _ => (true, [])
  end.

(** [parse_path_param(query, out, out_size)]: result and the C string in
    [out], which held [init], zero-filled, before. *)
Definition parse_path_param (init query : bytes) (out_size : Z) : Z * bytes :=
  if out_size <? 2 then (-1, init)
  else match strstr query (str "path=") with
  | None => (-1, init)
  | Some i =>
      let '(ok, out) := decode_loop (drop (i + 5) query) (Z.to_nat (out_size - 1)) in
      if negb ok then (-1, match out with [] => init | _ => out end)
      else (0, match out with [] => [SLASH] | _ => out end)
  end.

(** The same with a key of its own; -1 when nothing was decoded. *)
Definition parse_name_param (query : bytes) (out_size : Z) : option bytes :=
  if out_size <? 2 then None
  else match strstr query (str "name=") with
  | None => None
  | Some i =>
      let '(ok, out) := decode_loop (drop (i + 5) query) (Z.to_nat (out_size - 1)) in
      if negb ok then None else match out with [] => None | _ => Some out end
  end.

Definition parse_dst_param (query : bytes) (out_size : Z) : option bytes :=
  if out_size <? 2 then None
  else match strstr query (str "dst=") with
  | None => None
  | Some i =>
      let '(ok, out) := decode_loop (drop (i + 4) query) (Z.to_nat (out_size - 1)) in
      if negb ok then None else Some (match out with [] => [SLASH] | _ => out end)
  end.

(** The key must follow '?', '&' or the start, and be followed by '='; the
    search goes on behind an occurrence that is not a parameter.  [prev] is
    the character before [p], [None] at the start of the query. *)
Fixpoint parse_query_loop (fuel : nat) (prev : option Z) (p key : bytes) (out_size : Z) : Z * bytes :=
  match fuel with
  | O => (-1, [])
  | S fuel' =>
      match strstr p key with
      | None => (-1, [])
      | Some i =>
          let before := match i with O => prev | S j => p !! j end in
          let after := drop (i + length key) p in
          if match before with None => true | Some c => (c =? 63) || (c =? AMP) end
             && match after with c :: _ => c =? 61 | [] => false end
          then
            let '(ok, out) := decode_loop (drop 1 after) (Z.to_nat (out_size - 1)) in
            (if negb ok then -1 else match out with [] => -1 | _ => 0 end, out)
          else parse_query_loop fuel' (last (take (i + length key) p)) after key out_size
      end
  end.

(** [parse_query_param(query, key, out, out_size)]: result and the C string in
    [out], which was zero-filled before. *)
Definition parse_query_param (query key : bytes) (out_size : Z) : Z * bytes :=
  if out_size <? 2 then (-1, [])
  else parse_query_loop (S (length query)) None query key out_size.

(** ** Names and paths *)

Definition is_safe_filename (name : bytes) : bool :=
  match name with
  | [] => false
  | _ =>
      match strstr name (str "..") with
      | Some _ => false
      | None => forallb (fun c => negb ((c =? SLASH) || (c =? 92))) name
      end
  end.

(** The search for a component that starts with two dots; [at_start] tells
    whether the position is the first one or follows a slash. *)
Fixpoint no_dotdot (at_start : bool) (p : bytes) : bool :=
  match p with
  | [] => true
  | c :: p' =>
      if (c =? DOT) && match p' with d :: _ => d =? DOT | [] => false end && at_start then false
      else no_dotdot (c =? SLASH) p'
  end.

Definition is_safe_path (path : bytes) : bool :=
  match path with
  | c :: _ => (c =? SLASH) && no_dotdot true path
  | [] => false
  end.

(** ** Root and confinement *)

(** Strip trailing slashes from a string longer than one character. *)
Fixpoint strip_slashes (n : nat) (root : bytes) : bytes :=
  match n with
  | O => root
  | S n' =>
      if (1 <? strlen root) && match last root with Some c => c =? SLASH | None => false end
      then strip_slashes n' (removelast root) else root
  end.

Definition http_api_set_root (root : option bytes) (s : http_state) : http_state :=
  match root with
  | None | Some [] => set_g_http_root [SLASH] s
  | Some root =>
      let root := if FTP_PATH_MAX <=? strlen root then take (Z.to_nat (FTP_PATH_MAX - 1)) root else root in
      set_g_http_root (strip_slashes (length root) root) s
  end.

Definition http_api_get_root (s : http_state) : bytes := g_http_root s.

Section confine.
Context {W : Type} `{OS W}.

Definition http_validate_and_confine (input root : bytes) (out_size : Z) : M (sysst W) (option bytes) :=
  match ftp_path_normalize (Some input) FTP_PATH_MAX with
  | Err _ => mret None
  | Ok normalized =>
      if negb (ftp_path_is_within_root (Some normalized) (Some root) =? 1) then mret None
      else
        rp ← sys_call (SysRealpath normalized);
        match rp with
        | Some real =>
            if negb (ftp_path_is_within_root (Some real) (Some root) =? 1) then mret None
            else if out_size <? strlen real + 1 then mret None else mret (Some real)
        | None => if out_size <? strlen normalized + 1 then mret None else mret (Some normalized)
        end
  end.

Definition validate_path (path : bytes) (safe_size : Z) : hm W (option bytes) :=
  if negb (is_safe_path path) then mret None
  else
    root ← ask g_http_root;
    io (http_validate_and_confine path root safe_size).

End confine.

(** ** Text *)

(** [buf_append_bytes] on a buffer of [cap] bytes that holds [buf]. *)
Definition buf_append_bytes (cap : Z) (buf d : bytes) : option bytes :=
  if cap <? strlen buf then None
  else if cap - strlen buf <? strlen d then None
  else Some (buf ++ d).

Definition buf_append_cstr (cap : Z) (buf s : bytes) : option bytes := buf_append_bytes cap buf s.
Definition buf_append_u64 (cap : Z) (buf : bytes) (v : Z) : option bytes := buf_append_bytes cap buf (fmt_u v).
Definition buf_append_u32 (cap : Z) (buf : bytes) (v : Z) : option bytes := buf_append_bytes cap buf (fmt_u v).
Definition buf_append_i32 (cap : Z) (buf : bytes) (v : Z) : option bytes := buf_append_bytes cap buf (fmt_d v).

Definition BACKSLASH : Z := 92.

(** One character. *)
Definition json_escape (c : Z) : bytes :=
  if c =? 34 then [BACKSLASH; 34]
  else if c =? BACKSLASH then [BACKSLASH; BACKSLASH]
  else if c =? 8 then [BACKSLASH; 98]
  else if c =? 12 then [BACKSLASH; 102]
  else if c =? 10 then [BACKSLASH; 110]
  else if c =? 13 then [BACKSLASH; 114]
  else if c =? 9 then [BACKSLASH; 116]
  else if c <? 32 then BACKSLASH :: 117 :: pad_left 48 4 (digits 16 c)
  else [c].

(** [None] when six more bytes might not fit; [*pos] then stays as it was. *)
Fixpoint json_escape_append (cap : Z) (buf s : bytes) : option bytes :=
  match s with
  | [] => Some buf
  | c :: s' =>
      if cap <=? strlen buf + 6 then None
      else json_escape_append cap (buf ++ json_escape c) s'
  end.

(** [snprintf] into a local array of [size] bytes, read back with the length
    [snprintf] returned: bytes past the end of the array are whatever the
    stack holds there. *)
Definition local_text {W} `{OS W} (size : Z) (text : bytes) : hm W bytes :=
  if strlen text <? size then mret text
  else
    beyond ← sysc (SysStale (strlen text - size));
    mret (snprintf_buf size text ++ 0 :: beyond).
