(* ===== verification/HttpApi.v ===== *)
(** * The file handlers of the HTTP API: [src/http_api.c]

    The request router and the handlers that list, download, create, delete,
    rename and copy files, and the one that serves the web interface.  The
    other handlers, for statistics, downloads, archives and titles, are a
    parameter here, the class [OtherApi], which [HttpGame] instantiates; the
    parameters of [Resources] are the generated resources ([http_get_resource]), the script inserted into the
    index page ([k_frontend_patch]) and [strerror]. *)

From S2P Require Import Prelude CLib FtpTypes FtpPath Os PalFileio PalCopy.
From S2P Require Import HttpParser HttpState HttpResponse HttpCsrf HttpQuery.

(** The handlers defined elsewhere, by the name of their function. *)
Inductive other_api :=
| api_dl_start | api_dl_status | api_dl_pause | api_dl_cancel
| api_stats_ram | api_stats_system | api_stats | api_disk_info | api_disk_tree
| api_process_kill | api_processes | api_game_meta | api_game_icon
| api_extract_progress | api_extract_cancel | api_extract | api_network_reset | api_admin_fan
| api_games_installed | api_games_icon | api_games_repair_visibility | api_games_uninstall
| api_games_install_status | api_games_install | api_games_reinstall | api_admin_launch.

Class OtherApi (W : Type) := other : other_api -> bytes -> http_request_t -> M (st http_state W) (option nat).
Class Resources := {
  http_get_resource : bytes -> option bytes;
  k_frontend_patch : bytes;
  strerror : Z -> bytes
}.

(** JSON text: an apostrophe of the literal stands for a quotation mark. *)
Definition jstr (s : string) : bytes := map (fun c => if c =? 39 then 34 else c) (str s).
Arguments jstr s%_string_scope.

(** The query string of a request: from the question mark on. *)
Definition query_of (r : http_request_t) : option bytes :=
  (fun i => drop i (uri r)) <$> strchr (uri r) 63.

(** [strncmp(request->uri, route, strlen(route)) == 0] *)
Definition uri_is (r : http_request_t) (route : string) : bool :=
  strneq (uri r) (str route) (length (str route)).

(** The handler a request goes to. *)
Inductive api :=
| ApiList | ApiDirsize | ApiDownload | ApiCreateFile | ApiMkdir | ApiDelete | ApiRename
| ApiCopyProgress | ApiCopyCancel | ApiCopyPause | ApiCopy
| ApiLegacy (json : bytes)
| ApiStatic
| ApiOther (o : other_api).

(** The tests of the router in order; the first prefix that matches decides. *)
Definition routes : list (string * api) :=
  [("/api/list", ApiList); ("/api/dirsize", ApiDirsize);
   ("/api/download/start", ApiOther api_dl_start); ("/api/download/status", ApiOther api_dl_status);
   ("/api/download/pause", ApiOther api_dl_pause); ("/api/download/cancel", ApiOther api_dl_cancel);
   ("/api/file/get", ApiDownload); ("/api/download", ApiDownload);
   ("/api/stats/ram", ApiOther api_stats_ram); ("/api/stats/system", ApiOther api_stats_system);
   ("/api/stats", ApiOther api_stats); ("/api/disk/info", ApiOther api_disk_info);
   ("/api/disk/tree", ApiOther api_disk_tree); ("/api/process/kill", ApiOther api_process_kill);
   ("/api/processes", ApiOther api_processes); ("/api/create_file", ApiCreateFile);
   ("/api/mkdir", ApiMkdir); ("/api/delete", ApiDelete); ("/api/rename", ApiRename);
   ("/api/copy_progress", ApiCopyProgress); ("/api/copy_cancel", ApiCopyCancel);
   ("/api/copy_pause", ApiCopyPause); ("/api/copy", ApiCopy);
   ("/api/game/meta", ApiOther api_game_meta); ("/api/game/icon", ApiOther api_game_icon);
   ("/api/extract_progress", ApiOther api_extract_progress);
   ("/api/extract_cancel", ApiOther api_extract_cancel); ("/api/extract", ApiOther api_extract);
   ("/api/network/reset", ApiOther api_network_reset); ("/api/admin/fan", ApiOther api_admin_fan);
   ("/api/admin/games/installed", ApiOther api_games_installed);
   ("/api/admin/games/icon", ApiOther api_games_icon);
   ("/api/admin/games/repair_visibility", ApiOther api_games_repair_visibility);
   ("/api/admin/games/uninstall", ApiOther api_games_uninstall);
   ("/api/admin/games/install_status", ApiOther api_games_install_status);
   ("/api/admin/games/install", ApiOther api_games_install);
   ("/api/admin/games/reinstall", ApiOther api_games_reinstall);
   ("/api/admin/launch", ApiOther api_admin_launch);
   ("/api/stream/status", ApiLegacy (jstr "{'ok':true,'enabled':false,'status':'offline'}"));
   ("/api/stream/start", ApiLegacy (jstr "{'ok':false,'message':'Stream disabled'}"));
   ("/api/stream/stop", ApiLegacy (jstr "{'ok':false,'message':'Stream disabled'}"));
   ("/api/stream", ApiLegacy (jstr "{'ok':false,'message':'Stream disabled'}"));
   ("/api/admin/installed", ApiLegacy (jstr "{'ok':true,'installed':false}"));
   ("/api/admin/install", ApiLegacy (jstr "{'ok':false,'message':'Install API not available'}"))]%string.

Definition route_of (r : http_request_t) : api :=
  match find (fun e => uri_is r e.1) routes with Some (_, a) => a | None => ApiStatic end.

(** The part behind the last slash; all of it without one. *)
Definition base_of (path : bytes) : bytes :=
  match strrchr path SLASH with Some i => drop (S i) path | None => path end.

(** [snprintf(full, FTP_PATH_MAX, "%s/%s", dir, name)], the root apart. *)
Definition join_name (dir name : bytes) : bytes :=
  snprintf_buf FTP_PATH_MAX
    (if streq dir [SLASH] then SLASH :: name else dir ++ SLASH :: name).

Section api.
Context {W : Type} `{OS W} (fuel : nat).
Abbreviation hm := (M (st http_state W)).

(** ** Replies *)

Definition json_response (code : http_status_t) : hm (option nat) :=
  resp ← http_response_create code;
  _ ← http_response_add_header resp (str "Content-Type") (str "application/json");
  _ ← http_response_add_header resp (str "Access-Control-Allow-Origin") (str "*");
  mret resp.

(** A JSON response whose body was formatted into an array of [size] bytes. *)
Definition json_reply (code : http_status_t) (size : Z) (text : bytes) : hm (option nat) :=
  resp ← json_response code;
  b ← local_text size text;
  _ ← http_response_set_body resp b;
  mret resp.

Definition error_json (code : http_status_t) (message : bytes) : hm (option nat) :=
  json_reply code 512 (jstr "{'error':'" ++ message ++ jstr "'}").

(** A reply without the CORS header, used by the legacy routes. *)
Definition api_legacy_disabled_json (json_body : bytes) : hm (option nat) :=
  resp ← http_response_create HTTP_STATUS_200_OK;
  _ ← http_response_add_header resp (str "Content-Type") (str "application/json");
  _ ← http_response_add_header resp (str "Cache-Control") (str "no-store");
  _ ← http_response_set_body resp json_body;
  mret resp.

Definition ok_json : hm (option nat) := json_reply HTTP_STATUS_200_OK 512 (jstr "{'ok':true}").

(** ** GET /api/list *)

Definition path_param (r : http_request_t) (init : bytes) : bytes :=
  match query_of r with
  | Some query => (parse_path_param init query 1024).2
  | None => init
  end.

Definition list_prefix (path : bytes) : bytes :=
  let opening := jstr "{'path':'" in
  default opening (json_escape_append 2048 opening path) ++ jstr "','entries':[".

Definition api_list (r : http_request_t) : hm (option nat) :=
  let path := path_param r [SLASH] in
  safe ← validate_path path FTP_PATH_MAX;
  match safe with
  | None => error_json HTTP_STATUS_403_FORBIDDEN (str "Path traversal attempt detected")
  | Some safe =>
      dir ← sysc (SysOpendir safe);
      match dir with
      | None => error_json HTTP_STATUS_404_NOT_FOUND (str "Directory not found")
      | Some dir =>
          resp ← json_response HTTP_STATUS_200_OK;
          _ ← http_response_add_header resp (str "Transfer-Encoding") (str "chunked");
          prefix ← local_text 2048 (list_prefix path);
          _ ← http_response_finalize resp;
          rc1 ← http_response_append_raw resp (fmt_x (strlen prefix) ++ CRLF);
          rc2 ← (if rc1 <? 0 then mret (-1) else http_response_append_raw resp prefix);
          rc3 ← (if rc2 <? 0 then mret (-1) else http_response_append_raw resp CRLF);
          match resp with
          | Some i =>
              if rc3 <? 0 then
                _ ← http_response_destroy resp;
                _ ← sysc (SysClosedir dir);
                error_json HTTP_STATUS_500_INTERNAL_ERROR (str "Out of memory")
              else
                _ ← upd (on_resp i (fun r => set_stream_path (take 1023 path) (set_stream_dir (Some dir) r)));
                mret resp
          | None =>
              _ ← sysc (SysClosedir dir);
              error_json HTTP_STATUS_500_INTERNAL_ERROR (str "Out of memory")
          end
      end
  end.

(** ** GET /api/download *)

Definition api_download (r : http_request_t) : hm (option nat) :=
  let path := path_param r [] in
  match path with
  | [] => error_json HTTP_STATUS_400_BAD_REQUEST (str "Missing path parameter")
  | _ =>
      safe ← validate_path path FTP_PATH_MAX;
      match safe with
      | None => error_json HTTP_STATUS_403_FORBIDDEN (str "Path traversal attempt detected")
      | Some safe =>
          fd ← sysc (SysOpen safe O_RDONLY 0);
          if fd <? 0 then error_json HTTP_STATUS_404_NOT_FOUND (str "File not found")
          else
            st ← sysc (SysFstat fd);
            let regular := match st with Some st => negb (S_ISDIR (st_mode st)) | None => false end in
            match st, regular with
            | Some st, true =>
                resp ← http_response_create HTTP_STATUS_200_OK;
                match resp with
                | None => _ ← sysc (SysClose fd); mret None
                | Some i =>
                    _ ← http_response_add_header resp (str "Content-Type") (str "application/octet-stream");
                    _ ← http_response_add_header resp (str "Access-Control-Allow-Origin") (str "*");
                    let disposition := snprintf_buf 512 (jstr "attachment; filename='" ++ base_of path ++ [34]) in
                    _ ← http_response_add_header resp (str "Content-Disposition") disposition;
                    _ ← http_response_add_header resp (str "Content-Length") (fmt_d (st_size st));
                    rc ← http_response_finalize resp;
                    if negb (rc =? 0) then
                      _ ← sysc (SysClose fd); _ ← http_response_destroy resp; mret None
                    else
                      _ ← upd (on_resp i (fun r =>
                            set_sendfile_safe 1 (set_sendfile_count (u64 (st_size st))
                              (set_sendfile_offset 0 (set_sendfile_fd fd r)))));
                      mret resp
                end
            | _, _ =>
                _ ← sysc (SysClose fd);
                error_json HTTP_STATUS_400_BAD_REQUEST (str "Not a regular file")
            end
      end
  end.

(** ** POST /api/create_file and /api/mkdir *)

(** The checks both handlers start with: a POST with a path and a safe name;
    the composed name and its validated form. *)
Definition new_name (r : http_request_t) (bad_name : bytes)
    (k : bytes -> bytes -> bytes -> hm (option nat)) : hm (option nat) :=
  if negb (bool_decide (method r = HTTP_METHOD_POST)) then
    error_json HTTP_STATUS_405_METHOD_NOT_ALLOWED (str "Use POST for this endpoint")
  else match query_of r with
  | None => error_json HTTP_STATUS_400_BAD_REQUEST (str "Missing query string")
  | Some query =>
      let '(rc, dir_path) := parse_path_param [SLASH] query 1024 in
      if negb (rc =? 0) then error_json HTTP_STATUS_400_BAD_REQUEST (str "Missing or invalid path")
      else match parse_name_param query 256 with
      | None => error_json HTTP_STATUS_400_BAD_REQUEST (str "Missing or invalid name")
      | Some name =>
          if negb (is_safe_filename name) then error_json HTTP_STATUS_400_BAD_REQUEST bad_name
          else
            safe_dir ← validate_path dir_path FTP_PATH_MAX;
            match safe_dir with
            | None => error_json HTTP_STATUS_403_FORBIDDEN (str "Forbidden path")
            | Some safe_dir =>
                let full := join_name safe_dir name in
                safe_full ← validate_path full FTP_PATH_MAX;
                match safe_full with
                | None => error_json HTTP_STATUS_403_FORBIDDEN (str "Forbidden path")
                | Some safe_full => k full name safe_full
                end
            end
      end
  end.

(** The JSON of a created name, formatted into 512 bytes. *)
Definition created_json (full name : bytes) : hm (option nat) :=
  json_reply HTTP_STATUS_200_OK 512
    (jstr "{'ok':true,'path':'" ++ full ++ jstr "','name':'" ++ name ++ jstr "'}").

Definition api_create_file (buf : bytes) (r : http_request_t) : hm (option nat) :=
  new_name r (str "Invalid file name") (fun full name safe_full =>
    fd ← io (pal_file_open (Some safe_full) (Z.lor O_WRONLY (Z.lor O_CREAT O_TRUNC)) 438);
    if fd <? 0 then error_json HTTP_STATUS_500_INTERNAL_ERROR (str "Failed to create file")
    else
      w ← match body r with
          | Some p =>
              if 0 <? body_length r
              then io (pal_file_write_all fuel fd (take (Z.to_nat (body_length r)) (drop p buf)))
              else mret 0
          | None => mret 0
          end;
      if w <? 0 then
        _ ← io (pal_file_close fd);
        error_json HTTP_STATUS_500_INTERNAL_ERROR (str "Failed to write file")
      else
        _ ← io (pal_file_close fd);
        created_json full name).

Context {Hres : Resources}.

Definition api_mkdir (r : http_request_t) : hm (option nat) :=
  new_name r (str "Invalid folder name") (fun full name safe_full =>
    rc ← sysc (SysMkdir safe_full 511);
    e ← io get_errno;
    if negb (rc =? 0) && negb (e =? EEXIST) then
      error_json HTTP_STATUS_500_INTERNAL_ERROR (snprintf_buf 128 (str "mkdir failed: " ++ strerror e))
    else created_json full name).

(** ** POST /api/delete *)

(** Remove what [safe] names: an error reply, or none when it worked. *)
Definition delete_path (query safe : bytes) (st : stat_t) : hm (option (http_status_t * bytes)) :=
  if S_ISDIR (st_mode st) then
    rc ← io (pal_dir_remove (Some safe));
    if bool_decide (rc = FTP_OK) then mret None
    else match strstr query (str "recursive=1") with
    | Some _ =>
        rc ← io (pal_dir_remove_recursive_pub fuel (Some safe));
        mret (if bool_decide (rc = FTP_OK) then None
              else Some (HTTP_STATUS_500_INTERNAL_ERROR,
                         str "Recursive delete failed (permission denied or I/O error)"))
    | None => mret (Some (HTTP_STATUS_409_CONFLICT, str "Directory is not empty. Use recursive=1 to force."))
    end
  else
    rc ← io (pal_file_delete (Some safe));
    mret (if bool_decide (rc = FTP_OK) then None
          else Some (HTTP_STATUS_500_INTERNAL_ERROR, str "Failed to delete file")).

Definition api_delete (r : http_request_t) : hm (option nat) :=
  if negb (bool_decide (method r = HTTP_METHOD_POST)) then
    error_json HTTP_STATUS_405_METHOD_NOT_ALLOWED (str "Use POST for this endpoint")
  else match query_of r with
  | None => error_json HTTP_STATUS_400_BAD_REQUEST (str "Missing query string")
  | Some query =>
      let '(rc, path) := parse_path_param [] query 1024 in
      if negb (rc =? 0) then error_json HTTP_STATUS_400_BAD_REQUEST (str "Missing or invalid path")
      else
        safe ← validate_path path FTP_PATH_MAX;
        match safe with
        | None => error_json HTTP_STATUS_403_FORBIDDEN (str "Forbidden path")
        | Some safe =>
            root ← ask g_http_root;
            if streq safe root then error_json HTTP_STATUS_403_FORBIDDEN (str "Cannot delete root")
            else
              st ← sysc (SysStat safe);
              match st with
              | None => error_json HTTP_STATUS_404_NOT_FOUND (str "Path not found")
              | Some st =>
                  failed ← delete_path query safe st;
                  match failed with
                  | Some (code, message) => error_json code message
                  | None =>
                      verify ← sysc (SysStat safe);
                      match verify with
                      | Some _ =>
                          error_json HTTP_STATUS_500_INTERNAL_ERROR
                            (str "Delete operation failed: path still exists (permission denied or I/O error)")
                      | None => ok_json
                      end
                  end
              end
        end
  end.

(** ** POST /api/rename *)

Definition api_rename (r : http_request_t) : hm (option nat) :=
  if negb (bool_decide (method r = HTTP_METHOD_POST)) then
    error_json HTTP_STATUS_405_METHOD_NOT_ALLOWED (str "Use POST for this endpoint")
  else match query_of r with
  | None => error_json HTTP_STATUS_400_BAD_REQUEST (str "Missing query string")
  | Some query =>
      let '(rc, path) := parse_path_param [] query 1024 in
      if negb (rc =? 0) then error_json HTTP_STATUS_400_BAD_REQUEST (str "Missing or invalid path")
      else match parse_name_param query 256 with
      | None => error_json HTTP_STATUS_400_BAD_REQUEST (str "Missing or invalid name")
      | Some name =>
          if negb (is_safe_filename name)
          then error_json HTTP_STATUS_400_BAD_REQUEST (str "Invalid file name")
          else
            safe_old ← validate_path path FTP_PATH_MAX;
            match safe_old with
            | None => error_json HTTP_STATUS_403_FORBIDDEN (str "Forbidden path")
            | Some safe_old =>
                ex ← io (pal_path_exists (Some safe_old));
                if negb (ex =? 1) then error_json HTTP_STATUS_404_NOT_FOUND (str "Path not found")
                else match strrchr safe_old SLASH with
                | None => error_json HTTP_STATUS_500_INTERNAL_ERROR (str "Internal path error")
                | Some parent_len =>
                    let new_path := snprintf_buf FTP_PATH_MAX
                      (if (parent_len =? 0)%nat then SLASH :: name
                       else take parent_len safe_old ++ SLASH :: name) in
                    safe_new ← validate_path new_path FTP_PATH_MAX;
                    match safe_new with
                    | None => error_json HTTP_STATUS_403_FORBIDDEN (str "Destination forbidden")
                    | Some safe_new =>
                        rc ← io (pal_file_rename (Some safe_old) (Some safe_new));
                        if negb (bool_decide (rc = FTP_OK))
                        then error_json HTTP_STATUS_500_INTERNAL_ERROR (str "Rename failed")
                        else json_reply HTTP_STATUS_200_OK 512
                               (jstr "{'ok':true,'path':'" ++ new_path ++ jstr "'}")
                    end
                end
            end
      end
  end.

(** ** Copying *)

Definition json_bool (z : Z) : bytes := if z =? 0 then str "false" else str "true".

Definition api_copy_progress : hm (option nat) :=
  p ← ask g_copy_progress;
  json_reply HTTP_STATUS_200_OK 320
    (jstr "{'active':" ++ json_bool (cp_active p) ++ jstr ",'done':" ++ json_bool (cp_done p)
     ++ jstr ",'error':" ++ json_bool (cp_error p) ++ jstr ",'paused':" ++ json_bool (cp_paused p)
     ++ jstr ",'error_code':" ++ fmt_d (cp_error_code p)
     ++ jstr ",'error_errno':" ++ fmt_d (cp_error_errno p)
     ++ jstr ",'bytes_copied':" ++ fmt_u (cp_bytes_copied p)
     ++ jstr ",'total_bytes':" ++ fmt_u (cp_total_bytes p) ++ jstr "}").

Definition on_progress (f : copy_progress_t -> copy_progress_t) (s : http_state) : http_state :=
  set_g_copy_progress (f (g_copy_progress s)) s.

Definition api_copy_cancel : hm (option nat) :=
  _ ← upd (on_progress (set_cp_cancel 1));
  ok_json.

Definition api_copy_pause : hm (option nat) :=
  cur ← ask (fun s => cp_paused (g_copy_progress s));
  let next := if negb (cur =? 0) then 0 else 1 in
  _ ← upd (on_progress (set_cp_paused next));
  json_reply HTTP_STATUS_200_OK 64 (jstr "{'ok':true,'paused':" ++ json_bool next ++ jstr "}").

(** From the validated source and destination on. *)
Definition start_copy (query safe_src safe_final : bytes) : hm (option nat) :=
  st ← sysc (SysStat safe_src);
  let total_est := match st with Some st => u64 (st_size st) | None => 0 end in
  let total_est := match strstr query (str "totalsize=") with
                   | Some i => let ts_val := strtoull (drop (i + 10) query) in
                               if 0 <? ts_val then ts_val else total_est
                   | None => total_est
                   end in
  _ ← upd (on_progress (fun _ => CopyProgress 0 total_est 1 0 0 0 0 0 0));
  args ← sysc (SysMalloc (2 * FTP_PATH_MAX + 8));
  if negb (args : bool) then
    _ ← upd (on_progress (set_cp_active 0));
    error_json HTTP_STATUS_500_INTERNAL_ERROR (str "Out of memory")
  else
    rc ← sysc (SysCopyThread safe_src safe_final false);
    if negb (rc =? 0) then
      _ ← upd (on_progress (set_cp_active 0));
      error_json HTTP_STATUS_500_INTERNAL_ERROR (str "Failed to start copy thread")
    else json_reply HTTP_STATUS_200_OK 512 (jstr "{'ok':true,'async':true}").

Definition api_copy (r : http_request_t) : hm (option nat) :=
  if negb (bool_decide (method r = HTTP_METHOD_POST)) then
    error_json HTTP_STATUS_405_METHOD_NOT_ALLOWED (str "Use POST for this endpoint")
  else
    active ← ask (fun s => cp_active (g_copy_progress s));
    if negb (active =? 0)
    then error_json HTTP_STATUS_400_BAD_REQUEST (str "A copy operation is already in progress")
    else match query_of r with
    | None => error_json HTTP_STATUS_400_BAD_REQUEST (str "Missing query string")
    | Some query =>
        let '(rc, src_path) := parse_path_param [] query 1024 in
        if negb (rc =? 0) then error_json HTTP_STATUS_400_BAD_REQUEST (str "Missing or invalid path")
        else match parse_dst_param query 1024 with
        | None => error_json HTTP_STATUS_400_BAD_REQUEST (str "Missing or invalid dst parameter")
        | Some dst_dir =>
            safe_src ← validate_path src_path FTP_PATH_MAX;
            match safe_src with
            | None => error_json HTTP_STATUS_403_FORBIDDEN (str "Source path forbidden")
            | Some safe_src =>
                ex ← io (pal_path_exists (Some safe_src));
                if negb (ex =? 1) then error_json HTTP_STATUS_404_NOT_FOUND (str "Source not found")
                else
                  safe_dst_dir ← validate_path dst_dir FTP_PATH_MAX;
                  match safe_dst_dir with
                  | None => error_json HTTP_STATUS_403_FORBIDDEN (str "Destination path forbidden")
                  | Some safe_dst_dir =>
                      isd ← io (pal_path_is_directory (Some safe_dst_dir));
                      if negb (isd =? 1)
                      then error_json HTTP_STATUS_400_BAD_REQUEST (str "Destination is not a directory")
                      else
                        safe_final ← validate_path (join_name safe_dst_dir (base_of safe_src)) FTP_PATH_MAX;
                        match safe_final with
                        | None => error_json HTTP_STATUS_403_FORBIDDEN (str "Final destination forbidden")
                        | Some safe_final => start_copy query safe_src safe_final
                        end
                  end
            end
        end
    end.

(** ** GET /api/dirsize *)

Definition DIR_SIZE_MAX_DEPTH : nat := 8.
Definition DIR_SIZE_MAX_ENTRIES : Z := 10000.
Definition DIR_SIZE_TIMEOUT_MS : Z := 200.

Record dir_size_ctx_t := DirSizeCtx {
  ds_deadline : Z * Z;
  ds_entries : Z;
  ds_partial : Z
}.

(** [gettimeofday]; the sources do not test its result. *)
Definition now_of (t : option (Z * Z)) : Z * Z := default (0, 0) t.

Definition dir_size_exceeded (ctx : dir_size_ctx_t) : hm (bool * dir_size_ctx_t) :=
  let over := DirSizeCtx (ds_deadline ctx) (ds_entries ctx) 1 in
  if negb (ds_partial ctx =? 0) then mret (true, ctx)
  else if DIR_SIZE_MAX_ENTRIES <=? ds_entries ctx then mret (true, over)
  else if Z.land (ds_entries ctx) 63 =? 0 then
    t ← sysc SysGettimeofday;
    let '(sec, usec) := now_of t in
    if (ds_deadline ctx).1 <? sec then mret (true, over)
    else if (sec =? (ds_deadline ctx).1) && ((ds_deadline ctx).2 <=? usec) then mret (true, over)
    else mret (false, ctx)
  else mret (false, ctx).

(** The loop over the entries; [walk] is the recursive call. *)
Fixpoint dir_size_entries (n : nat) (walk : bytes -> dir_size_ctx_t -> hm (Z * dir_size_ctx_t))
    (dir : Z) (path : bytes) (total : Z) (ctx : dir_size_ctx_t) : hm (Z * dir_size_ctx_t) :=
  match n with
  | O => diverge
  | S n' =>
      '(stop, ctx) ← dir_size_exceeded ctx;
      if (stop : bool) then mret (total, ctx)
      else
        ent ← sysc (SysReaddir dir);
        match ent with
        | None => mret (total, ctx)
        | Some (name, _) =>
            if dot_entry name then dir_size_entries n' walk dir path total ctx
            else
              let child := if streq path [SLASH] then SLASH :: name else path ++ SLASH :: name in
              if FTP_PATH_MAX <=? strlen child then dir_size_entries n' walk dir path total ctx
              else
                st ← sysc (SysLstat child);
                match st with
                | None => dir_size_entries n' walk dir path total ctx
                | Some st =>
                    let ctx := DirSizeCtx (ds_deadline ctx) (u32 (ds_entries ctx + 1)) (ds_partial ctx) in
                    if S_ISREG (st_mode st) then
                      dir_size_entries n' walk dir path (u64 (total + u64 (st_blocks st) * 512)) ctx
                    else if S_ISDIR (st_mode st) then
                      '(sub, ctx) ← walk child ctx;
                      dir_size_entries n' walk dir path (u64 (total + sub)) ctx
                    else dir_size_entries n' walk dir path total ctx
                end
        end
  end.

(** [left] is DIR_SIZE_MAX_DEPTH + 1 - depth. *)
Fixpoint dir_size_walk (left : nat) (path : bytes) (ctx : dir_size_ctx_t) : hm (Z * dir_size_ctx_t) :=
  match left with
  | O => mret (0, ctx)
  | S left' =>
      '(stop, ctx) ← dir_size_exceeded ctx;
      if (stop : bool) then mret (0, ctx)
      else
        d ← sysc (SysOpendir path);
        match d with
        | None => mret (0, ctx)
        | Some dir =>
            '(total, ctx) ← dir_size_entries fuel (dir_size_walk left') dir path 0 ctx;
            _ ← sysc (SysClosedir dir);
            mret (total, ctx)
        end
  end.

(** The deadline of a scan that starts now. *)
Definition dir_size_deadline (now : Z * Z) : Z * Z :=
  let usec := now.2 + DIR_SIZE_TIMEOUT_MS * 1000 in
  if 1000000 <=? usec then (now.1 + usec / 1000000, usec mod 1000000) else (now.1, usec).

Definition http_dir_size_with_partial (path : bytes) : hm (Z * Z) :=
  t ← sysc SysGettimeofday;
  '(total, ctx) ← dir_size_walk (S DIR_SIZE_MAX_DEPTH) path (DirSizeCtx (dir_size_deadline (now_of t)) 0 0);
  mret (total, ds_partial ctx).

(** The chain of [||] that builds the body; [None] when something does not fit. *)
Definition dirsize_body (path : bytes) (sz partial : Z) : option bytes :=
  b ← buf_append_cstr 256 [] (jstr "{'path':'");
  b ← json_escape_append 256 b path;
  b ← buf_append_cstr 256 b (jstr "','size':");
  b ← buf_append_u64 256 b sz;
  buf_append_cstr 256 b (if negb (partial =? 0) then jstr ",'partial':true}" else jstr ",'partial':false}").

Definition api_dirsize (r : http_request_t) : hm (option nat) :=
  let path := path_param r [SLASH] in
  safe ← validate_path path FTP_PATH_MAX;
  match safe with
  | None => error_json HTTP_STATUS_403_FORBIDDEN (str "Path traversal attempt detected")
  | Some safe =>
      st ← sysc (SysStat safe);
      if match st with Some st => S_ISDIR (st_mode st) | None => false end then
        '(sz, partial) ← http_dir_size_with_partial safe;
        match dirsize_body path sz partial with
        | None => error_json HTTP_STATUS_500_INTERNAL_ERROR (str "Out of memory")
        | Some b =>
            resp ← json_response HTTP_STATUS_200_OK;
            _ ← http_response_add_header resp (str "Cache-Control") (str "no-store");
            _ ← http_response_set_body resp b;
            mret resp
        end
      else error_json HTTP_STATUS_400_BAD_REQUEST (str "Not a directory")
  end.

(** ** The web interface *)

Definition mime_for_ext (path : bytes) : bytes :=
  match strrchr path DOT with
  | None => str "application/octet-stream"
  | Some i =>
      let ext := drop (S i) path in
      if strcaseeq ext (str "html") then str "text/html; charset=utf-8"
      else if strcaseeq ext (str "css") then str "text/css; charset=utf-8"
      else if strcaseeq ext (str "js") then str "application/javascript; charset=utf-8"
      else if strcaseeq ext (str "json") then str "application/json; charset=utf-8"
      else if strcaseeq ext (str "png") then str "image/png"
      else if strcaseeq ext (str "jpg") then str "image/jpeg"
      else if strcaseeq ext (str "jpeg") then str "image/jpeg"
      else if strcaseeq ext (str "gif") then str "image/gif"
      else if strcaseeq ext (str "svg") then str "image/svg+xml"
      else if strcaseeq ext (str "ico") then str "image/x-icon"
      else if strcaseeq ext (str "webp") then str "image/webp"
      else if strcaseeq ext (str "woff") then str "font/woff"
      else if strcaseeq ext (str "woff2") then str "font/woff2"
      else if strcaseeq ext (str "ttf") then str "font/ttf"
      else if strcaseeq ext (str "map") then str "application/json"
      else str "application/octet-stream"
  end.

Definition HTTP_WEB_ROOT : bytes := str "web/".

(** The path of a static request: without the slash and the query, at most
    1023 characters; the empty path is the index. *)
Definition static_path (uri : bytes) : bytes :=
  let path := match uri with c :: p => if c =? SLASH then p else uri | [] => uri end in
  let path := match path with [] => str "index.html" | _ => path end in
  take 1023 (match strchr path 63 with Some i => take i path | None => path end).

(** [fread(content, 1, size, fp)] *)
Fixpoint fread (n : nat) (fd size : Z) (acc : bytes) : hm bytes :=
  match n with
  | O => diverge
  | S n' =>
      if size <=? strlen acc then mret acc
      else
        d ← sysc (SysRead fd (size - strlen acc));
        match d with
        | Some ((_ :: _) as b) => fread n' fd size (acc ++ b)
        | _ => mret acc
        end
  end.

Definition is_index (path : bytes) : bool :=
  match strstr path (str "index.html") with Some _ => true | None => false end.

(** The text with the patch before the closing head tag, if there is one. *)
Definition patched (content : bytes) : option bytes :=
  (fun i => take i content ++ k_frontend_patch ++ drop i content) <$> strstr (cstr_of content) (str "</head>").

(** A file that is not on disk: the embedded resources. *)
Definition serve_embedded (path : bytes) : hm (option nat) :=
  match http_get_resource path with
  | None =>
      resp ← http_response_create HTTP_STATUS_404_NOT_FOUND;
      _ ← http_response_set_body resp (str "404 Not Found");
      mret resp
  | Some econtent =>
      resp ← http_response_create HTTP_STATUS_200_OK;
      _ ← http_response_add_header resp (str "Content-Type") (mime_for_ext path);
      sent ← (if is_index path then
                src ← malloc (econtent ++ [0]);
                match src with
                | None => mret false
                | Some src =>
                    sent ← match patched econtent with
                           | None => mret false
                           | Some text =>
                               out ← malloc (text ++ [0]);
                               match out with
                               | None => mret false
                               | Some out =>
                                   _ ← free src;
                                   rc ← http_response_set_body_owned resp (PHeap out 0) (strlen text);
                                   if rc =? 0 then mret true
                                   else _ ← free out; mret false
                               end
                           end;
                    if (sent : bool) then mret true else _ ← free src; mret false
                end
              else mret false);
      if (sent : bool) then mret resp
      else
        rc ← http_response_set_body resp econtent;
        _ ← (if negb (rc =? 0)
             then http_response_set_body_ref resp (PStatic econtent) (strlen econtent) else mret 0);
        mret resp
  end.

Definition CSRF_PLACEHOLDER : bytes := str "<!-- CSRF_TOKEN -->".

(** The tag that carries the token; true when the response was completed with
    it, in which case [content] has been freed. *)
Definition inject_token (resp : option nat) (path : bytes) (block : nat) (content : bytes) : hm bool :=
  if is_index path then
    token ← http_csrf_get_token;
    let meta_tag := snprintf_buf 128 (jstr "<meta name='csrf-token' content='" ++ token ++ jstr "'>") in
    match strstr (cstr_of content) CSRF_PLACEHOLDER with
    | None => mret false
    | Some prefix_len =>
        let after := (prefix_len + length CSRF_PLACEHOLDER)%nat in
        rc ← http_response_set_body_splice resp (PHeap block 0) (Z.of_nat prefix_len) meta_tag
               (PHeap block after) (u64 (strlen content - Z.of_nat after));
        if rc =? 0 then _ ← free block; mret true else mret false
    end
  else mret false.

(** The response for the file's contents, held in [block]. *)
Definition serve_content (path : bytes) (block : nat) (content : bytes) : hm (option nat) :=
  resp ← http_response_create HTTP_STATUS_200_OK;
  _ ← http_response_add_header resp (str "Content-Type") (mime_for_ext path);
  _ ← http_response_add_header resp (str "Cache-Control") (str "no-cache");
  sent ← inject_token resp path block content;
  if (sent : bool) then mret resp
  else
    rc ← http_response_set_body resp content;
    if rc =? 0 then _ ← free block; mret resp
    else
      rc ← http_response_set_body_owned resp (PHeap block 0) (strlen content);
      if rc =? 0 then mret resp
      else
        _ ← http_response_destroy resp;
        _ ← free block;
        error_json HTTP_STATUS_500_INTERNAL_ERROR (str "Body allocation failed").

(** A file on disk. *)
Definition serve_file (path fspath : bytes) (size : Z) : hm (option nat) :=
  fd ← sysc (SysOpen fspath O_RDONLY 0);
  if fd <? 0 then error_json HTTP_STATUS_500_INTERNAL_ERROR (str "Cannot open file")
  else
    block ← malloc (replicate (Z.to_nat (size + 1)) 0);
    match block with
    | None =>
        _ ← sysc (SysClose fd);
        error_json HTTP_STATUS_500_INTERNAL_ERROR (str "Out of memory")
    | Some block =>
        content ← fread fuel fd size [];
        _ ← sysc (SysClose fd);
        _ ← upd (fun s => set_heap (<[block := content ++ [0]]> (heap s)) s);
        match (if is_index path then patched content else None) with
        | None => serve_content path block content
        | Some text =>
            out ← malloc (text ++ [0]);
            match out with
            | None => serve_content path block content
            | Some out => _ ← free block; serve_content path out text
            end
        end
    end.

Definition serve_static (r : http_request_t) : hm (option nat) :=
  let path := static_path (uri r) in
  match strstr path (str "..") with
  | Some _ => error_json HTTP_STATUS_403_FORBIDDEN (str "Path traversal blocked")
  | None =>
      let fspath := HTTP_WEB_ROOT ++ path in
      if 1024 <=? strlen fspath then error_json HTTP_STATUS_400_BAD_REQUEST (str "Path too long")
      else
        st ← sysc (SysStat fspath);
        match st with
        | Some st =>
            if S_ISREG (st_mode st) then serve_file path fspath (u64 (st_size st))
            else serve_embedded path
        | None => serve_embedded path
        end
  end.

(** ** The router *)

Context {Hother : OtherApi W}.

Definition run_api (a : api) (buf : bytes) (r : http_request_t) : hm (option nat) :=
  match a with
  | ApiList => api_list r
  | ApiDirsize => api_dirsize r
  | ApiDownload => api_download r
  | ApiCreateFile => api_create_file buf r
  | ApiMkdir => api_mkdir r
  | ApiDelete => api_delete r
  | ApiRename => api_rename r
  | ApiCopyProgress => api_copy_progress
  | ApiCopyCancel => api_copy_cancel
  | ApiCopyPause => api_copy_pause
  | ApiCopy => api_copy r
  | ApiLegacy json => api_legacy_disabled_json json
  | ApiStatic => serve_static r
  | ApiOther o => other o buf r
  end.

Definition http_api_handle (buf : bytes) (r : http_request_t) : hm (option nat) :=
  s ← ask id;
  if bool_decide (method r = HTTP_METHOD_POST) && negb (http_csrf_validate s buf r =? 0) then
    error_json HTTP_STATUS_403_FORBIDDEN (str "Invalid or missing CSRF token")
  else run_api (route_of r) buf r.

End api.
