(* ===== verification/HttpServer.v ===== *)
(** * HTTP connections: [src/http_server.c]

    The callbacks of the event loop: a connection is accepted into a static
    table, its request is collected until the blank line, an upload is
    streamed into its file, any other request goes to [http_api_handle] and
    its response is sent; then the connection is closed.  A connection pointer
    is an index of the table. *)

From S2P Require Import Prelude CLib FtpTypes FtpPath Os PalNetwork PalFileio PalCopy.
From S2P Require Import HttpParser HttpState HttpResponse HttpCsrf HttpQuery HttpApi.

(** ** Parsing the head of a request *)

(** [strncasecmp(s, pat, strlen(pat)) == 0] *)
Definition case_prefix (pat s : bytes) : bool :=
  bool_decide (map tolower (take (length pat) s) = map tolower pat).

(** The loop over the header lines, [p] to [e] in the buffer; the last
    Content-Length counts. *)
Fixpoint content_length_loop (n : nat) (buf : bytes) (p e : nat) (cl : Z) : Z :=
  match n with
  | O => cl
  | S n' =>
      if (e <=? p)%nat || match drop p buf with [] => true | _ => false end then cl
      else match strstr (drop p buf) CRLF with
      | None => cl
      | Some i =>
          if (e <? p + i)%nat then cl
          else if (i =? 0)%nat then cl
          else
            let cl := if case_prefix (str "Content-Length:") (drop p buf)
                      then strtoull (drop_while blank (drop (p + 15) buf)) else cl in
            content_length_loop n' buf (p + i + 2) e cl
      end
  end.

(** Method, URI, header length and content length of the C string [buf]. *)
Definition http_parse_basic_request (buf : bytes) (method_cap uri_cap : Z) :
    option (bytes * bytes * Z * Z) :=
  match strstr buf (CRLF ++ CRLF), strstr buf CRLF, strchr buf SPACE with
  | Some e, Some line_end, Some sp1 =>
      if (line_end <=? sp1)%nat then None
      else match strchr (drop (S sp1) buf) SPACE with
      | None => None
      | Some ulen =>
          if (line_end <=? S sp1 + ulen)%nat then None
          else if (sp1 =? 0)%nat || (method_cap <=? Z.of_nat sp1) then None
          else if (ulen =? 0)%nat || (uri_cap <=? Z.of_nat ulen) then None
          else Some (take sp1 buf, take ulen (drop (S sp1) buf), Z.of_nat e + 4,
                     content_length_loop (length buf) buf (line_end + 2) e 0)
      end
  | _, _, _ => None
  end.

(** ** Uploads: names *)

Definition url_decode_component (s : bytes) (out_cap : Z) : option bytes :=
  if out_cap <? 2 then None
  else let '(ok, out) := decode_loop s (Z.to_nat (out_cap - 1)) in
       if (ok : bool) then Some out else None.

Definition get_query_param (uri key : bytes) (out_cap : Z) : option bytes :=
  if out_cap <? 2 then None
  else match strchr uri 63 with
  | None => None
  | Some q =>
      let pattern := snprintf_buf 64 (key ++ [61]) in
      match strstr (drop (S q) uri) pattern with
      | None => None
      | Some p =>
          match url_decode_component (drop (S q + p + length pattern) uri) out_cap with
          | Some ((_ :: _) as out) => Some out
          | _ => None
          end
      end
  end.

Definition is_safe_path_local (path : bytes) : bool :=
  match path with
  | c :: _ =>
      (c =? SLASH) && match strstr path (str "//") with Some _ => false | None => true end
      && no_dotdot true path
  | [] => false
  end.

Definition is_safe_filename_local (name : bytes) : bool :=
  match name with
  | [] => false
  | _ =>
      match strstr name (str "..") with
      | Some _ => false
      | None => forallb (fun c => negb ((c =? SLASH) || (c =? 92))) name
      end
  end.

(** The name of an uploaded file, in an array of 1024 bytes. *)
Definition upload_name (dir_path file_name : bytes) : bytes :=
  snprintf_buf 1024
    (if streq dir_path [SLASH] then SLASH :: file_name else dir_path ++ SLASH :: file_name).

(** The root check of the upload handler, on the text of the path. *)
Definition upload_in_root (root full : bytes) : bool :=
  match root with
  | [] => true
  | _ =>
      if streq root [SLASH] then true
      else strneq full root (length root)
           && match drop (length root) full with c :: _ => c =? SLASH | [] => true end
  end.

(** ** The connection table *)

(** [fd = -1], the rest as [http_connection_release] leaves it. *)
Definition connection_free (c : http_connection_t) : http_connection_t :=
  Connection false (-1) (buffer c) 0 0 (-1) 0 None.

Definition conn_at (s : http_state) (i : nat) : http_connection_t :=
  default connection_zero (g_http_connections s !! i).

Definition on_conn (i : nat) (f : http_connection_t -> http_connection_t) (s : http_state) : http_state :=
  set_g_http_connections (alter f i (g_http_connections s)) s.

Definition http_connections_init (s : http_state) : http_state :=
  set_g_http_connections (map connection_free (g_http_connections s)) s.

(** The index of the first connection without a descriptor. *)
Fixpoint first_closed (l : list http_connection_t) : option nat :=
  match l with
  | [] => None
  | c :: l' => if conn_fd c <? 0 then Some 0%nat else S <$> first_closed l'
  end.

Definition new_connection (client_fd : Z) : http_connection_t :=
  set_upload_fd (-1) (set_conn_fd client_fd (set_conn_server true connection_zero)).

(** An index of the table is less than HTTP_MAX_CONNECTIONS, the length of the
    table. *)
Definition http_connection_acquire (client_fd : Z) (s : http_state) : option (nat * http_state) :=
  if client_fd <? 0 then None
  else match first_closed (g_http_connections s) with
  | None => None
  | Some i => Some (i, on_conn i (fun _ => new_connection client_fd) s)
  end.

(** The connection after [b] was read into the free part of its buffer. *)
Definition collect (c : http_connection_t) (b : bytes) : http_connection_t :=
  set_buffer (list_inserts (Z.to_nat (buffer_used c)) (b ++ [0]) (buffer c))
    (set_buffer_used (buffer_used c + strlen b) c).

(** [http_parse_request] on what a connection has collected. *)
Definition parsed (c : http_connection_t) : Z * bytes * http_request_t :=
  http_parse_request (Some (buffer c)) (Z.to_nat (buffer_used c)).

(** [events] of the loop. *)
Definition EVENT_READ : Z := 1.
Definition EVENT_ERROR : Z := 4.
Definition EVENT_CLOSE : Z := 8.

Section server.
Context {W : Type} `{OS W} (fuel : nat).
Abbreviation hm := (M (st http_state W)).

Definition http_connection_release (i : nat) : hm unit :=
  c ← ask (fun s => conn_at s i);
  _ ← (if 0 <=? upload_fd c then _ ← io (pal_file_close (upload_fd c)); mret tt else mret tt);
  _ ← match upload_chunk_buf c with Some b => free b | None => mret tt end;
  upd (on_conn i connection_free).

Definition http_close_connection (i : nat) : hm unit :=
  c ← ask (fun s => conn_at s i);
  let fd := conn_fd c in
  _ ← (if conn_server c && (0 <=? fd) then
         _ ← sysc (SysEventRemove fd);
         upd (fun s => if 0 <? connection_count s
                       then set_connection_count (connection_count s - 1) s else s)
       else mret tt);
  _ ← (if 0 <=? fd then _ ← sysc (SysClose fd); mret tt else mret tt);
  http_connection_release i.

Definition http_accept_callback (fd : Z) : hm Z :=
  '(client_fd, _) ← sysc (SysAccept fd);
  if client_fd <? 0 then mret 0
  else
    _ ← sysc (SysSetsockopt client_fd TCP_NODELAY 1);
    _ ← sysc (SysSetsockopt client_fd SO_RCVBUF HTTP_UPLOAD_RCVBUF_SIZE);
    count ← ask connection_count;
    if Z.of_nat HTTP_MAX_CONNECTIONS <=? count then _ ← sysc (SysClose client_fd); mret 0
    else
      s ← ask id;
      match http_connection_acquire client_fd s with
      | None => _ ← sysc (SysClose client_fd); mret 0
      | Some (i, s') =>
          _ ← upd (fun _ => set_connection_count (connection_count s' + 1) s');
          _ ← sysc (SysEventAdd client_fd);
          mret 0
      end.

(** ** Sending a response *)

(** [p + k] *)
Definition ptr_add (p : ptr) (k : nat) : ptr :=
  match p with PStatic b => PStatic (drop k b) | PHeap i off => PHeap i (off + k) end.

(** The loop over the segments of an injected page; [sent] bytes of the first
    one have been sent. *)
Fixpoint send_segments (fd sent : Z) (segs : list (option ptr * Z)) : hm Z :=
  match segs with
  | [] => mret 0
  | (None, _) :: segs' => send_segments fd 0 segs'
  | (Some p, len) :: segs' =>
      if (len =? 0) || (len <=? sent) then send_segments fd 0 segs'
      else
        b ← load (ptr_add p (Z.to_nat sent)) (Z.to_nat (len - sent));
        rc ← io (pal_send_all fuel fd b);
        if rc <? 0 then mret (-1) else send_segments fd 0 segs'
  end.

(** The zero-copy loop: descriptor, offset and count of the response. *)
Fixpoint sendfile_loop (n : nat) (fd file_fd offset remaining : Z) : hm unit :=
  match n with
  | O => diverge
  | S n' =>
      if remaining =? 0 then mret tt
      else
        let chunk := if HTTP_SENDFILE_CHUNK_SIZE <? remaining then HTTP_SENDFILE_CHUNK_SIZE
                     else remaining in
        '(sent, offset) ← io (pal_sendfile fd file_fd offset chunk);
        if sent <? 0 then mret tt
        else if sent =? 0 then
          e ← io get_errno;
          if e =? EINTR then sendfile_loop n' fd file_fd offset remaining else mret tt
        else sendfile_loop n' fd file_fd offset (u64 (remaining - sent))
  end.

(** The [pread] loop, with buffers of [cap] bytes. *)
Fixpoint pread_loop (n : nat) (fd file_fd offset remaining cap : Z) : hm unit :=
  match n with
  | O => diverge
  | S n' =>
      if remaining =? 0 then mret tt
      else
        d ← sysc (SysPread file_fd (if remaining <? cap then remaining else cap) offset);
        match d with
        | None =>
            e ← io get_errno;
            if e =? EINTR then pread_loop n' fd file_fd offset remaining cap else mret tt
        | Some [] => mret tt
        | Some b =>
            rc ← io (pal_send_all fuel fd b);
            if rc <? 0 then mret tt
            else pread_loop n' fd file_fd (offset + strlen b) (u64 (remaining - strlen b)) cap
        end
  end.

Definition send_file (fd : Z) (r : http_response_t) : hm unit :=
  if negb (sendfile_safe r =? 0)
  then sendfile_loop fuel fd (sendfile_fd r) (sendfile_offset r) (sendfile_count r)
  else
    ok ← sysc (SysMalloc HTTP_DOWNLOAD_PREAD_CHUNK);
    pread_loop fuel fd (sendfile_fd r) (sendfile_offset r) (sendfile_count r)
      (if (ok : bool) then HTTP_DOWNLOAD_PREAD_CHUNK else 4096).

(** *** The entries of a directory *)

(** The characters of a name, as long as they fit. *)
Fixpoint stream_escape (pos : Z) (name : bytes) : bytes :=
  match name with
  | [] => []
  | c :: name' =>
      if pos <? 4096 - 64 then
        if (c =? 34) || (c =? BACKSLASH) then BACKSLASH :: c :: stream_escape (pos + 2) name'
        else c :: stream_escape (pos + 1) name'
      else []
  end.

Definition stream_entry (first : bool) (name : bytes) (st : stat_t) : bytes :=
  let opening := (if first then [] else [44]) ++ jstr "{'name':'" in
  opening ++ stream_escape (strlen opening) name ++ jstr "','type':'"
  ++ (if S_ISDIR (st_mode st) then str "directory" else str "file") ++ jstr "','size':"
  ++ fmt_d (if S_ISDIR (st_mode st) then st_blocks st * 512 else st_size st) ++ jstr "}".

(** Names the listing of the root leaves out. *)
Definition hidden_entry (stream_path name : bytes) : bool :=
  streq stream_path [SLASH]
  && (streq name (str "dev") || streq name (str "proc") || streq name (str "sys") || streq name (str "kern")).

(** A chunk: size in hexadecimal, data; false when sending fails. *)
Definition send_chunk (fd : Z) (d : bytes) : hm bool :=
  rc ← io (pal_send_all fuel fd (fmt_x (strlen d) ++ CRLF));
  if rc <? 0 then mret false
  else
    rc ← io (pal_send_all fuel fd d);
    if rc <? 0 then mret false
    else rc ← io (pal_send_all fuel fd CRLF); mret (negb (rc <? 0)).

Fixpoint stream_entries (n : nat) (fd dir : Z) (path : bytes) (first : bool) : hm unit :=
  match n with
  | O => diverge
  | S n' =>
      ent ← sysc (SysReaddir dir);
      match ent with
      | None => mret tt
      | Some (name, _) =>
          if streq name (str ".") || streq name (str "..") || hidden_entry path name
          then stream_entries n' fd dir path first
          else
            st ← sysc (SysStat (snprintf_buf 2048 (path ++ SLASH :: name)));
            match st with
            | None => stream_entries n' fd dir path first
            | Some st =>
                ok ← send_chunk fd (stream_entry first name st);
                if (ok : bool) then stream_entries n' fd dir path false else mret tt
            end
      end
  end.

Definition stream_listing (fd : Z) (resp : nat) (dir : Z) (path : bytes) : hm unit :=
  _ ← stream_entries fuel fd dir path true;
  _ ← sysc (SysClosedir dir);
  _ ← upd (on_resp resp (set_stream_dir None));
  _ ← io (pal_send_all fuel fd (fmt_x 2 ++ CRLF));
  _ ← io (pal_send_all fuel fd (str "]}"));
  _ ← io (pal_send_all fuel fd CRLF);
  _ ← io (pal_send_all fuel fd (str "0" ++ CRLF ++ CRLF));
  mret tt.

(** *** The whole response *)

Definition send_response (fd : Z) (resp : nat) : hm Z :=
  r ← ask (fun s => resp_at s resp);
  rc ← (if 0 <? used r then io (pal_send_all fuel fd (data r)) else mret 0);
  if rc <? 0 then _ ← http_response_destroy (Some resp); mret (-1)
  else
    rc ← send_segments fd (mem_seg_sent r) (drop (mem_seg_index r) (mem_segs r));
    if rc <? 0 then _ ← http_response_destroy (Some resp); mret (-1)
    else
      rc ← match mem_body r with
           | Some p =>
               if mem_sent r <? mem_length r then
                 b ← load (ptr_add p (Z.to_nat (mem_sent r))) (Z.to_nat (mem_length r - mem_sent r));
                 io (pal_send_all fuel fd b)
               else mret 0
           | None => mret 0
           end;
      if rc <? 0 then _ ← http_response_destroy (Some resp); mret (-1)
      else
        _ ← (if 0 <=? sendfile_fd r then
               _ ← send_file fd r;
               _ ← sysc (SysClose (sendfile_fd r));
               upd (on_resp resp (set_sendfile_fd (-1)))
             else mret tt);
        _ ← match stream_dir r with
            | Some dir => stream_listing fd resp dir (stream_path r)
            | None => mret tt
            end;
        _ ← http_response_destroy (Some resp);
        mret 0.

Context {Hres : Resources} {Hother : OtherApi W}.

Definition http_handle_request (i : nat) : hm Z :=
  c ← ask (fun s => conn_at s i);
  let '(rc, buf, request) := parsed c in
  _ ← upd (on_conn i (set_buffer buf));
  if rc <? 0 then mret (-1)
  else
    resp ← http_api_handle fuel buf request;
    resp ← match resp with
           | Some _ => mret resp
           | None =>
               resp ← http_response_create HTTP_STATUS_500_INTERNAL_ERROR;
               _ ← http_response_set_body resp (str "Internal Server Error");
               mret resp
           end;
    match resp with
    | None => mret (-1)
    | Some resp => send_response (conn_fd c) resp
    end.

(** ** Collecting a request; uploads *)

(** A short response written with one [write], whose result is ignored. *)
Definition quick_reply (fd : Z) (status : http_status_t) (json : bool) (text : bytes) : hm unit :=
  resp ← http_response_create status;
  match resp with
  | None => mret tt
  | Some i =>
      _ ← (if json then
             _ ← http_response_add_header resp (str "Content-Type") (str "application/json");
             http_response_add_header resp (str "Access-Control-Allow-Origin") (str "*")
           else mret 0);
      _ ← http_response_set_body resp text;
      d ← ask (fun s => data (resp_at s i));
      _ ← (if 0 <? strlen d then _ ← sysc (SysWrite fd d); mret tt else mret tt);
      http_response_destroy resp
  end.

(** Close the connection and return -1. *)
Definition drop_connection (i : nat) : hm Z := _ ← http_close_connection i; mret (-1).

Definition reply_and_drop (i : nat) (fd : Z) (status : http_status_t) (json : bool) (text : bytes) : hm Z :=
  _ ← quick_reply fd status json text; drop_connection i.

(** The write loop of the upload stream: false when it fails. *)
Fixpoint upload_write (n : nat) (fd : Z) (rest : bytes) : hm bool :=
  match n with
  | O => diverge
  | S n' =>
      match rest with
      | [] => mret true
      | _ =>
          w ← sysc (SysWrite fd rest);
          if 0 <? w then upload_write n' fd (drop (Z.to_nat w) rest)
          else
            e ← io get_errno;
            if (w <? 0) && (e =? EINTR) then upload_write n' fd rest else mret false
      end
  end.

(** The loop that writes the final response of an upload. *)
Fixpoint reply_write (n : nat) (fd : Z) (rest : bytes) : hm unit :=
  match n with
  | O => diverge
  | S n' =>
      match rest with
      | [] => mret tt
      | _ =>
          sent ← sysc (SysWrite fd rest);
          if sent <=? 0 then mret tt else reply_write n' fd (drop (Z.to_nat sent) rest)
      end
  end.

Definition upload_done (i : nat) (c : http_connection_t) : hm Z :=
  _ ← (if 0 <=? upload_fd c then
         _ ← io (pal_file_close (upload_fd c)); upd (on_conn i (set_upload_fd (-1)))
       else mret tt);
  resp ← json_response HTTP_STATUS_200_OK;
  _ ← match resp with
      | None => mret tt
      | Some r =>
          _ ← http_response_set_body resp (jstr "{'ok':true}");
          d ← ask (fun s => data (resp_at s r));
          _ ← reply_write fuel (conn_fd c) d;
          http_response_destroy resp
      end;
  drop_connection i.

(** [b] was read into the buffer of the upload: its block, or else the buffer
    of the connection. *)
Definition upload_fill (i : nat) (c : http_connection_t) (b : bytes) (s : http_state) : http_state :=
  match upload_chunk_buf c with
  | Some k => set_heap (alter (list_inserts 0 b) k (heap s)) s
  | None => on_conn i (fun c => set_buffer (list_inserts 0 b (buffer c)) c) s
  end.

(** A read event while an upload is active. *)
Definition upload_read (i : nat) (c : http_connection_t) : hm Z :=
  let rd_cap := match upload_chunk_buf c with
                | Some _ => HTTP_UPLOAD_CHUNK_SIZE | None => HTTP_REQUEST_BUFFER_SIZE end in
  d ← sysc (SysRead (conn_fd c) rd_cap);
  match d with
  | Some ((_ :: _) as b) =>
      _ ← upd (upload_fill i c b);
      let got := if upload_remaining c <? strlen b then upload_remaining c else strlen b in
      ok ← (if (0 <? got) && (0 <=? upload_fd c)
            then upload_write fuel (upload_fd c) (take (Z.to_nat got) b) else mret true);
      if negb (ok : bool) then drop_connection i
      else
        let remaining := upload_remaining c - got in
        _ ← upd (on_conn i (set_upload_remaining remaining));
        if remaining =? 0 then upload_done i (set_upload_remaining remaining c) else mret 0
  | _ => drop_connection i
  end.

(** [mkdir_recursive]: the prefixes that end before a slash, shortest first,
    then the path itself. *)
Definition make_dir (p : bytes) : hm bool :=
  st ← sysc (SysStat p);
  match st with
  | Some _ => mret true
  | None =>
      rc ← sysc (SysMkdir p 511);
      e ← io get_errno;
      mret (negb (negb (rc =? 0) && negb (e =? EEXIST)))
  end.

Fixpoint mkdir_prefixes (done rest : bytes) : hm bool :=
  match rest with
  | [] => make_dir done
  | c :: rest' =>
      ok ← (if (c =? SLASH) && (0 <? strlen done) then make_dir done else mret true);
      if (ok : bool) then mkdir_prefixes (done ++ [c]) rest' else mret false
  end.

Definition mkdir_recursive (path : bytes) : hm bool :=
  match path with
  | [] => mret false
  | _ => if 1024 <=? strlen path then mret false else mkdir_prefixes [] path
  end.

(** The directories of an upload: false when one cannot be made. *)
Definition upload_dirs (full : bytes) : hm bool :=
  match strrchr full SLASH with
  | Some (S k) => if Z.of_nat (S k) <? 1024 then mkdir_recursive (take (S k) full) else mret true
  | _ => mret true
  end.

(** From the opened file on: write what came with the headers. *)
Definition upload_begin (i : nat) (buf : bytes) (out_fd used header_len content_length : Z) : hm Z :=
  _ ← upd (on_conn i (fun c => set_upload_active 1 (set_upload_fd out_fd c)));
  chunk ← ask (fun s => upload_chunk_buf (conn_at s i));
  _ ← match chunk with
      | Some _ => mret tt
      | None =>
          b ← malloc (replicate (Z.to_nat HTTP_UPLOAD_CHUNK_SIZE) 0);
          upd (on_conn i (set_upload_chunk_buf b))
      end;
  let in_buf := if header_len <? used then Z.min (used - header_len) content_length else 0 in
  rc ← (if 0 <? in_buf
        then io (pal_file_write_all fuel out_fd (take (Z.to_nat in_buf) (drop (Z.to_nat header_len) buf)))
        else mret 0);
  if rc <? 0 then drop_connection i
  else
    let remaining := content_length - in_buf in
    _ ← upd (on_conn i (fun c => set_buffer (poke 0 0 (buffer c)) (set_buffer_used 0 (set_upload_remaining remaining c))));
    if remaining =? 0 then
      _ ← io (pal_file_close out_fd);
      _ ← upd (on_conn i (fun c => set_upload_active 0 (set_upload_fd (-1) c)));
      fd ← ask (fun s => conn_fd (conn_at s i));
      reply_and_drop i fd HTTP_STATUS_200_OK true (jstr "{'ok':true}")
    else mret 0.

(** POST /api/upload. *)
Definition start_upload (i : nat) (c : http_connection_t) (uri : bytes) (header_len content_length : Z) : hm Z :=
  let fd := conn_fd c in
  let '(rc, buf, up_req) := parsed c in
  _ ← upd (on_conn i (set_buffer buf));
  s ← ask id;
  if (rc <? 0) || negb (http_csrf_validate s buf up_req =? 0) then
    reply_and_drop i fd HTTP_STATUS_403_FORBIDDEN true (jstr "{'error':'Invalid or missing CSRF token'}")
  else if content_length =? 0 then
    reply_and_drop i fd HTTP_STATUS_400_BAD_REQUEST false (str "Missing Content-Length")
  else match get_query_param uri (str "path") 1024, get_query_param uri (str "name") 256 with
  | Some dir_path, Some file_name =>
      if negb (is_safe_path_local dir_path) || negb (is_safe_filename_local file_name) then drop_connection i
      else
        let full := upload_name dir_path file_name in
        if negb (is_safe_path_local full) then drop_connection i
        else if negb (upload_in_root (http_api_get_root s) full) then drop_connection i
        else
          ok ← upload_dirs full;
          if negb (ok : bool) then
            reply_and_drop i fd HTTP_STATUS_500_INTERNAL_ERROR true (jstr "{'error':'Failed to create directory'}")
          else
            out_fd ← io (pal_file_open (Some full) (Z.lor O_WRONLY (Z.lor O_CREAT O_TRUNC)) 438);
            if out_fd <? 0 then
              reply_and_drop i fd HTTP_STATUS_500_INTERNAL_ERROR true (jstr "{'error':'Failed to open file for writing'}")
            else upload_begin i buf out_fd (buffer_used c) header_len content_length
  | _, _ => drop_connection i
  end.

(** The head of the request is complete. *)
Definition request_ready (i : nat) (c : http_connection_t) : hm Z :=
  match http_parse_basic_request (cstr_of (buffer c)) 8 HTTP_URI_MAX_LENGTH with
  | None => drop_connection i
  | Some (method, uri, header_len, content_length) =>
      if streq method (str "POST") && strneq uri (str "/api/upload") 11
      then start_upload i c uri header_len content_length
      else
        let buf_limit := HTTP_REQUEST_BUFFER_SIZE - 1 in
        if (0 <? content_length)
           && ((buf_limit <? content_length) || (buf_limit <? u64 (header_len + content_length))) then
          reply_and_drop i (conn_fd c) HTTP_STATUS_400_BAD_REQUEST false (str "Request too large")
        else if (0 <? content_length) && (buffer_used c <? u64 (header_len + content_length)) then mret 0
        else
          _ ← http_handle_request i;
          drop_connection i
  end.

Definition http_client_callback (i : nat) (events : Z) : hm Z :=
  if negb (Z.land events (Z.lor EVENT_CLOSE EVENT_ERROR) =? 0) then drop_connection i
  else if negb (Z.land events EVENT_READ =? 0) then
    c ← ask (fun s => conn_at s i);
    if negb (upload_active c =? 0) then upload_read i c
    else
      let remaining := HTTP_REQUEST_BUFFER_SIZE - buffer_used c - 1 in
      if remaining =? 0 then drop_connection i
      else
        d ← sysc (SysRead (conn_fd c) remaining);
        match d with
        | Some ((_ :: _) as b) =>
            let c := collect c b in
            _ ← upd (on_conn i (fun _ => c));
            match strstr (cstr_of (buffer c)) (CRLF ++ CRLF) with
            | Some _ => request_ready i c
            | None => mret 0
            end
        | _ => drop_connection i
        end
  else mret 0.

Definition http_server_destroy : hm unit :=
  conns ← ask g_http_connections;
  _ ← foldr (fun i m => c ← ask (fun s => conn_at s i);
                        _ ← (if 0 <=? conn_fd c then http_close_connection i else mret tt); m)
        (mret tt) (seq 0 (length conns));
  fd ← ask listen_fd;
  _ ← (if 0 <=? fd then
         _ ← sysc (SysEventRemove fd); _ ← sysc (SysClose fd); upd (set_listen_fd (-1))
       else mret tt);
  upd (set_g_http_server_in_use 0).

End server.
