(* ===== verification/EventLoop.v ===== *)
(** * The event loop: [src/event_loop_kqueue.c]

    The table of handlers, its operations, and the loop that fetches events
    and calls the handlers.  The user data given to the kernel is a pointer to
    an entry of the table, here its index.  Callbacks and their data are
    parameters, as they are function and data pointers in C; a callback may
    use the loop and has a state [U] of its own beside it.  What the kernel
    promises of a kqueue is the class [KqueueOS]. *)

From S2P Require Import Prelude CLib FtpTypes Os HttpServer.

Definition EVENT_WRITE : Z := 2.
Definition MAX_EVENTS : Z := 1024.
Definition MAX_HANDLERS : nat := 1024.

(** Constants of [sys/event.h]. *)
Definition EVFILT_READ : Z := -1.
Definition EVFILT_WRITE : Z := -2.
Definition EV_ADD : Z := 1.
Definition EV_DELETE : Z := 2.
Definition EV_ENABLE : Z := 4.
Definition EV_ERROR : Z := 16384.
Definition EV_EOF : Z := 32768.

(** [flags & bit] *)
Definition has_flag (flags bit : Z) : bool := negb (Z.land flags bit =? 0).

Section loop.
Context {C D U W : Type} {os : OS W}.

(** An entry with a negative descriptor is unused; [None] is a null pointer. *)
Record handler_entry_t := Handler { h_fd : Z; h_callback : option C; h_data : option D }.

(** The loop and the flag that it exists; the storage for events is in the
    request that fetches them. *)
Record event_loop_t := Loop {
  kq : Z;
  running : Z;
  max_events : Z;
  handlers : list handler_entry_t;
  handler_count : nat;
  g_event_loop_in_use : Z
}.

Definition set_running v l := Loop (kq l) v (max_events l) (handlers l) (handler_count l) (g_event_loop_in_use l).
Definition set_handlers v n l := Loop (kq l) (running l) (max_events l) v n (g_event_loop_in_use l).

Definition handler_zero : handler_entry_t := Handler 0 None None.
Definition handler_unused : handler_entry_t := Handler (-1) None None.

(** ** The table *)

(** The index of the first entry with descriptor [fd]. *)
Fixpoint fd_index (fd : Z) (hs : list handler_entry_t) : option nat :=
  match hs with
  | [] => None
  | h :: hs' => if h_fd h =? fd then Some 0%nat else S <$> fd_index fd hs'
  end.

Fixpoint free_index (hs : list handler_entry_t) : option nat :=
  match hs with
  | [] => None
  | h :: hs' => if h_fd h <? 0 then Some 0%nat else S <$> free_index hs'
  end.

Definition find_handler (l : event_loop_t) (fd : Z) : option nat :=
  fd_index fd (take (handler_count l) (handlers l)).

Definition add_handler (l : event_loop_t) (fd : Z) (cb : option C) (data : option D) :
    option (nat * event_loop_t) :=
  match find_handler l fd with
  | Some i =>
      Some (i, set_handlers (alter (fun h => Handler (h_fd h) cb data) i (handlers l)) (handler_count l) l)
  | None =>
      match free_index (take MAX_HANDLERS (handlers l)) with
      | Some i =>
          Some (i, set_handlers (<[i := Handler fd cb data]> (handlers l))
                     (if (handler_count l <=? i)%nat then S i else handler_count l) l)
      | None => None
      end
  end.

Definition remove_handler (l : event_loop_t) (fd : Z) : event_loop_t :=
  match find_handler l fd with
  | Some i => set_handlers (<[i := handler_unused]> (handlers l)) (handler_count l) l
  | None => l
  end.

(** ** Operations *)

Abbreviation em := (M (st (event_loop_t * U) W)).

Definition on_loop (f : event_loop_t -> event_loop_t) : em unit := upd (fun s => (f s.1, s.2)).
Definition loop_get {A} (f : event_loop_t -> A) : em A := ask (fun s => f s.1).

(** Whether the result is a loop. *)
Definition event_loop_create : em bool :=
  in_use ← loop_get g_event_loop_in_use;
  if negb (in_use =? 0) then mret true
  else
    fd ← sysc SysKqueue;
    _ ← on_loop (fun _ => Loop fd 0 0 (replicate MAX_HANDLERS handler_zero) 0 in_use);
    if fd <? 0 then mret false
    else
      _ ← on_loop (fun _ => Loop fd 0 MAX_EVENTS (replicate MAX_HANDLERS handler_unused) 0 1);
      mret true.

Definition event_loop_destroy : em unit :=
  fd ← loop_get kq;
  _ ← (if 0 <=? fd then _ ← sysc (SysClose fd); mret tt else mret tt);
  on_loop (fun l => Loop (-1) 0 0 (replicate MAX_HANDLERS handler_unused) 0 0).

(** [EV_SET] and [kevent] with one change. *)
Definition register (fd filter : Z) (h : nat) : em Z :=
  q ← loop_get kq;
  sysc (SysKevent q [Kevent fd filter (Z.lor EV_ADD EV_ENABLE) (Some h)]).

Definition event_loop_add (fd events : Z) (cb : option C) (data : option D) : em Z :=
  if (fd <? 0) || match cb with None => true | _ => false end then mret (-1)
  else
    l ← loop_get id;
    match add_handler l fd cb data with
    | None => mret (-1)
    | Some (h, l') =>
        _ ← on_loop (fun _ => l');
        r ← (if has_flag events EVENT_READ then register fd EVFILT_READ h else mret 0);
        if r <? 0 then mret (-1)
        else
          w ← (if has_flag events EVENT_WRITE then register fd EVFILT_WRITE h else mret 0);
          if w <? 0 then mret (-1) else mret 0
    end.

Definition event_loop_modify (fd events : Z) : em Z :=
  if fd <? 0 then mret (-1)
  else
    l ← loop_get id;
    match find_handler l fd with
    | None => mret (-1)
    | Some i =>
        let h := default handler_zero (handlers l !! i) in
        event_loop_add fd events (h_callback h) (h_data h)
    end.

Definition event_loop_remove (fd : Z) : em Z :=
  if fd <? 0 then mret (-1)
  else
    q ← loop_get kq;
    _ ← sysc (SysKevent q [Kevent fd EVFILT_READ EV_DELETE None; Kevent fd EVFILT_WRITE EV_DELETE None]);
    _ ← on_loop (fun l => remove_handler l fd);
    mret 0.

Definition event_loop_stop : em unit := on_loop (set_running 0).

(** ** The loop *)

(** The code behind a callback: descriptor, events and data. *)
Context (call : C -> Z -> Z -> option D -> em Z).

(** The mask of events that a callback is given. *)
Definition event_mask (kev : kevent_t) : Z :=
  Z.lor (if kev_filter kev =? EVFILT_READ then EVENT_READ else 0)
    (Z.lor (if kev_filter kev =? EVFILT_WRITE then EVENT_WRITE else 0)
       (Z.lor (if has_flag (kev_flags kev) EV_EOF then EVENT_CLOSE else 0)
          (if has_flag (kev_flags kev) EV_ERROR then EVENT_ERROR else 0))).

(** A call, and the removal it may ask for. *)
Definition call_handler (c : C) (kev : kevent_t) (data : option D) : em unit :=
  ret ← call c (kev_ident kev) (event_mask kev) data;
  if ret <? 0 then _ ← event_loop_remove (kev_ident kev); mret tt else mret tt.

(** The inner loop over the events fetched. *)
Fixpoint dispatch_events (evs : list kevent_t) : em unit :=
  match evs with
  | [] => mret tt
  | kev :: evs' =>
      hs ← loop_get handlers;
      _ ← match kev_udata kev ≫= fun j => hs !! j with
          | Some (Handler _ (Some c) data) => call_handler c kev data
          | _ => mret tt
          end;
      dispatch_events evs'
  end.

(** The outer loop; before each test of [running] the system says whether
    another thread has called [event_loop_stop]. *)
Fixpoint run_loop (n : nat) : em Z :=
  match n with
  | O => diverge
  | S n' =>
      stopped ← sysc SysSchedule;
      _ ← (if stopped : bool then event_loop_stop else mret tt);
      go ← loop_get running;
      if go =? 0 then mret 0
      else
        l ← loop_get id;
        evs ← sysc (SysKeventWait (kq l) (max_events l) 1);
        match evs with
        | None => e ← io get_errno; if e =? EINTR then run_loop n' else mret (-1)
        | Some evs => _ ← dispatch_events evs; run_loop n'
        end
  end.

Definition event_loop_run (n : nat) : em Z :=
  _ ← on_loop (set_running 1);
  run_loop n.

(** ** The table and the kernel's registrations *)

(** Every entry is unused, or has a callback and lies below [n]; no two have
    the same descriptor. *)
Record table_ok (hs : list handler_entry_t) (n : nat) : Prop := {
  table_len : length hs = MAX_HANDLERS;
  table_entry : forall j h, hs !! j = Some h ->
    h_fd h < 0 /\ h_callback h = None \/ 0 <= h_fd h /\ is_Some (h_callback h) /\ (j < n)%nat;
  table_inj : forall i j h h', hs !! i = Some h -> hs !! j = Some h' ->
    0 <= h_fd h -> h_fd h = h_fd h' -> i = j
}.

(** The filters registered with a kqueue, with their user data. *)
Abbreviation regs := (gmap (Z * Z) (option nat)).
Definition kev_key (k : kevent_t) : Z * Z := (kev_ident k, kev_filter k).

(** A list of changes, applied in order up to the first that fails.  A change
    that does not add a filter removes it; that fails if and only if there is
    none. *)
Inductive changed : regs -> list kevent_t -> bool -> regs -> Prop :=
| changed_nil g : changed g [] true g
| changed_add g k ks ok g' :
    has_flag (kev_flags k) EV_ADD = true ->
    changed (<[kev_key k := kev_udata k]> g) ks ok g' -> changed g (k :: ks) ok g'
| changed_add_fails g k ks :
    has_flag (kev_flags k) EV_ADD = true -> changed g (k :: ks) false g
| changed_delete g k ks ok g' :
    has_flag (kev_flags k) EV_ADD = false -> is_Some (g !! kev_key k) ->
    changed (delete (kev_key k) g) ks ok g' -> changed g (k :: ks) ok g'
| changed_delete_fails g k ks :
    has_flag (kev_flags k) EV_ADD = false -> g !! kev_key k = None -> changed g (k :: ks) false g.

(** What [kevent] promises: changes as above, events with the user data of
    their filter, one for each filter; nothing else registers a filter. *)
Class KqueueOS := {
  registered : W -> regs;
  kevent_changes : forall q ks w r e w', os_step (SysKevent q ks) w = (r, e, w') ->
    changed (registered w) ks (0 <=? r) (registered w');
  kevent_events : forall q m t w evs e w', os_step (SysKeventWait q m t) w = (Some evs, e, w') ->
    NoDup (map kev_key evs) /\
    Forall (fun k => registered w' !! kev_key k = Some (kev_udata k)) evs;
  kqueue_empty : forall w r e w', os_step SysKqueue w = (r, e, w') -> 0 <= r -> registered w' = ∅;
  no_new_filter : forall A (c : sys A) w r e w', os_step c w = (r, e, w') ->
    match c with SysKevent _ _ => True | _ => registered w' ⊆ registered w end
}.

Context {kqueue_os : KqueueOS}.

(** Only filters for reading, each pointing to the entry of its descriptor. *)
Definition synced (hs : list handler_entry_t) (g : regs) : Prop :=
  forall fd f u, g !! (fd, f) = Some u ->
    f = EVFILT_READ /\ exists j h, u = Some j /\ hs !! j = Some h /\ h_fd h = fd /\ 0 <= fd.

Definition live (s : st (event_loop_t * U) W) : Prop :=
  table_ok (handlers (ses s).1) (handler_count (ses s).1) /\
  synced (handlers (ses s).1) (registered (os_state (sysw s))).

(** The entries of other descriptors than [fd] stay where they are. *)
Definition frame (fd : Z) (s s' : st (event_loop_t * U) W) : Prop :=
  forall j h, handlers (ses s).1 !! j = Some h -> 0 <= h_fd h -> h_fd h <> fd ->
    handlers (ses s').1 !! j = Some h.

(** An invariant of the callbacks. *)
Context (J : st (event_loop_t * U) W -> Prop).

Definition good (s : st (event_loop_t * U) W) : Prop := live s /\ J s.

(** What the loop asks of callbacks: they keep the loop in order, and leave
    the registrations of other descriptors than theirs alone.  They may rely
    on an invariant that the steps of the loop itself keep. *)
Class Callbacks : Prop := {
  call_good : forall c fd ev d, hoare good (call c fd ev d) (fun _ => True);
  call_local : forall c fd ev d s r s', good s -> call c fd ev d s = (Some r, s') -> frame fd s s';
  good_init : forall s, handlers (ses s).1 = replicate MAX_HANDLERS handler_unused -> J s;
  good_schedule : hoare good (sysc SysSchedule) (fun _ => True);
  good_wait : forall q m t, hoare good (sysc (SysKeventWait q m t)) (fun _ => True);
  good_running : forall v, hoare good (on_loop (set_running v)) (fun _ => True);
  good_remove : forall fd, hoare good (event_loop_remove fd) (fun _ => True)
}.

(** ** The reference

    Each event of a batch goes to the callback that was registered for its
    descriptor when the batch was fetched. *)

Definition handler_of (hs : list handler_entry_t) (fd : Z) : option (C * option D) :=
  i ← fd_index fd hs;
  h ← hs !! i;
  c ← h_callback h;
  Some (c, h_data h).

Fixpoint dispatch_ref (tbl : Z -> option (C * option D)) (evs : list kevent_t) : em unit :=
  match evs with
  | [] => mret tt
  | kev :: evs' =>
      _ ← match tbl (kev_ident kev) with Some (c, data) => call_handler c kev data | None => mret tt end;
      dispatch_ref tbl evs'
  end.

Fixpoint run_ref (n : nat) : em Z :=
  match n with
  | O => diverge
  | S n' =>
      stopped ← sysc SysSchedule;
      _ ← (if stopped : bool then event_loop_stop else mret tt);
      go ← loop_get running;
      if go =? 0 then mret 0
      else
        l ← loop_get id;
        evs ← sysc (SysKeventWait (kq l) (max_events l) 1);
        match evs with
        | None => e ← io get_errno; if e =? EINTR then run_ref n' else mret (-1)
        | Some evs => _ ← dispatch_ref (handler_of (handlers l)) evs; run_ref n'
        end
  end.

(** ** Proofs *)

Lemma fd_index_Some fd hs i : fd_index fd hs = Some i -> exists h, hs !! i = Some h /\ h_fd h = fd.
Proof.
  revert i. induction hs as [|h hs IH]; intros i; simpl; [done|].
  destruct (Z.eqb_spec (h_fd h) fd); [intros [= <-]; eauto|].
  rewrite fmap_Some. intros (k & Hk & ->). by apply IH.
Qed.

Lemma fd_index_None fd hs j h : fd_index fd hs = None -> hs !! j = Some h -> h_fd h <> fd.
Proof.
  revert j. induction hs as [|h0 hs IH]; intros [|j]; simpl; try done;
    destruct (Z.eqb_spec (h_fd h0) fd); rewrite ?fmap_None; try done; [by intros _ [= <-] | by apply IH].
Qed.

Lemma free_index_Some hs i : free_index hs = Some i -> exists h, hs !! i = Some h /\ h_fd h < 0.
Proof.
  revert i. induction hs as [|h hs IH]; intros i; simpl; [done|].
  destruct (Z.ltb_spec (h_fd h) 0); [intros [= <-]; eauto|].
  rewrite fmap_Some. intros (k & Hk & ->). by apply IH.
Qed.

(** In an orderly table the scan up to [handler_count] misses nothing. *)
Lemma find_handler_spec l fd :
  table_ok (handlers l) (handler_count l) -> 0 <= fd ->
  match find_handler l fd with
  | Some i => exists h, handlers l !! i = Some h /\ h_fd h = fd
  | None => forall j h, handlers l !! j = Some h -> h_fd h <> fd
  end.
Proof.
  intros Ht Hfd. unfold find_handler. destruct (fd_index _ _) as [i|] eqn:E.
  - apply fd_index_Some in E as (h & Hi & Hh). apply lookup_take_Some in Hi as [Hi _]. eauto.
  - intros j h Hj Hh. destruct (table_entry _ _ Ht j h Hj) as [[Hn _]|(_ & _ & Hlt)]; [lia|].
    apply (fd_index_None fd _ j h E); [|done]. by apply lookup_take_Some.
Qed.

Lemma handler_of_entry hs n j h c :
  table_ok hs n -> hs !! j = Some h -> 0 <= h_fd h -> h_callback h = Some c ->
  handler_of hs (h_fd h) = Some (c, h_data h).
Proof.
  intros Ht Hj Hfd Hc. unfold handler_of. destruct (fd_index (h_fd h) hs) as [i|] eqn:E; simpl.
  - apply fd_index_Some in E as (h' & Hi & Hh).
    assert (j = i) as -> by (eapply (table_inj _ _ Ht j i); eauto).
    rewrite Hj in Hi. injection Hi as <-. by rewrite Hj; simpl; rewrite Hc.
  - by destruct (fd_index_None _ _ _ _ E Hj).
Qed.

Lemma alter_insert {A} (f : A -> A) (l : list A) i x : l !! i = Some x -> alter f i l = <[i := f x]> l.
Proof. revert i. induction l as [|y l IH]; intros [|i] Hi; simpl in *; simplify_eq; f_equal; eauto. Qed.

Lemma table_set hs n n' i h' :
  table_ok hs n -> (n <= n')%nat -> (i < length hs)%nat ->
  h_fd h' < 0 /\ h_callback h' = None \/ 0 <= h_fd h' /\ is_Some (h_callback h') /\ (i < n')%nat ->
  (forall j h, j <> i -> hs !! j = Some h -> 0 <= h_fd h -> h_fd h <> h_fd h') ->
  table_ok (<[i := h']> hs) n'.
Proof.
  intros Ht Hn Hi Hh Hne. split.
  - rewrite length_insert. apply Ht.
  - intros j h [(<- & <- & _)|[Hj Hl]]%list_lookup_insert_Some; [done|].
    destruct (table_entry _ _ Ht j h Hl) as [|(? & ? & ?)]; [by left|]. right. split_and!; [done..|lia].
  - intros k j h h2 Hk Hj H0 He.
    apply list_lookup_insert_Some in Hk as [(<- & <- & _)|[Hk Hlk]];
      apply list_lookup_insert_Some in Hj as [(<- & <- & _)|[Hj Hlj]]; [done|..].
    + destruct (Hne j h2); [done..|lia|done].
    + by destruct (Hne k h).
    + by eapply (table_inj _ _ Ht).
Qed.

(** The entries of other descriptors are the same in both tables. *)
Definition others_kept (fd : Z) (hs hs' : list handler_entry_t) : Prop :=
  forall j h, hs !! j = Some h -> 0 <= h_fd h -> h_fd h <> fd -> hs' !! j = Some h.

Lemma add_handler_ok l fd c d i l' :
  table_ok (handlers l) (handler_count l) -> 0 <= fd -> add_handler l fd (Some c) d = Some (i, l') ->
  table_ok (handlers l') (handler_count l') /\ others_kept fd (handlers l) (handlers l') /\
  handlers l' !! i = Some (Handler fd (Some c) d) /\
  forall j h, handlers l !! j = Some h -> h_fd h = fd -> j = i.
Proof.
  intros Ht Hfd. unfold add_handler. pose proof (find_handler_spec l fd Ht Hfd) as Hf.
  destruct (find_handler l fd) as [k|].
  - destruct Hf as (h & Hk & Hh). intros [= <- <-]. cbn [handlers handler_count set_handlers].
    rewrite (alter_insert _ _ _ _ Hk). subst fd.
    assert (Hu : forall j h', j <> k -> handlers l !! j = Some h' -> 0 <= h_fd h' -> h_fd h' <> h_fd h).
    { intros j h' Hj Hl H0 He. destruct Hj. by eapply (table_inj _ _ Ht). }
    split_and!.
    + eapply table_set; [done|lia|by eapply lookup_lt_Some| |done]. right. cbn.
      destruct (table_entry _ _ Ht k h Hk) as [[]|(? & ? & ?)]; [lia|]. split_and!; [done|eauto|done].
    + intros j h' Hj H0 Hne. rewrite list_lookup_insert_ne; [done|]. intros ->. congruence.
    + apply list_lookup_insert_eq. by eapply lookup_lt_Some.
    + intros j h' Hj He. eapply (table_inj _ _ Ht); eauto. lia.
  - destruct (free_index _) as [k|] eqn:Ek; [|done]. intros [= <- <-].
    apply free_index_Some in Ek as (h & Hk & Hh). apply lookup_take_Some in Hk as [Hk _].
    cbn [handlers handler_count set_handlers]. split_and!.
    + eapply table_set; [done|case_match eqn:E; [apply Nat.leb_le in E|]; lia|by eapply lookup_lt_Some| |].
      * right. cbn. split_and!; [done|eauto|]. destruct (Nat.leb_spec (handler_count l) k); lia.
      * intros j h' _ Hj _. by eapply Hf.
    + intros j h' Hj H0 Hne. rewrite list_lookup_insert_ne; [done|]. intros ->. simplify_eq. lia.
    + apply list_lookup_insert_eq. by eapply lookup_lt_Some.
    + intros j h' Hj He. by destruct (Hf j h').
Qed.

Lemma remove_handler_ok l fd :
  table_ok (handlers l) (handler_count l) -> 0 <= fd ->
  table_ok (handlers (remove_handler l fd)) (handler_count (remove_handler l fd)) /\
  others_kept fd (handlers l) (handlers (remove_handler l fd)).
Proof.
  intros Ht Hfd. unfold remove_handler. pose proof (find_handler_spec l fd Ht Hfd) as Hf.
  destruct (find_handler l fd) as [k|]; [|split; [done | by intros j h ?]]. destruct Hf as (h & Hk & Hh).
  cbn [handlers handler_count set_handlers]. split.
  - eapply table_set; [done|lia|by eapply lookup_lt_Some|by left|]. intros j h' _ _ H0. cbn. lia.
  - intros j h' Hj H0 Hne. rewrite list_lookup_insert_ne; [done|]. intros ->. simplify_eq.
Qed.

Lemma synced_sub hs g g' : synced hs g -> g' ⊆ g -> synced hs g'.
Proof. intros Hs Hg fd f u Hu. apply Hs. by eapply lookup_weaken. Qed.

Lemma synced_add l fd c d i l' g :
  table_ok (handlers l) (handler_count l) -> 0 <= fd -> add_handler l fd (Some c) d = Some (i, l') ->
  synced (handlers l) g ->
  synced (handlers l') g /\ synced (handlers l') (<[(fd, EVFILT_READ) := Some i]> g).
Proof.
  intros Ht Hfd Ha Hs. destruct (add_handler_ok _ _ _ _ _ _ Ht Hfd Ha) as (_ & Hk & Hi & Hu).
  assert (Hg : synced (handlers l') g).
  { intros fd' f u Hl. destruct (Hs _ _ _ Hl) as (-> & j & h & -> & Hj & Hh & H0). split; [done|].
    destruct (decide (fd' = fd)) as [->|Hne].
    - rewrite (Hu j h Hj Hh). exists i, (Handler fd (Some c) d). done.
    - exists j, h. split_and!; [done| |done..]. apply Hk; [done|lia|congruence]. }
  split; [done|]. intros fd' f u [[[= <- <-] <-]|[_ Hl]]%lookup_insert_Some; [|by apply Hg].
  split; [done|]. exists i, (Handler fd (Some c) d). done.
Qed.

Lemma synced_remove l fd g g' r :
  table_ok (handlers l) (handler_count l) -> 0 <= fd -> synced (handlers l) g ->
  changed g [Kevent fd EVFILT_READ EV_DELETE None; Kevent fd EVFILT_WRITE EV_DELETE None] r g' ->
  synced (handlers (remove_handler l fd)) g'.
Proof.
  intros Ht Hfd Hs Hc. destruct (remove_handler_ok l fd Ht Hfd) as [_ Hk].
  assert (g' ⊆ g /\ g' !! (fd, EVFILT_READ) = None) as [Hsub Hnone].
  { inversion Hc as [|? ? ? ? ? Hf|? ? ? Hf|? ? ? ? ? _ _ Hc2|]; subst; try discriminate; [|done].
    inversion Hc2 as [|? ? ? ? ? Hf|? ? ? Hf|? ? ? ? ? _ Hw|]; subst; try discriminate.
    - unfold kev_key in Hw. cbn [kev_ident kev_filter] in Hw. rewrite lookup_delete_ne in Hw by done.
      destruct Hw as [u Hu]. by destruct (Hs _ _ _ Hu).
    - unfold kev_key. cbn [kev_ident kev_filter]. split; [apply delete_subseteq | apply lookup_delete_eq]. }
  intros fd' f u Hl. destruct (Hs fd' f u) as (-> & j & h & -> & Hj & Hh & H0); [by eapply lookup_weaken|].
  split; [done|]. exists j, h. split_and!; [done| |done..]. apply Hk; [done|lia|congruence].
Qed.

(** *** Every operation keeps the loop in order *)

Lemma live_sysc {A} (c : sys A) :
  match c with SysKevent _ _ => False | _ => True end -> hoare live (sysc c) (fun _ => True).
Proof.
  intros Hc. apply hoare_wp. intros s [Ht Hs]. wp_step. split; [|done]. split; [done|]. cbn.
  eapply synced_sub; [done|]. pose proof (no_new_filter _ _ _ _ _ _ H) as Hn. by destruct c.
Qed.

Lemma live_loop_get {A} (f : event_loop_t -> A) : hoare live (loop_get f) (fun _ => True).
Proof. by apply hoare_gets. Qed.

Lemma live_set_running v : hoare live (on_loop (set_running v)) (fun _ => True).
Proof. by apply hoare_modify. Qed.

(** The outcome of an operation on [fd]: in order, other entries kept. *)
Definition on_fd (fd : Z) (s : st (event_loop_t * U) W) {A} (_ : A) (s' : st (event_loop_t * U) W) : Prop :=
  live s' /\ frame fd s s'.

Lemma add_on_fd fd cb d s B : live s -> wp (event_loop_add fd EVENT_READ cb d) (on_fd fd s) B s.
Proof.
  intros Hl. assert (Hid : on_fd fd s (A := Z) (-1) s) by (split; [done | by intros ? ?]).
  unfold event_loop_add. destruct cb as [c|]; [|rewrite orb_true_r; by wp_step]. rewrite orb_false_r.
  destruct (Z.ltb_spec fd 0); [by wp_step|]. wp_step. unfold loop_get. wp_step. cbn [id].
  destruct (add_handler (ses s).1 fd (Some c) d) as [[i l']|] eqn:Ha; [|by wp_step].
  destruct Hl as [Ht Hs]. destruct (add_handler_ok _ _ _ _ _ _ Ht H Ha) as (Ht' & Hk & _).
  destruct (synced_add _ _ _ _ _ _ _ Ht H Ha Hs) as [Hs1 Hs2].
  wp_step. unfold on_loop. wp_step. change (has_flag EVENT_READ EVENT_READ) with true.
  change (has_flag EVENT_READ EVENT_WRITE) with false. unfold register, loop_get. cbn iota.
  repeat wp_step. match goal with Hc : os_step (SysKevent _ _) _ = _ |- _ => apply kevent_changes in Hc as Hch end.
  assert (Hdone : forall r' : Z, on_fd fd s r'
    (St (l', (ses s).2) (SysSt w (if e =? 0 then os_errno (sysw s) else e)
       (Ev (SysKevent (kq l') [Kevent fd EVFILT_READ (Z.lor EV_ADD EV_ENABLE) (Some i)]) r :: os_trace (sysw s))))).
  { intros r'. split; [|exact Hk]. split; [done|]. cbn [os_state sysw ses fst].
    inversion Hch as [|? ? ? ? ? _ Hc|? ? ? _|? ? ? ? ? Hf|]; subst; [|done|discriminate..].
    by inversion Hc; subst. }
  destruct (r <? 0); [wp_step; apply Hdone|]. repeat wp_step. apply Hdone.
Qed.

Lemma remove_on_fd fd s B : live s -> wp (event_loop_remove fd) (on_fd fd s) B s.
Proof.
  intros Hl. unfold event_loop_remove. destruct (Z.ltb_spec fd 0); [wp_step; split; [done | by intros ? ?]|].
  destruct Hl as [Ht Hs]. destruct (remove_handler_ok _ _ Ht H) as [Ht' Hk].
  unfold loop_get, on_loop. repeat wp_step. split; [|exact Hk]. split; [done|].
  cbn [os_state sysw ses fst]. eapply synced_remove; eauto. by eapply kevent_changes.
Qed.

Lemma live_remove fd : hoare live (event_loop_remove fd) (fun _ => True).
Proof.
  apply hoare_wp. intros s Hl. eapply wp_mono; [by apply (remove_on_fd fd s live)| |done].
  by intros a s' [Hl' _].
Qed.

Lemma live_add fd cb d : hoare live (event_loop_add fd EVENT_READ cb d) (fun _ => True).
Proof.
  apply hoare_wp. intros s Hl. eapply wp_mono; [by apply (add_on_fd fd cb d s live)| |done].
  by intros a s' [Hl' _].
Qed.

Lemma frame_trans fd s1 s2 s3 : frame fd s1 s2 -> frame fd s2 s3 -> frame fd s1 s3.
Proof. intros H1 H2 j h Hj H0 Hne. auto. Qed.

(** *** The loop *)

Context {callbacks : Callbacks}.

Lemma call_handler_on_fd c kev d s :
  good s -> wp (call_handler c kev d) (fun _ s' => good s' /\ frame (kev_ident kev) s s') good s.
Proof.
  intros Hl. unfold call_handler. wp_step. pose proof (call_good c (kev_ident kev) (event_mask kev) d s Hl) as [Hl' _].
  pose proof (call_local c (kev_ident kev) (event_mask kev) d s) as Hloc. unfold wp at 1.
  destruct (call _ _ _ _ s) as [[r|] s1]; [|done]. specialize (Hloc r s1 Hl eq_refl). cbn in Hl'.
  destruct (r <? 0); [|by wp_step]. wp_step. destruct (good_remove (kev_ident kev) s1 Hl') as [Hg _].
  pose proof (remove_on_fd (kev_ident kev) s1 good (proj1 Hl')) as Hr. unfold wp in *.
  destruct (event_loop_remove _ s1) as [[r2|] s2]; [|done]. destruct Hr as [_ Hf]. split; [done|].
  by eapply frame_trans.
Qed.

(** The entry an event points to is that of its descriptor, and it has the
    callback and data of [tbl]. *)
Definition fits (hs : list handler_entry_t) (tbl : Z -> option (C * option D)) (k : kevent_t) : Prop :=
  exists j h c, kev_udata k = Some j /\ hs !! j = Some h /\ h_fd h = kev_ident k /\ 0 <= h_fd h /\
    h_callback h = Some c /\ tbl (kev_ident k) = Some (c, h_data h).

Lemma fits_frame fd s s' tbl evs :
  frame fd s s' -> fd ∉ map kev_ident evs ->
  Forall (fits (handlers (ses s).1) tbl) evs -> Forall (fits (handlers (ses s').1) tbl) evs.
Proof.
  intros Hf Hn. rewrite !Forall_forall. intros Ha k Hk.
  destruct (Ha k Hk) as (j & h & c & Hu & Hj & Hh & H0 & Hc & Ht).
  exists j, h, c. split_and!; try done. apply Hf; [done..|]. rewrite Hh. intros <-.
  apply Hn, list_elem_of_fmap. eauto.
Qed.

Lemma dispatch_eq tbl evs s :
  good s -> NoDup (map kev_ident evs) -> Forall (fits (handlers (ses s).1) tbl) evs ->
  dispatch_events evs s = dispatch_ref tbl evs s /\ wp (dispatch_events evs) (fun _ => good) good s.
Proof.
  revert s. induction evs as [|k evs IH]; intros s Hl Hn Hf; [by split|].
  apply NoDup_cons in Hn as [Hk Hn]. apply Forall_cons in Hf as [(j & h & c & Hu & Hj & Hh & H0 & Hc & Ht) Hf].
  cbn [dispatch_events dispatch_ref]. unfold loop_get. rewrite Ht, Hu.
  unfold wp, mbind, M_bind, option_bind, ask, gets. rewrite Hj. destruct h as [fd cb d]. cbn in Hc. subst cb. cbn [h_data].
  pose proof (call_handler_on_fd c k d s Hl) as Hw. unfold wp in Hw.
  destruct (call_handler c k d s) as [[[]|] s1]; [|by split]. destruct Hw as [Hl1 Hf1].
  apply IH; [done..|]. by eapply fits_frame.
Qed.

Lemma fits_synced hs n g k :
  table_ok hs n -> synced hs g -> g !! kev_key k = Some (kev_udata k) ->
  kev_filter k = EVFILT_READ /\ fits hs (handler_of hs) k.
Proof.
  intros Ht Hs Hk. destruct (Hs _ _ _ Hk) as (Hr & j & h & Hu & Hj & Hh & H0). split; [done|].
  destruct (table_entry _ _ Ht j h Hj) as [[]|(_ & [c Hc] & _)]; [lia|].
  exists j, h, c. split_and!; try done; [lia|]. rewrite <- Hh. eapply handler_of_entry; eauto. lia.
Qed.

(** A batch that the kernel hands out fits the table. *)
Lemma batch_fits q m t w hs n evs e w' :
  os_step (SysKeventWait q m t) w = (Some evs, e, w') -> table_ok hs n -> synced hs (registered w) ->
  NoDup (map kev_ident evs) /\ Forall (fits hs (handler_of hs)) evs.
Proof.
  intros Hw Ht Hs. destruct (kevent_events _ _ _ _ _ _ _ Hw) as [Hn Hg].
  assert (Hs' : synced hs (registered w')) by (eapply synced_sub, (no_new_filter _ _ _ _ _ _ Hw); done).
  assert (Hall : Forall (fun k => kev_filter k = EVFILT_READ /\ fits hs (handler_of hs) k) evs).
  { eapply Forall_impl; [done|]. intros k Hk. by eapply fits_synced. }
  split; [|eapply Forall_impl; [done|]; by intros k []].
  revert Hn Hall. clear. induction evs as [|k evs IH]; intros Hn Ha; [constructor|]. cbn in *.
  apply NoDup_cons in Hn as [Hk Hn]. apply Forall_cons in Ha as [[Hf _] Ha]. constructor; [|auto].
  intros (k' & He & Hk')%list_elem_of_fmap. apply Hk, list_elem_of_fmap. exists k'. split; [|done].
  rewrite Forall_forall in Ha. destruct (Ha k' Hk') as [Hf' _]. unfold kev_key. by rewrite Hf, Hf', He.
Qed.

Lemma bind_same {A B} (m : em A) (k k' : A -> em B) s :
  (forall a s', m s = (Some a, s') -> k a s' = k' a s') -> (m ≫= k) s = (m ≫= k') s.
Proof. intros Hk. unfold mbind, M_bind. destruct (m s) as [[a|] s']; auto. Qed.

Lemma bind_good {A B} (m : em A) (k k' : A -> em B) s :
  hoare good m (fun _ => True) -> good s ->
  (forall a s', good s' -> k a s' = k' a s') -> (m ≫= k) s = (m ≫= k') s.
Proof.
  intros Hm Hl Hk. apply bind_same. intros a s' Ha. destruct (Hm s Hl) as [Hi _]. rewrite Ha in Hi. auto.
Qed.

Lemma run_loop_eq n s : good s -> run_loop n s = run_ref n s.
Proof.
  revert s. induction n as [|n IH]; intros s Hl; [done|]. cbn [run_loop run_ref].
  apply bind_good; [apply good_schedule | done |]. clear s Hl. intros stopped s Hl.
  apply bind_good; [destruct stopped; [apply good_running | by apply hoare_ret] | done |].
  clear s Hl. intros _ s Hl. apply bind_good; [by apply hoare_gets | done |].
  clear s Hl. intros go s Hl. destruct (go =? 0); [done|].
  apply bind_same. intros l s' [= <- <-]. cbn [id]. apply bind_same. intros r s1 Hw.
  destruct (good_wait (kq (ses s).1) (max_events (ses s).1) 1 s Hl) as [Hl1 _].
  rewrite Hw in Hl1. cbn [snd] in Hl1.
  unfold sysc, io, sys_call in Hw. destruct Hl as [[Ht Hs] _].
  destruct (os_step _ _) as [[r' e] w] eqn:Hos. injection Hw as -> <-. destruct r as [evs|].
  - destruct (batch_fits _ _ _ _ _ _ _ _ _ Hos Ht Hs) as [Hn Hf].
    destruct (dispatch_eq (handler_of (handlers (ses s).1)) evs _ Hl1 Hn Hf) as [He Hd].
    unfold mbind, M_bind. rewrite <- He. unfold wp in Hd.
    destruct (dispatch_events evs _) as [[[]|] s2]; [by apply IH | done].
  - apply bind_same. intros en s1 He. assert (good s1) by (by injection He as _ <-).
    destruct (en =? EINTR); [by apply IH | done].
Qed.

(** A program that creates the loop, registers handlers and runs it. *)
Definition program (setup : em unit) (run : em Z) : em Z :=
  ok ← event_loop_create;
  if ok : bool then _ ← setup; run else mret (-1).

Lemma table_unused : table_ok (replicate MAX_HANDLERS handler_unused) 0.
Proof.
  split; [by rewrite length_replicate|..].
  - intros j h [-> _]%lookup_replicate. by left.
  - intros i j h h' [-> _]%lookup_replicate _ H0. cbn in H0. lia.
Qed.

Lemma create_good s :
  g_event_loop_in_use (ses s).1 = 0 -> wp event_loop_create (fun ok s' => ok = true -> good s') (fun _ => True) s.
Proof.
  intros Hu. unfold event_loop_create, loop_get, on_loop. do 2 wp_step. rewrite Hu. cbn [Z.eqb negb].
  do 4 wp_step. destruct (Z.ltb_spec r 0); [by wp_step|]. repeat wp_step. intros _. split; [split|].
  - apply table_unused.
  - cbn [os_state sysw]. erewrite kqueue_empty by (eauto; lia). intros fd f u Hl. by rewrite lookup_empty in Hl.
  - by apply good_init.
Qed.

(** C22: events reach the callback registered for their descriptor.  With a
    kernel that keeps the promises of [kevent], and callbacks that change no
    registration of other descriptors than their own, a program that creates
    the loop, registers handlers for reading and runs it behaves as the one
    that sends each event of a batch to the callback, with the data, that was
    registered for the event's descriptor when the batch was fetched: the
    pointers kept by the kernel are never stale, although entries of the table
    are reused. *)
Theorem run_dispatches_registered n setup s :
  g_event_loop_in_use (ses s).1 = 0 -> hoare good setup (fun _ => True) ->
  program setup (event_loop_run n) s = program setup (_ ← on_loop (set_running 1); run_ref n) s.
Proof.
  intros Hu Hset. apply bind_same. intros ok s1 Hc. pose proof (create_good s Hu) as Hg.
  unfold wp in Hg. rewrite Hc in Hg. destruct ok; [|done].
  apply bind_good; [done | by apply Hg |]. intros _ s2 Hs2.
  apply bind_good; [apply good_running | done |]. intros _ s3 Hs3. by apply run_loop_eq.
Qed.

End loop.

(** ** A concrete kernel and callbacks

    The kernel reports scripted batches of ready descriptors, numbers accepted
    connections from 7 upwards, and stops the loop when the script is used up. *)

Record ktoy := Ktoy { kt_regs : gmap (Z * Z) (option nat); kt_ready : list (list Z); kt_next : nat }.

Fixpoint apply_changes (g : gmap (Z * Z) (option nat)) (ks : list kevent_t) :
    bool * gmap (Z * Z) (option nat) :=
  match ks with
  | [] => (true, g)
  | k :: ks' =>
      if has_flag (kev_flags k) EV_ADD then apply_changes (<[kev_key k := kev_udata k]> g) ks'
      else match g !! kev_key k with
           | Some _ => apply_changes (delete (kev_key k) g) ks'
           | None => (false, g)
           end
  end.

Definition ready_events (g : gmap (Z * Z) (option nat)) (fds : list Z) : list kevent_t :=
  omap (fun fd => Kevent fd EVFILT_READ 0 <$> g !! (fd, EVFILT_READ)) (remove_dups fds).

#[local] Instance ktoy_os : OS ktoy := fun A c w =>
  match c in sys A return A * Z * ktoy with
  | SysKqueue => (5, 0, Ktoy ∅ (kt_ready w) (kt_next w))
  | SysKevent _ ks =>
      let '(ok, g) := apply_changes (kt_regs w) ks in
      (if ok then 0 else -1, if ok then 0 else ENOENT, Ktoy g (kt_ready w) (kt_next w))
  | SysKeventWait _ _ _ =>
      match kt_ready w with
      | [] => (Some [], 0, w)
      | fds :: q => (Some (ready_events (kt_regs w) fds), 0, Ktoy (kt_regs w) q (kt_next w))
      end
  | SysAccept _ => ((7 + Z.of_nat (kt_next w), sockaddr_zero), 0, Ktoy (kt_regs w) (kt_ready w) (S (kt_next w)))
  | SysClose fd => (0, 0, Ktoy (delete (fd, EVFILT_READ) (kt_regs w)) (kt_ready w) (kt_next w))
  | SysSchedule => (bool_decide (kt_ready w = []), 0, w)
  | c => let '(r, e, _) := toy_step c (os_state toy_init) in (r, e, w)
  end.

Lemma apply_changed g ks ok g' : apply_changes g ks = (ok, g') -> changed g ks ok g'.
Proof.
  revert g. induction ks as [|k ks IH]; intros g; cbn [apply_changes]; [intros [= <- <-]; constructor|].
  destruct (has_flag _ _) eqn:E; [intros H; by apply changed_add; auto|].
  destruct (g !! kev_key k) as [u|] eqn:Eg; intros H.
  - apply changed_delete; [done|by eexists|auto].
  - injection H as <- <-. by apply changed_delete_fails.
Qed.

Lemma ready_spec g fds :
  NoDup (map kev_key (ready_events g fds)) /\
  Forall (fun k => g !! kev_key k = Some (kev_udata k)) (ready_events g fds).
Proof.
  unfold ready_events. pose proof (NoDup_remove_dups fds) as Hn.
  induction (remove_dups fds) as [|fd l IH]; [split; constructor|].
  apply NoDup_cons in Hn as [Hfd Hn]. destruct (IH Hn) as [IH1 IH2].
  cbn [omap list_omap]. destruct (g !! (fd, EVFILT_READ)) as [u|] eqn:E; [|by split]. cbn. split.
  - constructor; [|done]. intros (k & Hk & (x & Hx & Hox)%list_elem_of_omap)%list_elem_of_fmap.
    destruct (g !! (x, EVFILT_READ)) as [v|]; [|done]. injection Hox as <-. by injection Hk as <-.
  - constructor; [done|done].
Qed.

#[local] Instance ktoy_kqueue : KqueueOS (os := ktoy_os).
Proof.
  refine {| registered := kt_regs |}.
  - intros q ks w r e w'. unfold os_step, ktoy_os. destruct (apply_changes _ _) as [ok g] eqn:E.
    intros [= <- _ <-]. apply apply_changed in E. by destruct ok.
  - intros q m t w evs e w'. unfold os_step, ktoy_os. destruct (kt_ready w) as [|fds q']; intros [= <- _ <-].
    + split; constructor.
    + apply ready_spec.
  - by intros w r e w' [= _ _ <-].
  - intros A c w r e w'. unfold os_step, ktoy_os. destruct c; try done;
      repeat case_match; intros [=]; subst; cbn; try done; first [apply map_empty_subseteq | apply delete_subseteq].
Defined.

(** A listener whose callback accepts and registers a connection, and
    connections that are removed and closed at their first event, as those of
    the HTTP server; both note the descriptor and the data they get. *)
Inductive demo := on_accept | on_client.

Section demo.
Abbreviation dm := (M (st (event_loop_t (C := demo) (D := Z) * list (Z * option Z)) ktoy)).

Definition note (fd : Z) (d : option Z) : dm unit := upd (fun s => (s.1, s.2 ++ [(fd, d)])).

Definition demo_call (c : demo) (fd ev : Z) (d : option Z) : dm Z :=
  _ ← note fd d;
  match c with
  | on_accept =>
      '(client, _) ← sysc (SysAccept fd);
      _ ← event_loop_add client EVENT_READ (Some on_client) (Some client);
      mret 0
  | on_client =>
      _ ← event_loop_remove fd;
      _ ← sysc (SysClose fd);
      mret (-1)
  end.

Definition demo_setup : dm unit := _ ← event_loop_add 3 EVENT_READ (Some on_accept) None; mret tt.

(** Descriptors in use are below the next one. *)
Definition demo_inv (s : st (event_loop_t (C := demo) (D := Z) * list (Z * option Z)) ktoy) : Prop :=
  forall j h, handlers (ses s).1 !! j = Some h -> h_fd h < 7 + Z.of_nat (kt_next (os_state (sysw s))).

Abbreviation demo_good := (good (os := ktoy_os) demo_inv).

Lemma add_handler_fds (l : event_loop_t (C := demo) (D := Z)) fd cb d i l' m :
  add_handler l fd cb d = Some (i, l') -> fd < m ->
  (forall j h, handlers l !! j = Some h -> h_fd h < m) -> forall j h, handlers l' !! j = Some h -> h_fd h < m.
Proof.
  unfold add_handler. intros Ha Hfd Hl j h. destruct (find_handler l fd) as [k|].
  - injection Ha as <- <-. cbn [handlers set_handlers]. destruct (decide (j = k)) as [->|Hjk].
    + rewrite list_lookup_alter_eq. destruct (handlers l !! k) as [h0|] eqn:E; [|done]. intros [= <-]. cbn. eauto.
    + rewrite list_lookup_alter_ne by done. apply Hl.
  - destruct (free_index _) as [k|]; [|done]. injection Ha as <- <-. cbn [handlers set_handlers].
    intros [(_ & <- & _)|[_ Hj]]%list_lookup_insert_Some; [done | by eapply Hl].
Qed.

Lemma hoare_both {S A} (I I' : S -> Prop) (m : M S A) :
  hoare I m (fun _ => True) -> hoare I' m (fun _ => True) -> hoare (fun s => I s /\ I' s) m (fun _ => True).
Proof. intros H H' s [Hs Hs']. destruct (H s Hs), (H' s Hs'). done. Qed.

Lemma demo_kevent q ks : hoare demo_inv (sysc (SysKevent q ks)) (fun _ => True).
Proof.
  apply hoare_wp. intros s Hs. wp_step. split; [|done]. unfold os_step, ktoy_os in H.
  destruct (apply_changes _ _) as [ok g]. by injection H as _ _ <-.
Qed.

Lemma demo_remove fd : hoare demo_inv (event_loop_remove fd) (fun _ => True).
Proof.
  unfold event_loop_remove. destruct (fd <? 0); [by apply hoare_ret|].
  eapply hoare_bind; [by apply (hoare_gets _ _ (fun _ => True))|]. intros q _.
  eapply hoare_bind; [apply demo_kevent|]. intros _ _.
  apply hoare_bind with (Q := fun _ => True); [|intros; by apply hoare_ret].
  apply hoare_modify. intros s Hs j h. unfold remove_handler. cbn [ses fst].
  destruct (find_handler _ _) as [i|]; [|apply Hs]. cbn [handlers set_handlers].
  intros [(_ & <- & _)|[_ Hj]]%list_lookup_insert_Some; [cbn; lia | by eapply Hs].
Qed.

Lemma demo_add fd c d s :
  demo_inv s -> fd < 7 + Z.of_nat (kt_next (os_state (sysw s))) ->
  wp (event_loop_add fd EVENT_READ (Some c) d) (fun _ => demo_inv) demo_inv s.
Proof.
  intros Hs Hfd. unfold event_loop_add. rewrite orb_false_r. destruct (fd <? 0); [by wp_step|].
  wp_step. unfold loop_get. wp_step. cbn [id]. destruct (add_handler _ _ _ _) as [[i l']|] eqn:Ha; [|by wp_step].
  unfold on_loop, register, loop_get. change (has_flag EVENT_READ EVENT_READ) with true.
  change (has_flag EVENT_READ EVENT_WRITE) with false. cbn iota. do 2 wp_step. cbn [fst snd].
  pose proof (add_handler_fds _ _ _ _ _ _ _ Ha Hfd Hs) as Hl.
  eapply wp_seq; [apply (wp_hoare _ demo_inv (fun _ => True) (fun _ => demo_inv)); [|exact Hl|done..]|].
  - apply hoare_bind with (Q := fun _ => True); [by apply hoare_gets | intros; apply demo_kevent].
  - intros r s' Hs'. destruct (r <? 0); [by wp_step|]. repeat wp_step. done.
Qed.

Lemma demo_setup_good : hoare demo_good demo_setup (fun _ => True).
Proof.
  apply hoare_bind with (Q := fun _ => True); [|intros; by apply hoare_ret].
  apply hoare_both; [apply live_add|]. apply hoare_wp. intros s Hs.
  eapply wp_mono; [apply demo_add; [done|lia]| |done]. done.
Qed.

Lemma accept_good fd s :
  demo_good s ->
  wp ('(client, _) ← sysc (SysAccept fd); _ ← event_loop_add client EVENT_READ (Some on_client) (Some client); mret 0)
    (fun _ s' => demo_good s' /\ frame fd s s') demo_good s.
Proof.
  intros [Hl Hj]. wp_step. wp_step. unfold os_step, ktoy_os in H. injection H as <- _ <-.
  match goal with |- wp _ _ _ ?s1 => set (s1' := s1) end.
  assert (Hg : live (os := ktoy_os) s1') by exact Hl.
  assert (Hj1 : demo_inv s1') by (intros j h Hh; specialize (Hj j h Hh); cbn; lia).
  wp_step. eapply wp_mono; [apply wp_and; [by apply (add_on_fd _ _ _ s1' live) | by apply demo_add; [|cbn; lia]]| |].
  - intros r s2 [[Hl2 Hf] Hj2]. wp_step. split; [done|]. intros j h Hh H0 Hne. apply Hf; [done..|].
    specialize (Hj j h Hh). lia.
  - by intros s2 [].
Qed.

Lemma client_good fd s :
  demo_good s ->
  wp (_ ← event_loop_remove fd; _ ← sysc (SysClose fd); mret (-1))
    (fun _ s' => demo_good s' /\ frame fd s s') demo_good s.
Proof.
  intros [Hl Hj]. wp_step. destruct (demo_remove fd s Hj) as [Hj1 _].
  pose proof (remove_on_fd fd s demo_good Hl) as Hr. unfold wp at 1. unfold wp in Hr.
  destruct (event_loop_remove fd s) as [[r|] s1]; [|done]. destruct Hr as [[Ht Hs] Hf]. cbn [snd] in Hj1.
  repeat wp_step. unfold os_step, ktoy_os in H. injection H as <- _ <-. split; [|done]. split; [|done].
  split; [done|]. eapply synced_sub; [done|]. cbn. apply delete_subseteq.
Qed.

Lemma demo_call_good c fd ev d s :
  demo_good s -> wp (demo_call c fd ev d) (fun _ s' => demo_good s' /\ frame fd s s') demo_good s.
Proof.
  intros Hs. unfold demo_call, note. do 2 wp_step.
  match goal with |- wp _ _ _ ?s1 => destruct c; [exact (accept_good fd s1 Hs) | exact (client_good fd s1 Hs)] end.
Qed.

#[local] Instance demo_callbacks : Callbacks (os := ktoy_os) demo_call demo_inv.
Proof.
  split.
  - intros c fd ev d. apply hoare_wp. intros s Hs.
    eapply wp_mono; [by apply demo_call_good| |done]. by intros a s' [].
  - intros c fd ev d s r s' Hs Hr. pose proof (demo_call_good c fd ev d s Hs) as Hw.
    unfold wp in Hw. rewrite Hr in Hw. apply Hw.
  - intros s Hs j h. rewrite Hs. intros [-> _]%lookup_replicate. cbn. lia.
  - apply hoare_both; [by apply live_sysc|]. apply hoare_wp. intros s Hs. wp_step. by injection H as _ _ <-.
  - intros q m t. apply hoare_both; [by apply live_sysc|]. apply hoare_wp. intros s Hs. wp_step.
    unfold os_step, ktoy_os in H. destruct (kt_ready _); by injection H as _ _ <-.
  - intros v. apply hoare_both; [apply live_set_running|]. by apply hoare_modify.
  - intros fd. apply hoare_both; [apply live_remove | apply demo_remove].
Qed.

Definition demo_start (ready : list (list Z)) : st (event_loop_t (C := demo) (D := Z) * list (Z * option Z)) ktoy :=
  St (Loop 0 0 0 [] 0 0, []) (SysSt (Ktoy ∅ ready 0) 0 []).

(** Two connections; the first is closed and its entry reused in the batch
    that reports both the listener and the second. *)
Lemma run_dispatches_registered_witness :
  let s := demo_start [[3]; [3]; [7; 3; 8]; [9]] in
  program demo_setup (event_loop_run demo_call 9) s =
    program demo_setup (_ ← on_loop (set_running 1); run_ref demo_call 9) s /\
  (ses (program demo_setup (event_loop_run demo_call 9) s).2).2 =
    [(3, None); (3, None); (7, Some 7); (3, None); (8, Some 8); (9, Some 9)].
Proof.
  split.
  - apply (run_dispatches_registered (os := ktoy_os) demo_call demo_inv); [reflexivity | apply demo_setup_good].
  - vm_compute. reflexivity.
Defined.

(** The demand on callbacks is needed: when the listener's callback removes
    the descriptor 7 and registers 9, the event of the same batch for 7 goes
    to the callback of 9, with its data. *)
Definition evicting_call (c : demo) (fd ev : Z) (d : option Z) : dm Z :=
  _ ← note fd d;
  match c with
  | on_accept =>
      _ ← event_loop_remove 7;
      _ ← event_loop_add 9 EVENT_READ (Some on_client) (Some 9);
      mret 0
  | on_client => mret 0
  end.

Lemma stale_event_misdirected :
  (ses (program (_ ← demo_setup; _ ← event_loop_add 7 EVENT_READ (Some on_client) (Some 7); mret tt)
          (event_loop_run evicting_call 9) (demo_start [[3; 7]])).2).2 = [(3, None); (7, Some 9)].
Proof. vm_compute. reflexivity. Qed.

(** Two calls that leave a filter behind.  Removing a descriptor that was
    registered for writing only: the first change fails, so the second is not
    made, and the filter keeps its pointer to an entry that is now unused.
    Modifying the events from writing to reading: nothing removes the old
    filter. *)
Lemma filters_left_behind :
  let s := (event_loop_create (demo_start [])).2 in
  let s1 := (event_loop_add 7 EVENT_WRITE (Some on_client) (Some 7) s).2 in
  (forall r s2, event_loop_remove 7 s1 = (Some r, s2) ->
     r = 0 /\ handlers (ses s2).1 !! 0%nat = Some handler_unused /\
     registered (os_state (sysw s2)) !! (7, EVFILT_WRITE) = Some (Some 0%nat)) /\
  (forall r s2, event_loop_modify 7 EVENT_READ s1 = (Some r, s2) ->
     r = 0 /\ registered (os_state (sysw s2)) !! (7, EVFILT_WRITE) = Some (Some 0%nat)).
Proof. split; intros r s2; vm_compute; intros [= <- <-]; done. Qed.

End demo.
