(* ===== verification/HttpSetup.v ===== *)
(** * Setting up the HTTP server: [src/http_server.c], [src/pal_network.c]

    The parser of listening addresses and [http_server_create], with what it
    leaves behind on success and on every failure. *)

From S2P Require Import Prelude CLib FtpTypes FtpPath Os PalNetwork FtpDataCmds FtpPort FtpReset.
From S2P Require Import HttpState HttpQuery HttpServer.

(** [struct sockaddr_storage] with one of the two families. *)
Inductive sockaddr_storage :=
| Addr4 (addr : sockaddr_in)
| Addr6 (addr : bytes) (port : Z).

Definition INET6_ADDRSTRLEN : Z := 46.

(** The text between the brackets, and after them. *)
Definition make_sockaddr6 (text rest : bytes) : res sockaddr_storage :=
  if (strlen text =? 0) || (INET6_ADDRSTRLEN <=? strlen text) then Err FTP_ERR_INVALID_PARAM
  else match rest with
  | c :: port_str =>
      if negb (c =? COLON) then Err FTP_ERR_INVALID_PARAM
      else
        let port := u16 (strtoull port_str) in
        if port =? 0 then Err FTP_ERR_INVALID_PARAM
        else match inet_pton6 text with
        | Some a => Ok (Addr6 a port)
        | None => Err FTP_ERR_INVALID_PARAM
        end
  | [] => Err FTP_ERR_INVALID_PARAM
  end.

Definition make_sockaddr4 (addr_str : bytes) : res sockaddr_storage :=
  match strchr addr_str COLON with
  | None => Err FTP_ERR_INVALID_PARAM
  | Some i =>
      if (i =? 0)%nat || (INET_ADDRSTRLEN <=? Z.of_nat i) then Err FTP_ERR_INVALID_PARAM
      else
        let port := u16 (strtoull (drop (S i) addr_str)) in
        if port =? 0 then Err FTP_ERR_INVALID_PARAM
        else match inet_pton (take i addr_str) with
        | Some a => Ok (Addr4 (SockAddr a port))
        | None => Err FTP_ERR_INVALID_PARAM
        end
  end.

Definition pal_make_sockaddr_ex (addr_str : bytes) : res sockaddr_storage :=
  match addr_str with
  | c :: t =>
      if c =? 91 then
        match strchr t 93 with
        | None => Err FTP_ERR_INVALID_PARAM
        | Some n => make_sockaddr6 (take n t) (drop (S n) t)
        end
      else make_sockaddr4 addr_str
  | [] => make_sockaddr4 addr_str
  end.

Section setup.
Context {W : Type} {os : OS W}.
Abbreviation hm := (M (st http_state W)).

Definition O_NONBLOCK : Z := 2048.

Definition set_nonblocking (fd : Z) : hm Z :=
  flags ← sysc (SysFcntlGet fd);
  if flags <? 0 then mret (-1) else sysc (SysFcntlSet fd (Z.lor flags O_NONBLOCK)).

(** [socket] for the family, with the options, and [bind]. *)
Definition open_listener (addr : sockaddr_storage) : hm Z :=
  match addr with
  | Addr4 _ => sysc (SysSocket 1)
  | Addr6 _ _ => sysc (SysSocket6 1)
  end.

Definition bind_listener (fd : Z) (addr : sockaddr_storage) : hm Z :=
  _ ← sysc (SysSetsockopt fd SO_REUSEADDR 1);
  match addr with
  | Addr4 a => sysc (SysBind fd a)
  | Addr6 a port => _ ← sysc (SysSetsockopt fd IPV6_V6ONLY 0); sysc (SysBind6 fd a port)
  end.

(** [close(listen_fd); listen_fd = -1; return NULL] *)
Definition abandon_listener (fd : Z) : hm bool :=
  _ ← sysc (SysClose fd);
  _ ← upd (set_listen_fd (-1));
  mret false.

(** From the parsed address on; whether there is a server. *)
Definition start_listener (addr : sockaddr_storage) : hm bool :=
  fd ← open_listener addr;
  _ ← upd (set_listen_fd fd);
  if fd <? 0 then mret false
  else
    b ← bind_listener fd addr;
    if b <? 0 then abandon_listener fd
    else
      l ← sysc (SysListen fd 128);
      if l <? 0 then abandon_listener fd
      else
        _ ← set_nonblocking fd;
        r ← sysc (SysEventAdd fd);
        if negb (r =? 0) then abandon_listener fd
        else
          _ ← upd (set_g_http_server_in_use 1);
          mret true.

Definition http_server_create (bind_addr root : bytes) : hm bool :=
  in_use ← ask g_http_server_in_use;
  if negb (in_use =? 0) then mret false
  else
    _ ← upd (fun s => set_listen_fd (-1) (set_connection_count 0 s));
    if FTP_PATH_MAX <=? strlen root then mret false
    else
      _ ← upd (http_api_set_root (Some root));
      _ ← upd http_connections_init;
      match pal_make_sockaddr_ex bind_addr with
      | Err _ => mret false
      | Ok addr => start_listener addr
      end.

(** ** What a set-up leaves behind *)

(** The sockets a trace opened, oldest first. *)
Definition event_socket (e : event) : list Z :=
  match e with
  | @Ev A c r =>
      match c in sys A return A -> list Z with
      | SysSocket _ | SysSocket6 _ => fun fd => if 0 <=? fd then [fd] else []
      | _ => fun _ => []
      end r
  end.

Fixpoint sockets_in (tr : list event) : list Z :=
  match tr with [] => [] | e :: tr' => sockets_in tr' ++ event_socket e end.

(** The sockets of the run from [s] to [s'] that are still open. *)
Definition left_open (fds : list Z) (s s' : st http_state W) : Prop :=
  exists closed,
    closed_in (os_trace (sysw s')) = closed_in (os_trace (sysw s)) ++ closed /\
    sockets_in (os_trace (sysw s')) = sockets_in (os_trace (sysw s)) ++ closed ++ fds.

(** The configuration a server starts with: the root without the slashes at
    its end, and no connections. *)
Definition fresh_server (root : bytes) (h : http_state) : Prop :=
  g_http_root h = match root with [] => [SLASH] | _ => strip_slashes (length root) root end /\
  connection_count h = 0 /\
  Forall (fun c => conn_fd c = -1 /\ upload_fd c = -1 /\ upload_chunk_buf c = None) (g_http_connections h).

Lemma left_open_here s s' : os_trace (sysw s') = os_trace (sysw s) -> left_open [] s s'.
Proof. intros He. exists []. rewrite He. by rewrite !app_nil_r. Qed.

(** The server after [http_server_create]. *)
Definition outcome (ok : bool) (s s' : st http_state W) : Prop :=
  if ok
  then g_http_server_in_use (ses s') = 1 /\ 0 <= listen_fd (ses s') /\ left_open [listen_fd (ses s')] s s'
  else g_http_server_in_use (ses s') = 0 /\ listen_fd (ses s') < 0 /\ left_open [] s s'.

(** Nothing but the descriptor and the flag differs. *)
Definition same_config (h h' : http_state) : Prop :=
  h' = set_g_http_server_in_use (g_http_server_in_use h') (set_listen_fd (listen_fd h') h).

(** Same state of the server, and no socket opened or closed. *)
Definition quiet (s s' : st http_state W) : Prop :=
  ses s' = ses s /\ closed_in (os_trace (sysw s')) = closed_in (os_trace (sysw s)) /\
  sockets_in (os_trace (sysw s')) = sockets_in (os_trace (sysw s)).

Lemma quiet_trans s1 s2 s3 : quiet s1 s2 -> quiet s2 s3 -> quiet s1 s3.
Proof. intros (? & ? & ?) (? & ? & ?). split_and!; congruence. Qed.

Lemma quiet_sysc {A} (c : sys A) s B :
  (forall r, event_closed (Ev c r) = []) -> (forall r, event_socket (Ev c r) = []) ->
  wp (sysc c) (fun _ s' => quiet s s') B s.
Proof.
  intros Hc Hs. wp_step. split; [done|]. cbn [sysw os_trace closed_in sockets_in]. by rewrite Hc, Hs, !app_nil_r.
Qed.

(** A quiet step before the rest. *)
Lemma quiet_bind {A C} (m : hm A) (k : A -> hm C) Q B s0 s :
  quiet s0 s -> wp m (fun _ s' => quiet s s') B s -> (forall a s', quiet s0 s' -> wp (k a) Q B s') ->
  wp (m ≫= k) Q B s.
Proof. intros H0 Hm Hk. eapply wp_seq; [exact Hm|]. intros a s' Hs'. apply Hk. by eapply quiet_trans. Qed.

Lemma quiet_bind_listener fd addr s B : wp (bind_listener fd addr) (fun _ s' => quiet s s') B s.
Proof.
  unfold bind_listener. eapply quiet_bind; [done|by apply quiet_sysc|]. intros _ s1 H1. destruct addr.
  - eapply wp_mono; [by apply quiet_sysc| |done]. intros r s2 H2. by eapply quiet_trans.
  - eapply quiet_bind; [exact H1|by apply quiet_sysc|]. intros _ s2 H2.
    eapply wp_mono; [by apply quiet_sysc| |done]. intros r s3 H3. by eapply quiet_trans.
Qed.

Lemma quiet_set_nonblocking fd s B : wp (set_nonblocking fd) (fun _ s' => quiet s s') B s.
Proof.
  unfold set_nonblocking. eapply quiet_bind; [done|by apply quiet_sysc|]. intros flags s1 H1.
  destruct (flags <? 0); [by wp_step|].
  eapply wp_mono; [by apply quiet_sysc| |done]. intros r s2 H2. by eapply quiet_trans.
Qed.

(** The socket is open and noted; nothing else has happened since [s]. *)
Definition listening (fd : Z) (s s' : st http_state W) : Prop :=
  ses s' = set_listen_fd fd (ses s) /\ closed_in (os_trace (sysw s')) = closed_in (os_trace (sysw s)) /\
  sockets_in (os_trace (sysw s')) = sockets_in (os_trace (sysw s)) ++ (if 0 <=? fd then [fd] else []).

Lemma listening_quiet fd s s1 s2 : listening fd s s1 -> quiet s1 s2 -> listening fd s s2.
Proof. intros (? & ? & ?) (? & ? & ?). split_and!; congruence. Qed.

Lemma open_listener_spec addr s B :
  wp (open_listener addr) (fun fd s' => listening fd s (St (set_listen_fd fd (ses s')) (sysw s'))) B s.
Proof.
  destruct addr; unfold open_listener; wp_step; (split; [done|]);
    cbn [sysw os_trace closed_in sockets_in event_closed event_socket]; by rewrite app_nil_r.
Qed.

Lemma abandon_spec fd s0 s B :
  0 <= fd -> g_http_server_in_use (ses s0) = 0 -> listening fd s0 s ->
  wp (abandon_listener fd) (fun ok s' => same_config (ses s0) (ses s') /\ outcome ok s0 s') B s.
Proof.
  intros Hfd Hu (Hs & Hc & Hk). unfold abandon_listener. repeat wp_step. cbn [ses sysw]. rewrite Hs.
  split; [reflexivity|]. split; [exact Hu|]. split; [cbn [ses listen_fd set_listen_fd]; lia|].
  exists [fd]. cbn [sysw os_trace closed_in sockets_in event_closed event_socket]. rewrite Hc, Hk.
  destruct (Z.leb_spec 0 fd); [by rewrite !app_nil_r | lia].
Qed.

Lemma start_listener_spec addr (s : st http_state W) :
  g_http_server_in_use (ses s) = 0 ->
  wp (start_listener addr) (fun ok s' => same_config (ses s) (ses s') /\ outcome ok s s') (fun _ => False) s.
Proof.
  intros Hu. unfold start_listener. eapply wp_seq; [apply open_listener_spec|]. intros fd s1 H1. cbv beta in H1.
  wp_step. wp_step. destruct (Z.ltb_spec fd 0) as [Hfd|Hfd].
  { wp_step. destruct H1 as (Hs & Hc & Hk). destruct (Z.leb_spec 0 fd); [lia|]. cbn [ses] in Hs |- *.
    cbn [sysw] in Hc, Hk. rewrite Hs. split; [reflexivity|]. split; [exact Hu|]. split; [done|].
    exists []. cbn [sysw]. by rewrite Hc, Hk, !app_nil_r. }
  set (s2 := St (set_listen_fd fd (ses s1)) (sysw s1)) in *. clearbody s2.
  assert (H2 : quiet s2 s2) by done.
  eapply quiet_bind; [exact H2|apply quiet_bind_listener|]. intros b s3 H3.
  destruct (b <? 0); [apply abandon_spec; [done..|eapply listening_quiet; eassumption]|].
  eapply quiet_bind; [exact H3|by apply quiet_sysc|]. intros l s4 H4.
  destruct (l <? 0); [apply abandon_spec; [done..|eapply listening_quiet; eassumption]|].
  eapply quiet_bind; [exact H4|apply quiet_set_nonblocking|]. intros _ s5 H5.
  eapply quiet_bind; [exact H5|by apply quiet_sysc|]. intros r s6 H6.
  pose proof (listening_quiet _ _ _ _ H1 H6) as Hl.
  destruct (r =? 0); cbn [negb]; [|by apply abandon_spec]. do 3 wp_step. destruct Hl as (Hs & Hc & Hk).
  rewrite Hs. split; [reflexivity|]. split; [reflexivity|]. split; [done|].
  destruct (Z.leb_spec 0 fd); [|lia]. exists []. cbn [sysw]. by rewrite Hc, Hk, app_nil_r.
Qed.

Lemma fresh_same_config root h h' : same_config h h' -> fresh_server root h -> fresh_server root h'.
Proof. intros -> Hf. by destruct h. Qed.

Lemma configured_fresh root h :
  strlen root < FTP_PATH_MAX -> connection_count h = 0 ->
  fresh_server root (http_connections_init (http_api_set_root (Some root) h)).
Proof.
  intros Hr Hc. unfold fresh_server. split_and!.
  - unfold http_connections_init, http_api_set_root. destruct root as [|c root]; [by destruct h|].
    destruct (Z.leb_spec FTP_PATH_MAX (strlen (c :: root))); [lia|]. by destruct h.
  - unfold http_connections_init, http_api_set_root. destruct root; by destruct h.
  - unfold http_connections_init. cbn [g_http_connections set_g_http_connections].
    apply Forall_fmap, Forall_true. done.
Qed.

Lemma left_open_from fds s s1 s' :
  os_trace (sysw s1) = os_trace (sysw s) -> left_open fds s1 s' -> left_open fds s s'.
Proof. unfold left_open. by intros ->. Qed.

Lemma outcome_from ok s s1 s' : os_trace (sysw s1) = os_trace (sysw s) -> outcome ok s1 s' -> outcome ok s s'.
Proof.
  intros Ht. unfold outcome. destruct ok; intros (H1 & H2 & H3); split_and!; try done; by eapply left_open_from.
Qed.

(** C23: setting up the server leaves either a working server or nothing.
    Whatever the address, the root and the answers of the system,
    [http_server_create] returns.  When it reports a server, the root is the
    configured one without the slashes at its end, all connections are free
    and the listening socket is the one socket left open; when it fails, every
    socket it opened is closed, and the server is not in use and has no
    descriptor. *)
Theorem create_all_or_nothing bind_addr root (s : st http_state W) :
  g_http_server_in_use (ses s) = 0 ->
  wp (http_server_create bind_addr root)
    (fun ok s' => outcome ok s s' /\ (ok = true -> fresh_server root (ses s'))) (fun _ => False) s.
Proof.
  intros Hu. unfold http_server_create. wp_step. wp_step. rewrite Hu. cbn [Z.eqb negb]. do 2 wp_step.
  assert (Hn : forall w h, os_trace w = os_trace (sysw s) -> g_http_server_in_use h = 0 -> listen_fd h = -1 ->
    outcome false s (St h w)).
  { intros w h Ht Hh Hl. split_and!; [done | cbn; lia | by apply left_open_here]. }
  destruct (Z.leb_spec FTP_PATH_MAX (strlen root)) as [Hr|Hr].
  { wp_step. split; [apply Hn; by destruct (ses s); cbn in *; subst | done]. }
  do 4 wp_step. set (h1 := http_connections_init _).
  assert (Hh : g_http_server_in_use h1 = 0 /\ listen_fd h1 = -1).
  { unfold h1, http_connections_init, http_api_set_root. destruct root; by destruct (ses s); cbn in *; subst. }
  destruct (pal_make_sockaddr_ex bind_addr) as [addr|]; [|by wp_step; split; [apply Hn; [|apply Hh..]|]].
  eapply wp_mono; [apply start_listener_spec; apply Hh| |done]. intros ok s' [Hc Ho]. split.
  - by eapply outcome_from.
  - intros _. eapply fresh_same_config; [exact Hc|]. apply configured_fresh; [done|]. by destruct (ses s).
Qed.

End setup.

(** A server on port 8888 of all addresses. *)
Lemma create_all_or_nothing_witness :
  let run := http_server_create (os := toy_os) (str "[::]:8888") (str "/srv/") (St http_state_init toy_init) in
  wp (http_server_create (str "[::]:8888") (str "/srv/"))
    (fun ok s' => outcome ok (St http_state_init toy_init) s' /\ (ok = true -> fresh_server (str "/srv/") (ses s')))
    (fun _ => False) (St http_state_init toy_init) /\
  run.1 = Some true /\ g_http_root (ses run.2) = str "/srv".
Proof.
  split.
  - apply (create_all_or_nothing (W := toy)). reflexivity.
  - split; vm_compute; reflexivity.
Defined.

(** ** Addresses *)

Lemma strtoull_fmt z : 0 <= z < 2 ^ 64 -> strtoull (fmt_u z) = z.
Proof.
  intros Hz. destruct (fmt_u_dec z) as (Hne & Hd & Hv); [lia|]. unfold strtoull.
  destruct (fmt_u z) as [|c t] eqn:E; [done|]. rewrite no_sign by (by inversion Hd).
  rewrite take_while_all by done. rewrite Hv. by destruct (Z.leb_spec (2 ^ 64) z); [lia|].
Qed.

(** The text of an address in the two notations. *)
Definition addr4_text (h1 h2 h3 h4 port : Z) : bytes := port_ip h1 h2 h3 h4 ++ COLON :: fmt_u port.

Definition octet (z : Z) : Prop := 0 <= z <= 255.

Lemma octet_text z : octet z ->
  Forall (fun c => isdigit c = true) (fmt_u z) /\ (0 < length (fmt_u z) <= 3)%nat.
Proof.
  intros Hz. split; [apply fmt_u_dec; unfold octet in Hz; lia|]. pose proof (octets_ok z Hz) as Ho.
  unfold octet_ok, strlen in Ho. zbool. lia.
Qed.

(** The dotted text of an address: its first character is a digit, it has no
    colon, and it fits. *)
Lemma port_ip_text h1 h2 h3 h4 :
  octet h1 -> octet h2 -> octet h3 -> octet h4 ->
  COLON ∉ port_ip h1 h2 h3 h4 /\ (0 < length (port_ip h1 h2 h3 h4) < 16)%nat /\
  exists c t, port_ip h1 h2 h3 h4 = c :: t /\ isdigit c = true.
Proof.
  intros H1 H2 H3 H4. destruct (octet_text h1 H1) as [D1 L1], (octet_text h2 H2) as [D2 L2],
    (octet_text h3 H3) as [D3 L3], (octet_text h4 H4) as [D4 L4].
  assert (Hn : forall l, Forall (fun c => isdigit c = true) l -> COLON ∉ l).
  { intros l Hl Hin. rewrite Forall_forall in Hl. by specialize (Hl _ Hin). }
  unfold port_ip. split_and!.
  - rewrite !not_elem_of_app, !not_elem_of_cons, !not_elem_of_app, !not_elem_of_cons, !not_elem_of_app, not_elem_of_cons.
    split_and!; try done; auto.
  - rewrite !length_app. cbn [length]. rewrite !length_app. cbn [length]. rewrite !length_app. cbn [length]. lia.
  - rewrite !length_app. cbn [length]. rewrite !length_app. cbn [length]. rewrite !length_app. cbn [length]. lia.
  - destruct (fmt_u h1) as [|c t]; [cbn in L1; lia|]. eexists c, _. split; [done|]. by inversion D1.
Qed.

(** Round trip of the two notations of listening addresses: the text of
    an IPv4 address and a port, and the text that [main] makes of the HTTP
    port, are parsed back to the address and the port. *)
Theorem make_sockaddr_roundtrip h1 h2 h3 h4 port :
  octet h1 -> octet h2 -> octet h3 -> octet h4 -> 0 < port < 65536 ->
  pal_make_sockaddr_ex (addr4_text h1 h2 h3 h4 port) = Ok (Addr4 (SockAddr (addr_of h1 h2 h3 h4) port)) /\
  pal_make_sockaddr_ex (str "[::]:" ++ fmt_u port) = Ok (Addr6 (replicate 16 0) port).
Proof.
  intros H1 H2 H3 H4 Hp. assert (Hport : u16 (strtoull (fmt_u port)) = port).
  { rewrite strtoull_fmt by lia. unfold u16. apply Z.mod_small. lia. }
  split.
  - destruct (port_ip_text h1 h2 h3 h4) as (Hc & Hl & c & t & Ht & Hd); [done..|].
    assert (H4' : pal_make_sockaddr_ex (addr4_text h1 h2 h3 h4 port) = make_sockaddr4 (addr4_text h1 h2 h3 h4 port)).
    { unfold pal_make_sockaddr_ex, addr4_text. rewrite Ht. cbn [app]. apply isdigit_range in Hd.
      by destruct (Z.eqb_spec c 91); [lia|]. }
    rewrite H4'. unfold make_sockaddr4, addr4_text. rewrite strchr_app_l by done.
    destruct (Nat.eqb_spec (length (port_ip h1 h2 h3 h4)) 0); [lia|].
    destruct (Z.leb_spec INET_ADDRSTRLEN (Z.of_nat (length (port_ip h1 h2 h3 h4)))); [unfold INET_ADDRSTRLEN in *; lia|].
    cbn [orb]. rewrite take_app_length, drop_app_ge by lia.
    replace (S (length (port_ip h1 h2 h3 h4)) - length (port_ip h1 h2 h3 h4))%nat with 1%nat by lia.
    change (drop 1 (COLON :: fmt_u port)) with (fmt_u port). rewrite Hport, pton_port_ip by done. by destruct (Z.eqb_spec port 0); [lia|].
  - change (pal_make_sockaddr_ex (str "[::]:" ++ fmt_u port)) with
      (make_sockaddr6 [COLON; COLON] (COLON :: fmt_u port)).
    unfold make_sockaddr6. cbn [strlen]. change (negb (COLON =? COLON)) with false.
    change ((strlen [COLON; COLON] =? 0) || (INET6_ADDRSTRLEN <=? strlen [COLON; COLON])) with false.
    change (inet_pton6 [COLON; COLON]) with (Some (replicate 16 0)). cbn iota. rewrite Hport.
    by destruct (Z.eqb_spec port 0); [lia|].
Qed.

Lemma make_sockaddr_roundtrip_witness :
  addr4_text 192 168 1 20 8888 = str "192.168.1.20:8888" /\
  pal_make_sockaddr_ex (addr4_text 192 168 1 20 8888) = Ok (Addr4 (SockAddr 3232235796 8888)) /\
  pal_make_sockaddr_ex (str "[::]:" ++ fmt_u 8888) = Ok (Addr6 (replicate 16 0) 8888).
Proof.
  split; [reflexivity|]. apply (make_sockaddr_roundtrip 192 168 1 20 8888); unfold octet; lia.
Defined.

(** Two texts that the parser does not read as its comment and its callers
    mean them: an address with a zone is refused, and a port above 65535 is
    reduced modulo 65536. *)
Lemma make_sockaddr_divergence :
  pal_make_sockaddr_ex (str "[fe80::1%eth0]:8888") = Err FTP_ERR_INVALID_PARAM /\
  pal_make_sockaddr_ex (str "0.0.0.0:65557") = Ok (Addr4 (SockAddr 0 21)).
Proof. split; vm_compute; reflexivity. Qed.
