(* ===== verification/HttpInv.v ===== *)
(** * Invariants of the HTTP code over all its functions

    As [FtpInv] for sessions: every function that names no path keeps every
    invariant made of a property of the configuration and the job tables and a
    property of the requests that accepts those naming no path. *)

From S2P Require Import Prelude CLib FtpTypes FtpPath Os PalNetwork PalFileio PalCopy.
From S2P Require Import FtpResolve FtpInv.
From S2P Require Import HttpParser HttpState HttpResponse HttpCsrf HttpQuery HttpApi HttpServer.

(** A property of the configuration (root, token, whether it was drawn) and of
    the tables of background jobs. *)
Definition cfg (P : bytes -> bytes -> Z -> jobs_t -> Prop) (s : http_state) : Prop :=
  P (g_http_root s) (g_csrf_token s) (g_csrf_initialized s) (g_jobs s).

Section generic.
Context {W : Type} {os : OS W} (fuel : nat).
Context (P : bytes -> bytes -> Z -> jobs_t -> Prop) (K : event -> Prop) {HK : Quiet K}.
Abbreviation J := (cfg P).
Abbreviation keeps m := (hoare (inv (W := W) J K) m (fun _ => True)).
Abbreviation io_keeps m := (hoare (io_inv (W := W) K) m (fun _ => True)).

(** ** Memory and responses *)

Lemma keeps_malloc b : keeps (malloc b).
Proof. unfold malloc. hgo. Qed.

Lemma keeps_free i : keeps (free i).
Proof. unfold free. apply hoare_upd. intros s Hs. by destruct (heap s !! i). Qed.

Lemma keeps_load p n : keeps (load p n).
Proof. unfold load. hgo. Qed.

Lemma keeps_with_resp resp f : keeps (with_resp resp f).
Proof.
  unfold with_resp. destruct resp as [i|]; [|by apply hoare_ret].
  apply hoare_bind with (Q := fun _ => True); [by apply hoare_ask|]. intros r _.
  destruct (f r) as [rc r']. hgo.
Qed.

#[local] Hint Resolve keeps_malloc keeps_free keeps_load keeps_with_resp : hoare.

Lemma keeps_destroy resp : keeps (http_response_destroy resp).
Proof. unfold http_response_destroy. hgo. Qed.

#[local] Hint Resolve keeps_destroy : hoare.

Lemma keeps_create status : keeps (http_response_create status).
Proof. unfold http_response_create. hgo. Qed.

Lemma keeps_add_header resp n v : keeps (http_response_add_header resp n v).
Proof. apply keeps_with_resp. Qed.

Lemma keeps_set_body resp b : keeps (http_response_set_body resp b).
Proof. apply keeps_with_resp. Qed.

Lemma keeps_set_body_owned resp p n : keeps (http_response_set_body_owned resp p n).
Proof. apply keeps_with_resp. Qed.

Lemma keeps_set_body_ref resp p n : keeps (http_response_set_body_ref resp p n).
Proof. apply keeps_with_resp. Qed.

Lemma keeps_splice resp p n b q m : keeps (http_response_set_body_splice resp p n b q m).
Proof. apply keeps_with_resp. Qed.

Lemma keeps_append_raw resp b : keeps (http_response_append_raw resp b).
Proof. apply keeps_with_resp. Qed.

Lemma keeps_finalize resp : keeps (http_response_finalize resp).
Proof. apply keeps_with_resp. Qed.

#[local] Hint Resolve keeps_create keeps_add_header keeps_set_body keeps_set_body_owned
  keeps_set_body_ref keeps_splice keeps_append_raw keeps_finalize : hoare.

Lemma keeps_local_text size text : keeps (local_text size text).
Proof. unfold local_text. hgo. Qed.

Lemma keeps_json_response code : keeps (json_response code).
Proof. unfold json_response. hgo. Qed.

#[local] Hint Resolve keeps_local_text keeps_json_response : hoare.

Lemma keeps_json_reply code size text : keeps (json_reply code size text).
Proof. unfold json_reply. hgo. Qed.

Lemma keeps_error_json code text : keeps (error_json code text).
Proof. apply keeps_json_reply. Qed.

Lemma keeps_ok_json : keeps ok_json.
Proof. apply keeps_json_reply. Qed.

Lemma keeps_legacy text : keeps (api_legacy_disabled_json text).
Proof. unfold api_legacy_disabled_json. hgo. Qed.

#[local] Hint Resolve keeps_json_reply keeps_error_json keeps_ok_json keeps_legacy : hoare.

(** ** Connections *)

Lemma keeps_release i : keeps (http_connection_release i).
Proof. unfold http_connection_release. hgo. Qed.

#[local] Hint Resolve keeps_release : hoare.

Lemma keeps_close_connection i : keeps (http_close_connection i).
Proof. unfold http_close_connection. hgo. Qed.

#[local] Hint Resolve keeps_close_connection : hoare.

Lemma keeps_drop_connection i : keeps (drop_connection i).
Proof. unfold drop_connection. hgo. Qed.

Lemma keeps_quick_reply fd status json text : keeps (quick_reply fd status json text).
Proof. unfold quick_reply. hgo. Qed.

#[local] Hint Resolve keeps_drop_connection keeps_quick_reply : hoare.

Lemma keeps_reply_and_drop i fd status json text : keeps (reply_and_drop i fd status json text).
Proof. unfold reply_and_drop. hgo. Qed.

Lemma keeps_upload_write n fd rest : keeps (upload_write n fd rest).
Proof. revert rest. induction n as [|n IH]; intros rest; cbn [upload_write]; hgo; apply IH. Qed.

Lemma keeps_reply_write n fd rest : keeps (reply_write n fd rest).
Proof. revert rest. induction n as [|n IH]; intros rest; cbn [reply_write]; hgo; apply IH. Qed.

#[local] Hint Resolve keeps_reply_and_drop keeps_upload_write keeps_reply_write : hoare.

Lemma keeps_upload_done i c : keeps (upload_done fuel i c).
Proof. unfold upload_done. hgo. Qed.

#[local] Hint Resolve keeps_upload_done : hoare.

Lemma cfg_fill i c b s : J s -> J (upload_fill i c b s).
Proof. unfold upload_fill. by destruct (upload_chunk_buf c). Qed.

#[local] Hint Resolve cfg_fill : hoare.

Lemma keeps_upload_read i c : keeps (upload_read fuel i c).
Proof. unfold upload_read. hgo. Qed.

Lemma keeps_upload_begin i buf fd u h c : keeps (upload_begin fuel i buf fd u h c).
Proof. unfold upload_begin. hgo. Qed.

(** ** Sending *)

Lemma keeps_send_segments fd sent segs : keeps (send_segments fuel fd sent segs).
Proof. revert sent. induction segs as [|[[p|] n] segs IH]; intros sent; cbn [send_segments]; hgo; apply IH. Qed.

Lemma keeps_sendfile_loop n fd ffd off rem : keeps (sendfile_loop n fd ffd off rem).
Proof. revert off rem. induction n as [|n IH]; intros off rem; cbn [sendfile_loop]; hgo; apply IH. Qed.

Lemma keeps_pread_loop n fd ffd off rem cap : keeps (pread_loop fuel n fd ffd off rem cap).
Proof. revert off rem. induction n as [|n IH]; intros off rem; cbn [pread_loop]; hgo; apply IH. Qed.

Lemma keeps_send_chunk fd d : keeps (send_chunk fuel fd d).
Proof. unfold send_chunk. hgo. Qed.

#[local] Hint Resolve keeps_upload_read keeps_upload_begin keeps_send_segments keeps_sendfile_loop
  keeps_pread_loop keeps_send_chunk : hoare.

Lemma keeps_send_file fd r : keeps (send_file fuel fd r).
Proof. unfold send_file. hgo. Qed.

Lemma keeps_stream_entries n fd dir path first : keeps (stream_entries fuel n fd dir path first).
Proof. revert first. induction n as [|n IH]; intros first; cbn [stream_entries]; hgo; apply IH. Qed.

#[local] Hint Resolve keeps_send_file keeps_stream_entries : hoare.

Lemma keeps_stream_listing fd resp dir path : keeps (stream_listing fuel fd resp dir path).
Proof. unfold stream_listing. hgo. Qed.

#[local] Hint Resolve keeps_stream_listing : hoare.

Lemma keeps_send_response fd resp : keeps (send_response fuel fd resp).
Proof. unfold send_response. hgo. Qed.

End generic.

#[export] Hint Resolve keeps_malloc keeps_free keeps_load keeps_with_resp keeps_destroy keeps_create
  keeps_add_header keeps_set_body keeps_set_body_owned keeps_set_body_ref keeps_splice
  keeps_append_raw keeps_finalize keeps_local_text keeps_json_response keeps_json_reply
  keeps_error_json keeps_ok_json keeps_legacy keeps_release keeps_close_connection
  keeps_drop_connection keeps_quick_reply keeps_reply_and_drop keeps_upload_write keeps_reply_write
  keeps_upload_done keeps_upload_read keeps_upload_begin keeps_send_segments keeps_sendfile_loop
  keeps_pread_loop keeps_send_chunk keeps_send_file keeps_stream_entries keeps_stream_listing
  keeps_send_response : hoare.
