(* ===== verification/HttpConfine.v ===== *)
(** * The HTTP interface stays inside its root

    For every request and every behaviour of the system, the file handlers
    open, list, create, remove, rename and copy only paths inside the
    configured root; the web interface reads below its own directory. *)

From S2P Require Import Prelude CLib FtpTypes FtpPath Os PalNetwork PalFileio PalCopy.
From S2P Require Import FtpResolve FtpInv FtpConfine.
From S2P Require Import HttpParser HttpState HttpResponse HttpCsrf HttpQuery HttpApi HttpServer HttpInv.

(** POSIX: a directory entry is a file name. *)
Class ReaddirOS (W : Type) {os : OS W} : Prop :=
  readdir_name : forall dir w name b,
    (os_step (SysReaddir dir) w).1.1 = Some (name, b) -> name <> [] /\ (SLASH ∉ name) /\ no_nul name.

(** A file of the web interface. *)
Definition static_ok (p : bytes) : Prop :=
  exists q, p = HTTP_WEB_ROOT ++ q /\ strstr q (str "..") = None.

(** The requests a handler may make: those whose paths are inside the root,
    and reading a static file. *)
Definition http_ev_ok (root : bytes) (e : event) : Prop :=
  match e with
  | @Ev A c _ =>
      match c with
      | SysOpen p flags _ => inside root p \/ (static_ok p /\ flags = O_RDONLY)
      | SysUnlink p | SysRmdir p | SysMkdir p _ | SysOpendir p => inside root p
      | SysRename p q | SysCopyThread p q _ => inside root p /\ inside root q
      | _ => True
      end
  end.

#[export] Instance http_ev_ok_quiet root : Quiet (http_ev_ok root).
Proof. intros [A c r]. by destruct c. Qed.

(** ** Strings *)

Lemma hex_digit_range c v : hex_digit c = Some v -> 0 <= v < 16.
Proof. unfold hex_digit. repeat case_if; intros [= <-]; zbool; lia. Qed.

Lemma decode_no_nul s : forall room, no_nul s -> no_nul (decode_loop s room).2.
Proof.
  induction s as [s IH] using (induction_ltof1 _ (@length Z)). unfold ltof in IH.
  intros room Hs. destruct s as [|c s]; [by destruct room; constructor|].
  destruct room as [|room]; [constructor|]. apply Forall_cons_1 in Hs as [Hc Hs].
  assert (Hplain : no_nul (let '(ok, out) := decode_loop s room in
            (ok, (if c =? PLUS then SPACE else c) :: out)).2).
  { specialize (IH s ltac:(simpl; lia) room Hs). destruct (decode_loop s room) as [ok out]. simpl in *.
    constructor; [|done]. by case_if. }
  cbn [decode_loop]. destruct (c =? AMP); [constructor|].
  destruct (c =? PERCENT); [|exact Hplain].
  destruct s as [|hi [|lo s']]; [exact Hplain..|].
  destruct (hex_digit hi); [|exact Hplain]. destruct (hex_digit lo); [|exact Hplain].
  case_if; [constructor|]. zbool.
  specialize (IH s' ltac:(simpl; lia) room). destruct (decode_loop s' room) as [ok out]. simpl in *.
  constructor; [done|]. apply IH. by do 2 apply Forall_cons_1 in Hs as [_ Hs].
Qed.

Lemma no_nul_drop n s : no_nul s -> no_nul (drop n s).
Proof. apply Forall_drop. Qed.

Lemma no_nul_slash : no_nul [SLASH].
Proof. by repeat constructor. Qed.

Lemma parse_path_no_nul init query size :
  no_nul init -> no_nul query -> no_nul (parse_path_param init query size).2.
Proof.
  intros Hi Hq. unfold parse_path_param. case_if; [done|]. destruct (strstr query _) as [i|]; [|done].
  pose proof (decode_no_nul (drop (i + 5) query) (Z.to_nat (size - 1)) (no_nul_drop _ _ Hq)) as Hd.
  destruct (decode_loop _ _) as [ok out]. simpl in Hd. case_if; destruct out; try done. apply no_nul_slash.
Qed.

Lemma parse_name_no_nul query size name :
  no_nul query -> parse_name_param query size = Some name -> no_nul name.
Proof.
  intros Hq. unfold parse_name_param. case_if; [done|]. destruct (strstr query _) as [i|]; [|done].
  pose proof (decode_no_nul (drop (i + 5) query) (Z.to_nat (size - 1)) (no_nul_drop _ _ Hq)) as Hd.
  destruct (decode_loop _ _) as [ok out]. simpl in Hd. case_if; [done|]. destruct out; [done|]. by intros [= <-].
Qed.

Lemma parse_dst_no_nul query size p :
  no_nul query -> parse_dst_param query size = Some p -> no_nul p.
Proof.
  intros Hq. unfold parse_dst_param. case_if; [done|]. destruct (strstr query _) as [i|]; [|done].
  pose proof (decode_no_nul (drop (i + 4) query) (Z.to_nat (size - 1)) (no_nul_drop _ _ Hq)) as Hd.
  destruct (decode_loop _ _) as [ok out]. simpl in Hd. case_if; [done|]. intros [= <-].
  destruct out; [apply no_nul_slash|done].
Qed.

Lemma join_name_no_nul d n : no_nul d -> no_nul n -> no_nul (join_name d n).
Proof.
  intros Hd Hn. unfold join_name, snprintf_buf. apply no_nul_take. case_if.
  - by constructor.
  - apply no_nul_app. split; [done|]. by constructor.
Qed.

Lemma base_of_no_nul p : no_nul p -> no_nul (base_of p).
Proof. intros Hp. unfold base_of. case_match; [by apply no_nul_drop | done]. Qed.

(** ** Directory entries *)

Lemma render_snoc cs c : render (cs ++ [c]) = (if decide (cs = []) then [] else render cs) ++ SLASH :: c.
Proof.
  destruct cs as [|d cs]; [simpl; by rewrite app_nil_r|].
  destruct (decide (d :: cs = [])) as [|_]; [done|].
  change (concat (map (cons SLASH) ((d :: cs) ++ [c])) = concat (map (cons SLASH) (d :: cs)) ++ SLASH :: c).
  rewrite map_app, concat_app. simpl concat at 2. by rewrite app_nil_r.
Qed.

(** A file name below a path inside the root, the root directory apart. *)
Lemma inside_child root p name :
  inside root p -> p <> [SLASH] -> name <> [] -> (SLASH ∉ name) -> no_nul name -> dot_entry name = false ->
  strlen (p ++ SLASH :: name) < FTP_PATH_MAX ->
  inside root (p ++ SLASH :: name) /\ p ++ SLASH :: name <> [SLASH].
Proof.
  intros ((cs & -> & Hcs) & Hlp & (rs & ps & Er & Ep & Hrs & Hps)) Hp Hne Hs Hn Hdot Hl.
  assert (cs <> []) as Hcs0 by (by intros ->).
  assert (Hg : good_comp name).
  { split; [done|]. split; [done|]. repeat split; [intros ->; done..|done]. }
  assert (E : render (cs ++ [name]) = render cs ++ SLASH :: name)
    by (rewrite render_snoc; by rewrite decide_False).
  split; [|intros Eq; apply (f_equal length) in Eq; rewrite length_app in Eq; destruct name; simpl in Eq; [done|lia]].
  split; [|split; [done|]].
  - exists (cs ++ [name]). split; [done|]. apply Forall_app. split; [done | by apply Forall_singleton].
  - exists rs, (ps ++ [name]). split; [done|]. split.
    + rewrite <- E. rewrite app_assoc, render_snoc.
      apply render_inj in Ep as ->; [|done|by apply Forall_app].
      rewrite render_snoc. done.
    + split; [done|]. apply Forall_app. split; [done | by apply Forall_singleton].
Qed.

Lemma inside_entry root p name :
  inside root p -> name <> [] -> (SLASH ∉ name) -> no_nul name -> dot_entry name = false ->
  let child := if streq p [SLASH] then SLASH :: name else p ++ SLASH :: name in
  strlen child < FTP_PATH_MAX -> inside root child.
Proof.
  intros Hp Hne Hs Hn Hdot child Hl. unfold child in *. clear child.
  destruct (streq p [SLASH]) eqn:E; [|apply inside_child; try done; by intros ->].
  apply streq_true in E as ->. destruct Hp as (_ & _ & (rs & ps & Er & Ep & Hrs & Hps)).
  assert (rs ++ ps = []) as E0.
  { symmetry. apply (render_inj [] (rs ++ ps)); [constructor|by apply Forall_app|]. exact Ep. }
  apply app_eq_nil in E0 as [-> ->].
  assert (Hg : good_comp name) by (split; [done|]; split; [done|]; repeat split; [intros ->; done..|done]).
  assert (render [name] = SLASH :: name) as <- by (simpl; by rewrite app_nil_r).
  split; [exists [name]; split; [done | by apply Forall_singleton]|].
  split; [simpl; by rewrite app_nil_r|]. exists [], [name]. split; [done|].
  split; [done|]. split; [constructor | by apply Forall_singleton].
Qed.

(** A request for a handler of this development. *)
Definition own_route (r : http_request_t) : Prop := forall o, route_of r <> ApiOther o.

#[export] Instance own_route_dec r : Decision (own_route r).
Proof.
  unfold own_route. destruct (route_of r) as [ | | | | | | | | | | | | |o]; try (by left).
  right. intros Ho. by apply (Ho o).
Defined.

(** ** Handlers *)

Section confine.
Context {W : Type} {os : OS W} {Hrp : RealpathOS W} {Hrd : ReaddirOS W} (fuel : nat) (root : bytes).
Context {Hres : Resources}.
Hypothesis Hroot : canonical root.
Abbreviation J := (cfg (fun r _ _ _ => r = root)).
Abbreviation K := (http_ev_ok root).
Abbreviation keeps m := (hoare (inv (W := W) J K) m (fun _ => True)).
Abbreviation io_keeps m := (hoare (io_inv (W := W) K) m (fun _ => True)).

#[local] Hint Extern 2 (http_ev_ok _ _) => progress (cbn [http_ev_ok]) : hoare.

Lemma inside_of_within p : canonical p -> strlen p < FTP_PATH_MAX -> within root p -> inside root p.
Proof.
  intros Hc Hl Hw. split; [done|]. split; [done|].
  destruct Hroot as (rs & Er & Hrs), Hc as (ps & -> & Hps). unfold within in Hw.
  rewrite Er in *. by apply within_root_below.
Qed.

Lemma io_confine input size :
  no_nul input -> size <= FTP_PATH_MAX ->
  hoare (io_inv (W := W) K) (http_validate_and_confine input root size)
    (fun r => forall p, r = Some p -> inside root p).
Proof.
  intros Hi Hsz. unfold http_validate_and_confine.
  destruct (ftp_path_normalize (Some input) FTP_PATH_MAX) as [n|] eqn:En; [|by apply hoare_ret].
  apply normalize_canonical in En as [Hn Hl]; [|done|done].
  destruct (negb _) eqn:Ew; [by apply hoare_ret|]. zbool.
  eapply hoare_bind with (Q := fun rp => forall q, rp = Some q -> canonical q /\ strlen q < FTP_PATH_MAX).
  - intros s Hs. unfold sys_call. pose proof (realpath_canonical (W := W) n (os_state s)) as Hr.
    destruct (os_step (SysRealpath n) (os_state s)) as [[r e] w]. split; [by constructor|].
    intros a [= <-]. exact Hr.
  - intros [real|] Hq.
    + destruct (negb _) eqn:Er; [by apply hoare_ret|]. zbool. case_if; apply hoare_ret; [done|].
      intros p [= <-]. destruct (Hq real eq_refl). by apply inside_of_within.
    + case_if; apply hoare_ret; [done|]. intros p [= <-]. by apply inside_of_within.
Qed.

Lemma keeps_validate path :
  no_nul path ->
  hoare (inv (W := W) J K) (validate_path path FTP_PATH_MAX) (fun r => forall p, r = Some p -> inside root p).
Proof.
  intros Hp. unfold validate_path. destruct (negb _); [by apply hoare_ret|].
  eapply hoare_bind; [apply (hoare_ask J K g_http_root (fun r => r = root)); auto|].
  intros r ->. apply hoare_io. by apply io_confine.
Qed.

Lemma io_log_msg t : io_keeps (log_msg t).
Proof. unfold log_msg. hgo. Qed.

#[local] Hint Resolve io_log_msg : hoare.

(** Below a directory inside the root, only names inside the root are removed. *)
Lemma io_remove_entries n remove_dir dir path :
  inside root path -> path <> [SLASH] ->
  (forall p, inside root p -> p <> [SLASH] -> io_keeps (remove_dir p)) ->
  io_keeps (remove_entries n remove_dir dir path).
Proof.
  intros Hp Hne Hrec. induction n as [|n IH]; [apply hoare_diverge|]. cbn [remove_entries].
  eapply hoare_bind with
    (Q := fun ent => forall name b, ent = Some (name, b) -> name <> [] /\ (SLASH ∉ name) /\ no_nul name).
  { intros s Hs. unfold sys_call. pose proof (readdir_name (W := W) dir (os_state s)) as Hr.
    destruct (os_step (SysReaddir dir) (os_state s)) as [[r e] w]. split; [by constructor|].
    intros a [= <-] name b ->. by eapply Hr. }
  intros [[name b]|] Hent; [|by apply hoare_ret]. destruct (Hent name b eq_refl) as (Hn0 & Hns & Hnn).
  destruct (dot_entry name) eqn:Edot; [exact IH|].
  unfold child_path. case_if; [by apply hoare_ret|]. zbool.
  destruct (inside_child root path name) as [Hc Hc0]; [done..|].
  hgo.
Qed.

Lemma io_remove_recursive left path :
  inside root path -> path <> [SLASH] -> io_keeps (pal_dir_remove_recursive fuel left path).
Proof.
  revert path. induction left as [|left IH]; intros path Hp Hne; cbn [pal_dir_remove_recursive]; [hgo|].
  apply hoare_bind with (Q := fun _ => True); [by apply hoare_sys_call|]. intros [dir|] _; [|hgo].
  apply hoare_bind with (Q := fun _ => True); [|intros err _; hgo].
  apply io_remove_entries; [done..|]. intros p Hp' Hne'. by apply IH.
Qed.

Lemma keeps_size_exceeded ctx : keeps (dir_size_exceeded ctx).
Proof. unfold dir_size_exceeded. hgo. Qed.

#[local] Hint Resolve keeps_size_exceeded : hoare.

Lemma keeps_readdir dir :
  hoare (inv (W := W) J K) (sysc (SysReaddir dir))
    (fun ent => forall name b, ent = Some (name, b) -> name <> [] /\ (SLASH ∉ name) /\ no_nul name).
Proof.
  apply hoare_io. intros s Hs. unfold sys_call. pose proof (readdir_name (W := W) dir (os_state s)) as Hr.
  destruct (os_step (SysReaddir dir) (os_state s)) as [[r e] w]. split; [by constructor|].
  intros a [= <-] name b ->. by eapply Hr.
Qed.

Lemma keeps_dir_size_entries n walk dir path total ctx :
  inside root path -> (forall p c, inside root p -> keeps (walk p c)) ->
  keeps (dir_size_entries n walk dir path total ctx).
Proof.
  intros Hp Hrec. revert total ctx. induction n as [|n IH]; intros total ctx; [apply hoare_diverge|].
  cbn [dir_size_entries]. apply hoare_bind with (Q := fun _ => True); [apply keeps_size_exceeded|].
  intros [stop ctx'] _. destruct stop; [by apply hoare_ret|].
  eapply hoare_bind; [apply keeps_readdir|]. intros [[name b]|] Hent; [|by apply hoare_ret].
  destruct (Hent name b eq_refl) as (Hn0 & Hns & Hnn).
  destruct (dot_entry name) eqn:Edot; [apply IH|]. cbv zeta. case_if; [apply IH|]. zbool.
  pose proof (inside_entry root path name Hp Hn0 Hns Hnn Edot ltac:(done)) as Hc. hgo.
Qed.

Lemma keeps_dir_size_walk left path ctx : inside root path -> keeps (dir_size_walk fuel left path ctx).
Proof.
  revert path ctx. induction left as [|left IH]; intros path ctx Hp; cbn [dir_size_walk]; [hgo|].
  apply hoare_bind with (Q := fun _ => True); [apply keeps_size_exceeded|]. intros [stop ctx'] _.
  destruct stop; [by apply hoare_ret|].
  apply hoare_bind with (Q := fun _ => True); [by apply hoare_sysc|]. intros [dir|] _; [|by apply hoare_ret].
  apply hoare_bind with (Q := fun _ => True); [by apply keeps_dir_size_entries|]. intros [total ctx''] _. hgo.
Qed.

#[local] Hint Resolve keeps_dir_size_walk : hoare.

Lemma query_no_nul r q : no_nul (uri r) -> query_of r = Some q -> no_nul q.
Proof. intros Hu. unfold query_of. rewrite fmap_Some. intros (i & _ & ->). by apply no_nul_drop. Qed.

Lemma path_param_no_nul r init : no_nul (uri r) -> no_nul init -> no_nul (path_param r init).
Proof.
  intros Hu Hi. unfold path_param. destruct (query_of r) eqn:E; [|done].
  apply parse_path_no_nul; [done|]. by eapply query_no_nul.
Qed.

(** What [validate_path] returns is inside the root. *)
Lemma keeps_with_path path (k : option bytes -> M (st http_state W) (option nat)) :
  no_nul path -> keeps (k None) -> (forall p, inside root p -> keeps (k (Some p))) ->
  keeps (validate_path path FTP_PATH_MAX ≫= k).
Proof.
  intros Hp H0 H1. eapply hoare_bind; [by apply keeps_validate|]. intros [p|] Hr; [|done]. by apply H1, Hr.
Qed.

Lemma keeps_list r : no_nul (uri r) -> keeps (api_list r).
Proof.
  intros Hu. unfold api_list. apply keeps_with_path; [by apply path_param_no_nul; [|apply no_nul_slash]|hgo|].
  intros p Hp. hgo.
Qed.

Lemma keeps_dirsize r : no_nul (uri r) -> keeps (api_dirsize fuel r).
Proof.
  intros Hu. unfold api_dirsize, http_dir_size_with_partial.
  apply keeps_with_path; [by apply path_param_no_nul; [|apply no_nul_slash]|hgo|]. intros p Hp. hgo.
Qed.

Lemma keeps_download r : no_nul (uri r) -> keeps (api_download r).
Proof.
  intros Hu. unfold api_download. pose proof (path_param_no_nul r [] Hu ltac:(constructor)) as Hp.
  destruct (path_param r []) as [|c p]; [hgo|]. apply keeps_with_path; [done|hgo|]. intros q Hq. hgo.
Qed.

Lemma keeps_new_name r bad k :
  no_nul (uri r) -> (forall full name p, inside root p -> keeps (k full name p)) ->
  keeps (new_name r bad k).
Proof.
  intros Hu Hk. unfold new_name. case_if; [hgo|].
  destruct (query_of r) as [q|] eqn:Eq; [|hgo]. apply query_no_nul in Eq; [|done].
  pose proof (parse_path_no_nul [SLASH] q 1024 no_nul_slash Eq) as Hp.
  destruct (parse_path_param [SLASH] q 1024) as [rc dir_path]. simpl in Hp. case_if; [hgo|].
  destruct (parse_name_param q 256) as [name|] eqn:En; [|hgo]. apply parse_name_no_nul in En; [|done].
  case_if; [hgo|]. apply keeps_with_path; [done|hgo|]. intros safe_dir Hd.
  apply keeps_with_path; [|hgo|auto]. apply join_name_no_nul; [|done]. by eapply inside_no_nul.
Qed.

Lemma keeps_create_file buf r : no_nul (uri r) -> keeps (api_create_file fuel buf r).
Proof.
  intros Hu. apply keeps_new_name; [done|]. intros full name p Hp. unfold created_json. hgo.
Qed.

Lemma keeps_mkdir r : no_nul (uri r) -> keeps (api_mkdir r).
Proof.
  intros Hu. apply keeps_new_name; [done|]. intros full name p Hp. unfold created_json. hgo.
Qed.

Lemma inside_slash p : inside root p -> p = [SLASH] -> root = [SLASH].
Proof.
  intros (_ & _ & (rs & ps & -> & Ep & Hrs & Hps)) ->.
  assert (rs ++ ps = []) as E0.
  { symmetry. apply (render_inj [] (rs ++ ps)); [constructor|by apply Forall_app|]. exact Ep. }
  by apply app_eq_nil in E0 as [-> _].
Qed.

Lemma keeps_delete r : no_nul (uri r) -> keeps (api_delete fuel r).
Proof.
  intros Hu. unfold api_delete. case_if; [hgo|].
  destruct (query_of r) as [q|] eqn:Eq; [|hgo]. apply query_no_nul in Eq; [|done].
  pose proof (parse_path_no_nul [] q 1024 ltac:(constructor) Eq) as Hp.
  destruct (parse_path_param [] q 1024) as [rc path]. simpl in Hp. case_if; [hgo|].
  apply keeps_with_path; [done|hgo|]. intros safe Hs.
  eapply hoare_bind; [apply (hoare_ask J K g_http_root (fun r => r = root)); auto|]. intros r' ->.
  destruct (streq safe root) eqn:Er; [hgo|].
  assert (safe <> [SLASH]) as Hns.
  { intros ->. rewrite (inside_slash [SLASH] Hs eq_refl) in Er. by apply bool_decide_eq_false in Er. }
  assert (Hrm : io_keeps (pal_dir_remove_recursive_pub fuel (Some safe))) by (by apply io_remove_recursive).
  unfold delete_path. hgo.
Qed.

Lemma keeps_rename r : no_nul (uri r) -> keeps (api_rename r).
Proof.
  intros Hu. unfold api_rename. case_if; [hgo|].
  destruct (query_of r) as [q|] eqn:Eq; [|hgo]. apply query_no_nul in Eq; [|done].
  pose proof (parse_path_no_nul [] q 1024 ltac:(constructor) Eq) as Hp.
  destruct (parse_path_param [] q 1024) as [rc path]. simpl in Hp. case_if; [hgo|].
  destruct (parse_name_param q 256) as [name|] eqn:En; [|hgo]. apply parse_name_no_nul in En; [|done].
  case_if; [hgo|]. apply keeps_with_path; [done|hgo|]. intros old Ho.
  apply hoare_bind with (Q := fun _ => True); [hgo|]. intros ex _. case_if; [hgo|].
  destruct (strrchr old SLASH) as [n|]; [|hgo].
  apply keeps_with_path; [|hgo|intros new Hn; hgo].
  apply no_nul_take. case_if; [by constructor|]. apply no_nul_app.
  split; [by apply no_nul_take; eapply inside_no_nul | by constructor].
Qed.

Lemma keeps_start_copy q src dst : inside root src -> inside root dst -> keeps (start_copy q src dst).
Proof. intros Hs Hd. unfold start_copy. hgo. Qed.

Lemma keeps_copy r : no_nul (uri r) -> keeps (api_copy r).
Proof.
  intros Hu. unfold api_copy. case_if; [hgo|].
  apply hoare_bind with (Q := fun _ => True); [by apply hoare_ask|]. intros active _. case_if; [hgo|].
  destruct (query_of r) as [q|] eqn:Eq; [|hgo]. apply query_no_nul in Eq; [|done].
  pose proof (parse_path_no_nul [] q 1024 ltac:(constructor) Eq) as Hp.
  destruct (parse_path_param [] q 1024) as [rc path]. simpl in Hp. case_if; [hgo|].
  destruct (parse_dst_param q 1024) as [dst|] eqn:Ed; [|hgo]. apply parse_dst_no_nul in Ed; [|done].
  apply keeps_with_path; [done|hgo|]. intros src Hs.
  apply hoare_bind with (Q := fun _ => True); [hgo|]. intros ex _. case_if; [hgo|].
  apply keeps_with_path; [done|hgo|]. intros dd Hdd.
  apply hoare_bind with (Q := fun _ => True); [hgo|]. intros isd _. case_if; [hgo|].
  apply keeps_with_path; [|hgo|intros f Hf; by apply keeps_start_copy].
  apply join_name_no_nul; [by eapply inside_no_nul|]. apply base_of_no_nul. by eapply inside_no_nul.
Qed.

Lemma keeps_fread n fd size acc : keeps (fread n fd size acc).
Proof. revert acc. induction n as [|n IH]; intros acc; cbn [fread]; hgo; apply IH. Qed.

#[local] Hint Resolve keeps_fread : hoare.

Lemma keeps_embedded path : keeps (serve_embedded path).
Proof. unfold serve_embedded. hgo. Qed.

Lemma keeps_inject resp path i c : keeps (inject_token resp path i c).
Proof. unfold inject_token, http_csrf_get_token. hgo. Qed.

#[local] Hint Resolve keeps_embedded keeps_inject : hoare.

Lemma keeps_content path i c : keeps (serve_content path i c).
Proof. unfold serve_content. hgo. Qed.

#[local] Hint Resolve keeps_content : hoare.

Lemma keeps_file path size : strstr path (str "..") = None -> keeps (serve_file fuel path (HTTP_WEB_ROOT ++ path) size).
Proof.
  intros Hp. unfold serve_file. apply hoare_bind with (Q := fun _ => True).
  - apply hoare_sysc. intros r. right. split; [by exists path | done].
  - intros fd _. hgo.
Qed.

Lemma keeps_static r : keeps (serve_static fuel r).
Proof.
  unfold serve_static. destruct (strstr _ _) eqn:E; [hgo|]. cbv zeta. case_if; [hgo|].
  apply hoare_bind with (Q := fun _ => True); [hgo|]. intros [st|] _; [|hgo].
  case_if; [by apply keeps_file | hgo].
Qed.

Lemma keeps_copy_state : keeps api_copy_progress /\ keeps api_copy_cancel /\ keeps api_copy_pause.
Proof. unfold api_copy_progress, api_copy_cancel, api_copy_pause. split; [|split]; hgo. Qed.

Context {Hother : OtherApi W}.

Lemma keeps_api_handle buf r : no_nul (uri r) -> own_route r -> keeps (http_api_handle fuel buf r).
Proof.
  intros Hu Ho. unfold http_api_handle. apply hoare_bind with (Q := fun _ => True); [by apply hoare_ask|].
  intros s _. case_if; [hgo|]. destruct keeps_copy_state as (Hc1 & Hc2 & Hc3). unfold run_api.
  destruct (route_of r) as [ | | | | | | | | | | |json| |o] eqn:E; try assumption; [..|by destruct (Ho o)].
  all: first [by apply keeps_list | by apply keeps_dirsize | by apply keeps_download
             | by apply keeps_create_file | by apply keeps_mkdir | by apply keeps_delete
             | by apply keeps_rename | by apply keeps_copy | apply keeps_legacy | apply keeps_static].
  all: exact _.
Qed.


End confine.

(** A system without symbolic links, whose directories hold one file. *)
#[local] Instance plain_os : OS toy := fun A c w =>
  match c in sys A return A * Z * toy with
  | SysRealpath p =>
      (if decide (no_nul p) then
         match ftp_path_normalize (Some p) FTP_PATH_MAX with Ok q => Some q | Err _ => None end
       else None, ENOENT, w)
  | SysReaddir _ =>
      match toy_dir w with
      | [] => (None, 0, w)
      | n :: q => (Some (str "x", false), 0, Toy (toy_recv w) (toy_read w) (toy_stat w) q (toy_sched w))
      end
  | c => toy_step c w
  end.

#[local] Instance plain_realpath : RealpathOS (os := plain_os) toy.
Proof.
  intros p w q. unfold os_step, plain_os. cbn [fst].
  destruct (decide (no_nul p)) as [Hp|]; [|done].
  destruct (ftp_path_normalize _ _) as [r|] eqn:E; [|done]. intros [= <-].
  by apply (normalize_canonical p FTP_PATH_MAX).
Qed.

#[local] Instance plain_readdir : ReaddirOS (os := plain_os) toy.
Proof.
  intros dir w name b. unfold os_step, plain_os. destruct (toy_dir w); cbn [fst]; [done|].
  intros [= <- _]. by_compute.
Qed.

#[local] Instance no_resources : Resources :=
  {| http_get_resource _ := None; k_frontend_patch := []; strerror _ := [] |}.
#[local] Instance no_other : OtherApi toy := fun _ _ _ => mret None.

(** A server with root /srv and the token "t". *)
Definition http_at (stats : list (bytes * stat_t)) (dir : list (bytes * bool)) : st http_state toy :=
  St (set_g_csrf_initialized 1 (set_g_csrf_token (str "t") (set_g_http_root (str "/srv") http_state_init)))
    (SysSt (Toy [] [] stats dir []) 0 []).

(** A request with the token in its first header. *)
Definition token_buf : bytes := str "X-CSRF-Token" ++ 0 :: str "t" ++ [0].
Definition post (u : bytes) : http_request_t :=
  Request HTTP_METHOD_POST u 1 1 [Header 0 13] None 0.

