(* ===== verification/HttpGate.v ===== *)
(** * Changes need the token

    The requests that change the file system are made only for a POST that
    carries the server's CSRF token; and what the check leaves open. *)

From S2P Require Import Prelude CLib FtpTypes FtpPath Os PalNetwork PalFileio PalCopy.
From S2P Require Import FtpResolve FtpInv FtpConfine.
From S2P Require Import HttpParser HttpState HttpResponse HttpCsrf HttpQuery HttpApi HttpServer HttpInv HttpConfine.

(** A request that changes the file system. *)
Definition mutating (e : event) : bool :=
  match e with
  | @Ev A c _ =>
      match c with
      | SysOpen _ flags _ => negb (Z.land flags (Z.lor 3 (Z.lor O_CREAT O_TRUNC)) =? 0)
      | SysUnlink _ | SysRmdir _ | SysMkdir _ _ | SysRename _ _ | SysCopyThread _ _ _ => true
      | _ => false
      end
  end.

Definition harmless (e : event) : Prop := mutating e = false.

#[export] Instance harmless_quiet : Quiet harmless.
Proof. intros [A c r]. by destruct c. Qed.

Lemma hoare_run {S A} (I : S -> Prop) (m : M S A) Q s : hoare I m Q -> I s -> I (m s).2.
Proof. intros Hm Hs. by destruct (Hm s Hs). Qed.

Section gate.
Context {W : Type} {os : OS W} (fuel : nat) (tok : bytes) (ini : Z).
Context {Hres : Resources} {Hother : OtherApi W}.
Abbreviation J := (cfg (fun _ t i _ => t = tok /\ i = ini)).
Abbreviation keeps m := (hoare (inv (W := W) J harmless) m (fun _ => True)).
Abbreviation io_keeps m := (hoare (io_inv (W := W) harmless) m (fun _ => True)).

Lemma harmless_read p r : harmless (Ev (SysOpen p O_RDONLY 0) r).
Proof. reflexivity. Qed.

Lemma harmless_opendir p r : harmless (Ev (SysOpendir p) r).
Proof. reflexivity. Qed.

#[local] Hint Resolve harmless_read harmless_opendir : hoare.

(** ** The handlers that only read *)

Lemma quiet_validate path size : keeps (validate_path path size).
Proof. unfold validate_path, http_validate_and_confine. hgo. Qed.

#[local] Hint Resolve quiet_validate : hoare.

Lemma quiet_list r : keeps (api_list r).
Proof. unfold api_list. hgo. Qed.

Lemma quiet_download r : keeps (api_download r).
Proof. unfold api_download. hgo. Qed.

Lemma quiet_size_exceeded ctx : keeps (dir_size_exceeded ctx).
Proof. unfold dir_size_exceeded. hgo. Qed.

#[local] Hint Resolve quiet_size_exceeded : hoare.

Lemma quiet_dir_size_entries n walk dir path total ctx :
  (forall p c, keeps (walk p c)) -> keeps (dir_size_entries n walk dir path total ctx).
Proof.
  intros Hrec. revert total ctx. induction n as [|n IH]; intros total ctx; cbn [dir_size_entries]; hgo;
    apply IH.
Qed.

Lemma quiet_dir_size_walk left path ctx : keeps (dir_size_walk fuel left path ctx).
Proof.
  revert path ctx. induction left as [|left IH]; intros path ctx; cbn [dir_size_walk]; [hgo|].
  apply hoare_bind with (Q := fun _ => True); [hgo|]. intros [stop ctx'] _. destruct stop; [hgo|].
  apply hoare_bind with (Q := fun _ => True); [hgo|]. intros [dir|] _; [|hgo].
  apply hoare_bind with (Q := fun _ => True); [by apply quiet_dir_size_entries|].
  intros [total ctx''] _. hgo.
Qed.

#[local] Hint Resolve quiet_dir_size_walk : hoare.

Lemma quiet_dirsize r : keeps (api_dirsize fuel r).
Proof. unfold api_dirsize, http_dir_size_with_partial. hgo. Qed.

Lemma quiet_fread n fd size acc : keeps (fread n fd size acc).
Proof. revert acc. induction n as [|n IH]; intros acc; cbn [fread]; hgo; apply IH. Qed.

#[local] Hint Resolve quiet_fread : hoare.

Lemma quiet_embedded path : keeps (serve_embedded path).
Proof. unfold serve_embedded. hgo. Qed.

Lemma quiet_content path i c : keeps (serve_content path i c).
Proof. unfold serve_content, inject_token, http_csrf_get_token. hgo. Qed.

#[local] Hint Resolve quiet_embedded quiet_content : hoare.

Lemma quiet_static r : keeps (serve_static fuel r).
Proof. unfold serve_static, serve_file. hgo. Qed.

Lemma quiet_copy_state : keeps api_copy_progress /\ keeps api_copy_cancel /\ keeps api_copy_pause.
Proof. unfold api_copy_progress, api_copy_cancel, api_copy_pause. split; [|split]; hgo. Qed.

(** ** The handlers that change something refuse everything but a POST *)

Lemma quiet_not_post r :
  method r <> HTTP_METHOD_POST ->
  forall buf, keeps (api_create_file fuel buf r) /\ keeps (api_mkdir r) /\ keeps (api_delete fuel r)
    /\ keeps (api_rename r) /\ keeps (api_copy r).
Proof.
  intros Hm buf. unfold api_create_file, api_mkdir, new_name, api_delete, api_rename, api_copy.
  rewrite bool_decide_false by done. cbn [negb].
  split; [|split; [|split; [|split]]]; apply keeps_error_json; exact _.
Qed.

(** The check of the token in a state with this configuration. *)
Definition csrf_ok (buf : bytes) (r : http_request_t) : Prop :=
  ini <> 0 /\ csrf_header buf r = Some tok.

#[local] Instance csrf_ok_dec buf r : Decision (csrf_ok buf r).
Proof. unfold csrf_ok. apply _. Defined.

Lemma validate_ok s buf r : J s -> http_csrf_validate s buf r = 0 -> csrf_ok buf r.
Proof.
  intros [Ht Hi]. unfold http_csrf_validate. rewrite Hi, Ht. case_if; [done|]. zbool.
  destruct (csrf_header buf r) as [t|] eqn:E; [|done]. case_if; [done|]. intros _.
  split; [done|]. zbool. apply streq_true in Heqb0 as ->. done.
Qed.

Lemma quiet_api_handle buf r :
  own_route r -> ~ (method r = HTTP_METHOD_POST /\ csrf_ok buf r) -> keeps (http_api_handle fuel buf r).
Proof.
  intros Ho Hn. unfold http_api_handle.
  apply hoare_bind with (Q := J); [by apply hoare_ask|]. intros s Hs.
  destruct (bool_decide (method r = HTTP_METHOD_POST)) eqn:Em; zbool.
  { destruct (Z.eqb_spec (http_csrf_validate s buf r) 0) as [E|]; [|hgo].
    apply validate_ok in E; [|done]. by destruct Hn. }
  cbn [andb]. destruct quiet_copy_state as (Hc1 & Hc2 & Hc3).
  destruct (quiet_not_post r Em buf) as (Hp1 & Hp2 & Hp3 & Hp4 & Hp5). unfold run_api.
  destruct (route_of r) as [ | | | | | | | | | | |json| |o] eqn:E; try assumption; [..|by destruct (Ho o)].
  all: first [apply quiet_list | apply quiet_dirsize | apply quiet_download | apply keeps_legacy | apply quiet_static].
  all: exact _.
Qed.

(** ** Connections *)

(** The request a connection has collected carries the token. *)
Definition authorised (c : http_connection_t) : Prop :=
  0 <= (parsed c).1.1 /\ csrf_ok (parsed c).1.2 (parsed c).2.

Definition routed_own (c : http_connection_t) : Prop := own_route (parsed c).2.

#[local] Instance authorised_dec c : Decision (authorised c).
Proof. unfold authorised. apply _. Defined.

#[local] Instance routed_own_dec c : Decision (routed_own c).
Proof. unfold routed_own. apply _. Defined.

Lemma quiet_handle_request i c (s : st http_state W) :
  ~ authorised c -> routed_own c -> conn_at (ses s) i = c -> inv J harmless s ->
  inv J harmless (http_handle_request fuel i s).2.
Proof.
  intros Hn Ho Hc Hs. unfold http_handle_request, mbind at 1, M_bind at 1, ask, gets. rewrite Hc.
  unfold authorised, routed_own in *. destruct (parsed c) as [[rc buf] r]. cbn [fst snd] in *.
  match goal with |- inv _ _ (?m s).2 => enough (keeps m) as Hk by (by eapply hoare_run) end.
  destruct (Z.ltb_spec rc 0); [hgo|].
  assert (keeps (http_api_handle fuel buf r)) as Hh by (apply quiet_api_handle; tauto). hgo.
Qed.

Lemma quiet_start_upload i c uri hl cl : ~ authorised c -> keeps (start_upload fuel i c uri hl cl).
Proof.
  intros Hn. unfold start_upload, authorised in *. destruct (parsed c) as [[rc buf] r]. cbn [fst snd] in *.
  apply hoare_bind with (Q := fun _ => True); [hgo|]. intros _ _.
  apply hoare_bind with (Q := J); [by apply hoare_ask|]. intros s Hs.
  destruct (Z.ltb_spec rc 0); [hgo|]. cbn [orb].
  destruct (Z.eqb_spec (http_csrf_validate s buf r) 0) as [E|]; [|hgo].
  apply validate_ok in E; [|done]. by destruct Hn.
Qed.

Lemma quiet_request_ready i c (s : st http_state W) :
  ~ authorised c -> routed_own c -> conn_at (ses s) i = c -> inv J harmless s ->
  inv J harmless (request_ready fuel i c s).2.
Proof.
  intros Hn Ho Hc Hs. unfold request_ready.
  destruct (http_parse_basic_request _ _ _) as [[[[m u] hl] cl]|]; [|by eapply hoare_run; [hgo|]].
  case_if; [by eapply hoare_run; [apply quiet_start_upload|]|]. cbv zeta.
  case_if; [by eapply hoare_run; [hgo|]|].
  case_if; [done|]. pose proof (quiet_handle_request i c s Hn Ho Hc Hs) as Hh.
  unfold mbind, M_bind. destruct (http_handle_request fuel i s) as [[a|] s']; [|done].
  by eapply hoare_run; [hgo|].
Qed.

Lemma conn_at_upd c i (s : http_state) :
  (i < length (g_http_connections s))%nat -> conn_at (on_conn i (fun _ => c) s) i = c.
Proof.
  intros Hi. unfold conn_at, on_conn. simpl. destruct (lookup_lt_is_Some_2 _ _ Hi) as [x Hx].
  by rewrite list_lookup_alter_eq, Hx.
Qed.


End gate.

(** ** Examples *)

#[local] Instance gate_resources : Resources :=
  {| http_get_resource _ := None; k_frontend_patch := []; strerror _ := [] |}.
#[local] Instance gate_other : OtherApi toy := fun _ _ _ => mret None.

(** A server with root /srv, the token "t" and one open connection; its
    client sends [text]; a copy is running. *)
Definition server_with (text : bytes) : st http_state toy :=
  St (set_g_copy_progress (CopyProgress 10 100 1 0 0 0 0 0 0)
       (on_conn 0 (fun _ => new_connection 11)
         (set_connection_count 1 (set_g_csrf_initialized 1 (set_g_csrf_token (str "t")
           (set_g_http_root (str "/srv") (http_connections_init http_state_init)))))))
    (SysSt (Toy [] [text] [(str "/srv/a", Stat 33188 4 0 0 0)] [] []) 0 []).

Definition request_line (s : string) : bytes := str s ++ CRLF ++ CRLF.
Arguments request_line s%_string_scope.


