(* ===== verification/HttpBuild.v ===== *)
(** * The response builders

    Every builder of [src/http_response.c] adds exactly its text or nothing,
    and the text of a response never outgrows its buffer. *)

From S2P Require Import Prelude CLib FtpTypes Os HttpParser HttpState HttpResponse.

(** A call of a builder. *)
Inductive build :=
| BuildHeader (name value : bytes)
| BuildBody (b : bytes)
| BuildOwned (p : ptr) (length : Z)
| BuildRef (p : ptr) (length : Z)
| BuildSplice (prefix : ptr) (prefix_len : Z) (insert : bytes) (suffix : ptr) (suffix_len : Z)
| BuildRaw (d : bytes)
| BuildEnd.

Definition run_build (b : build) : http_response_t -> Z * http_response_t :=
  match b with
  | BuildHeader name value => add_header name value
  | BuildBody b => set_body b
  | BuildOwned p length => set_body_owned p length
  | BuildRef p length => set_body_ref p length
  | BuildSplice p n ins q m => set_body_splice p n ins q m
  | BuildRaw d => append_raw d
  | BuildEnd => finalize
  end.

(** What it adds to the text. *)
Definition build_text (b : build) : bytes :=
  match b with
  | BuildHeader name value => header_line name value
  | BuildBody b => content_length_line (strlen b) ++ CRLF ++ b
  | BuildOwned _ length | BuildRef _ length => content_length_line length ++ CRLF
  | BuildSplice _ n ins _ m => content_length_line (n + strlen ins + m) ++ CRLF
  | BuildRaw d => d
  | BuildEnd => CRLF
  end.

(** Where the bytes after the text come from: a block, and segments. *)
Definition rest_t : Type := option (ptr * Z) * list (option ptr * Z).

Definition rest_of (r : http_response_t) : rest_t :=
  ((fun p => (p, mem_length r)) <$> mem_body r, mem_segs r).

Definition build_rest (b : build) (rest : rest_t) : rest_t :=
  match b with
  | BuildOwned p length | BuildRef p length => (Some (p, length), rest.2)
  | BuildSplice p n ins q m =>
      (rest.1, [(Some p, n); (if 0 <? strlen ins then Some (PStatic ins) else None, strlen ins); (Some q, m)])
  | _ => rest
  end.

(** No object is larger than half the address space. *)
Definition build_ok (b : build) : Prop :=
  match b with BuildBody b => strlen b < 2 ^ 63 | _ => True end.

Definition bounded (r : http_response_t) : Prop := used r <= HTTP_RESPONSE_BUFFER_SIZE.


Lemma no_space_spec r extra :
  bounded r -> no_space r extra = bool_decide (HTTP_RESPONSE_BUFFER_SIZE < used r + extra).
Proof.
  unfold no_space, bounded, u64, used, strlen, HTTP_RESPONSE_BUFFER_SIZE. intros Hr.
  rewrite Z.mod_small by lia. case_bool_decide; zbool; lia.
Qed.

Lemma append_bounded b r : used r + strlen b <= HTTP_RESPONSE_BUFFER_SIZE -> bounded (append b r).
Proof. unfold bounded, used, strlen. simpl. rewrite length_app. lia. Qed.

(** The outcome of a builder that either fails and changes nothing, or adds
    [text] and sets [rest]. *)
Definition all_or_nothing (text : bytes) (rest : rest_t) (r : http_response_t)
    (out : Z * http_response_t) : Prop :=
  bounded out.2 /\
  ((out = (-1, r)) \/
   (out.1 = 0 /\ data out.2 = data r ++ text /\ rest_of out.2 = rest /\
    used r + strlen text <= HTTP_RESPONSE_BUFFER_SIZE)).

Lemma nothing text rest r : bounded r -> all_or_nothing text rest r (-1, r).
Proof. intros Hr. split; [done | by left]. Qed.

(** A test that fails the builder. *)
Ltac failing :=
  lazymatch goal with
  | |- all_or_nothing _ _ _ (if ?b then _ else _) => destruct b; [by apply nothing|]
  | |- all_or_nothing _ _ _ (match ?x with _ => _ end) =>
      lazymatch x with
      | (if ?b then _ else _) => destruct b; [by apply nothing|]
      | _ => destruct x; [by apply nothing|]
      end
  end.

Lemma all_of text rest r r' :
  data r' = data r ++ text -> rest_of r' = rest -> used r + strlen text <= HTTP_RESPONSE_BUFFER_SIZE ->
  all_or_nothing text rest r (0, r').
Proof.
  intros Hd Hrest Hl. split; [|by right]. unfold bounded, used, strlen in *. simpl.
  rewrite Hd, length_app. lia.
Qed.

Lemma add_header_fits name value r :
  bounded r -> used r + strlen (header_line name value) < HTTP_RESPONSE_BUFFER_SIZE ->
  add_header name value r = (0, append (header_line name value) r).
Proof. intros Hr Hl. unfold add_header. rewrite no_space_spec, bool_decide_false by (done || lia). done. Qed.

Lemma finalize_fits r :
  bounded r -> used r + 2 <= HTTP_RESPONSE_BUFFER_SIZE -> finalize r = (0, append CRLF r).
Proof. intros Hr Hl. unfold finalize. rewrite no_space_spec, bool_decide_false by (done || lia). done. Qed.

Lemma data_append b r : data (append b r) = data r ++ b.
Proof. done. Qed.

Lemma used_append b r : used (append b r) = used r + strlen b.
Proof. unfold used, strlen. simpl. rewrite length_app. lia. Qed.

(** The header and the blank line, once there is room for both. *)
Lemma length_header_fits length r :
  bounded r -> used r + (strlen (content_length_line length) + 2) <= HTTP_RESPONSE_BUFFER_SIZE ->
  add_header (str "Content-Length") (fmt_u length) r = (0, append (content_length_line length) r) /\
  finalize (append (content_length_line length) r)
  = (0, append CRLF (append (content_length_line length) r)).
Proof.
  intros Hr Hl. split; [apply add_header_fits; unfold content_length_line in *; lia || done|].
  apply finalize_fits; [apply append_bounded; lia | rewrite used_append; lia].
Qed.

Lemma content_length_short length :
  0 <= length < 2 ^ 63 -> 0 <= strlen (content_length_line length) < 2 ^ 10.
Proof.
  intros Hl. unfold content_length_line, header_line, fmt_u, digits, strlen. rewrite !length_app.
  pose proof (digits_fuel_length (S (Z.to_nat (Z.log2 length))) 10 length []) as Hd. simpl in Hd |- *.
  pose proof (Z.log2_nonneg length). assert (Z.log2 length < 63); [|lia].
  destruct (decide (length = 0)) as [->|]; [done|]. apply Z.log2_lt_pow2; lia.
Qed.

Lemma all_of_length length rest r r' :
  data r' = (data r ++ content_length_line length) ++ CRLF -> rest_of r' = rest ->
  ~ HTTP_RESPONSE_BUFFER_SIZE < used r + (strlen (content_length_line length) + 2) ->
  all_or_nothing (content_length_line length ++ CRLF) rest r (0, r').
Proof.
  intros Hd Hrest Hl. apply all_of; [by rewrite Hd, app_assoc | done |].
  unfold strlen in *. rewrite length_app. change (List.length CRLF) with 2%nat. lia.
Qed.

Lemma run_build_atomic b r :
  bounded r -> build_ok b -> all_or_nothing (build_text b) (build_rest b (rest_of r)) r (run_build b r).
Proof.
  intros Hr Hb. destruct b as [name value|b|p len|p len|p n ins q m|d|]; cbn [run_build build_text build_rest].
  - unfold add_header. rewrite no_space_spec by done. case_bool_decide; [by apply nothing|].
    apply all_of; done || lia.
  - simpl in Hb. assert (0 <= strlen b) by (unfold strlen; lia).
    pose proof (content_length_short (strlen b) ltac:(lia)) as Hcl.
    unfold set_body, u64. rewrite Z.mod_small by lia. rewrite no_space_spec by done.
    case_bool_decide; [by apply nothing|].
    destruct (length_header_fits (strlen b) r) as [-> _]; [done | lia|].
    apply all_of; [by rewrite !data_append, <- !app_assoc | done |].
    unfold strlen in *. rewrite !length_app. change (length CRLF) with 2%nat. lia.
  - unfold set_body_owned. do 2 failing.
    rewrite no_space_spec by done. case_bool_decide; [by apply nothing|].
    destruct (length_header_fits len r) as [-> _]; [done | lia|]. cbn [negb Z.eqb].
    by apply all_of_length.
  - unfold set_body_ref. do 2 failing.
    rewrite no_space_spec by done. case_bool_decide; [by apply nothing|].
    destruct (length_header_fits len r) as [-> E]; [done | lia|]. cbn [negb Z.eqb]. rewrite E.
    by apply all_of_length.
  - unfold set_body_splice, size_add_checked. do 5 failing.
    rewrite no_space_spec by done. case_bool_decide; [by apply nothing|].
    destruct (length_header_fits (n + strlen ins + m) r) as [-> E]; [done | lia|]. cbn [negb Z.eqb].
    rewrite E. by apply all_of_length.
  - unfold append_raw. rewrite no_space_spec by done. case_bool_decide; [by apply nothing|].
    apply all_of; done || lia.
  - unfold finalize. rewrite no_space_spec by done. case_bool_decide; [by apply nothing|].
    apply all_of; [done | done | change (strlen CRLF) with 2; lia].
Qed.

(** ** Sequences of calls *)

(** What a response is to its user: text, and the rest of the body. *)
Definition abs_response (r : http_response_t) : bytes * rest_t := (data r, rest_of r).

Fixpoint run_builds (bs : list build) (r : http_response_t) : list Z * http_response_t :=
  match bs with
  | [] => ([], r)
  | b :: bs' =>
      let '(rc, r) := run_build b r in
      let '(rcs, r) := run_builds bs' r in (rc :: rcs, r)
  end.

(** The specification: the calls that succeed add their text. *)
Definition spec_build (a : bytes * rest_t) (call : build * Z) : bytes * rest_t :=
  if call.2 =? 0 then (a.1 ++ build_text call.1, build_rest call.1 a.2) else a.

(** C37: whatever sequence of builder calls made a response, its text is the
    texts of the calls that returned 0, in order, and the memory to send after
    it the one recorded last; a call that fails adds nothing; and the text
    never exceeds the 8192 bytes of the buffer. *)
Theorem response_builds_refine bs r :
  bounded r -> Forall build_ok bs ->
  let out := run_builds bs r in
  bounded out.2 /\ Forall (fun rc => rc = 0 \/ rc = -1) out.1 /\
  abs_response out.2 = foldl spec_build (abs_response r) (zip bs out.1).
Proof.
  revert r. induction bs as [|b bs IH]; intros r Hr Hb; [done|]. cbn [run_builds].
  apply Forall_cons in Hb as [Hb Hbs]. destruct (run_build_atomic b r Hr Hb) as [Hbd Hout].
  destruct (run_build b r) as [rc r'] eqn:E. simpl in Hbd. destruct (IH r' Hbd Hbs) as (H1 & H2 & H3).
  destruct (run_builds bs r') as [rcs r'']. cbn [fst snd] in *. split; [done|].
  destruct Hout as [[= -> ->]|(Hrc & Hd & Hrest & _)]; simpl in *.
  - split; [constructor; [by right | done]|]. by rewrite H3.
  - subst rc. split; [constructor; [by left | done]|]. rewrite H3. unfold abs_response. by rewrite Hd, Hrest.
Qed.

Lemma response_builds_refine_witness :
  let out := run_builds [BuildHeader (str "A") (str "b"); BuildBody (str "hi")] response_zero in
  bounded out.2 /\ Forall (fun rc => rc = 0 \/ rc = -1) out.1 /\
  abs_response out.2 = (str "A: b" ++ CRLF ++ str "Content-Length: 2" ++ CRLF ++ CRLF ++ str "hi", (None, [])).
Proof.
  apply (response_builds_refine [BuildHeader (str "A") (str "b"); BuildBody (str "hi")] response_zero);
    [vm_compute; congruence | repeat constructor].
Defined.
