(* ===== verification/HttpUpload.v ===== *)
(** * HTTP uploads: what is received is what is written

    An upload is started by [upload_begin] with the part of the body that came
    with the headers and continued by the callbacks of later events. *)

From S2P Require Import Prelude CLib FtpTypes FtpPath Os PalNetwork PalFileio PalCopy.
From S2P Require Import FtpState FtpInv.
From S2P Require Import HttpParser HttpState HttpResponse HttpCsrf HttpQuery HttpApi HttpServer HttpBuild.

(** ** Functions that always return *)

Section returns.
Context {W : Type} {os : OS W}.

Lemma total_with_resp resp f : total (with_resp (W := W) resp f).
Proof. unfold with_resp. tgo. Qed.

Lemma total_free i : total (free (W := W) i).
Proof. unfold free. tgo. Qed.

#[local] Hint Resolve total_with_resp total_free : total.

Lemma total_destroy resp : total (http_response_destroy (W := W) resp).
Proof. unfold http_response_destroy. tgo. Qed.

#[local] Hint Resolve total_destroy : total.

Lemma total_create status : total (http_response_create (W := W) status).
Proof. unfold http_response_create. tgo. Qed.

Lemma total_file_close fd : total (pal_file_close (W := W) fd).
Proof. unfold pal_file_close, get_errno. tgo. Qed.

#[local] Hint Resolve total_create total_file_close : total.

Lemma total_json_response status : total (json_response (W := W) status).
Proof. unfold json_response, http_response_add_header. tgo. Qed.

Lemma total_close_connection i : total (http_close_connection (W := W) i).
Proof. unfold http_close_connection, http_connection_release. tgo. Qed.

#[local] Hint Resolve total_json_response total_close_connection : total.

Lemma total_drop_connection i : total (drop_connection (W := W) i).
Proof. unfold drop_connection. tgo. Qed.

Lemma total_quick_reply fd status json text : total (quick_reply (W := W) fd status json text).
Proof. unfold quick_reply, http_response_add_header, http_response_set_body. tgo. Qed.

End returns.

#[export] Hint Resolve total_with_resp total_free total_destroy total_create total_file_close
  total_json_response total_close_connection total_drop_connection total_quick_reply : total.

(** ** What moved since a trace *)

Section upload.
Context {W : Type} {os : OS W} {Hos : SaneOS W} (fuel : nat) {Hres : Resources} {Hother : OtherApi W}.
(** The connection, its descriptor, the file's, and the earlier trace. *)
Context (i : nat) (cfd fd : Z) (old : list event).
Context (Hne : cfd <> fd).

(** Since [old]: [got] was read from the client, [w] written to the file,
    [out] sent to the client. *)
Definition flow (got w out : bytes) (s : st http_state W) : Prop :=
  exists new, os_trace (sysw s) = new ++ old /\ read_on cfd new = got /\ sent_on fd new = w /\
    sent_on cfd new = out.

Lemma flow_event got w out s s' e :
  flow got w out s -> os_trace (sysw s') = e :: os_trace (sysw s) ->
  flow (got ++ event_read cfd e) (w ++ event_sent fd e) (out ++ event_sent cfd e) s'.
Proof. intros (new & Ht & <- & <- & <-) Ht'. exists (e :: new). by rewrite Ht', Ht. Qed.

Lemma flow_trace got w out s s' :
  flow got w out s -> os_trace (sysw s') = os_trace (sysw s) -> flow got w out s'.
Proof. intros (new & Ht & H) Ht'. exists new. by rewrite Ht', Ht. Qed.

(** The same when what was sent only has to satisfy [P]. *)
Definition flow_if (P : bytes -> Prop) (got w : bytes) (s : st http_state W) : Prop :=
  exists out, flow got w out s /\ P out.

Section keep.
Context (P : bytes -> Prop) (got w : bytes).
Abbreviation keeps m := (hoare (flow_if P got w) m (fun _ => True)).

Lemma flow_upd f : keeps (upd f).
Proof. apply hoare_modify. intros s (out & Hf & Ho). exists out. split; [|done]. by eapply flow_trace. Qed.

Lemma flow_ask {A} (f : http_state -> A) : keeps (ask f).
Proof. by apply hoare_gets. Qed.

(** A request that moves nothing between file and client. *)
Lemma flow_sysc {A} (c : sys A) :
  (forall r, event_read cfd (Ev c r) = []) -> (forall r, event_sent fd (Ev c r) = []) ->
  (forall r o, P o -> P (o ++ event_sent cfd (Ev c r))) -> keeps (sysc c).
Proof.
  intros H1 H2 H3. apply hoare_wp. intros s (out & Hf & Ho). apply wp_sysc. intros r e w' _.
  split; [|done]. exists (out ++ event_sent cfd (Ev c r)). split; [|by apply H3].
  pose proof (flow_event _ _ _ _ (St (ses s) (SysSt w' (if e =? 0 then os_errno (sysw s) else e)
    (Ev c r :: os_trace (sysw s)))) _ Hf eq_refl) as Hf'. by rewrite H1, H2, !app_nil_r in Hf'.
Qed.

Lemma flow_errno : keeps (io get_errno).
Proof. intros s Hs. split; [|done]. by destruct s. Qed.

Lemma flow_file_close x : keeps (io (pal_file_close x)).
Proof.
  unfold pal_file_close. apply hoare_wp. intros s Hs. apply wp_io.
  destruct (x <? 0); [apply wp_ret; by destruct s|]. apply wp_bind, wp_sys_call. intros r e w' _.
  destruct Hs as (out & Hf & Ho). pose proof (flow_event _ _ _ _
    (St (ses s) (SysSt w' (if e =? 0 then os_errno (sysw s) else e)
      (Ev (SysClose x) r :: os_trace (sysw s)))) _ Hf eq_refl) as Hf'.
  simpl in Hf'. rewrite !app_nil_r in Hf'.
  assert (flow_if P got w (St (ses s) (SysSt w' (if e =? 0 then os_errno (sysw s) else e)
    (Ev (SysClose x) r :: os_trace (sysw s))))) as Hs' by (by exists out).
  unfold get_errno. wp_case; [|by apply wp_ret]. wp_step. apply wp_ret. wp_case; by apply wp_ret.
Qed.

End keep.

Ltac fstep :=
  lazymatch goal with
  | |- hoare _ (mret _) _ => by apply hoare_ret
  | |- hoare _ (mret _ ≫= _) _ => apply hoare_ret_bind
  | |- hoare _ (_ ≫= _) _ => apply hoare_bind with (Q := fun _ => True); [|intros ? _]
  | |- hoare _ (upd _) _ => apply flow_upd
  | |- hoare _ (ask _) _ => apply flow_ask
  | |- hoare _ (sysc _) _ =>
      apply flow_sysc; [done | done | by intros; cbn [event_sent]; rewrite app_nil_r]
  | |- hoare _ (io (pal_file_close _)) _ => apply flow_file_close
  | |- hoare _ _ _ => case_match
  end.
Ltac fgo := repeat first [ solve [eauto 2 with flow] | fstep ].
Create HintDb flow.

Section keep_functions.
Context (P : bytes -> Prop) (got w : bytes).
Abbreviation keeps m := (hoare (flow_if P got w) m (fun _ => True)).

Lemma flow_with_resp resp f : keeps (with_resp resp f).
Proof. unfold with_resp. fgo. Qed.

Lemma flow_destroy resp : keeps (http_response_destroy resp).
Proof. unfold http_response_destroy, free. fgo. Qed.

#[local] Hint Resolve flow_with_resp flow_destroy : flow.

Lemma flow_create status : keeps (http_response_create status).
Proof. unfold http_response_create. fgo. Qed.

#[local] Hint Resolve flow_create : flow.

Lemma flow_json_response status : keeps (json_response status).
Proof. unfold json_response, http_response_add_header. fgo. Qed.

Lemma flow_drop_connection : keeps (drop_connection i).
Proof. unfold drop_connection, http_close_connection, http_connection_release, free. fgo. Qed.

End keep_functions.

(** ** The loops *)

(** Writes are not interrupted, and there is fuel for a buffer. *)
Definition lively : Prop :=
  (forall fd buf w n e w', os_step (SysWrite fd buf) w = (n, e, w') -> e <> EINTR) /\
  HTTP_UPLOAD_CHUNK_SIZE < Z.of_nat fuel.

Lemma write_event got w out s s' buf n :
  flow got w out s -> os_trace (sysw s') = Ev (SysWrite fd buf) n :: os_trace (sysw s) ->
  flow got (w ++ if 0 <? n then take (Z.to_nat n) buf else []) out s'.
Proof.
  intros Hf Ht. pose proof (flow_event _ _ _ _ _ _ Hf Ht) as Hf'. simpl in Hf'.
  rewrite Z.eqb_refl in Hf'. destruct (Z.eqb_spec fd cfd); [by subst|]. by rewrite !app_nil_r in Hf'.
Qed.

(** A strict part of [rest] has been written after [w]. *)
Definition partly (got w rest : bytes) (s : st http_state W) : Prop :=
  exists k, (k < length rest)%nat /\ flow got (w ++ take k rest) [] s.

Lemma partly_later got w rest k s :
  partly got (w ++ take k rest) (drop k rest) s -> partly got w rest s.
Proof.
  intros (j & Hj & Hf). rewrite length_drop in Hj. exists (k + j)%nat. split; [lia|].
  by rewrite <- app_assoc, take_take_drop in Hf.
Qed.

Lemma partly_none got w x rest s : flow got w [] s -> partly got w (x :: rest) s.
Proof. intros Hf. exists 0%nat. simpl. split; [lia|]. by rewrite app_nil_r. Qed.

Lemma upload_write_flow n rest got w s :
  flow got w [] s -> (lively -> (length rest < n)%nat) ->
  wp (upload_write n fd rest)
    (fun ok s' => ses s' = ses s /\ if (ok : bool) then flow got (w ++ rest) [] s' else partly got w rest s')
    (fun s' => ~ lively /\ (flow got (w ++ rest) [] s' \/ partly got w rest s')) s.
Proof.
  revert rest w s. induction n as [|n IH]; intros rest w s Hf Hn.
  { split; [intros Hl; specialize (Hn Hl); lia|].
    destruct rest; [left; by rewrite app_nil_r | right; by apply partly_none]. }
  cbn [upload_write]. destruct rest as [|x rest']; [apply wp_ret; by rewrite app_nil_r|].
  wp_step. wp_step. rename H into E.
  pose proof (write_event _ _ _ _ (St (ses s) (SysSt w0 (if e =? 0 then os_errno (sysw s) else e)
    (Ev (SysWrite fd (x :: rest')) r :: os_trace (sysw s)))) _ _ Hf eq_refl) as Hf'.
  pose proof (write_le _ _ _ _ _ _ E) as Hle. unfold strlen in Hle.
  pose proof (partly_none got w x rest' _ Hf) as Hp.
  set (rest := x :: rest') in *. clearbody rest. wp_case; zbool.
  - eapply wp_mono; [apply IH; [exact Hf'|]| |].
    + intros Hl. specialize (Hn Hl). rewrite length_drop. lia.
    + intros [] s'; simpl; intros [-> H']; split; try done.
      * by rewrite <- app_assoc, take_drop in H'.
      * by eapply partly_later.
    + intros s' [Hl H']. split; [done|]. rewrite <- app_assoc, take_drop in H'.
      destruct H' as [|H']; [by left | right; by eapply partly_later].
  - rewrite app_nil_r in Hf'. wp_step. wp_step. wp_case.
    + apply andb_prop in Heqb0 as [Hneg Heq]. zbool.
      pose proof (write_errno _ _ _ _ _ _ E ltac:(lia)) as He. destruct (Z.eqb_spec e 0); [done|].
      eapply wp_mono; [apply (IH rest w); [exact Hf'|]|done|done].
      intros Hl. exfalso. destruct Hl as [Hl _]. by apply (Hl _ _ _ _ _ _ E).
    + apply wp_ret. split; [done|]. destruct Hp as (k & Hk & Hf0). exists 0%nat. split; [lia|].
      by rewrite app_nil_r.
Qed.

Lemma write_loop_upload n rest count got w x s :
  flow got w [] (St x s) -> (lively -> (length rest < n)%nat) ->
  wp (write_all_loop n fd rest count)
    (fun res s' => (res = count /\ flow got (w ++ rest) [] (St x s')) \/
                   (res = -1 /\ partly got w rest (St x s')))
    (fun s' => ~ lively /\ (flow got (w ++ rest) [] (St x s') \/ partly got w rest (St x s'))) s.
Proof.
  revert rest w s. induction n as [|n IH]; intros rest w s Hf Hn.
  { split; [intros Hl; specialize (Hn Hl); lia|].
    destruct rest; [left; by rewrite app_nil_r | right; by apply partly_none]. }
  cbn [write_all_loop]. destruct rest as [|b rest']; [apply wp_ret; left; by rewrite app_nil_r|].
  pose proof (partly_none got w b rest' _ Hf) as Hp.
  set (rest := b :: rest') in *. clearbody rest. set (chunk := if _ <? _ then _ else _).
  wp_step. wp_step. rename H into E.
  set (s1 := SysSt w0 _ _). pose proof (write_event _ _ _ _ (St x s1) _ _ Hf eq_refl) as Hf'.
  pose proof (write_le _ _ _ _ _ _ E) as Hle. unfold strlen in Hle. rewrite length_take in Hle.
  assert (forall s', os_trace s' = os_trace s1 -> r <= 0 -> partly got w rest (St x s')) as Hpart.
  { intros s' Ht Hr. destruct (Z.ltb_spec 0 r); [lia|]. rewrite app_nil_r in Hf'.
    destruct Hp as (k & Hk & _). exists 0%nat. split; [lia|]. rewrite app_nil_r. by eapply flow_trace. }
  wp_case; zbool.
  - rewrite take_take in Hf'. replace (_ `min` _)%nat with (Z.to_nat r) in Hf' by lia.
    eapply wp_mono; [apply IH; [exact Hf'|]| |].
    + intros Hl. specialize (Hn Hl). rewrite length_drop. lia.
    + intros res s' [[-> H']|[-> H']]; [left|right]; (split; [done|]).
      * by rewrite <- app_assoc, take_drop in H'.
      * by eapply partly_later.
    + intros s' [Hl H']. split; [done|]. rewrite <- app_assoc, take_drop in H'.
      destruct H' as [|H']; [by left | right; by eapply partly_later].
  - rewrite app_nil_r in Hf'. wp_case; [wp_step; wp_step; wp_step; right; split; [done|]; by apply Hpart|].
    zbool. wp_step. wp_step. wp_case; [|apply wp_ret; right; split; [done|]; by apply Hpart].
    zbool. pose proof (write_errno _ _ _ _ _ _ E ltac:(lia)) as He. simpl in *. destruct (Z.eqb_spec e 0); [done|].
    apply IH; [exact Hf'|]. intros [Hl _]. by destruct (Hl _ _ _ _ _ _ E).
Qed.

(** ** The last answer *)

Lemma reply_write_flow n rest got w s :
  flow_if (fun _ => True) got w s -> (lively -> (length rest < n)%nat) ->
  wp (reply_write n cfd rest) (fun _ s' => flow_if (fun _ => True) got w s')
    (fun s' => ~ lively /\ flow_if (fun _ => True) got w s') s.
Proof.
  revert rest s. induction n as [|n IH]; intros rest s Hf Hn.
  { split; [intros Hl; specialize (Hn Hl); lia | done]. }
  cbn [reply_write]. destruct rest as [|x rest']; [by apply wp_ret|].
  wp_step. wp_step. rename H into E. pose proof (write_le _ _ _ _ _ _ E) as Hle. unfold strlen in Hle.
  set (s1 := St _ _). assert (flow_if (fun _ => True) got w s1) as Hf1.
  { destruct Hf as (out & Hf & _). eexists. split; [|done].
    pose proof (flow_event _ _ _ _ s1 _ Hf eq_refl) as Hf'. simpl in Hf'.
    destruct (Z.eqb_spec cfd fd); [done|]. simpl in Hf'. rewrite !app_nil_r in Hf'. exact Hf'. }
  wp_case; [by apply wp_ret|]. zbool. apply IH; [done|]. intros Hl. specialize (Hn Hl).
  rewrite length_drop. lia.
Qed.

Lemma resp_at_on s r x : resp_at (on_resp r (fun _ => x) s) r = x \/ resp_at (on_resp r (fun _ => x) s) r = response_zero.
Proof.
  unfold resp_at, on_resp. simpl. rewrite list_lookup_alter_eq. destruct (g_response_pool s !! r); auto.
Qed.

(** The text of response [r] fits its buffer. *)
Definition fits (r : nat) (s : st http_state W) : Prop := bounded (resp_at (ses s) r).

Lemma zero_fits : bounded response_zero.
Proof. unfold bounded. vm_compute. congruence. Qed.

Lemma with_resp_fits r f s :
  (forall x, bounded x -> bounded (f x).2) -> fits r s ->
  wp (with_resp (W := W) (Some r) f) (fun _ => fits r) (fun _ => False) s.
Proof.
  intros Hb Hs. unfold with_resp. wp_step. wp_step. specialize (Hb _ Hs).
  destruct (f _) as [rc x]. wp_step. wp_step. apply wp_ret. unfold fits. simpl.
  destruct (resp_at_on (ses s) r x) as [->| ->]; [done | apply zero_fits].
Qed.

Lemma add_header_bounded name value x : bounded x -> bounded (add_header name value x).2.
Proof. intros Hx. by destruct (run_build_atomic (BuildHeader name value) x Hx I). Qed.

Lemma add_headers_bounded hs x : bounded x -> bounded (add_headers hs x).2.
Proof.
  revert x. induction hs as [|[name value] hs IH]; intros x Hx; [done|]. cbn [add_headers].
  pose proof (add_header_bounded name value x Hx) as Hx'. destruct (add_header name value x) as [rc x'].
  destruct (negb (rc =? 0)); [done | by apply IH].
Qed.

Lemma create_fits status s :
  wp (http_response_create (W := W) status) (fun resp s' => forall r, resp = Some r -> fits r s')
    (fun _ => True) s.
Proof.
  unfold http_response_create. wp_step. wp_step. destruct (first_free _) as [r|]; [|by apply wp_ret].
  wp_step. wp_step. wp_step. wp_step.
  set (x := set_data _ _). set (s1 := St _ _). assert (fits r s1) as Hs1.
  { unfold fits, s1. simpl. edestruct resp_at_on as [->| ->]; [|apply zero_fits].
    unfold bounded, used, x, snprintf_buf, strlen, HTTP_RESPONSE_BUFFER_SIZE. simpl. rewrite length_take. lia. }
  clearbody s1. wp_case.
  { wp_step. eapply wp_mono; [apply wp_any| |done]. intros ? ? _. by apply wp_ret. }
  wp_step. eapply wp_mono; [apply (with_resp_fits r _ s1); [apply add_headers_bounded | done] | |done].
  intros rc s2 Hs2. wp_case; [|apply wp_ret; by intros ? [= <-]].
  wp_step. eapply wp_mono; [apply wp_any| |done]. intros ? ? _. by apply wp_ret.
Qed.

Lemma header_fits resp name value s :
  (forall r, resp = Some r -> fits r s) ->
  wp (http_response_add_header (W := W) resp name value) (fun _ s' => forall r, resp = Some r -> fits r s')
    (fun _ => True) s.
Proof.
  intros Hs. destruct resp as [r|]; [|by apply wp_ret]. unfold http_response_add_header.
  eapply wp_mono; [apply with_resp_fits; [apply add_header_bounded | by apply Hs] | |done].
  by intros ? ? ? ? [= <-].
Qed.

Lemma json_response_fits status s :
  wp (json_response (W := W) status) (fun resp s' => forall r, resp = Some r -> fits r s') (fun _ => True) s.
Proof.
  unfold json_response. wp_step. eapply wp_mono; [apply create_fits| |done]. intros resp s1 Hs1.
  wp_step. eapply wp_mono; [by apply (header_fits resp)| |done]. intros ? s2 Hs2.
  wp_step. eapply wp_mono; [by apply (header_fits resp)| |done]. intros ? s3 Hs3. by apply wp_ret.
Qed.

Lemma lively_buffer : lively -> HTTP_RESPONSE_BUFFER_SIZE < Z.of_nat fuel.
Proof. intros [_ Hl]. unfold HTTP_RESPONSE_BUFFER_SIZE, HTTP_UPLOAD_CHUNK_SIZE in *. lia. Qed.

(** A run that keeps the flow, with more known about its result. *)
Lemma wp_flow {A} (m : M (st http_state W) A) P got w (Q : A -> st http_state W -> Prop) B s :
  hoare (flow_if P got w) m (fun _ => True) -> total m -> flow_if P got w s ->
  wp m Q (fun _ => True) s -> wp m (fun a s' => Q a s' /\ flow_if P got w s') B s.
Proof.
  intros Hm Ht Hs Hq. eapply wp_total; [done|]. eapply wp_mono; [apply (wp_and m Q (fun _ => flow_if P got w))| |].
  - exact Hq.
  - eapply (wp_hoare m _ _ _ (fun _ => True)); [exact Hm | done | done | done].
  - done.
  - intros s' H. exact H.
Qed.

Lemma drop_flow P got w B s :
  flow_if P got w s -> wp (drop_connection i) (fun rc s' => rc = -1 /\ flow_if P got w s') B s.
Proof.
  intros Hs. eapply wp_flow; [apply flow_drop_connection | apply total_drop_connection | done|].
  unfold drop_connection. wp_step. eapply wp_mono; [apply wp_any| |done]. intros ? ? _. by apply wp_ret.
Qed.

Lemma upload_done_flow c got w s :
  conn_fd c = cfd -> flow_if (fun _ => True) got w s ->
  wp (upload_done fuel i c) (fun rc s' => rc = -1 /\ flow_if (fun _ => True) got w s')
    (fun s' => ~ lively /\ flow_if (fun _ => True) got w s') s.
Proof.
  intros Hc Hs. unfold upload_done.
  eapply wp_seq; [eapply (wp_flow _ _ _ _ (fun _ _ => True)); [fgo|tgo|exact Hs|apply wp_any]|].
  intros ? s1 [_ Hs1]. eapply wp_seq.
  { eapply wp_flow; [apply flow_json_response | apply total_json_response | exact Hs1 | apply json_response_fits]. }
  intros resp s2 [Hr Hs2]. wp_step. destruct resp as [r|]; [|by apply wp_ret, drop_flow].
  eapply wp_seq.
  { eapply wp_flow; [apply flow_with_resp | apply total_with_resp | exact Hs2|].
    eapply wp_mono; [apply (with_resp_fits r); [|by apply Hr]|intros ? ? H; exact H|done].
    intros x Hx. by destruct (run_build_atomic (BuildBody (jstr "{'ok':true}")) x Hx eq_refl). }
  intros ? s3 [Hf3 Hs3]. wp_step. wp_step. eapply wp_seq.
  { rewrite Hc. apply reply_write_flow; [exact Hs3|]. intros Hl. apply lively_buffer in Hl.
    unfold fits, bounded, used, strlen in Hf3. lia. }
  intros ? s4 Hs4. simpl in Hs4. eapply wp_mono.
  { eapply (wp_flow _ _ _ _ (fun _ _ => True)); [apply flow_destroy | apply total_destroy | exact Hs4 | apply wp_any]. }
  2: { intros s' H. exact H. }
  intros ? s5 [_ Hs5]. by apply drop_flow.
Qed.

(** ** One event *)

(** Connection [i] is receiving an upload, with [rem] bytes to come. *)
Definition uploading (rem : Z) (s : st http_state W) : Prop :=
  (i < length (g_http_connections (ses s)))%nat /\
  let c := conn_at (ses s) i in
  upload_active c <> 0 /\ conn_fd c = cfd /\ upload_fd c = fd /\ upload_remaining c = rem.

Lemma conn_at_on f s :
  (i < length (g_http_connections s))%nat -> conn_at (on_conn i f s) i = f (conn_at s i).
Proof.
  intros Hi. unfold conn_at, on_conn. simpl. rewrite list_lookup_alter_eq.
  apply lookup_lt_is_Some in Hi as [c ->]. done.
Qed.

Lemma conns_on f s : length (g_http_connections (on_conn i f s)) = length (g_http_connections s).
Proof. apply length_alter. Qed.

Lemma uploading_fill rem c b s w :
  uploading rem s -> uploading rem (St (upload_fill i c b (ses s)) w).
Proof.
  intros (Hi & H). unfold uploading, upload_fill. cbn [ses]. destruct (upload_chunk_buf c); [done|].
  split; [by rewrite conns_on|]. by rewrite conn_at_on.
Qed.

Lemma uploading_remaining rem rem' s w :
  uploading rem s -> uploading rem' (St (on_conn i (set_upload_remaining rem') (ses s)) w).
Proof.
  intros (Hi & Ha & Hc & Hf & _). unfold uploading. cbn [ses]. split; [by rewrite conns_on|].
  by rewrite conn_at_on.
Qed.

(** What an upload of [cl] bytes, of which [body] came with the headers, has
    done when its last callback returned [rc]. *)
Definition upload_post (cl : Z) (body : bytes) (rc : Z) (s : st http_state W) : Prop :=
  exists got w out, flow got w out s /\
    ((rc = 0 /\ out = [] /\ w = body ++ got /\ strlen w < cl /\ uploading (cl - strlen w) s) \/
     (rc = -1 /\ w = take (Z.to_nat cl) (body ++ got) /\ strlen w = cl) \/
     (rc = -1 /\ out = [] /\ w `prefix_of` body ++ got /\ strlen w < cl)).

(** The same when the system stopped it for good. *)
Definition upload_cut (cl : Z) (body : bytes) (s : st http_state W) : Prop :=
  ~ lively /\ exists got w out, flow got w out s /\ w `prefix_of` body ++ got /\ strlen w <= cl.

Lemma drop_post cl body got w s :
  flow got w [] s -> w `prefix_of` body ++ got -> strlen w < cl ->
  wp (drop_connection i) (upload_post cl body) (upload_cut cl body) s.
Proof.
  intros Hf Hw Hl. eapply wp_mono; [apply (drop_flow (fun o => o = []) got w (fun _ => False)) | |done].
  - by exists [].
  - intros rc s' [-> (out & Hf' & ->)]. exists got, w, []. split; [done|]. by right; right.
Qed.

Lemma done_post cl body got w c s :
  conn_fd c = cfd -> flow_if (fun _ => True) got w s -> w = take (Z.to_nat cl) (body ++ got) ->
  strlen w = cl -> wp (upload_done fuel i c) (upload_post cl body) (upload_cut cl body) s.
Proof.
  intros Hc Hs Hw Hl. eapply wp_mono; [by apply upload_done_flow | |].
  - intros rc s' [-> (out & Hf & _)]. exists got, w, out. split; [done|]. by right; left.
  - intros s' [Hn (out & Hf & _)]. split; [done|]. exists got, w, out. split; [done|].
    split; [subst w; apply prefix_take | lia].
Qed.

Context (cl : Z) (body : bytes) (Hfd : 0 <= fd).

Lemma upload_chunk_write got b n s :
  flow (got ++ b) (body ++ got) [] s -> 0 < n <= strlen b -> n <= cl - strlen (body ++ got) ->
  strlen b <= HTTP_UPLOAD_CHUNK_SIZE ->
  wp (upload_write fuel fd (take (Z.to_nat n) b))
    (fun ok s' => ses s' = ses s /\
       if (ok : bool) then flow (got ++ b) ((body ++ got) ++ take (Z.to_nat n) b) [] s'
       else exists w, flow (got ++ b) w [] s' /\ w `prefix_of` body ++ got ++ b /\ strlen w < cl)
    (upload_cut cl body) s.
Proof.
  intros Hf Hn Hrem Hb.
  assert (length (take (Z.to_nat n) b) = Z.to_nat n) as Hln by (rewrite length_take; unfold strlen in *; lia).
  assert (Hpre : forall k, (body ++ got) ++ take k (take (Z.to_nat n) b) `prefix_of` body ++ got ++ b).
  { intros k. rewrite take_take, <- app_assoc. apply prefix_app, prefix_app, prefix_take. }
  eapply wp_mono; [apply (upload_write_flow fuel _ _ _ _ Hf)| |].
  - intros [_ Hlf]. unfold strlen in *. lia.
  - intros [] s' [Es H]; (split; [done|]); [done|]. destruct H as (k & Hk & H). rewrite Hln in Hk.
    eexists. split; [exact H|]. split; [apply Hpre|]. unfold strlen in *. rewrite length_app, length_take. lia.
  - intros s' [Hnl H]. split; [done|]. destruct H as [H|(k & Hk & H)]; eexists _, _, _; (split; [exact H|]).
    + specialize (Hpre (Z.to_nat n)). rewrite (take_ge (take _ _)) in Hpre by lia. split; [done|].
      unfold strlen in *. rewrite length_app. lia.
    + rewrite Hln in Hk. split; [apply Hpre|]. unfold strlen in *. rewrite length_app, length_take. lia.
Qed.

Lemma upload_read_post got s :
  flow got (body ++ got) [] s -> uploading (cl - strlen (body ++ got)) s -> strlen (body ++ got) < cl ->
  wp (upload_read fuel i (conn_at (ses s) i)) (upload_post cl body) (upload_cut cl body) s.
Proof.
  intros Hf Hup Hl. destruct Hup as (Hi & Ha & Hc & Hu & Hr). unfold upload_read. rewrite Hc, Hu, Hr.
  set (cap := match upload_chunk_buf _ with Some _ => _ | None => _ end).
  assert (0 <= cap <= HTTP_UPLOAD_CHUNK_SIZE) as Hcap by (unfold cap; by case_match).
  wp_step. wp_step. rename H into E. set (s1 := St _ _).
  pose proof (flow_event _ _ _ _ s1 _ Hf eq_refl) as Hf1. simpl in Hf1. rewrite Z.eqb_refl, !app_nil_r in Hf1.
  destruct r as [[|x b']|]; simpl in Hf1; try (rewrite app_nil_r in Hf1; by eapply drop_post; [exact Hf1|..]).
  assert (Hb := read_le _ _ _ _ _ _ (proj1 Hcap) E). set (b := x :: b') in *.
  assert (0 < strlen b) as Hpos by (unfold b, strlen; simpl; lia). clearbody b. clear E.
  wp_step. wp_step. set (s2 := St _ _). assert (flow (got ++ b) (body ++ got) [] s2) as Hf2 by (by eapply flow_trace).
  remember (cl - strlen (body ++ got)) as rem eqn:Erem. set (n := if rem <? strlen b then rem else strlen b).
  assert (0 < n <= strlen b /\ n <= rem /\ (n = rem \/ n = strlen b)) as (Hn & Hnr & Hnb)
    by (unfold n; case_match; zbool; lia). clearbody n.
  rewrite (proj2 (Z.ltb_lt 0 n)), (proj2 (Z.leb_le 0 fd)) by lia. cbn [andb].
  eapply wp_seq; [apply (upload_chunk_write got b n); (done || lia)|].
  intros [] s3 [Es H3]; cbn [negb]; [|destruct H3 as (w' & H3 & Hw' & Hlw); by eapply drop_post].
  wp_step. wp_step. set (s4 := St _ _).
  assert (flow (got ++ b) ((body ++ got) ++ take (Z.to_nat n) b) [] s4) as Hf4 by (by eapply flow_trace).
  assert (strlen ((body ++ got) ++ take (Z.to_nat n) b) = cl - (rem - n)) as Hw.
  { unfold strlen in *. rewrite (length_app _ (take _ _)), length_take. lia. }
  wp_case; zbool.
  - eapply done_post; [done|by eexists| |lia]. rewrite (app_assoc body). symmetry.
    replace (Z.to_nat cl) with (length (body ++ got) + Z.to_nat n)%nat by (unfold strlen in *; lia).
    by rewrite take_app_add.
  - apply wp_ret. eexists _, _, _. split; [exact Hf4|]. left. split; [done|]. split; [done|].
    split; [rewrite (take_ge b) by (destruct Hnb; unfold strlen in *; lia); by rewrite app_assoc|]. split; [lia|].
    rewrite Hw. replace (cl - (cl - (rem - n))) with (rem - n) by lia. unfold s4. rewrite Es.
    eapply (uploading_remaining rem _ s2). apply (uploading_fill _ _ _ s1). by split.
Qed.

Lemma callback_post events got s :
  flow got (body ++ got) [] s -> uploading (cl - strlen (body ++ got)) s -> strlen (body ++ got) < cl ->
  wp (http_client_callback fuel i events) (upload_post cl body) (upload_cut cl body) s.
Proof.
  intros Hf Hup Hl. unfold http_client_callback. case_match; [by eapply drop_post|]. case_match.
  - wp_step. wp_step. pose proof Hup as (_ & Ha & _). destruct (Z.eqb_spec (upload_active (conn_at (ses s) i)) 0) as [E|];
      [by destruct Ha|]. by apply upload_read_post with got.
  - apply wp_ret. exists got, (body ++ got), []. split; [done|]. by left.
Qed.

(** The callbacks of the events [evs], while the connection is kept. *)
Fixpoint upload_events (evs : list Z) (rc : Z) : M (st http_state W) Z :=
  match evs with
  | [] => mret rc
  | events :: evs' =>
      if rc =? 0 then rc ← http_client_callback fuel i events; upload_events evs' rc else mret rc
  end.

Lemma upload_events_post evs rc s :
  upload_post cl body rc s -> wp (upload_events evs rc) (upload_post cl body) (upload_cut cl body) s.
Proof.
  revert rc s. induction evs as [|events evs IH]; intros rc s Hs; [by apply wp_ret|]. cbn [upload_events].
  destruct (Z.eqb_spec rc 0) as [->|]; [|by apply wp_ret].
  destruct Hs as (got & w & out & Hf & [(_ & -> & -> & Hl & Hup)|[(? & _)|(? & _)]]); [|done..].
  eapply wp_seq; [by eapply callback_post|]. intros rc s' Hs'. by apply IH.
Qed.

(** ** The whole upload *)

Lemma flow_quick_reply got w status json text :
  hoare (flow_if (fun _ => True) got w) (quick_reply cfd status json text) (fun _ => True).
Proof.
  unfold quick_reply, http_response_add_header, http_response_set_body.
  apply hoare_bind with (Q := fun _ => True); [apply flow_create|]. intros resp _.
  destruct resp as [r|]; [|by apply hoare_ret].
  apply hoare_bind with (Q := fun _ => True); [destruct json; fgo; apply flow_with_resp|]. intros _ _.
  apply hoare_bind with (Q := fun _ => True); [apply flow_with_resp|]. intros _ _.
  apply hoare_bind with (Q := fun _ => True); [apply flow_ask|]. intros d _.
  apply hoare_bind with (Q := fun _ => True); [|intros _ _; apply flow_destroy].
  destruct (0 <? strlen d); [|by apply hoare_ret].
  apply hoare_bind with (Q := fun _ => True); [|intros _ _; by apply hoare_ret].
  apply flow_sysc; [done| |done]. intros r0. cbn [event_sent]. by destruct (Z.eqb_spec cfd fd).
Qed.

Definition arrived (buf : bytes) (used header_len : Z) : bytes :=
  drop (Z.to_nat header_len) (take (Z.to_nat used) buf).

Lemma arrived_part buf used header_len :
  0 <= header_len -> 0 < cl -> strlen buf >= used ->
  let in_buf := if header_len <? used then Z.min (used - header_len) cl else 0 in
  take (Z.to_nat in_buf) (drop (Z.to_nat header_len) buf) = take (Z.to_nat cl) (arrived buf used header_len) /\
  in_buf = Z.min (strlen (arrived buf used header_len)) cl.
Proof.
  intros Hh Hc Hu in_buf. unfold arrived, strlen in *. rewrite length_drop, length_take.
  split; [|unfold in_buf; case_match; zbool; lia].
  rewrite !take_drop_commute, take_take. unfold in_buf. case_match; zbool.
  - do 2 f_equal. lia.
  - rewrite !drop_ge; [done|rewrite length_take; lia..].
Qed.

(** The connection after the file was opened. *)
Definition opened (s : st http_state W) : Prop :=
  (i < length (g_http_connections (ses s)))%nat /\
  let c := conn_at (ses s) i in upload_active c <> 0 /\ conn_fd c = cfd /\ upload_fd c = fd.

Lemma upload_buffer_post s :
  opened s -> flow [] [] [] s ->
  wp (match upload_chunk_buf (conn_at (ses s) i) with
      | Some _ => mret tt
      | None => b ← malloc (replicate (Z.to_nat HTTP_UPLOAD_CHUNK_SIZE) 0); upd (on_conn i (set_upload_chunk_buf b))
      end) (fun _ s' => opened s' /\ flow [] [] [] s') (upload_cut cl body) s.
Proof.
  generalize (replicate (Z.to_nat HTTP_UPLOAD_CHUNK_SIZE) 0) as zeros. intros zeros (Hi & Ha & Hc & Hf) Hs.
  wp_case; [by apply wp_ret|]. unfold malloc. wp_step. wp_step. wp_step.
  assert (forall s', os_trace (sysw s') = Ev (SysMalloc (strlen zeros)) r :: os_trace (sysw s) -> flow [] [] [] s') as Hs'
    by (intros s' Ht; exact (flow_event _ _ _ _ _ _ Hs Ht)).
  destruct r; repeat wp_step; (split; [|by apply Hs']); unfold opened; cbn [ses];
    (split; [by rewrite conns_on|]); by rewrite conn_at_on.
Qed.

Lemma upload_first_write b s :
  flow [] [] [] s -> b = take (Z.to_nat cl) body -> strlen b <= HTTP_REQUEST_BUFFER_SIZE ->
  wp (if 0 <? strlen b then io (pal_file_write_all fuel fd b) else mret 0)
    (fun rc s' => ses s' = ses s /\
       if rc <? 0 then exists w, flow [] w [] s' /\ w `prefix_of` body ++ [] /\ strlen w < strlen b
       else flow [] b [] s') (upload_cut cl body) s.
Proof.
  intros Hf Hb Hl. destruct (Z.ltb_spec 0 (strlen b)) as [Hpos|]; cycle 1.
  { apply wp_ret. split; [done|]. destruct b; [done|]. unfold strlen in *. simpl in *. lia. }
  assert (Hpre : forall k, take k b `prefix_of` body ++ []).
  { intros k. rewrite app_nil_r, Hb, take_take. apply prefix_take. }
  apply wp_io. unfold pal_file_write_all. destruct (Z.ltb_spec fd 0) as [|_]; [lia|].
  destruct (Z.eqb_spec (strlen b) 0); [lia|]. cbn [orb]. eapply wp_mono.
  - apply (write_loop_upload fuel b (strlen b) [] [] (ses s)); [by destruct s|].
    intros Hlv. apply lively_buffer in Hlv. unfold strlen, HTTP_REQUEST_BUFFER_SIZE, HTTP_RESPONSE_BUFFER_SIZE in *. lia.
  - intros rc s' [[-> H]|[-> (k & Hk & H)]]; (split; [done|]).
    + by destruct (Z.ltb_spec (strlen b) 0); [lia|].
    + eexists. split; [exact H|]. split; [apply Hpre|]. unfold strlen. simpl. rewrite length_take. lia.
  - intros s' [Hn H]. split; [done|]. assert (strlen b <= cl) by (subst b; unfold strlen in *; rewrite length_take in *; lia).
    destruct H as [H|(k & Hk & H)]; eexists _, _, _; (split; [exact H|]); simpl.
    + split; [|done]. rewrite <- (take_ge b (length b)) by lia. apply Hpre.
    + split; [apply Hpre|]. unfold strlen in *. rewrite length_take. lia.
Qed.

Lemma wp_io_ses {A} (m : M (sysst W) A) (Q : A -> st http_state W -> Prop) B s :
  wp (io m) Q B s -> wp (io m) (fun a s' => Q a s' /\ ses s' = ses s) B s.
Proof. unfold wp, io. by destruct (m (sysw s)) as [[a|] w]. Qed.

Lemma upload_begin_post buf used header_len s :
  body = arrived buf used header_len -> 0 <= header_len -> 0 < cl -> used <= strlen buf ->
  strlen buf <= HTTP_REQUEST_BUFFER_SIZE -> os_trace (sysw s) = old ->
  (i < length (g_http_connections (ses s)))%nat -> conn_fd (conn_at (ses s) i) = cfd ->
  wp (upload_begin fuel i buf fd used header_len cl) (upload_post cl body) (upload_cut cl body) s.
Proof.
  intros Hbody Hh Hcl Hu Hbuf Ht Hi Hc. unfold upload_begin.
  destruct (arrived_part buf used header_len Hh Hcl ltac:(lia)) as [Htake Hin].
  rewrite <- Hbody in *. set (in_buf := if header_len <? used then _ else _) in *. rewrite Htake. clearbody in_buf.
  assert (strlen (take (Z.to_nat cl) body) = in_buf) as Hlen by (unfold strlen in *; rewrite length_take; lia).
  assert (in_buf <= HTTP_REQUEST_BUFFER_SIZE) as Hmax.
  { subst body. unfold arrived, strlen in *. rewrite length_drop, length_take in Hin. lia. }
  rewrite <- Hlen. set (b := take (Z.to_nat cl) body) in *.
  wp_step. wp_step. wp_step. wp_step. eapply wp_seq; [apply upload_buffer_post|].
  { unfold opened. cbn [ses]. split; [by rewrite conns_on|]. by rewrite conn_at_on. }
  { exists []. simpl. by rewrite Ht. }
  intros ? s1 [Ho1 Hf1]. eapply wp_seq; [apply upload_first_write; [done|done|lia]|].
  intros rc s2 [Es H2]. unfold opened in Ho1. rewrite <- Es in Ho1. destruct (rc <? 0).
  { destruct H2 as (w & Hf2 & Hw & Hlw). eapply drop_post; [exact Hf2|done|]. unfold strlen in *. lia. }
  wp_step. wp_step. destruct Ho1 as (Hi2 & Ha2 & Hc2 & Hu2). wp_case; zbool.
  - eapply wp_seq.
    { apply wp_io_ses. eapply (wp_flow _ (fun _ => True) [] b (fun _ _ => True));
        [apply flow_file_close | tgo | exists []; by split | apply wp_any]. }
    intros ? s3 [[_ Hf3] E3]. cbn [ses] in E3. wp_step. wp_step. wp_step. wp_step. cbn [ses]. rewrite E3.
    rewrite !conn_at_on by (rewrite ?conns_on; done). cbn [conn_fd set_upload_active set_upload_fd set_buffer
      set_buffer_used set_upload_remaining]. rewrite Hc2. unfold reply_and_drop.
    eapply wp_seq; [eapply (wp_flow _ (fun _ => True) [] b (fun _ _ => True));
      [apply flow_quick_reply | apply total_quick_reply | | apply wp_any]|].
    { destruct Hf3 as (out & Hf3 & _). exists out. split; [|done]. by eapply flow_trace. }
    intros ? s4 [_ Hf4]. eapply wp_mono; [by apply (drop_flow (fun _ => True) [] b (fun _ => False))| |done].
    intros rc' s5 [-> (out & Hf5 & _)]. exists [], b, out. split; [done|]. right; left.
    rewrite app_nil_r. split; [done|]. split; [done | lia].
  - apply wp_ret. exists [], b, []. split; [by eapply flow_trace|]. left.
    assert (b = body) as -> by (unfold b; apply take_ge; unfold strlen in *; lia).
    rewrite app_nil_r. split; [done|]. split; [done|]. split; [done|]. split; [lia|].
    unfold uploading. cbn [ses]. split; [by rewrite conns_on|]. by rewrite conn_at_on.
Qed.

End upload.

(** ** The theorem *)

Section theorem.
Context {W : Type} {os : OS W} {Hos : SaneOS W} (fuel : nat) {Hres : Resources} {Hother : OtherApi W}.

(** [upload_begin] when the file is open as [fd], then the callbacks of [evs]. *)
Definition http_upload (i : nat) (buf : bytes) (fd used header_len cl : Z) (evs : list Z) :
    M (st http_state W) Z :=
  rc ← upload_begin fuel i buf fd used header_len cl; upload_events fuel i evs rc.

(** C4: an upload of [cl] bytes, over any sequence of events and whatever
    the kernel answers: the bytes written to the file are, in order, those of
    the body that came with the headers followed by those read from the
    connection, never more than [cl]; as long as the connection is kept all of
    them are written; the client is answered only when exactly [cl] bytes have
    been written; and if writes are not interrupted for ever, every callback
    returns. *)
Theorem http_upload_integrity i buf fd used header_len cl evs (s : st http_state W) :
  let cfd := conn_fd (conn_at (ses s) i) in
  (i < length (g_http_connections (ses s)))%nat -> cfd <> fd -> 0 <= fd ->
  0 <= header_len -> 0 < cl -> used <= strlen buf -> strlen buf <= HTTP_REQUEST_BUFFER_SIZE ->
  let run := http_upload i buf fd used header_len cl evs s in
  exists new, os_trace (sysw run.2) = new ++ os_trace (sysw s) /\
    let stream := arrived buf used header_len ++ read_on cfd new in
    let written := sent_on fd new in
    written `prefix_of` stream /\ strlen written <= cl /\
    (lively (os := os) fuel -> run.1 <> None) /\
    (run.1 = Some 0 -> written = stream /\ strlen written < cl) /\
    (run.1 <> None -> sent_on cfd new <> [] -> written = take (Z.to_nat cl) stream /\ strlen written = cl).
Proof.
  intros cfd Hi Hne Hfd Hh Hcl Hu Hbuf run. subst run.
  assert (wp (http_upload i buf fd used header_len cl evs)
    (upload_post i cfd fd (os_trace (sysw s)) cl (arrived buf used header_len))
    (upload_cut fuel cfd fd (os_trace (sysw s)) cl (arrived buf used header_len)) s) as H.
  { unfold http_upload. eapply wp_seq; [by apply upload_begin_post|]. intros rc s' Hs'. by apply upload_events_post. }
  unfold wp in H. destruct (http_upload i buf fd used header_len cl evs s) as [[rc|] s']; cbn [fst snd].
  - destruct H as (got & w & out & (new & Ht & Hg & Hw & Ho) & H). exists new. split; [done|]. rewrite Hg, Hw, Ho.
    destruct H as [(-> & -> & -> & Hl & _)|[(-> & -> & Hl)|(-> & -> & Hp & Hl)]].
    + split; [done|]. split; [lia|]. done.
    + split; [apply prefix_take|]. split; [lia|]. split; [done|]. split; [done|]. done.
    + split; [done|]. split; [lia|]. done.
  - destruct H as (Hn & got & w & out & (new & Ht & Hg & Hw & Ho) & Hp & Hl). exists new. split; [done|].
    rewrite Hg, Hw. done.
Qed.

End theorem.

#[local] Instance upload_resources : Resources :=
  {| http_get_resource _ := None; k_frontend_patch := []; strerror _ := [] |}.
#[local] Instance upload_other : OtherApi toy := fun _ _ _ => mret None.

(** A connection in slot 0 whose client sends "cd", then "efgh". *)
Definition upload_start : st http_state toy :=
  St (on_conn 0 (fun _ => new_connection 11) (http_connections_init http_state_init))
    (SysSt (Toy [] [str "cd"; str "efgh"] [] [] []) 0 []).

(** Five bytes, of which "ab" came after a header of four bytes. *)
Lemma http_upload_integrity_witness :
  let run := http_upload 400 0 (str "headab") 12 6 4 5 [EVENT_READ; EVENT_READ] upload_start in
  exists new, os_trace (sysw run.2) = new ++ [] /\
    sent_on 12 new `prefix_of` str "ab" ++ read_on 11 new /\ sent_on 12 new = str "abcde" /\
    run.1 = Some (-1).
Proof.
  intros run.
  destruct (http_upload_integrity (W := toy) 400 0 (str "headab") 12 6 4 5 [EVENT_READ; EVENT_READ] upload_start)
    as (new & Ht & Hp & _); [vm_compute; lia | vm_compute; lia | lia | lia | lia | vm_compute; congruence | vm_compute; congruence|].
  exists new. split; [exact Ht|]. split; [exact Hp|].
  assert (new = os_trace (sysw run.2)) as -> by (unfold run; rewrite Ht; symmetry; apply app_nil_r).
  vm_compute. split; reflexivity.
Defined.
