(* ===== verification/HttpFaults.v ===== *)
(** * Memory faults of the HTTP code

    Runs of the callback on the small kernel of [Os] in which the program
    reads memory it does not own any more, or never did. *)

From S2P Require Import Prelude CLib FtpTypes FtpPath Os PalNetwork PalFileio PalCopy.
From S2P Require Import HttpParser HttpState HttpResponse HttpCsrf HttpQuery HttpApi HttpServer.

#[local] Instance fault_resources : Resources :=
  {| http_get_resource _ := None; k_frontend_patch := []; strerror _ := [] |}.
#[local] Instance fault_other : OtherApi toy := fun _ _ _ => mret None.

(** A server with root /srv and token "t"; its client in slot 0 sends
    [request], then the files hold [texts]. *)
Definition fault_server (request : bytes) (texts : list bytes) (files : list (bytes * stat_t)) : st http_state toy :=
  St (on_conn 0 (fun _ => new_connection 11)
       (set_connection_count 1 (set_g_csrf_initialized 1 (set_g_csrf_token (str "t")
         (set_g_http_root (str "/srv") (http_connections_init http_state_init))))))
    (SysSt (Toy [] (request :: texts) files [] []) 0 []).


(** The body of a reply on a connection: what follows the first blank line. *)
Definition reply_body (out : bytes) : bytes :=
  match strstr out (CRLF ++ CRLF) with Some k => drop (k + 4) out | None => [] end.

(** The reply to a creation is formatted into 512 bytes, but sent with
    the length it would have had: for a long path the client gets bytes of the
    stack that follow the array. *)
Theorem create_reply_over_read :
  let dir := str "/srv/" ++ replicate 200 97 in
  let name := replicate 200 98 in
  let s := fault_server (str "POST /api/mkdir?path=" ++ dir ++ str "&name=" ++ name
             ++ str " HTTP/1.1" ++ CRLF ++ str "X-CSRF-Token: t" ++ CRLF ++ CRLF) [] [] in
  let s' := (http_client_callback 99 0 EVENT_READ s).2 in
  let body := reply_body (sent_on 11 (os_trace (sysw s'))) in
  foreign_bytes (os_trace (sysw s')) = strlen body - 512 /\ strlen body = 637.
Proof. vm_compute. done. Qed.
