(* ===== verification/HttpJobs.v ===== *)
(** * Background jobs of the HTTP API: [src/http_api.c]

    The handlers of the download manager and of archive extraction, in the
    build without a transfer library and without libarchive (the default):
    the table of downloads, its requests and its report.  The definitions are
    in a module of their own because the router names the handlers too. *)

From S2P Require Import Prelude CLib FtpTypes FtpPath Os PalNetwork PalFileio PalCopy.
From S2P Require Import FtpResolve FtpInv Download Unpack.
From S2P Require Import HttpParser HttpState HttpResponse HttpCsrf HttpQuery HttpApi HttpServer HttpInv HttpConfine.

Module Jobs.

(** ** Texts *)

(** [atoi] *)
Definition atoi (s : bytes) : Z := to_int (strtoll s).1.

(** The body of a request as the C string it is searched as; the connection's
    buffer ends with a NUL. *)
Definition body_text (buf : bytes) (r : http_request_t) : option bytes :=
  match body r with
  | Some p => if 0 <? body_length r then Some (cstr_at buf p) else None
  | None => None
  end.

(** The characters of a JSON string up to its end, [room] at most. *)
Fixpoint dl_copy (s : bytes) (room : nat) : bytes :=
  match room, s with
  | S room, c :: s' =>
      if c =? 34 then []
      else if c =? BACKSLASH then
        match s' with d :: s'' => d :: dl_copy s'' room | [] => [c] end
      else c :: dl_copy s' room
  | _, _ => []
  end.

(** The string stored under a key (with its quotation marks); [init] when
    there is none. *)
Definition dl_json_field (text key init : bytes) (size : Z) : bytes :=
  match strstr text key with
  | None => init
  | Some k =>
      let rest := drop (k + length key) text in
      match strchr rest 34 with
      | None => init
      | Some q => dl_copy (drop (S q) rest) (Z.to_nat (size - 1))
      end
  end.

(** The number stored under [id]; 0 when there is none. *)
Definition dl_body_id (text : option bytes) : Z :=
  match text with
  | None => 0
  | Some text =>
      match strstr text (jstr "'id'") with
      | None => 0
      | Some k => atoi (drop_while (fun c => (c =? 32) || (c =? 58) || (c =? 9)) (drop (k + 4) text))
      end
  end.

(** The destination of an extraction, decoded. *)
Fixpoint extract_decode (s : bytes) (room : nat) : bytes :=
  match room, s with
  | S room, c :: s' =>
      if c =? AMP then []
      else
        let plain := c :: extract_decode s' room in
        if c =? PERCENT then
          match s' with
          | hi :: lo :: s'' =>
              match hex_digit hi, hex_digit lo with
              | Some vh, Some vl => Z.lor (Z.shiftl vh 4) vl :: extract_decode s'' room
              | _, _ => plain
              end
          | _ => plain
          end
        else plain
  | _, _ => []
  end.

Definition extract_dst (query : option bytes) : bytes :=
  match query with
  | None => [SLASH]
  | Some query =>
      match strstr query (str "dst=") with
      | None => [SLASH]
      | Some k => cstr_of (extract_decode (drop (k + 4) query) 1023)
      end
  end.

(** ** The table of downloads *)

Definition set_downloads (l : list dl_entry_t) (j : jobs_t) : jobs_t :=
  Jobs l (g_dl_next_id j) (g_extract j) (g_game_install_state j).
Definition on_jobs (f : jobs_t -> jobs_t) (s : http_state) : http_state := set_g_jobs (f (g_jobs s)) s.
Definition on_download (i : nat) (f : dl_entry_t -> dl_entry_t) (j : jobs_t) : jobs_t :=
  set_downloads (alter f i (g_downloads j)) j.

(** The first index at which a test holds. *)
Definition find_index {A} (p : A -> bool) (l : list A) : option nat := fst <$> list_find (fun a => p a = true) l.

(** The slot for a new download: one never used, else a finished one. *)
Definition dl_find_slot (l : list dl_entry_t) : option nat :=
  match find_index (fun d => (dl_active d =? 0) && (dl_done d =? 0)) l with
  | Some i => Some i
  | None => find_index (fun d => negb (dl_done d =? 0)) l
  end.

Definition dl_find_by_id (id : Z) (l : list dl_entry_t) : option nat := find_index (fun d => dl_id d =? id) l.

(** The entry [api_dl_start] leaves: the download failed at once. *)
Definition dl_unavailable : bytes := str "Download not available — compile with ENABLE_LIBCURL=1".

Definition dl_new (id next_id : Z) (url dst : bytes) (now : Z) : dl_entry_t :=
  DlEntry 0 1 0 1 id (take 2047 url) (take 1023 dst) (dl_extract_filename next_id url 256) dl_unavailable 0 0 now.

Definition dl_toggle (d : dl_entry_t) : dl_entry_t :=
  DlEntry (dl_active d) (dl_done d) (if dl_paused d =? 0 then 1 else 0) (dl_error d) (dl_id d) (dl_url d)
    (dl_dst_path d) (dl_filename d) (dl_error_msg d) (dl_total_size d) (dl_downloaded d) (dl_start_time d).

Definition dl_cancelled (d : dl_entry_t) : dl_entry_t :=
  DlEntry 0 1 (dl_paused d) 1 (dl_id d) (dl_url d) (dl_dst_path d) (dl_filename d)
    (str "Cancelled by user") (dl_total_size d) (dl_downloaded d) (dl_start_time d).

(** The percentage shown for a download. *)
Definition dl_progress (d : dl_entry_t) : Z :=
  if 0 <? dl_total_size d then
    Z.min 100 (to_int (u64 (dl_downloaded d * 100) / dl_total_size d))
  else if negb (dl_done d =? 0) && (dl_error d =? 0) then 100 else 0.

(** A text escaped into 512 bytes; empty when it does not fit. *)
Definition dl_escaped (s : bytes) : bytes := default [] (json_escape_append 512 [] s).

Definition dl_entry_json (d : dl_entry_t) : bytes :=
  jstr "{'id':" ++ fmt_d (dl_id d) ++ jstr ",'name':'" ++ dl_escaped (dl_filename d)
  ++ jstr "','url':'" ++ dl_escaped (dl_url d)
  ++ jstr "','progress':" ++ fmt_d (dl_progress d) ++ jstr ",'downloaded':" ++ fmt_u (dl_downloaded d)
  ++ jstr ",'total_size':" ++ fmt_u (dl_total_size d) ++ jstr ",'speed':0,'done':" ++ json_bool (dl_done d)
  ++ jstr ",'error':'" ++ dl_escaped (if dl_error d =? 0 then [] else dl_error_msg d)
  ++ jstr "','paused':" ++ json_bool (dl_paused d) ++ jstr "}".

(** The pieces [api_dl_status] prints one behind the other. *)
Fixpoint dl_pieces (first : bool) (l : list dl_entry_t) : list bytes :=
  match l with
  | [] => [jstr "]}"]
  | d :: l =>
      if dl_id d =? 0 then dl_pieces first l
      else (if first then [] else [str ","]) ++ dl_entry_json d :: dl_pieces false l
  end.

(** [pos += snprintf(body + pos, cap - pos, ...)] piece by piece: the text,
    and whether a piece was printed from beyond the end of the array, with a
    size that has wrapped around. *)
Fixpoint print_pieces (cap : Z) (text : bytes) (wild : bool) (l : list bytes) : bytes * bool :=
  match l with
  | [] => (text, wild)
  | p :: l => print_pieces cap (text ++ p) (wild || (cap <? strlen text)) l
  end.

(** ** The handlers *)

Section handlers.
Context {W : Type} `{OS W}.
Abbreviation hm := (M (st http_state W)).

(** A JSON reply of these handlers: no CORS header; [no_store] forbids caching.
    The body was formatted into an array of [size] bytes. *)
Definition job_reply (no_store : bool) (size : Z) (text : bytes) : hm (option nat) :=
  resp ← http_response_create HTTP_STATUS_200_OK;
  _ ← http_response_add_header resp (str "Content-Type") (str "application/json");
  _ ← (if no_store then http_response_add_header resp (str "Cache-Control") (str "no-store") else mret 0);
  b ← local_text size text;
  _ ← http_response_set_body resp b;
  mret resp.

Definition api_dl_start (buf : bytes) (r : http_request_t) : hm (option nat) :=
  if negb (bool_decide (method r = HTTP_METHOD_POST))
  then error_json HTTP_STATUS_405_METHOD_NOT_ALLOWED (str "Use POST")
  else
    let text := body_text buf r in
    let url := match text with Some t => dl_json_field t (jstr "'url'") [] 2048 | None => [] end in
    let dst := match text with Some t => dl_json_field t (jstr "'dst'") [SLASH] 1024 | None => [SLASH] end in
    match url with
    | [] => error_json HTTP_STATUS_400_BAD_REQUEST (str "Missing url parameter")
    | _ =>
        let '(ok, reason) := dl_url_is_supported false url in
        if negb ok then error_json HTTP_STATUS_400_BAD_REQUEST reason
        else
          safe_dst ← validate_path dst FTP_PATH_MAX;
          match safe_dst with
          | None => error_json HTTP_STATUS_403_FORBIDDEN (str "Invalid destination path")
          | Some safe_dst =>
              l ← ask (fun s => g_downloads (g_jobs s));
              match dl_find_slot l with
              | None => error_json HTTP_STATUS_409_CONFLICT (str "Max concurrent downloads reached")
              | Some i =>
                  id ← ask (fun s => g_dl_next_id (g_jobs s));
                  let next_id := to_int (id + 1) in
                  now ← sysc SysTime;
                  let d := dl_new id next_id url safe_dst now in
                  _ ← upd (on_jobs (fun j => Jobs (<[i := d]> (g_downloads j)) next_id (g_extract j)
                                               (g_game_install_state j)));
                  job_reply false 256
                    (jstr "{'ok':true,'id':" ++ fmt_d id ++ jstr ",'name':'" ++ dl_filename d ++ jstr "','size':0}")
              end
          end
    end.

(** Printing from beyond the array corrupts the stack; it is recorded like a
    misuse of the heap. *)
Definition api_dl_status : hm (option nat) :=
  l ← ask (fun s => g_downloads (g_jobs s));
  let '(text, wild) := print_pieces 4096 [] false (jstr "{'downloads':[" :: dl_pieces true l) in
  _ ← (if wild then upd (set_heap_fault true) else mret tt);
  job_reply true 4096 text.

Definition api_dl_pause (buf : bytes) (r : http_request_t) : hm (option nat) :=
  if negb (bool_decide (method r = HTTP_METHOD_POST))
  then error_json HTTP_STATUS_405_METHOD_NOT_ALLOWED (str "Use POST")
  else
    l ← ask (fun s => g_downloads (g_jobs s));
    match dl_find_by_id (dl_body_id (body_text buf r)) l with
    | None => error_json HTTP_STATUS_404_NOT_FOUND (str "Download not found")
    | Some i =>
        _ ← upd (on_jobs (on_download i dl_toggle));
        l ← ask (fun s => g_downloads (g_jobs s));
        job_reply false 64
          (jstr "{'ok':true,'paused':" ++ json_bool (dl_paused (default dl_zero (l !! i))) ++ jstr "}")
    end.

Definition api_dl_cancel (buf : bytes) (r : http_request_t) : hm (option nat) :=
  if negb (bool_decide (method r = HTTP_METHOD_POST))
  then error_json HTTP_STATUS_405_METHOD_NOT_ALLOWED (str "Use POST")
  else
    l ← ask (fun s => g_downloads (g_jobs s));
    match dl_find_by_id (dl_body_id (body_text buf r)) l with
    | None => error_json HTTP_STATUS_404_NOT_FOUND (str "Download not found")
    | Some i =>
        _ ← upd (on_jobs (on_download i dl_cancelled));
        job_reply false 512 (jstr "{'ok':true}")
    end.

Definition set_cancelled (j : jobs_t) : jobs_t :=
  let e := g_extract j in
  Jobs (g_downloads j) (g_dl_next_id j)
    (Extract (ex_active e) (ex_done e) 1 (ex_error e) (ex_bytes_extracted e) (ex_total_bytes e) (ex_error_msg e))
    (g_game_install_state j).

Definition api_extract (r : http_request_t) : hm (option nat) :=
  if negb (bool_decide (method r = HTTP_METHOD_POST))
  then error_json HTTP_STATUS_405_METHOD_NOT_ALLOWED (str "Use POST")
  else
    active ← ask (fun s => ex_active (g_extract (g_jobs s)));
    if negb (active =? 0) then error_json HTTP_STATUS_409_CONFLICT (str "Extraction already in progress")
    else
      let path := path_param r [] in
      let dst := extract_dst (query_of r) in
      match path with
      | [] => error_json HTTP_STATUS_400_BAD_REQUEST (str "Missing path parameter")
      | _ =>
          safe_path ← validate_path path FTP_PATH_MAX;
          safe_dst ← match safe_path with None => mret None | Some _ => validate_path dst FTP_PATH_MAX end;
          match safe_dst with
          | None => error_json HTTP_STATUS_403_FORBIDDEN (str "Path traversal blocked")
          | Some _ =>
              error_json HTTP_STATUS_500_INTERNAL_ERROR
                (str "libarchive not available — compile with ENABLE_LIBARCHIVE=1")
          end
      end.

Definition api_extract_progress : hm (option nat) :=
  e ← ask (fun s => g_extract (g_jobs s));
  job_reply true 256
    (jstr "{'active':" ++ json_bool (ex_active e) ++ jstr ",'done':" ++ json_bool (ex_done e)
     ++ jstr ",'cancelled':" ++ json_bool (ex_cancelled e) ++ jstr ",'error':" ++ json_bool (ex_error e)
     ++ jstr ",'bytes_extracted':" ++ fmt_u (ex_bytes_extracted e)
     ++ jstr ",'total_bytes':" ++ fmt_u (ex_total_bytes e)
     ++ jstr ",'error_msg':'" ++ ex_error_msg e ++ jstr "'}").

Definition api_extract_cancel (r : http_request_t) : hm (option nat) :=
  if negb (bool_decide (method r = HTTP_METHOD_POST))
  then error_json HTTP_STATUS_405_METHOD_NOT_ALLOWED (str "Use POST")
  else
    _ ← upd (on_jobs set_cancelled);
    job_reply false 512 (jstr "{'ok':true}").

(** The handlers of this file; [None] for the others. *)
Definition job_api (o : other_api) (buf : bytes) (r : http_request_t) : option (hm (option nat)) :=
  match o with
  | HttpApi.api_dl_start => Some (api_dl_start buf r)
  | HttpApi.api_dl_status => Some api_dl_status
  | HttpApi.api_dl_pause => Some (api_dl_pause buf r)
  | HttpApi.api_dl_cancel => Some (api_dl_cancel buf r)
  | HttpApi.api_extract => Some (api_extract r)
  | HttpApi.api_extract_progress => Some api_extract_progress
  | HttpApi.api_extract_cancel => Some (api_extract_cancel r)
  | _ => None
  end.

End handlers.

(** ** The tables are well typed *)

Definition flag (z : Z) : Prop := z = 0 \/ z = 1.
Definition int_range (z : Z) : Prop := - 2 ^ 31 <= z < 2 ^ 31.

(** A character JSON needs no escape for. *)
Definition clean (c : Z) : Prop := 32 <= c /\ c <> 34 /\ c <> BACKSLASH.

(** The values an entry can have: flags are flags, numbers fit their types,
    texts fit their arrays with the terminator, and name and message can be
    printed as JSON as they are.  Nothing is ever received in this build. *)
Record dl_ok (d : dl_entry_t) : Prop := {
  ok_active : flag (dl_active d);
  ok_done : flag (dl_done d);
  ok_paused : flag (dl_paused d);
  ok_error : flag (dl_error d);
  ok_id : int_range (dl_id d);
  ok_url : strlen (dl_url d) < 2048;
  ok_dst : strlen (dl_dst_path d) < 1024;
  ok_filename : strlen (dl_filename d) < 256 /\ Forall clean (dl_filename d);
  ok_message : strlen (dl_error_msg d) <= 56 /\ Forall clean (dl_error_msg d);
  ok_total : dl_total_size d = 0;
  ok_downloaded : dl_downloaded d = 0
}.

Definition extract_ok (e : extract_t) : Prop :=
  ex_active e = 0 /\ ex_done e = 0 /\ flag (ex_cancelled e) /\ ex_error e = 0 /\
  ex_bytes_extracted e = 0 /\ ex_total_bytes e = 0 /\ ex_error_msg e = [].

Definition jobs_ok (j : jobs_t) : Prop :=
  length (g_downloads j) = DL_MAX_ACTIVE /\ Forall dl_ok (g_downloads j) /\
  int_range (g_dl_next_id j) /\ extract_ok (g_extract j).

Lemma to_int_range z : int_range (to_int z).
Proof.
  unfold int_range, to_int, u32. pose proof (Z.mod_pos_bound z (2 ^ 32)).
  destruct (Z.ltb_spec (z mod 2 ^ 32) (2 ^ 31)); lia.
Qed.

Lemma isdigit_clean c : isdigit c = true -> clean c.
Proof. intros Hc. apply isdigit_range in Hc. unfold clean, BACKSLASH. lia. Qed.

Lemma fmt_d_int z : int_range z -> Forall clean (fmt_d z) /\ (length (fmt_d z) <= 33)%nat.
Proof.
  intros Hz. unfold int_range in Hz.
  assert (H : forall n, 0 <= n <= 2 ^ 31 -> Forall clean (digits 10 n) /\ (length (digits 10 n) <= 32)%nat).
  { intros n Hn. destruct (fmt_u_dec n) as (_ & Hd & _); [lia|]. split.
    - eapply Forall_impl; [exact Hd|]. intros c. apply isdigit_clean.
    - unfold digits. etrans; [apply digits_fuel_length|]. simpl.
      pose proof (Z.log2_le_mono n (2 ^ 31) ltac:(lia)) as Hm. change (Z.log2 (2 ^ 31)) with 31 in Hm.
      pose proof (Z.log2_nonneg n). lia. }
  unfold fmt_d. destruct (Z.ltb_spec z 0).
  - destruct (H (- z)) as [Hc Hl]; [lia|]. split; [constructor; [unfold clean, BACKSLASH; lia | done]|]. simpl. lia.
  - destruct (H z) as [Hc Hl]; [lia|]. split; [done | lia].
Qed.

Lemma bad_char_clean c : dl_bad_char c = false -> clean c.
Proof. unfold dl_bad_char, clean, BACKSLASH. intros. zbool. lia. Qed.

Lemma filename_ok next_id url : int_range next_id ->
  let n := dl_extract_filename next_id url 256 in strlen n < 256 /\ Forall clean n.
Proof.
  intros Hid. unfold dl_extract_filename.
  match goal with |- context [if (strlen ?n =? 0) || _ then _ else _] => generalize n end. intros name.
  destruct ((strlen name =? 0) || (256 <=? strlen name)) eqn:E; cbv zeta.
  - destruct (fmt_d_int next_id Hid) as [Hc Hl]. split.
    + unfold snprintf_buf, strlen. rewrite length_take. lia.
    + apply Forall_take, Forall_app. split; [by_compute | done].
  - destruct (sanitize_safe name) as (_ & Hl & Hc & _).
    { pose proof (Nat2Z.is_nonneg (length name)). unfold strlen in *. zbool. lia. }
    split; [done|]. eapply Forall_impl; [exact Hc | apply bad_char_clean].
Qed.

Lemma dl_zero_ok : dl_ok dl_zero.
Proof. split; try (by left); by_compute. Qed.

Lemma dl_new_ok id next_id url dst now : int_range id -> int_range next_id -> dl_ok (dl_new id next_id url dst now).
Proof.
  intros Hi Hn. split; cbn [dl_new dl_active dl_done dl_paused dl_error dl_id dl_url dl_dst_path dl_filename
    dl_error_msg dl_total_size dl_downloaded]; try (by left); try (by right); try done.
  - unfold strlen. rewrite length_take. lia.
  - unfold strlen. rewrite length_take. lia.
  - by apply filename_ok.
  - by_compute.
Qed.

Lemma dl_toggle_ok d : dl_ok d -> dl_ok (dl_toggle d).
Proof. intros []. split; try done. simpl. case_if; [by right | by left]. Qed.

Lemma dl_cancelled_ok d : dl_ok d -> dl_ok (dl_cancelled d).
Proof. intros []. split; try done; try (by left); try (by right). simpl. by_compute. Qed.

Lemma on_download_ok i f j : (forall d, dl_ok d -> dl_ok (f d)) -> jobs_ok j -> jobs_ok (on_download i f j).
Proof.
  intros Hf (Hl & Hd & Hrest). split; [simpl; by rewrite length_alter|]. split; [|done].
  simpl. by apply Forall_alter; [|intros ? _; apply Hf].
Qed.

Lemma jobs_init_ok : jobs_ok jobs_init.
Proof.
  split; [done|]. split; [repeat constructor; apply dl_zero_ok|].
  split; [by_compute|]. repeat split. by left.
Qed.

Section typing.
Context {W : Type} {os : OS W}.
Abbreviation typed := (cfg (fun _ _ _ j => jobs_ok j)).
Abbreviation keeps m := (hoare (inv (W := W) typed (fun _ => True)) m (fun _ => True)).

#[local] Instance any_quiet : Quiet (fun _ => True).
Proof. by intros e. Qed.

Lemma keeps_any_validate path size : keeps (validate_path path size).
Proof.
  unfold validate_path, http_validate_and_confine. case_if; [hgo|].
  apply hoare_bind with (Q := fun _ => True); [hgo|]. intros root _. apply hoare_io. hgo.
Qed.

Lemma keeps_job_reply no_store size text : keeps (job_reply no_store size text).
Proof. unfold job_reply. hgo. Qed.

#[local] Hint Resolve keeps_any_validate keeps_job_reply : hoare.

(** The rule for reading the tables. *)
Lemma hoare_ask_jobs {A} (f : jobs_t -> A) (Q : A -> Prop) :
  (forall j, jobs_ok j -> Q (f j)) -> hoare (inv (W := W) typed (fun _ => True)) (ask (fun s => f (g_jobs s))) Q.
Proof. intros HQ. apply hoare_ask. intros s Hs. apply HQ, Hs. Qed.

Lemma keeps_on_jobs f : (forall j, jobs_ok j -> jobs_ok (f j)) -> keeps (upd (on_jobs f)).
Proof. intros Hf. apply hoare_upd. intros s Hs. apply Hf, Hs. Qed.


Lemma keeps_dl_start buf r : keeps (api_dl_start buf r).
Proof.
  unfold api_dl_start. case_if; [hgo|]. cbv zeta.
  match goal with |- hoare _ (match ?u with _ => _ end) _ => destruct u as [|c url] end; [hgo|].
  destruct (dl_url_is_supported false _) as [ok reason]. case_if; [hgo|].
  apply hoare_bind with (Q := fun _ => True); [hgo|]. intros [dst|] _; [|hgo].
  apply hoare_bind with (Q := fun _ => True); [hgo|]. intros slots _. destruct (dl_find_slot slots); [|hgo].
  apply hoare_bind with (Q := int_range); [apply (hoare_ask_jobs g_dl_next_id); by intros j (_ & _ & Hj & _)|].
  intros id Hid. apply hoare_bind with (Q := fun _ => True); [hgo|]. intros now _.
  apply hoare_bind with (Q := fun _ => True); [|intros _ _; apply keeps_job_reply].
  apply keeps_on_jobs. intros j (Hl & Hd & _ & He). pose proof (to_int_range (id + 1)) as Hn.
  split; [simpl; by rewrite length_insert|]. split; [|done]. simpl. apply Forall_insert; [done|].
  by apply dl_new_ok.
Qed.

Lemma keeps_dl_pause buf r : keeps (api_dl_pause buf r).
Proof.
  unfold api_dl_pause. case_if; [hgo|]. apply hoare_bind with (Q := fun _ => True); [hgo|]. intros l _.
  case_match; [|hgo]. apply hoare_bind with (Q := fun _ => True); [|intros _ _; hgo].
  apply keeps_on_jobs. intros j. apply on_download_ok, dl_toggle_ok.
Qed.

Lemma keeps_dl_cancel buf r : keeps (api_dl_cancel buf r).
Proof.
  unfold api_dl_cancel. case_if; [hgo|]. apply hoare_bind with (Q := fun _ => True); [hgo|]. intros l _.
  case_match; [|hgo]. apply hoare_bind with (Q := fun _ => True); [|intros _ _; hgo].
  apply keeps_on_jobs. intros j. apply on_download_ok, dl_cancelled_ok.
Qed.

Lemma keeps_extract_cancel r : keeps (api_extract_cancel r).
Proof.
  unfold api_extract_cancel. case_if; [hgo|]. apply hoare_bind with (Q := fun _ => True); [|intros _ _; hgo].
  apply keeps_on_jobs. intros j (Hl & Hd & Hn & Ha & Hdone & _ & He). do 3 (split; [done|]).
  split; [done|]. split; [done|]. split; [by right | done].
Qed.

(** C20: the job tables keep their types.  Whatever the request and however the
    system behaves, every handler of downloads and extractions leaves four
    entries whose flags are flags, whose numbers fit an int, whose texts fit
    their arrays with the terminator, and whose names and messages need no
    escape in JSON; the table the program starts with is of that kind. *)
Theorem jobs_well_typed o buf r m (s : st http_state W) :
  job_api o buf r = Some m -> jobs_ok (g_jobs (ses s)) -> jobs_ok (g_jobs (ses (m s).2)).
Proof.
  intros Hm Hj. assert (Hk : keeps m).
  { destruct o; simplify_eq/=; first [apply keeps_dl_start | apply keeps_dl_pause | apply keeps_dl_cancel
      | apply keeps_extract_cancel | unfold api_dl_status, api_extract, api_extract_progress; hgo]. }
  assert (Hs : inv (W := W) typed (fun _ => True) s) by (split; [done | by apply Forall_true]).
  by destruct (Hk s Hs) as [[Hj' _] _].
Qed.

End typing.

(** ** The report fits its array *)

Lemma length_json_escape c : (length (json_escape c) <= 6)%nat.
Proof.
  unfold json_escape. repeat (case_if; [simpl; lia|]). case_if; [|simpl; lia]. zbool.
  assert (length (digits 16 c) <= 4)%nat as Hd.
  { destruct (Z.ltb_spec c 0).
    - unfold digits. etrans; [apply digits_fuel_length|]. rewrite Z.log2_nonpos by lia. simpl. lia.
    - assert (Hall : Forall (fun c => length (digits 16 c) <= 4)%nat (seqZ 0 32)) by by_compute.
      apply (Forall_forall _ _) with (x := c) in Hall; [done|]. apply elem_of_seqZ. lia. }
  cbn [length]. unfold pad_left. rewrite length_app, length_replicate. lia.
Qed.

Lemma json_escape_fits cap s : forall buf b,
  json_escape_append cap buf s = Some b -> strlen buf < cap -> strlen b < cap.
Proof.
  induction s as [|c s IH]; intros buf b; cbn [json_escape_append]; [by intros [= <-]|].
  destruct (Z.leb_spec cap (strlen buf + 6)); [done|]. intros Hb _. apply (IH _ _ Hb).
  unfold strlen in *. rewrite length_app. pose proof (length_json_escape c). lia.
Qed.

Lemma json_escape_clean cap s : Forall clean s ->
  forall buf b, json_escape_append cap buf s = Some b -> b = buf ++ s.
Proof.
  induction 1 as [|c s (Hlo & Hq & Hb) _ IH]; intros buf b; cbn [json_escape_append]; [by intros [= <-]; rewrite app_nil_r|].
  case_if; [done|]. intros E. apply IH in E as ->. rewrite <- app_assoc. f_equal.
  unfold json_escape, BACKSLASH in *. by repeat (rewrite (proj2 (Z.eqb_neq _ _)) by lia); destruct (Z.ltb_spec c 32); [lia|].
Qed.

Lemma dl_escaped_clean s : Forall clean s -> strlen (dl_escaped s) <= strlen s.
Proof.
  intros Hs. unfold dl_escaped. destruct (json_escape_append 512 [] s) as [b|] eqn:E; simpl.
  - by rewrite (json_escape_clean _ _ Hs _ _ E).
  - unfold strlen. simpl. lia.
Qed.

Lemma dl_escaped_fits s : strlen (dl_escaped s) < 512.
Proof.
  unfold dl_escaped. destruct (json_escape_append 512 [] s) as [b|] eqn:E; simpl; [|done].
  by apply (json_escape_fits _ _ _ _ E).
Qed.

(** Evaluate the lengths of JSON literals. *)
Ltac json_lengths :=
  repeat match goal with |- context [strlen (jstr ?t)] =>
    let n := eval vm_compute in (strlen (jstr t)) in change (strlen (jstr t)) with n end.

Lemma strlen_json_bool z : strlen (json_bool z) <= 5.
Proof. unfold json_bool. by case_if. Qed.

Lemma dl_entry_json_fits d : dl_ok d -> strlen (dl_entry_json d) <= 1012.
Proof.
  intros [_ _ _ _ Hid _ _ [Hf Hfc] [Hm Hmc] Ht Hd].
  pose proof (dl_escaped_clean _ Hfc). pose proof (dl_escaped_fits (dl_url d)).
  pose proof (strlen_json_bool (dl_done d)). pose proof (strlen_json_bool (dl_paused d)).
  destruct (fmt_d_int _ Hid) as [_ Hl].
  assert (strlen (dl_escaped (if dl_error d =? 0 then [] else dl_error_msg d)) <= 56) by
    (case_if; [done | etrans; [by apply dl_escaped_clean | done]]).
  assert (strlen (fmt_d (dl_progress d)) <= 3) by (unfold dl_progress; rewrite Ht; simpl; by case_if).
  unfold dl_entry_json. rewrite Ht, Hd, !strlen_app.
  change (strlen (fmt_u 0)) with 1. unfold strlen at 2.
  json_lengths. lia.
Qed.

(** Whether printing runs beyond the array, and the text, by the pieces. *)
Lemma print_pieces_concat cap l : forall text wild,
  (print_pieces cap text wild l).1 = text ++ concat l /\
  (strlen (text ++ concat l) <= cap -> wild = false -> (print_pieces cap text wild l).2 = false).
Proof.
  induction l as [|p l IH]; intros text wild; simpl; [by rewrite app_nil_r|].
  destruct (IH (text ++ p) (wild || (cap <? strlen text))) as [E1 E2]. rewrite E1, <- app_assoc. split; [done|].
  intros Hl ->. apply E2; [by rewrite <- app_assoc|]. simpl. apply Z.ltb_ge. rewrite strlen_app in Hl.
  pose proof (strlen_nonneg (p ++ concat l)). lia.
Qed.

Lemma dl_pieces_fit l : Forall dl_ok l -> forall first, strlen (concat (dl_pieces first l)) <= 1013 * Z.of_nat (length l) + 2.
Proof.
  induction 1 as [|d l Hd _ IH]; intros first; cbn [dl_pieces]; [done|].
  cbn [length]. rewrite Nat2Z.inj_succ.
  case_if; [specialize (IH first); lia|]. specialize (IH false). pose proof (dl_entry_json_fits d Hd).
  rewrite concat_app, strlen_app. cbn [concat]. rewrite strlen_app.
  assert (strlen (concat (if first then [] else [str ","])) <= 1) by by destruct first. lia.
Qed.

(** The report on downloads fits its array.  With tables as the handlers
    keep them, [api_dl_status] prints all its pieces inside the array of 4096
    bytes, whatever the names and URLs are: no piece is printed with a size
    that has wrapped around, and no byte behind the array is sent. *)
Theorem dl_report_fits {W} {os : OS W} (s : st http_state W) :
  jobs_ok (g_jobs (ses s)) ->
  let text := jstr "{'downloads':[" ++ concat (dl_pieces true (g_downloads (g_jobs (ses s)))) in
  strlen text < 4096 /\ api_dl_status s = job_reply true 4096 text s.
Proof.
  intros (Hl & Hd & _). set (l := g_downloads _) in *. cbv zeta. pose proof (dl_pieces_fit l Hd true) as Hp.
  assert (Hs : strlen (jstr "{'downloads':[" ++ concat (dl_pieces true l)) < 4096).
  { rewrite strlen_app. change (strlen (jstr "{'downloads':[")) with 14. rewrite Hl in Hp.
    change (Z.of_nat DL_MAX_ACTIVE) with 4 in Hp. lia. }
  split; [done|].
  destruct (print_pieces_concat 4096 (jstr "{'downloads':[" :: dl_pieces true l) [] false) as [E1 E2].
  specialize (E2 ltac:(cbn [concat app]; lia) eq_refl).
  unfold api_dl_status, mbind, M_bind, ask, gets. fold l.
  destruct (print_pieces _ _ _ _) as [text wild]. cbn [fst snd concat app] in E1, E2. by subst.
Qed.

(** ** Runs *)

(** A request whose body is [text]; the token is in its first header. *)
Definition job_request (u text : bytes) : bytes * http_request_t :=
  (token_buf ++ text ++ [0],
   Request HTTP_METHOD_POST u 1 1 [Header 0 13] (Some (length token_buf)) (strlen text)).

Definition job_run (f : bytes -> http_request_t -> M (st http_state toy) (option nat)) (text : bytes)
    (s : st http_state toy) : option (option nat) * st http_state toy :=
  let '(buf, r) := job_request (str "/api/download") text in f buf r s.

(** A server with root / on which one download was asked for. *)
Definition one_download : st http_state toy :=
  (job_run api_dl_start (jstr "{'url':'http://h/f.bin','dst':'/'}") (St http_state_init (SysSt (Toy [] [] [] [] []) 0 []))).2.

Lemma one_download_ok : jobs_ok (g_jobs (ses one_download)).
Proof.
  split; [by vm_compute|]. split; [|split; [by_compute | repeat split; by left]].
  assert (g_downloads (g_jobs (ses one_download)) =
            [dl_new 1 2 (str "http://h/f.bin") (str "/") 1000; dl_zero; dl_zero; dl_zero]) as -> by (by vm_compute).
  apply Forall_cons. split; [apply dl_new_ok; by_compute|].
  apply (Forall_replicate _ 3), dl_zero_ok.
Qed.

Lemma jobs_well_typed_witness :
  let '(buf, r) := job_request (str "/api/download/cancel") (jstr "{'id':1}") in
  exists m, job_api HttpApi.api_dl_cancel buf r = Some m /\ jobs_ok (g_jobs (ses (m one_download).2)) /\
    dl_error_msg <$> (g_downloads (g_jobs (ses (m one_download).2)) !! 0%nat) = Some (str "Cancelled by user").
Proof.
  cbv zeta beta iota delta [job_request]. eexists. split; [reflexivity|]. split; [|by vm_compute].
  eapply (jobs_well_typed HttpApi.api_dl_cancel); [reflexivity | exact one_download_ok].
Defined.

Lemma dl_report_fits_witness :
  let text := jstr "{'downloads':[" ++ concat (dl_pieces true (g_downloads (g_jobs (ses one_download)))) in
  strlen text < 4096 /\ api_dl_status one_download = job_reply true 4096 text one_download.
Proof. apply dl_report_fits. exact one_download_ok. Defined.

(** Two requests the download manager mishandles.  The reply to a start is
    formatted into 256 bytes and sent with the length it would have had, so
    for a long file name the client gets bytes of the stack behind the array.
    And a cancellation without an id means the id 0, which is that of every
    slot never used: it is confirmed although there is no download, and the
    slot is marked as a finished one. *)
Theorem dl_request_faults :
  let s := St http_state_init (SysSt (Toy [] [] [] [] []) 0 []) in
  let r1 := job_run api_dl_start (jstr "{'url':'http://h/" ++ replicate 250 97 ++ jstr "','dst':'/'}") s in
  let r2 := job_run api_dl_cancel (jstr "{}") s in
  foreign_bytes (os_trace (sysw r1.2)) = 31 /\
  (dl_done <$> g_downloads (g_jobs (ses r2.2))) = [1; 0; 0; 0] /\
  strstr (data (resp_at (ses r2.2) 0)) (jstr "{'ok':true}") <> None.
Proof. vm_compute. done. Qed.

End Jobs.
