(* ===== verification/HttpStats.v ===== *)
(** * System handlers of the HTTP API: [src/http_api.c]

    Disk and memory statistics, the directory tree, the list of processes and
    the signal to one of them, the reset of the network and the fan, in their
    Linux branches; and what the list and the signal cannot do. *)

From S2P Require Import Prelude CLib FtpTypes FtpPath Os PalNetwork PalFileio PalCopy.
From S2P Require Import FtpResolve FtpInv Unpack.
From S2P Require Import HttpParser HttpState HttpResponse HttpCsrf HttpQuery HttpApi HttpServer HttpInv HttpConfine HttpJobs.

Module Stats.
Import Jobs.

(** ** Pure parts *)

(** The product, or none when it does not fit 64 bits. *)
Definition u64_mul_checked (a b : Z) : option Z :=
  if negb (a =? 0) && ((2 ^ 64 - 1) / a <? b) then None else Some (a * b).

(** Text and numbers for a JSON array of bytes; a string is escaped. *)
Inductive piece := Raw (b : bytes) | Esc (b : bytes).

Fixpoint append_pieces (cap : Z) (buf : bytes) (l : list piece) : option bytes :=
  match l with
  | [] => Some buf
  | p :: l =>
      match (match p with Raw b => buf_append_cstr cap buf b | Esc b => json_escape_append cap buf b end) with
      | None => None
      | Some buf => append_pieces cap buf l
      end
  end.

(** [sscanf(line, "<label> %llu", &v)] for a label that ends with a colon. *)
Definition scan_label (label line : bytes) : option Z :=
  if strneq line label (length label) then
    let rest := drop_while isspace (drop (length label) line) in
    match take_while isdigit (strip_sign rest).2 with
    | [] => None
    | _ => Some (strtoull rest)
    end
  else None.

(** One assignment-suppressed number of [sscanf]; [None] when it fails. *)
Definition skip_number (s : bytes) : option bytes :=
  let s2 := (strip_sign (drop_while isspace s)).2 in
  match take_while isdigit s2 with [] => None | _ => Some (drop_while isdigit s2) end.

Fixpoint skip_numbers (n : nat) (s : bytes) : option bytes :=
  match n with
  | O => Some s
  | S n => match skip_number s with Some s => skip_numbers n s | None => None end
  end.

(** The state letter and the resident size in the text behind the command of
    a /proc/PID/stat line: one character, twenty numbers, the size. *)
Definition scan_stat (s : bytes) : Z * Z :=
  match drop_while isspace s with
  | [] => (63, 0)
  | state :: rest =>
      (state, match skip_numbers 20 rest with
              | Some rest => (strtoll rest).1
              | None => 0
              end)
  end.

(** The number behind ["pid"] in a body; at least 1. *)
Definition parse_pid_from_body (text : option bytes) : option Z :=
  match text with
  | None => None
  | Some text =>
      match strstr text (jstr "'pid'") with
      | None => None
      | Some k =>
          match drop_while (fun c => (c =? 58) || (c =? 32) || (c =? 9)) (drop (k + 5) text) with
          | [] => None
          | p => let v := atoi p in if v <=? 0 then None else Some v
          end
      end
  end.

(** The name of a process directory. *)
Definition pid_name (name : bytes) : bool :=
  match name with [] => false | _ => forallb isdigit name end.

(** What is read of one process. *)
Record proc_t := Proc { pr_comm : bytes; pr_uid : Z; pr_state : Z; pr_rss : Z }.

(** The words [Name:] and [Uid:] of a line of /proc/PID/status. *)
Definition proc_status_line (line : bytes) (p : proc_t) : proc_t :=
  if strneq line (str "Name:") 5 then
    match take 255 (take_while (fun c => negb (isspace c)) (drop_while isspace (drop 5 line))) with
    | [] => p
    | comm => Proc comm (pr_uid p) (pr_state p) (pr_rss p)
    end
  else if strneq line (str "Uid:") 4 then
    match scan_u (drop 4 line) with
    | Some (uid, _) => Proc (pr_comm p) uid (pr_state p) (pr_rss p)
    | None => p
    end
  else p.

Definition proc_status (state : Z) : bytes :=
  if (state =? 83) || (state =? 68) then str "sleep" else if state =? 90 then str "zombie" else str "running".

(** A process of the list, behind its name. *)
Definition proc_tail (p : proc_t) : bytes :=
  jstr "','user':'" ++ fmt_u (pr_uid p) ++ jstr "','cpu':0.0,'mem_mb':"
  ++ fmt_u (u64 (Z.max 0 (pr_rss p) * 4096) / (1024 * 1024)) ++ jstr ",'status':'" ++ proc_status (pr_state p)
  ++ jstr "','killable':" ++ (if pr_uid p =? 0 then str "false" else str "true") ++ jstr "}".

(** The text with a process added, as the array of [cap] bytes takes it. *)
Definition proc_entry (cap : Z) (text : bytes) (first : bool) (pid : Z) (p : proc_t) : bytes :=
  let text := if negb first && (strlen text + 2 <? cap) then text ++ str "," else text in
  let text := text ++ jstr "{'pid':" ++ fmt_d pid ++ jstr ",'name':'" in
  let comm := match pr_comm p with [] => str "pid" ++ fmt_d pid | c => c end in
  default text (json_escape_append cap text comm) ++ proc_tail p.

Section handlers.
Context {W : Type} `{OS W} (fuel : nat).
Abbreviation hm := (M (st http_state W)).

(** ** Disks *)

(** Total, used and free bytes of the file system of a path. *)
Definition get_disk_stats_bytes (path : bytes) : hm (option (Z * Z * Z)) :=
  s ← sysc (SysStatvfs path);
  match s with
  | None => mret None
  | Some s =>
      let fr := if f_frsize s =? 0 then f_bsize s else f_frsize s in
      match u64_mul_checked fr (f_blocks s), u64_mul_checked fr (f_bavail s) with
      | Some total, Some free_b =>
          mret (Some (total, if free_b <=? total then total - free_b else total, free_b))
      | _, _ => mret None
      end
  end.

(** The candidates in order: the larger total wins. *)
Fixpoint best_disk (l : list bytes) (best : option (bytes * (Z * Z * Z))) : hm (option (bytes * (Z * Z * Z))) :=
  match l with
  | [] => mret best
  | c :: l =>
      d ← get_disk_stats_bytes c;
      best_disk l
        (match d with
         | Some (t, u, f) =>
             if match best with Some (_, (bt, _, _)) => bt | None => 0 end <? t then Some (c, (t, u, f)) else best
         | None => best
         end)
  end.

Definition get_best_disk_stats (hint_path : bytes) : hm (option (bytes * (Z * Z * Z))) :=
  d ← get_disk_stats_bytes hint_path;
  best_disk [str "/home"; str "/"] ((fun d => (hint_path, d)) <$> d).

(** The entries of an open directory but the dots; [None] on an error. *)
Fixpoint count_items (n : nat) (dir count : Z) : hm (option Z) :=
  match n with
  | O => diverge
  | S n =>
      _ ← io (set_errno 0);
      ent ← sysc (SysReaddir dir);
      match ent with
      | None =>
          e ← io get_errno;
          _ ← sysc (SysClosedir dir);
          mret (if e =? 0 then Some count else None)
      | Some (name, _) =>
          if dot_entry name then count_items n dir count
          else if count =? 2 ^ 32 - 1 then _ ← sysc (SysClosedir dir); mret None
          else count_items n dir (count + 1)
      end
  end.

Definition count_dir_items (path : bytes) : hm (option Z) :=
  dir ← sysc (SysOpendir path);
  match dir with None => mret None | Some dir => count_items fuel dir 0 end.

Definition get_boot_epoch_seconds : hm (option Z) :=
  info ← sysc SysSysinfo;
  match info with
  | None => mret None
  | Some info =>
      now ← sysc SysTime;
      let up := u64 (si_uptime info) in
      mret (if now <? 0 then None else Some (if up <=? now then now - up else 0))
  end.

(** ** Statistics *)

Definition api_stats (r : http_request_t) : hm (option nat) :=
  let path := path_param r [SLASH] in
  safe ← validate_path path FTP_PATH_MAX;
  match safe with
  | None => error_json HTTP_STATUS_403_FORBIDDEN (str "Forbidden path")
  | Some _ =>
      disk ← get_best_disk_stats path;
      items ← count_dir_items path;
      boot ← get_boot_epoch_seconds;
      let text := append_pieces 1024 []
        ([Raw (jstr "{'path':'"); Esc path; Raw (jstr "'")]
         ++ match disk with
            | Some (disk_path, (total, used, free_b)) =>
                [Raw (jstr ",'disk_used':"); Raw (fmt_u used); Raw (jstr ",'disk_total':"); Raw (fmt_u total);
                 Raw (jstr ",'disk_free':"); Raw (fmt_u free_b); Raw (jstr ",'disk_path':'"); Esc disk_path;
                 Raw (jstr "'")]
            | None => [Raw (jstr ",'disk_used':null,'disk_total':null,'disk_free':null,'disk_path':null")]
            end
         ++ [Raw (jstr ",'cpu_temp':null")]
         ++ match boot with
            | Some b => [Raw (jstr ",'uptime':"); Raw (fmt_u b)]
            | None => [Raw (jstr ",'uptime':null")]
            end
         ++ match items with
            | Some n => [Raw (jstr ",'items_in_dir':"); Raw (fmt_u n)]
            | None => [Raw (jstr ",'items_in_dir':null")]
            end
         ++ [Raw (jstr "}")]) in
      match text with
      | None => error_json HTTP_STATUS_500_INTERNAL_ERROR (str "Out of memory")
      | Some text =>
          resp ← json_response HTTP_STATUS_200_OK;
          _ ← http_response_set_body resp text;
          mret resp
      end
  end.

(** The lines of /proc/meminfo: cached and used bytes. *)
Fixpoint meminfo_lines (n : nat) (fp total used cached : Z) : hm (Z * Z) :=
  match n with
  | O => diverge
  | S n =>
      line ← sysc (SysFgets fp 128);
      match line with
      | None => mret (used, cached)
      | Some line =>
          let line := cstr_of line in
          match scan_label (str "Cached:") line, scan_label (str "MemAvailable:") line with
          | Some v, _ => meminfo_lines n fp total used (u64 (v * 1024))
          | None, Some v =>
              let avail := u64 (v * 1024) in
              meminfo_lines n fp total (if avail <? total then total - avail else 0) cached
          | None, None => meminfo_lines n fp total used cached
          end
      end
  end.

(** Used, cached, buffers, free and total bytes of memory; all 0 on an error. *)
Definition get_ram_stats : hm (Z * Z * Z * Z * Z) :=
  si ← sysc SysSysinfo;
  match si with
  | None => mret (0, 0, 0, 0, 0)
  | Some si =>
      let total := u64 (si_totalram si * si_mem_unit si) in
      let free_b := u64 (si_freeram si * si_mem_unit si) in
      let buffers := u64 (si_bufferram si * si_mem_unit si) in
      let used := if u64 (free_b + buffers) <? total then u64 (total - free_b - buffers) else 0 in
      fp ← sysc (SysFopen (str "/proc/meminfo") (str "r"));
      match fp with
      | None => mret (used, 0, buffers, free_b, total)
      | Some fp =>
          '(used, cached) ← meminfo_lines fuel fp total used 0;
          _ ← sysc (SysFclose fp);
          mret (used, cached, buffers, free_b, total)
      end
  end.

Definition api_stats_ram : hm (option nat) :=
  '(used, cached, buffers, free_b, total) ← get_ram_stats;
  job_reply true 256
    (jstr "{'used':" ++ fmt_u used ++ jstr ",'cached':" ++ fmt_u cached ++ jstr ",'buffers':" ++ fmt_u buffers
     ++ jstr ",'free':" ++ fmt_u free_b ++ jstr ",'total':" ++ fmt_u total ++ jstr "}").

Definition api_stats_system : hm (option nat) :=
  boot ← get_boot_epoch_seconds;
  up ← match boot with
       | Some b => now ← sysc SysTime; mret (if (0 <? now) && (b <=? now) then now - b else 0)
       | None => mret 0
       end;
  job_reply true 512
    (jstr "{'cpu_temp':null"
     ++ match boot with
        | Some b => jstr ",'uptime_seconds':" ++ fmt_u up ++ jstr ",'boot_epoch':" ++ fmt_u b
        | None => jstr ",'uptime_seconds':null,'boot_epoch':null"
        end ++ jstr "}").

Definition api_disk_info : hm (option nat) :=
  root ← ask g_http_root;
  disk ← get_best_disk_stats root;
  let '(path, (total, used, free_b)) := default ([SLASH], (0, 0, 0)) disk in
  let text := jstr "{'used':" ++ fmt_u used ++ jstr ",'free':" ++ fmt_u free_b ++ jstr ",'total':" ++ fmt_u total
              ++ jstr ",'path':'" in
  job_reply true 256 (default text (json_escape_append 256 text path) ++ jstr "'}").

(** ** The directory tree *)

Definition TREE_CAP : Z := 512 * 1024.
Definition DISK_TREE_MAX_CHILDREN : Z := 512.

(** The text with a child added, and whether a piece of it was printed from
    beyond the array of [TREE_CAP] bytes. *)
Definition tree_child (text name : bytes) (is_dir : bool) (sz : Z) : bytes * bool :=
  let text1 := text ++ jstr "{'name':'" in
  let text2 := default text1 (json_escape_append TREE_CAP text1 name) in
  (text2 ++ jstr "','type':'" ++ (if is_dir then str "directory" else str "file") ++ jstr "','size':" ++ fmt_u sz
     ++ jstr "}",
   (TREE_CAP <? strlen text) || (TREE_CAP <? strlen text2)).

(** What precedes and follows the children. *)
Definition tree_opening (dirname : bytes) : bytes :=
  let text := jstr "{'name':'" in
  default text (json_escape_append TREE_CAP text dirname) ++ jstr "','type':'directory','children':[".
Definition tree_closing (total : Z) : bytes := jstr "],'size':" ++ fmt_u total ++ jstr "}".

(** Without the comma a child that did not fit left behind. *)
Definition drop_comma (text : bytes) : bytes :=
  match last text with Some c => if c =? 44 then removelast text else text | None => text end.

(** The children of the open directory: the text, the sum of their sizes. *)
Fixpoint tree_children (n : nat) (dir : Z) (safe text : bytes) (total : Z) (first : bool) (count : Z) :
    hm (bytes * Z) :=
  match n with
  | O => diverge
  | S n =>
      ent ← sysc (SysReaddir dir);
      match ent with
      | None => mret (text, total)
      | Some (name, _) =>
          if dot_entry name then tree_children n dir safe text total first count
          else if DISK_TREE_MAX_CHILDREN <=? count then mret (text, total)
          else
            st ← sysc (SysStat (join_name safe name));
            match st with
            | None => tree_children n dir safe text total first count
            | Some st =>
                let is_dir := S_ISDIR (st_mode st) in
                let sz := if is_dir then u64 (u64 (st_blocks st) * 512) else u64 (st_size st) in
                let total := u64 (total + sz) in
                let start := if negb first && (strlen text + 1 <? TREE_CAP) then text ++ str "," else text in
                let '(text', wild) := tree_child start name is_dir sz in
                _ ← (if wild then upd (set_heap_fault true) else mret tt);
                if TREE_CAP <=? strlen text' + 256 then mret (drop_comma start, total)
                else tree_children n dir safe text' total false (count + 1)
            end
      end
  end.

(** A block that was allocated before its contents were known; a text longer
    than its [cap] bytes is read beyond its end. *)
Definition fill_block (cap : Z) (text : bytes) : hm nat :=
  _ ← (if cap <? strlen text then upd (set_heap_fault true) else mret tt);
  i ← ask (fun s => fresh (dom (heap s)));
  _ ← upd (fun s => set_heap (<[i := text]> (heap s)) s);
  mret i.

(** The reply that owns such a block. *)
Definition owned_reply (cap : Z) (text : bytes) : hm (option nat) :=
  i ← fill_block cap text;
  resp ← http_response_create HTTP_STATUS_200_OK;
  _ ← http_response_add_header resp (str "Content-Type") (str "application/json");
  _ ← http_response_add_header resp (str "Cache-Control") (str "no-store");
  rc ← http_response_set_body_owned resp (PHeap i 0) (strlen text);
  _ ← (if rc =? 0 then mret tt else free i);
  mret resp.

Definition api_disk_tree (r : http_request_t) : hm (option nat) :=
  let path := path_param r [SLASH] in
  safe ← validate_path path FTP_PATH_MAX;
  match safe with
  | None => error_json HTTP_STATUS_403_FORBIDDEN (str "Forbidden path")
  | Some safe =>
      dir ← sysc (SysOpendir safe);
      match dir with
      | None => error_json HTTP_STATUS_404_NOT_FOUND (str "Directory not found")
      | Some dir =>
          ok ← sysc (SysMalloc TREE_CAP);
          if negb (ok : bool) then
            _ ← sysc (SysClosedir dir);
            error_json HTTP_STATUS_500_INTERNAL_ERROR (str "Out of memory")
          else
            let dirname := match base_of safe with [] => safe | b => b end in
            '(text, total) ← tree_children fuel dir safe (tree_opening dirname) 0 true 0;
            _ ← sysc (SysClosedir dir);
            owned_reply TREE_CAP (text ++ tree_closing total)
      end
  end.

(** ** Processes *)

Definition PROC_CAP : Z := 256 * 1024.

Fixpoint status_lines (n : nat) (sf : Z) (p : proc_t) : hm proc_t :=
  match n with
  | O => diverge
  | S n =>
      line ← sysc (SysFgets sf 256);
      match line with
      | None => mret p
      | Some line => status_lines n sf (proc_status_line (cstr_of line) p)
      end
  end.

(** The state and size in the stat line; behind a line that ends with the
    parenthesis the array is read where it was never written. *)
Definition read_stat (f : Z) (p : proc_t) : hm proc_t :=
  line ← sysc (SysFgets f 2048);
  match line with
  | None => mret p
  | Some line =>
      let tmp := cstr_of line in
      match strrchr tmp 41 with
      | None => mret p
      | Some k =>
          text ← (if (S k <? length tmp)%nat then mret (drop (k + 2) tmp)
                  else b ← sysc (SysStale (2046 - Z.of_nat k)); mret (cstr_of b));
          let '(state, rss) := scan_stat text in
          mret (Proc (pr_comm p) (pr_uid p) state rss)
      end
  end.

(** One process; [None] when it is gone. *)
Definition read_proc (pid : Z) : hm (option proc_t) :=
  f ← sysc (SysFopen (snprintf_buf 64 (str "/proc/" ++ fmt_d pid ++ str "/stat")) (str "r"));
  match f with
  | None => mret None
  | Some f =>
      sf ← sysc (SysFopen (snprintf_buf 64 (str "/proc/" ++ fmt_d pid ++ str "/status")) (str "r"));
      p ← match sf with
          | None => mret (Proc [] 0 63 0)
          | Some sf =>
              p ← status_lines fuel sf (Proc [] 0 63 0);
              _ ← sysc (SysFclose sf);
              mret p
          end;
      p ← read_stat f p;
      _ ← sysc (SysFclose f);
      mret (Some p)
  end.

Fixpoint proc_list (n : nat) (dir : Z) (text : bytes) (first : bool) : hm bytes :=
  match n with
  | O => diverge
  | S n =>
      ent ← sysc (SysReaddir dir);
      match ent with
      | None => mret text
      | Some (name, _) =>
          let pid := atoi name in
          if negb (pid_name name) || (pid <=? 0) then proc_list n dir text first
          else
            p ← read_proc pid;
            match p with
            | None => proc_list n dir text first
            | Some p =>
                let text := proc_entry PROC_CAP text first pid p in
                if PROC_CAP <=? strlen text + 512 then mret text else proc_list n dir text false
            end
      end
  end.

Definition api_processes : hm (option nat) :=
  ok ← sysc (SysMalloc PROC_CAP);
  if negb (ok : bool) then error_json HTTP_STATUS_500_INTERNAL_ERROR (str "Out of memory")
  else
    dir ← sysc (SysOpendir (str "/proc"));
    text ← match dir with
           | None => mret (str "[")
           | Some dir =>
               text ← proc_list fuel dir (str "[") true;
               _ ← sysc (SysClosedir dir);
               mret text
           end;
    owned_reply PROC_CAP (if strlen text + 2 <? PROC_CAP then text ++ str "]" else text).

Context {Hres : Resources}.

Definition SIGTERM : Z := 15.

Definition api_process_kill (buf : bytes) (r : http_request_t) : hm (option nat) :=
  s ← ask id;
  if negb (http_csrf_validate s buf r =? 0) then
    error_json HTTP_STATUS_403_FORBIDDEN (str "Invalid or missing CSRF token")
  else if negb (bool_decide (method r = HTTP_METHOD_POST)) then
    error_json HTTP_STATUS_405_METHOD_NOT_ALLOWED (str "Use POST")
  else match parse_pid_from_body (body_text buf r) with
  | None => error_json HTTP_STATUS_400_BAD_REQUEST (str "Missing or invalid pid")
  | Some pid =>
      if pid <=? 1 then error_json HTTP_STATUS_403_FORBIDDEN (str "Cannot kill system process")
      else
        rc ← sysc (SysKill pid SIGTERM);
        if negb (rc =? 0) then
          e ← io get_errno;
          error_json HTTP_STATUS_500_INTERNAL_ERROR (snprintf_buf 64 (str "kill failed: " ++ strerror e))
        else job_reply false 64 (jstr "{'success':true,'pid':" ++ fmt_d pid ++ jstr "}")
  end.

(** ** Network and fan *)

Definition api_network_reset (r : http_request_t) : hm (option nat) :=
  if negb (bool_decide (method r = HTTP_METHOD_POST)) then
    error_json HTTP_STATUS_405_METHOD_NOT_ALLOWED (str "Use POST /api/network/reset")
  else
    resp ← http_response_create HTTP_STATUS_200_OK;
    match resp with
    | None => error_json HTTP_STATUS_500_INTERNAL_ERROR (str "OOM")
    | Some _ =>
        _ ← http_response_add_header resp (str "Content-Type") (str "application/json");
        _ ← http_response_add_header resp (str "Cache-Control") (str "no-store");
        rc ← sysc SysFtpReset;
        let '(note, text) :=
          match rc with
          | None => (str "zftpd: network reset unavailable (no FTP ctx)",
                     jstr "{'ok':false,'message':'FTP context not attached'}")
          | Some 0 => (str "zftpd: network stack reset OK",
                       jstr "{'ok':true,'message':'Network stack reset (" ++ fmt_u FTP_MAX_SESSIONS
                       ++ jstr " sessions)'}")
          | Some _ => (str "zftpd: network reset partial failure",
                       jstr "{'ok':false,'message':'Reset partial — check logs'}")
          end in
        _ ← sysc (SysNotify note);
        _ ← http_response_set_body resp (snprintf_buf 128 text);
        mret resp
    end.

Definition FAN_IOCTL : Z := 3223097095.                       (* 0xC01C8F07 *)

Definition api_admin_fan (r : http_request_t) : hm (option nat) :=
  match query_of r with
  | None => error_json HTTP_STATUS_400_BAD_REQUEST (str "Missing threshold parameter")
  | Some query =>
      match (if strneq query (str "?threshold=") 11 then scan_d (drop 11 query) else None) with
      | None => error_json HTTP_STATUS_400_BAD_REQUEST (str "Invalid threshold parameter format")
      | Some (threshold, _) =>
          let threshold := Z.min 90 (Z.max 40 threshold) in
          fd ← sysc (SysOpen (str "/dev/icc_fan") O_RDONLY 0);
          if fd <? 0 then
            error_json HTTP_STATUS_500_INTERNAL_ERROR (str "Failed to open /dev/icc_fan (Unsupported OS)")
          else
            ret ← sysc (SysIoctl fd FAN_IOCTL [0; 0; 0; 0; 0; threshold; 0; 0; 0; 0]);
            _ ← sysc (SysClose fd);
            if ret <? 0 then error_json HTTP_STATUS_500_INTERNAL_ERROR (str "Fan control ioctl failed")
            else
              resp ← http_response_create HTTP_STATUS_200_OK;
              match resp with
              | None => mret None
              | Some _ =>
                  _ ← http_response_add_header resp (str "Content-Type") (str "application/json");
                  _ ← http_response_set_body resp
                        (jstr "{'status':'ok','threshold':" ++ fmt_d threshold ++ jstr "}");
                  mret resp
              end
      end
  end.

#[export] Instance other_api_eq_dec : EqDecision other_api.
Proof. solve_decision. Defined.

(** The handlers of this file; [None] for the others. *)
Definition system_api (o : other_api) (buf : bytes) (r : http_request_t) : option (hm (option nat)) :=
  match o with
  | HttpApi.api_stats => Some (api_stats r)
  | HttpApi.api_stats_ram => Some api_stats_ram
  | HttpApi.api_stats_system => Some api_stats_system
  | HttpApi.api_disk_info => Some api_disk_info
  | HttpApi.api_disk_tree => Some (api_disk_tree r)
  | HttpApi.api_processes => Some api_processes
  | HttpApi.api_process_kill => Some (api_process_kill buf r)
  | HttpApi.api_network_reset => Some (api_network_reset r)
  | HttpApi.api_admin_fan => Some (api_admin_fan r)
  | _ => None
  end.

End handlers.

(** ** The tree fits its block *)

Lemma json_escape_grows cap s : forall buf b,
  json_escape_append cap buf s = Some b -> strlen b <= strlen buf + 6 * strlen s.
Proof.
  induction s as [|c s IH]; intros buf b; cbn [json_escape_append]; [intros [= <-]; unfold strlen; simpl; lia|].
  case_if; [done|]. intros E. apply IH in E. revert E. unfold strlen. rewrite length_app. cbn [length].
  pose proof (length_json_escape c). lia.
Qed.

Lemma fmt_u64_fits z : 0 <= z < 2 ^ 64 -> strlen (fmt_u z) <= 64.
Proof.
  intros Hz. unfold strlen, fmt_u, digits. pose proof (digits_fuel_length (S (Z.to_nat (Z.log2 z))) 10 z []) as Hl.
  cbn [length] in Hl. assert (Z.log2 z <= 63) by (destruct (Z.eq_dec z 0) as [->|]; [simpl; lia|];
    enough (Z.log2 z < 64) by lia; apply Z.log2_lt_pow2; lia). pose proof (Z.log2_nonneg z). lia.
Qed.

Lemma tree_child_sane text name is_dir sz : strlen text + 9 < TREE_CAP -> (tree_child text name is_dir sz).2 = false.
Proof.
  intros Hl. cbn [tree_child snd]. assert (strlen (text ++ jstr "{'name':'") < TREE_CAP) as H1 by
    (rewrite strlen_app; change (strlen (jstr "{'name':'")) with 9; lia).
  apply orb_false_iff. split; apply Z.ltb_ge; [lia|]. destruct (json_escape_append _ _ _) as [b|] eqn:E; cbn [default from_option id]; [|by apply Z.lt_le_incl].
  apply json_escape_fits in E; [lia | done].
Qed.

Lemma drop_comma_shorter text : strlen (drop_comma text) <= strlen text.
Proof.
  unfold drop_comma. destruct (last text) as [c|]; [|done]. case_if; [|done].
  destruct (decide (text = [])) as [->|Hne]; [done|]. rewrite (app_removelast_last 0 Hne) at 2.
  rewrite strlen_app. change (strlen [_]) with 1. lia.
Qed.

Section tree.
Context {W : Type} {os : OS W} (fault : bool).
Abbreviation keeps m Q := (hoare (inv (W := W) (fun s => heap_fault s = fault) (fun _ => True)) m Q).

Lemma tree_children_fit n dir safe : forall text total first count,
  strlen text + 256 < TREE_CAP -> 0 <= total < 2 ^ 64 ->
  keeps (tree_children n dir safe text total first count)
    (fun r => strlen r.1 + 255 < TREE_CAP /\ 0 <= r.2 < 2 ^ 64).
Proof.
  induction n as [|n IH]; intros text total first count Hl Ht; cbn [tree_children]; [apply hoare_diverge|].
  apply hoare_bind with (Q := fun _ => True); [by apply hoare_sysc|]. intros [[name isd]|] _; [|apply hoare_ret; simpl; lia].
  case_if; [by apply IH|]. case_if; [apply hoare_ret; simpl; lia|].
  apply hoare_bind with (Q := fun _ => True); [by apply hoare_sysc|]. intros [st|] _; [|by apply IH]. cbv zeta.
  set (sz := if S_ISDIR _ then _ else _). set (start := if negb first && _ then _ else _).
  assert (Hs : strlen start <= strlen text + 1).
  { unfold start. case_if; [rewrite strlen_app; change (strlen (str ",")) with 1|]; lia. }
  pose proof (tree_child_sane start name (S_ISDIR (st_mode st)) sz ltac:(unfold TREE_CAP in *; lia)) as Hw.
  destruct (tree_child _ _ _ _) as [text' wild]. cbn [snd] in Hw. subst wild.
  apply hoare_ret_bind. assert (0 <= u64 (total + sz) < 2 ^ 64) as Hu by (apply Z.mod_pos_bound; lia).
  destruct (Z.leb_spec TREE_CAP (strlen text' + 256)).
  - apply hoare_ret. cbn [fst snd]. pose proof (drop_comma_shorter start). lia.
  - by apply IH.
Qed.

End tree.

(** The directory tree stays inside its block.  Whatever the directory
    holds and however the system behaves, no child is printed beyond the
    block of 512 KiB, and the finished text, its closing included, is shorter
    than the block, for every path a request can name. *)
Theorem disk_tree_fits {W} {os : OS W} fuel dir safe dirname (s : st http_state W) :
  strlen dirname < FTP_PATH_MAX ->
  let '(r, s') := tree_children fuel dir safe (tree_opening dirname) 0 true 0 s in
  heap_fault (ses s') = heap_fault (ses s) /\
  forall text total, r = Some (text, total) -> strlen (text ++ tree_closing total) < TREE_CAP.
Proof.
  intros Hd. assert (Ho : strlen (tree_opening dirname) + 256 < TREE_CAP).
  { unfold tree_opening. rewrite strlen_app. json_lengths.
    assert (strlen (default (jstr "{'name':'") (json_escape_append TREE_CAP (jstr "{'name':'") dirname)) <= 9 + 6 * FTP_PATH_MAX).
    { destruct (json_escape_append _ _ _) as [b|] eqn:E; cbn [default from_option id]; [|by vm_compute].
      apply json_escape_grows in E. change (strlen (jstr "{'name':'")) with 9 in E. lia. }
    unfold TREE_CAP, FTP_PATH_MAX in *. lia. }
  pose proof (tree_children_fit (os := os) (heap_fault (ses s)) fuel dir safe _ 0 true 0 Ho ltac:(lia) s) as Hk.
  destruct (tree_children _ _ _ _ _ _ _ _) as [r s']. destruct Hk as [[Hf _] Hr]; [by split; [|apply Forall_true]|].
  split; [done|]. intros text total ->. destruct (Hr _ eq_refl) as [Hl Ht]. cbn [fst snd] in Hl, Ht.
  unfold tree_closing. rewrite !strlen_app. json_lengths.
  pose proof (fmt_u64_fits total Ht). lia.
Qed.

(** A directory with one file, read with the small kernel. *)
Lemma disk_tree_fits_witness :
  let s := St http_state_init (SysSt (Toy [] [] [(str "/srv/f", Stat 33188 4 0 0 0)] [(str "f", false)] []) 0 []) in
  let '(r, s') := tree_children 5 20 (str "/srv") (tree_opening (str "srv")) 0 true 0 s in
  (forall text total, r = Some (text, total) -> strlen (text ++ tree_closing total) < TREE_CAP) /\
  (fun p => p.1 ++ tree_closing p.2) <$> r =
    Some (jstr "{'name':'srv','type':'directory','children':[{'name':'f','type':'file','size':4}],'size':4}").
Proof.
  intros s. pose proof (disk_tree_fits 5 20 (str "/srv") (str "srv") s ltac:(by vm_compute)) as H.
  assert (E : (fun p => p.1 ++ tree_closing p.2) <$> (tree_children 5 20 (str "/srv") (tree_opening (str "srv")) 0 true 0 s).1 =
    Some (jstr "{'name':'srv','type':'directory','children':[{'name':'f','type':'file','size':4}],'size':4}")) by (by vm_compute).
  destruct (tree_children _ _ _ _ _ _ _ _) as [r s']. split; [apply H | exact E].
Defined.

(** ** Signals *)

(** A request that sends a signal. *)
Definition signals (e : event) : bool :=
  match e with @Ev A c _ => match c with SysKill _ _ => true | _ => false end end.

(** What no handler but [api_process_kill] does: for every property of
    requests that holds of all but signals. *)
Section signals.
Context {W : Type} {os : OS W} (fuel : nat) {Hres : Resources}.
Context (K : event -> Prop) (HK : forall e, signals e = false -> K e).
Abbreviation keeps m := (hoare (inv (W := W) (fun _ : http_state => True) K) m (fun _ => True)).

#[local] Hint Extern 1 (K _) => apply HK; reflexivity : hoare.

Lemma calm_with_resp resp f : keeps (with_resp resp f).
Proof.
  unfold with_resp. destruct resp as [i|]; [|by apply hoare_ret].
  apply hoare_bind with (Q := fun _ => True); [by apply hoare_ask|]. intros r _. destruct (f r) as [rc r']. hgo.
Qed.

Lemma calm_free i : keeps (free i).
Proof. by apply hoare_upd. Qed.

#[local] Hint Resolve calm_with_resp calm_free : hoare.

Lemma calm_destroy resp : keeps (http_response_destroy resp).
Proof. unfold http_response_destroy. hgo. Qed.

#[local] Hint Resolve calm_destroy : hoare.

Lemma calm_create status : keeps (http_response_create status).
Proof. unfold http_response_create. hgo. Qed.

Lemma calm_add_header resp n v : keeps (http_response_add_header resp n v).
Proof. apply calm_with_resp. Qed.

Lemma calm_set_body resp b : keeps (http_response_set_body resp b).
Proof. apply calm_with_resp. Qed.

Lemma calm_set_body_owned resp p n : keeps (http_response_set_body_owned resp p n).
Proof. apply calm_with_resp. Qed.

Lemma calm_local_text size text : keeps (local_text size text).
Proof. unfold local_text. hgo. Qed.

#[local] Hint Resolve calm_create calm_add_header calm_set_body calm_set_body_owned calm_local_text : hoare.

Lemma calm_json_response code : keeps (json_response code).
Proof. unfold json_response. hgo. Qed.

#[local] Hint Resolve calm_json_response : hoare.

Lemma calm_error_json code text : keeps (error_json code text).
Proof. unfold error_json, json_reply. hgo. Qed.

Lemma calm_job_reply no_store size text : keeps (job_reply no_store size text).
Proof. unfold job_reply. hgo. Qed.

Lemma calm_owned_reply cap text : keeps (owned_reply cap text).
Proof. unfold owned_reply, fill_block. hgo. Qed.

Lemma calm_validate path size : keeps (validate_path path size).
Proof.
  unfold validate_path, http_validate_and_confine. case_if; [hgo|].
  apply hoare_bind with (Q := fun _ => True); [hgo|]. intros root _. apply hoare_io. hgo.
Qed.

#[local] Hint Resolve calm_error_json calm_job_reply calm_owned_reply calm_validate : hoare.

Lemma calm_disk path : keeps (get_best_disk_stats path).
Proof. unfold get_best_disk_stats, best_disk, get_disk_stats_bytes. hgo. Qed.

Lemma calm_count n dir count : keeps (count_items n dir count).
Proof. revert count. induction n as [|n IH]; intros count; cbn [count_items]; hgo; apply IH. Qed.

Lemma calm_boot : keeps get_boot_epoch_seconds.
Proof. unfold get_boot_epoch_seconds. hgo. Qed.

Lemma calm_meminfo n fp total used cached : keeps (meminfo_lines n fp total used cached).
Proof. revert used cached. induction n as [|n IH]; intros used cached; cbn [meminfo_lines]; hgo; apply IH. Qed.

Lemma calm_tree n dir safe text total first count : keeps (tree_children n dir safe text total first count).
Proof. revert text total first count. induction n as [|n IH]; intros; cbn [tree_children]; hgo; apply IH. Qed.

Lemma calm_status_lines n sf p : keeps (status_lines n sf p).
Proof. revert p. induction n as [|n IH]; intros p; cbn [status_lines]; hgo; apply IH. Qed.

#[local] Hint Resolve calm_disk calm_count calm_boot calm_meminfo calm_tree calm_status_lines : hoare.

Lemma calm_read_proc pid : keeps (read_proc fuel pid).
Proof. unfold read_proc, read_stat. hgo. Qed.

#[local] Hint Resolve calm_read_proc : hoare.

Lemma calm_proc_list n dir text first : keeps (proc_list fuel n dir text first).
Proof. revert text first. induction n as [|n IH]; intros; cbn [proc_list]; hgo; apply IH. Qed.

#[local] Hint Resolve calm_proc_list : hoare.

Lemma calm_system o buf r m : o <> HttpApi.api_process_kill -> system_api fuel o buf r = Some m -> keeps m.
Proof.
  intros Ho Hm. destruct o; simplify_eq/=;
    unfold api_stats, count_dir_items, api_stats_ram, get_ram_stats, api_stats_system, api_disk_info, api_disk_tree,
      api_processes, api_network_reset, api_admin_fan; hgo.
Qed.

(** The signal itself, from the state the token is checked in. *)
Lemma guarded_kill buf r s0 :
  (forall pid x, http_csrf_validate (ses s0) buf r = 0 -> method r = HTTP_METHOD_POST -> 1 < pid ->
     K (Ev (SysKill pid SIGTERM) x)) ->
  Forall K (os_trace (sysw s0)) -> Forall K (os_trace (sysw (api_process_kill buf r s0).2)).
Proof.
  intros Hkill H0. assert (Hi : inv (W := W) (fun _ : http_state => True) K s0) by done.
  unfold api_process_kill. unfold mbind at 1, M_bind at 1, ask at 1, gets at 1. cbv beta iota.
  match goal with |- context [(?m s0).2] => assert (Hm : keeps m); [|by destruct (Hm s0 Hi) as [[_ ?] _]] end.
  cbn [id]. case_if; [hgo|]. case_if; [hgo|]. destruct (parse_pid_from_body _) as [pid|]; [|hgo].
  destruct (Z.leb_spec pid 1); [hgo|]. zbool.
  apply hoare_bind with (Q := fun _ => True); [apply hoare_sysc; intros x; by apply Hkill|]. intros rc _. hgo.
Qed.

End signals.

(** C21: signals are guarded.  Of the system handlers only [api_process_kill]
    sends a signal, and only for a POST request that carries the server's
    token: it is SIGTERM, and goes to a single process other than init. *)
Theorem signals_guarded {W} {os : OS W} {Hres : Resources} fuel o buf r m (s : st http_state W) :
  system_api fuel o buf r = Some m -> os_trace (sysw s) = [] ->
  Forall (fun e => signals e = true ->
            o = HttpApi.api_process_kill /\ http_csrf_validate (ses s) buf r = 0 /\ method r = HTTP_METHOD_POST /\
            exists pid x, 1 < pid /\ e = Ev (SysKill pid SIGTERM) x)
    (os_trace (sysw (m s).2)).
Proof.
  intros Hm Ht. destruct (decide (o = HttpApi.api_process_kill)) as [->|Ho].
  - injection Hm as <-. apply guarded_kill; [by intros e -> ? | | by rewrite Ht].
    intros pid x Hc Hp Hpid _. eauto 10.
  - match goal with |- Forall ?K _ => destruct (calm_system fuel K (fun e He He' => False_ind _ (eq_true_false_abs _ He' He))
      o buf r m Ho Hm s) as [[_ Hk] _]; [split; [done | by rewrite Ht] | done] end.
Qed.

#[local] Instance stats_resources : Resources :=
  {| http_get_resource _ := None; k_frontend_patch := []; strerror _ := [] |}.

Lemma signals_guarded_witness :
  let '(buf, r) := job_request (str "/api/process/kill") (jstr "{'pid': 77}") in
  let s := http_at [] [] in
  exists m, system_api 5 HttpApi.api_process_kill buf r = Some m /\
    Forall (fun e => signals e = true -> exists pid x, 1 < pid /\ e = Ev (SysKill pid SIGTERM) x) (os_trace (sysw (m s).2)) /\
    exists x, Ev (SysKill 77 SIGTERM) x ∈ os_trace (sysw (m s).2).
Proof.
  cbv zeta beta iota delta [job_request]. eexists. split; [reflexivity|]. split.
  - eapply Forall_impl; [apply (signals_guarded 5 HttpApi.api_process_kill); reflexivity|].
    intros e He Hs. by destruct (He Hs) as (_ & _ & _ & ?).
  - exists 0. vm_compute. repeat (first [left | right]).
Defined.

End Stats.
