(* ===== verification/HttpGame.v ===== *)
(** * Title handlers of the HTTP API: [src/http_api.c]

    The handlers that look into disk images and containers and at installed
    titles, in the default build: metadata and icons of an image, the list of
    installed titles and their icons, launching, and the installation calls
    that this build refuses.  Images are read by [Exfat] and [Pkg], their
    metadata by [Sfo]. *)

From S2P Require Import Prelude CLib FtpTypes FtpPath Os PalNetwork PalFileio PalCopy.
From S2P Require Import FtpResolve FtpInv Unpack Exfat Pkg PkgSpec Sfo SfoSpec.
From S2P Require Import HttpParser HttpState HttpResponse HttpCsrf HttpQuery HttpApi HttpServer HttpInv HttpConfine HttpJobs HttpStats.

Module Game.
Import Jobs Stats.

Definition R_OK : Z := 4.
Definition PKG_ENTRY_ID_PIC0_PNG : Z := 4640.                 (* 0x1220 *)
Definition GAME_META_MAX_ENTRIES : Z := 256.
Definition GAME_META_SCE_ENTRIES : Z := 64.
Definition GAME_META_MAX_PARAM : Z := 256 * 1024.
Definition GAME_META_MAX_ICON : Z := 2 * 1024 * 1024.

(** A character of a title id. *)
Definition id_char (c : Z) : bool := isalnum c || (c =? 95) || (c =? 45).

Definition is_valid_title_id_for_uninstall (title_id : bytes) : bool :=
  (4 <=? strlen title_id) && (strlen title_id <=? 16) && forallb id_char title_id.

Definition has_pkg_extension (path : bytes) : bool :=
  match strrchr path DOT with
  | None => false
  | Some k =>
      let ext := drop (S k) path in
      strcaseeq ext (str "pkg") || strcaseeq ext (str "fpkg") || strcaseeq ext (str "ffpkg")
  end.

(** The strings collected from an image. *)
Record meta_t := Meta {
  mt_title_id : bytes; mt_title_name : bytes; mt_version : bytes; mt_category : bytes; mt_content_id : bytes
}.

Section game.
Context {W : Type} `{OS W} (fuel : nat).
Abbreviation hm := (M (st http_state W)).
Abbreviation im := (M (sysst W)).

(** ** Files *)

Definition read_file_to_buffer (path : bytes) (max_size : Z) : im (option bytes) :=
  fp ← sys_call (SysFopen path (str "rb"));
  match fp with
  | None => mret None
  | Some fp =>
      let close := _ ← sys_call (SysFclose fp); mret None in
      r ← sys_call (SysFseek fp 0 SEEK_END);
      if negb (r =? 0) then close
      else
        flen ← sys_call (SysFtell fp);
        if (flen <=? 0) || (max_size <? flen) then close
        else
          r ← sys_call (SysFseek fp 0 SEEK_SET);
          if negb (r =? 0) then close
          else
            ok ← sys_call (SysMalloc flen);
            if negb (ok : bool) then close
            else
              b ← sys_call (SysFread fp flen);
              _ ← sys_call (SysFclose fp);
              mret (if strlen b =? flen then Some b else None)
  end.

(** A string of an SFO table into an array that holds [old]. *)
Definition sfo_set (sfo key : bytes) (size : Z) (old : bytes) : im bytes :=
  r ← sfo_get_string fuel sfo key size;
  mret (default old r).

(** Is there a readable file under this name, and does the name fit. *)
Definition readable_path (path : bytes) : im bool :=
  if FTP_PATH_MAX <=? strlen path then mret false
  else r ← sys_call (SysAccess path R_OK); mret (r =? 0).

(** The first of the names that is readable. *)
Fixpoint first_readable (l : list bytes) : im (option bytes) :=
  match l with
  | [] => mret None
  | p :: l => ok ← readable_path p; if (ok : bool) then mret (Some p) else first_readable l
  end.

(** Title id and name of an installed title, from what they are before;
    [None] when there is no table. *)
Definition read_installed_game_sfo (app_dir title_id : bytes) (id_size : Z) (title_name : bytes) (name_size : Z) :
    im (option (bytes * bytes)) :=
  p ← first_readable [app_dir ++ str "/sce_sys/param.sfo"; app_dir ++ str "/param.sfo"];
  match p with
  | None => mret None
  | Some p =>
      sfo ← read_file_to_buffer p 65536;
      match sfo with
      | None => mret None
      | Some sfo =>
          title_id ← sfo_set sfo (str "TITLE_ID") id_size title_id;
          title_name ← sfo_set sfo (str "TITLE") name_size title_name;
          title_name ← match title_name with
                       | [] => sfo_set sfo (str "TITLE_01") name_size title_name
                       | _ => mret title_name
                       end;
          mret (Some (title_id, title_name))
      end
  end.

(** [None] and the empty string both stand for a missing argument. *)
Definition resolve_installed_icon_path (title_id app_dir : bytes) : im (option bytes) :=
  first_readable
    (match app_dir with [] => [] | _ => [app_dir ++ str "/sce_sys/icon0.png"; app_dir ++ str "/icon0.png"] end
     ++ match title_id with
        | [] => []
        | _ => [str "/user/appmeta/" ++ title_id ++ str "/icon0.png";
                str "/system_data/priv/appmeta/" ++ title_id ++ str "/icon0.png"]
        end).

Fixpoint first_directory (l : list bytes) : im (option bytes) :=
  match l with
  | [] => mret None
  | p :: l =>
      if FTP_PATH_MAX <=? strlen p then first_directory l
      else
        st ← sys_call (SysStat p);
        match st with
        | Some st => if S_ISDIR (st_mode st) then mret (Some p) else first_directory l
        | None => first_directory l
        end
  end.

Definition resolve_installed_app_dir_by_title (title_id : bytes) : im (option bytes) :=
  match title_id with
  | [] => mret None
  | _ => first_directory ((fun base => base ++ SLASH :: title_id)
           <$> [str "/user/app"; str "/mnt/ext0/user/app"; str "/system_ex/app"; str "/system/app"])
  end.

(** The title id of a directory, for an array of 64 bytes. *)
Definition extract_title_id_from_app_dir (safe_path : bytes) : im (option bytes) :=
  st ← sys_call (SysStat safe_path);
  if match st with Some st => negb (S_ISDIR (st_mode st)) | None => true end then mret None
  else
    r ← read_installed_game_sfo safe_path [] 64 [] 128;
    match r with
    | Some ((_ :: _) as title_id, _) => mret (Some title_id)
    | _ =>
        let base := match strrchr safe_path SLASH with Some k => drop (S k) safe_path | None => [] end in
        mret (if (9 <=? strlen base) && (strlen base <? 64) && forallb id_char base then Some base else None)
    end.

(** ** Images *)

(** The contents of a file of an image; [None] when it is empty, too large,
    or not extracted. *)
Definition exfat_contents (ctx : exfat_context_t) (e : exfat_file_info_t) (max extra : Z) : im (option bytes) :=
  if negb ((0 <? data_length e) && (data_length e <=? max)) then mret None
  else
    ok ← sys_call (SysMalloc (data_length e + extra));
    if negb (ok : bool) then mret None
    else
      '(got, b) ← exfat_extract_to_buffer ctx (default 0 (image_file ctx)) e (data_length e);
      mret (if 0 <? got then Some b else None).

(** The entries of the first directory sce_sys of the root directory. *)
Definition sce_sys_entries (ctx : exfat_context_t) : im (list exfat_file_info_t) :=
  root ← exfat_read_directory fuel ctx (root_dir_first_cluster (boot_sector ctx)) GAME_META_MAX_ENTRIES;
  match find (fun e => is_directory e && strcaseeq (filename e) (str "sce_sys")) (default [] root) with
  | None => mret []
  | Some d =>
      es ← exfat_read_directory fuel ctx (first_cluster d) GAME_META_SCE_ENTRIES;
      mret (default [] es)
  end.

(** A title id from the content id, when there is none yet. *)
Definition id_or_content (title_id content_id : bytes) : bytes :=
  match title_id with [] => default [] (title_id_from_content_id content_id) | _ => title_id end.

(** The title id in an SFO table. *)
Definition sfo_title_id (sfo : bytes) : im bytes :=
  title_id ← sfo_set sfo (str "TITLE_ID") 64 [];
  match title_id with
  | [] => cid ← sfo_set sfo (str "CONTENT_ID") 64 []; mret (id_or_content [] cid)
  | _ => mret title_id
  end.

(** The title id in JSON text. *)
Definition json_title_id (json : bytes) : bytes :=
  match (json_get_string json (str "titleId") 64).2 with
  | [] =>
      match (json_get_string json (str "title_id") 64).2 with
      | [] =>
          let cid := match (json_get_string json (str "contentId") 64).2 with
                     | [] => (json_get_string json (str "content_id") 64).2
                     | cid => cid
                     end in
          id_or_content [] cid
      | t => t
      end
  | t => t
  end.

(** The files of sce_sys in order, up to the first that has a title id. *)
Fixpoint sce_title_id (ctx : exfat_context_t) (es : list exfat_file_info_t) : im bytes :=
  match es with
  | [] => mret []
  | e :: es =>
      if is_directory e then sce_title_id ctx es
      else
        sfo ← (if strcaseeq (filename e) (str "param.sfo") then exfat_contents ctx e 65536 0 else mret None);
        title_id ← match sfo with Some sfo => sfo_title_id sfo | None => mret [] end;
        title_id ← match title_id with
                   | [] =>
                       json ← (if strcaseeq (filename e) (str "param.json")
                               then exfat_contents ctx e GAME_META_MAX_PARAM 1 else mret None);
                       mret (match json with Some json => json_title_id (cstr_of json) | None => [] end)
                   | _ => mret title_id
                   end;
        match title_id with [] => sce_title_id ctx es | _ => mret title_id end
  end.

(** The SFO table of a container: entries of at most 64 KiB. *)
Definition pkg_sfo (ctx : pkg_context_t) : im (option bytes) :=
  match pkg_find_entry_by_id ctx PKG_ENTRY_ID_PARAM_SFO with
  | None => mret None
  | Some e =>
      if negb ((0 <? pe_size e) && (pe_size e <=? 65536)) then mret None
      else
        ok ← sys_call (SysMalloc (pe_size e));
        if negb (ok : bool) then mret None
        else
          '(got, b) ← pkg_extract_to_buffer ctx e (pe_size e);
          mret (if 0 <? got then Some b else None)
  end.

(** The text of the content id in a container's header. *)
Definition header_content_id (ctx : pkg_context_t) : bytes := cstr_of (content_id (pkg_header ctx)).

(** The empty string stands for a failure. *)
Definition extract_title_id_from_game_image (safe_path : bytes) : im bytes :=
  '(rc, pkg) ← pkg_init safe_path;
  if rc =? PKG_OK then
    sfo ← pkg_sfo pkg;
    title_id ← match sfo with Some sfo => sfo_title_id sfo | None => mret [] end;
    _ ← pkg_cleanup pkg;
    mret (id_or_content title_id (header_content_id pkg))
  else
    '(rc, ctx) ← exfat_init safe_path;
    if negb (rc =? 0) then mret []
    else
      es ← sce_sys_entries ctx;
      title_id ← sce_title_id ctx es;
      _ ← exfat_cleanup ctx;
      mret title_id.

(** The strings of an SFO table. *)
Definition sfo_meta (sfo : bytes) (m : meta_t) : im meta_t :=
  title_id ← sfo_set sfo (str "TITLE_ID") 64 (mt_title_id m);
  title_name ← sfo_set sfo (str "TITLE") 256 (mt_title_name m);
  version ← sfo_set sfo (str "APP_VER") 64 (mt_version m);
  category ← sfo_set sfo (str "CATEGORY") 64 (mt_category m);
  cid ← sfo_set sfo (str "CONTENT_ID") 48 [];
  mret (Meta title_id title_name version category (match cid with [] => mt_content_id m | _ => take 47 cid end)).

(** The strings of a JSON text; a key that is missing empties its string. *)
Definition json_meta (json : bytes) (m : meta_t) : meta_t :=
  let get key size := (json_get_string json (str key) size).2 in
  let either a b size := match get a size with [] => get b size | t => t end in
  Meta (either "titleId" "title_id" 64) (get "titleName" 256) (either "contentVersion" "appVer" 64)
    (get "category" 64)
    (match mt_content_id m with [] => either "contentId" "content_id" 48 | c => c end).

(** The files of sce_sys: strings and whether there is an icon. *)
Fixpoint sce_meta (ctx : exfat_context_t) (es : list exfat_file_info_t) (m : meta_t) (icon : bool) :
    im (meta_t * bool) :=
  match es with
  | [] => mret (m, icon)
  | e :: es =>
      if is_directory e then sce_meta ctx es m icon
      else
        let named n := strcaseeq (filename e) (str n) in
        sfo ← (if named "param.sfo" then exfat_contents ctx e 65536 0 else mret None);
        m ← match sfo with Some sfo => sfo_meta sfo m | None => mret m end;
        json ← (if named "param.json" then exfat_contents ctx e GAME_META_MAX_PARAM 1 else mret None);
        let m := match json with Some json => json_meta (cstr_of json) m | None => m end in
        icon ← (if named "icon0.png" && (0 <? data_length e) && (data_length e <=? GAME_META_MAX_ICON) then
                  b ← exfat_contents ctx e GAME_META_MAX_ICON 0;
                  mret (match b with Some _ => true | None => false end)
                else mret icon);
        sce_meta ctx es m icon
  end.

Definition stderr_line (text : bytes) : im unit := sys_call (SysStderr (text ++ [LF])).

(** The icon of a container; [verbose] is [api_game_meta]'s log. *)
Definition pkg_icon (tag : bytes) (verbose : bool) (ctx : pkg_context_t) : im (option bytes) :=
  let say text := if verbose then stderr_line (tag ++ text) else mret tt in
  match (match pkg_find_entry_by_id ctx PKG_ENTRY_ID_ICON0_PNG with
         | Some e => Some e
         | None => pkg_find_entry_by_id ctx PKG_ENTRY_ID_PIC0_PNG
         end) with
  | None => _ ← say (str " Could not find any icon entry in PKG"); mret None
  | Some e =>
      if pkg_entry_is_encrypted e then
        _ ← stderr_line (tag ++ str " Icon entry is encrypted! Cannot extract."); mret None
      else if GAME_META_MAX_ICON <? pe_size e then
        _ ← stderr_line (tag ++ str " Icon too large: " ++ fmt_u (pe_size e)); mret None
      else
        ok ← sys_call (SysMalloc (pe_size e));
        if negb (ok : bool) then mret None
        else
          '(got, b) ← pkg_extract_to_buffer ctx e (pe_size e);
          if 0 <? got then
            _ ← say (str " Icon successfully extracted (" ++ fmt_u got ++ str " bytes)");
            mret (Some b)
          else
            _ ← say (str " Failed to extract icon (err: " ++ fmt_d got ++ str ")");
            mret None
  end.

(** ** Metadata and icon of an image *)

(** [None] when the file is neither. *)
Definition image_meta (safe : bytes) : im (option (meta_t * bool)) :=
  '(rc, pkg) ← pkg_init safe;
  if rc =? PKG_OK then
    _ ← stderr_line (str "[PKG] Successfully opened " ++ safe ++ str " (entries: "
                     ++ fmt_u (pkg_entry_count (pkg_header pkg)) ++ str ")");
    let cid := header_content_id pkg in
    sfo ← pkg_sfo pkg;
    m ← match sfo with Some sfo => sfo_meta sfo (Meta [] [] [] [] cid) | None => mret (Meta [] [] [] [] cid) end;
    let or_cid t := match t with [] => cid | _ => t end in
    let m := Meta (or_cid (mt_title_id m)) (or_cid (mt_title_name m)) (mt_version m) (mt_category m) (mt_content_id m) in
    icon ← pkg_icon (str "[PKG]") true pkg;
    _ ← pkg_cleanup pkg;
    mret (Some (m, match icon with Some _ => true | None => false end))
  else
    '(rc, ctx) ← exfat_init safe;
    if negb (rc =? 0) then mret None
    else
      es ← sce_sys_entries ctx;
      r ← sce_meta ctx es (Meta [] [] [] [] []) false;
      _ ← exfat_cleanup ctx;
      mret (Some r).

(** The reply; the strings are printed as they are. *)
Definition meta_json (m : meta_t) (icon : bool) : bytes :=
  jstr "{'title_id':'" ++ id_or_content (mt_title_id m) (mt_content_id m) ++ jstr "','title_name':'"
  ++ mt_title_name m ++ jstr "','version':'" ++ mt_version m ++ jstr "','category':'" ++ mt_category m
  ++ jstr "','content_id':'" ++ mt_content_id m ++ jstr "','has_icon':"
  ++ (if icon then str "true" else str "false") ++ jstr "}".

Definition api_game_meta (r : http_request_t) : hm (option nat) :=
  safe ← validate_path (path_param r [SLASH]) FTP_PATH_MAX;
  match safe with
  | None => error_json HTTP_STATUS_403_FORBIDDEN (str "Path traversal blocked")
  | Some safe =>
      meta ← io (image_meta safe);
      match meta with
      | None => error_json HTTP_STATUS_400_BAD_REQUEST (str "Not a valid PKG or exFAT image")
      | Some (m, icon) =>
          resp ← http_response_create HTTP_STATUS_200_OK;
          _ ← http_response_add_header resp (str "Content-Type") (str "application/json");
          _ ← http_response_add_header resp (str "Cache-Control") (str "max-age=3600");
          ok ← sysc (SysMalloc 1024);
          if negb (ok : bool) then error_json HTTP_STATUS_500_INTERNAL_ERROR (str "Out of memory")
          else
            b ← local_text 1024 (meta_json m icon);
            _ ← http_response_set_body resp b;
            mret resp
      end
  end.

(** The first icon0.png of sce_sys that is not empty and not too large. *)
Definition sce_icon (ctx : exfat_context_t) (es : list exfat_file_info_t) : im (option bytes) :=
  match find (fun e => negb (is_directory e) && strcaseeq (filename e) (str "icon0.png")
                       && (0 <? data_length e) && (data_length e <=? GAME_META_MAX_ICON)) es with
  | None => mret None
  | Some e => exfat_contents ctx e GAME_META_MAX_ICON 0
  end.

(** [None] when the file is neither, [Some None] when there is no icon. *)
Definition image_icon (safe : bytes) : im (option (option bytes)) :=
  '(rc, pkg) ← pkg_init safe;
  if rc =? PKG_OK then
    _ ← stderr_line (str "[PKG-ICON] Successfully opened " ++ safe);
    icon ← pkg_icon (str "[PKG-ICON]") false pkg;
    _ ← pkg_cleanup pkg;
    mret (Some icon)
  else
    '(rc, ctx) ← exfat_init safe;
    if negb (rc =? 0) then mret None
    else
      es ← sce_sys_entries ctx;
      icon ← sce_icon ctx es;
      _ ← exfat_cleanup ctx;
      mret (Some icon).

(** A reply that owns [data]; [failed] when it cannot take it over. *)
Definition owned_body (ctype cache data : bytes) (failed : hm (option nat)) : hm (option nat) :=
  i ← fill_block (strlen data) data;
  resp ← http_response_create HTTP_STATUS_200_OK;
  _ ← http_response_add_header resp (str "Content-Type") ctype;
  _ ← http_response_add_header resp (str "Cache-Control") cache;
  rc ← http_response_set_body_owned resp (PHeap i 0) (strlen data);
  if negb (rc =? 0) then
    _ ← free i;
    _ ← http_response_destroy resp;
    failed
  else mret resp.

Definition api_game_icon (r : http_request_t) : hm (option nat) :=
  safe ← validate_path (path_param r [SLASH]) FTP_PATH_MAX;
  match safe with
  | None => error_json HTTP_STATUS_403_FORBIDDEN (str "Path traversal blocked")
  | Some safe =>
      icon ← io (image_icon safe);
      match icon with
      | None => error_json HTTP_STATUS_400_BAD_REQUEST (str "Not a valid PKG or exFAT image")
      | Some None => error_json HTTP_STATUS_404_NOT_FOUND (str "Icon not found in image")
      | Some (Some icon) =>
          owned_body (str "image/png") (str "max-age=86400") icon
            (error_json HTTP_STATUS_500_INTERNAL_ERROR (str "Failed to send icon"))
      end
  end.

(** ** Installed titles *)

Definition status_json_200 (ok : bool) (message : bytes) (code : Z) : hm (option nat) :=
  job_reply true 512
    (jstr "{'ok':" ++ (if ok then str "true" else str "false") ++ jstr ",'status':'"
     ++ (if ok then str "ok" else str "error") ++ jstr "','message':'" ++ message ++ jstr "','code':"
     ++ fmt_d code ++ jstr "}").

Definition k_png_1x1 : bytes :=
  [137; 80; 78; 71; 13; 10; 26; 10; 0; 0; 0; 13; 73; 72; 68; 82; 0; 0; 0; 1; 0; 0; 0; 1; 8; 6; 0; 0; 0; 31; 21; 196;
   137; 0; 0; 0; 13; 73; 68; 65; 84; 120; 156; 99; 96; 96; 96; 248; 15; 0; 1; 4; 1; 0; 95; 226; 38; 5; 0; 0; 0; 0; 73;
   69; 78; 68; 174; 66; 96; 130].

Definition png_fallback_response : hm (option nat) :=
  resp ← http_response_create HTTP_STATUS_200_OK;
  _ ← http_response_add_header resp (str "Content-Type") (str "image/png");
  _ ← http_response_add_header resp (str "Cache-Control") (str "public, max-age=3600");
  _ ← http_response_set_body resp k_png_1x1;
  mret resp.

Definition GAMES_BODY_CAP : Z := 512 * 1024.

(** One installed title of the list. *)
Definition installed_pieces (first : bool) (title_id title_name app_dir base : bytes) (icon : bool) : list piece :=
  (if first then [] else [Raw (str ",")])
  ++ [Raw (jstr "{'id':'"); Esc title_id; Raw (jstr "','name':'"); Esc title_name; Raw (jstr "','path':'"); Esc app_dir;
      Raw (jstr "','source':'"); Esc base; Raw (jstr "','has_icon':"); Raw (if icon then str "true" else str "false");
      Raw (jstr "}")].

(** The titles below an open directory; [None] when the text gets too long. *)
Fixpoint installed_entries (n : nat) (dir : Z) (base text : bytes) (first : bool) : im (option (bytes * bool)) :=
  match n with
  | O => diverge
  | S n =>
      ent ← sys_call (SysReaddir dir);
      match ent with
      | None => _ ← sys_call (SysClosedir dir); mret (Some (text, first))
      | Some (name, _) =>
          let app_dir := base ++ SLASH :: name in
          if dot_entry name || (FTP_PATH_MAX <=? strlen app_dir) then installed_entries n dir base text first
          else
            st ← sys_call (SysStat app_dir);
            if match st with Some st => negb (S_ISDIR (st_mode st)) | None => true end
            then installed_entries n dir base text first
            else
              r ← read_installed_game_sfo app_dir (snprintf_buf 64 name) 64 [] 256;
              let '(title_id, title_name) := default (snprintf_buf 64 name, []) r in
              let title_name := match title_name with [] => title_id | _ => title_name end in
              icon ← resolve_installed_icon_path title_id app_dir;
              match append_pieces GAMES_BODY_CAP text
                      (installed_pieces first title_id title_name app_dir base
                         (match icon with Some _ => true | None => false end)) with
              | None => _ ← sys_call (SysClosedir dir); mret None
              | Some text => installed_entries n dir base text false
              end
      end
  end.

Definition append_installed_entries_from_base (base text : bytes) (first : bool) : im (option (bytes * bool)) :=
  dir ← sys_call (SysOpendir base);
  match dir with
  | None => mret (Some (text, first))
  | Some dir => installed_entries fuel dir base text first
  end.

Fixpoint installed_bases (l : list bytes) (text : bytes) (first : bool) : im (option bytes) :=
  match l with
  | [] => mret (Some text)
  | b :: l =>
      r ← append_installed_entries_from_base b text first;
      match r with None => mret None | Some (text, first) => installed_bases l text first end
  end.

Definition api_games_installed : hm (option nat) :=
  ok ← sysc (SysMalloc GAMES_BODY_CAP);
  if negb (ok : bool) then error_json HTTP_STATUS_500_INTERNAL_ERROR (str "Out of memory")
  else
    text ← io (installed_bases [str "/user/app"; str "/system_ex/app"; str "/mnt/ext0/user/app"]
                 (jstr "{'ok':true,'entries':[") true);
    match text ≫= (fun text => buf_append_cstr GAMES_BODY_CAP text (str "]}")) with
    | None => error_json HTTP_STATUS_500_INTERNAL_ERROR (str "Response too large")
    | Some text =>
        i ← fill_block GAMES_BODY_CAP text;
        resp ← http_response_create HTTP_STATUS_200_OK;
        match resp with
        | None => _ ← free i; error_json HTTP_STATUS_500_INTERNAL_ERROR (str "Out of memory")
        | Some _ =>
            _ ← http_response_add_header resp (str "Content-Type") (str "application/json");
            _ ← http_response_add_header resp (str "Cache-Control") (str "no-store");
            rc ← http_response_set_body_owned resp (PHeap i 0) (strlen text);
            if negb (rc =? 0) then
              _ ← free i;
              _ ← http_response_destroy resp;
              error_json HTTP_STATUS_500_INTERNAL_ERROR (str "Body allocation failed")
            else mret resp
        end
    end.

(** The id of a query: upper case, dropped when it has another character. *)
Definition icon_title_id (query : bytes) : bytes :=
  let '(rc, t) := parse_query_param query (str "id") 64 in
  if (rc =? 0) && forallb id_char t then toupper <$> t else [].

(** The path of the query is used as it comes. *)
Definition api_games_icon (r : http_request_t) : hm (option nat) :=
  match query_of r with
  | None => png_fallback_response
  | Some query =>
      icon_path ← io (resolve_installed_icon_path (icon_title_id query)
                        (parse_query_param query (str "path") FTP_PATH_MAX).2);
      match icon_path with
      | None => png_fallback_response
      | Some icon_path =>
          b ← io (read_file_to_buffer icon_path (8 * 1024 * 1024));
          match b with
          | None => png_fallback_response
          | Some b => owned_body (str "image/png") (str "no-store") b png_fallback_response
          end
      end
  end.

(** The names of an open directory that do not start with a dot. *)
Fixpoint count_names (n : nat) (dir count : Z) : im Z :=
  match n with
  | O => diverge
  | S n =>
      ent ← sys_call (SysReaddir dir);
      match ent with
      | None => _ ← sys_call (SysClosedir dir); mret count
      | Some (name, _) => count_names n dir (if match name with c :: _ => c =? DOT | [] => false end then count
                                             else u64 (count + 1))
      end
  end.

Fixpoint count_bases (l : list bytes) (count : Z) : im Z :=
  match l with
  | [] => mret count
  | b :: l =>
      dir ← sys_call (SysOpendir b);
      count ← match dir with Some dir => count_names fuel dir count | None => mret count end;
      count_bases l count
  end.

Definition REPAIR_BASES : list bytes :=
  [str "/user/app"; str "/system_ex/app"; str "/mnt/ext0/user/app"; str "/user/appmeta"; str "/system_data/priv/appmeta"].

Definition repair_text (count : Z) : bytes :=
  jstr "{'ok':true,'message':'Visibility reindex completed','scanned':["
  ++ jstr "'/user/app','/system_ex/app','/mnt/ext0/user/app','/user/appmeta','/system_data/priv/appmeta'"
  ++ jstr "],'items_seen':" ++ fmt_u count
  ++ jstr ",'hints':['Use Refresh Installed in Games tab','If titles still missing, restart shell/console']"
  ++ jstr ",'sqlite_repair':{'available':false,'titles':0,'tables':0,'rows':0}}".

(** The memory behind a text without terminator, up to the first NUL. *)
Fixpoint stale_text (n : nat) : im bytes :=
  match n with
  | O => diverge
  | S n =>
      b ← sys_call (SysStale 1);
      match b with
      | c :: _ => if c =? 0 then mret [] else rest ← stale_text n; mret (c :: rest)
      | [] => mret []
      end
  end.

(** The text is not terminated, but its length is measured with [strlen]. *)
Definition api_games_repair_visibility : hm (option nat) :=
  count ← io (count_bases REPAIR_BASES 0);
  resp ← http_response_create HTTP_STATUS_200_OK;
  _ ← http_response_add_header resp (str "Content-Type") (str "application/json");
  _ ← http_response_add_header resp (str "Cache-Control") (str "no-store");
  rest ← io (stale_text fuel);
  _ ← http_response_set_body resp (repair_text count ++ rest);
  mret resp.

Definition api_games_install_status : hm (option nat) :=
  g ← ask (fun s => g_game_install_state (g_jobs s));
  job_reply true 768
    (jstr "{'ok':true,'active':" ++ json_bool (gi_active g) ++ jstr ",'task_id':" ++ fmt_d (gi_task_id g)
     ++ jstr ",'progress':" ++ fmt_d (gi_last_percent g) ++ jstr ",'error':" ++ fmt_d (gi_last_error g)
     ++ jstr ",'length':" ++ fmt_u (gi_last_length g) ++ jstr ",'transferred':" ++ fmt_u (gi_last_transferred g)
     ++ jstr ",'title_id':'" ++ gi_title_id g ++ jstr "','path':'" ++ gi_path g ++ jstr "'}").

(** What the installation calls have in common: POST or GET, with a query. *)
Definition with_query (r : http_request_t) (k : bytes -> hm (option nat)) : hm (option nat) :=
  if negb (bool_decide (method r = HTTP_METHOD_POST)) && negb (bool_decide (method r = HTTP_METHOD_GET)) then
    error_json HTTP_STATUS_405_METHOD_NOT_ALLOWED (str "Use POST or GET")
  else match query_of r with
  | None => error_json HTTP_STATUS_400_BAD_REQUEST (str "Missing query string")
  | Some query => k query
  end.

Definition api_games_uninstall (r : http_request_t) : hm (option nat) :=
  with_query r (fun query =>
    let '(rc, title_id) := parse_query_param query (str "id") 64 in
    if (rc =? 0) && is_valid_title_id_for_uninstall title_id
    then status_json_200 false (str "Uninstall only available on PS4/PS5") (-1)
    else error_json HTTP_STATUS_400_BAD_REQUEST (str "Missing or invalid title id")).

(** A validated path of a container. *)
Definition with_pkg_path (query verb : bytes) (k : bytes -> hm (option nat)) : hm (option nat) :=
  let '(rc, path) := parse_path_param [] query FTP_PATH_MAX in
  if negb (rc =? 0) then error_json HTTP_STATUS_400_BAD_REQUEST (str "Missing path parameter")
  else
    safe ← validate_path path FTP_PATH_MAX;
    match safe with
    | None => error_json HTTP_STATUS_403_FORBIDDEN (str "Path traversal blocked")
    | Some safe =>
        if negb (has_pkg_extension safe)
        then error_json HTTP_STATUS_400_BAD_REQUEST (verb ++ str " supports only PKG/FPKG files")
        else k safe
    end.

Definition api_games_install (r : http_request_t) : hm (option nat) :=
  with_query r (fun query => with_pkg_path query (str "Install") (fun _ =>
    status_json_200 false (str "Install only available on PS4/PS5") (-1))).

Definition api_games_reinstall (r : http_request_t) : hm (option nat) :=
  with_query r (fun query => with_pkg_path query (str "Reinstall") (fun safe =>
    _ ← io (extract_title_id_from_game_image safe);
    status_json_200 false (str "Reinstall only available on PS4/PS5") (-1))).

(** ** Launching *)

Definition launch_diag_log (stage title_id : bytes) (code : Z) (detail : bytes) : im unit :=
  let line := snprintf_buf 512 (str "[LAUNCH-DIAG] stage=" ++ stage ++ str " title=" ++ title_id ++ str " code=0x"
                                ++ fmt_0X 8 (u32 code) ++ str " detail=" ++ detail) in
  _ ← stderr_line line;
  sys_call (SysLog line).

(** The target named by the query, or the error to reply with. *)
Definition launch_target (query : bytes) : hm ((http_status_t * bytes) + bytes) :=
  match strstr query (str "id=") with
  | Some k =>
      let id := take_while (fun c => negb (c =? AMP)) (drop (k + 3) query) in
      mret (if 63 <? strlen id then inl (HTTP_STATUS_400_BAD_REQUEST, str "'id' parameter too long") else inr id)
  | None =>
      let '(rc, path) := parse_path_param [] query 1024 in
      if negb (rc =? 0) then mret (inl (HTTP_STATUS_400_BAD_REQUEST, str "Missing 'id' or valid 'path' parameter"))
      else
        safe ← validate_path path FTP_PATH_MAX;
        match safe with
        | None => mret (inl (HTTP_STATUS_403_FORBIDDEN, str "Path traversal blocked"))
        | Some safe =>
            t ← io (extract_title_id_from_game_image safe);
            match t with
            | _ :: _ => mret (inr t)
            | [] =>
                t ← io (extract_title_id_from_app_dir safe);
                mret (match t with
                      | Some t => inr t
                      | None => inl (HTTP_STATUS_400_BAD_REQUEST, str "Unable to resolve TITLE_ID from image/app path")
                      end)
            end
        end
  end.

Definition api_admin_launch (r : http_request_t) : hm (option nat) :=
  match query_of r with
  | None => error_json HTTP_STATUS_400_BAD_REQUEST (str "Missing query string")
  | Some query =>
      t ← launch_target query;
      match t with
      | inl (code, message) => error_json code message
      | inr [] =>
          _ ← io (launch_diag_log (str "input") [] (-1) (str "missing launch target"));
          error_json HTTP_STATUS_400_BAD_REQUEST (str "Missing or invalid launch target")
      | inr title_id =>
          if negb (forallb id_char title_id) then
            _ ← io (launch_diag_log (str "input")
                      ((toupper <$> take_while id_char title_id) ++ drop_while id_char title_id) (-2)
                      (str "invalid title id format"));
            error_json HTTP_STATUS_400_BAD_REQUEST (str "Invalid title id format")
          else
            let title_id := toupper <$> title_id in
            _ ← io (launch_diag_log (str "input") title_id 0 (str "launch request received"));
            dir ← io (resolve_installed_app_dir_by_title title_id);
            match dir with
            | None =>
                _ ← io (launch_diag_log (str "preflight_fs") title_id (-30)
                          (str "title id not found in installed app directories"));
                status_json_200 false (str "Launch blocked: title not installed on this console") (-30)
            | Some dir =>
                _ ← io (launch_diag_log (str "preflight_fs") title_id 0 dir);
                resp ← http_response_create HTTP_STATUS_200_OK;
                _ ← http_response_add_header resp (str "Content-Type") (str "application/json");
                _ ← http_response_set_body resp
                      (snprintf_buf 128 (jstr "{'status': 'ok', 'message': 'Mock Launch " ++ title_id
                                         ++ jstr " initiated'}"));
                mret resp
            end
      end
  end.

(** The handlers of this file; [None] for the others. *)
Definition game_api (o : other_api) (r : http_request_t) : option (hm (option nat)) :=
  match o with
  | HttpApi.api_game_meta => Some (api_game_meta r)
  | HttpApi.api_game_icon => Some (api_game_icon r)
  | HttpApi.api_games_installed => Some api_games_installed
  | HttpApi.api_games_icon => Some (api_games_icon r)
  | HttpApi.api_games_repair_visibility => Some api_games_repair_visibility
  | HttpApi.api_games_install_status => Some api_games_install_status
  | HttpApi.api_games_uninstall => Some (api_games_uninstall r)
  | HttpApi.api_games_install => Some (api_games_install r)
  | HttpApi.api_games_reinstall => Some (api_games_reinstall r)
  | HttpApi.api_admin_launch => Some (api_admin_launch r)
  | _ => None
  end.

End game.

(** ** The whole API of the default build *)

(** Every route goes to one of the three groups of handlers. *)
Definition default_api {W} `{OS W} {Hres : Resources} (fuel : nat) : OtherApi W := fun o buf r =>
  match job_api o buf r, system_api fuel o buf r, game_api fuel o r with
  | Some m, _, _ | None, Some m, _ | None, None, Some m => m
  | None, None, None => mret None
  end.

Lemma default_api_total {W} `{OS W} {Hres : Resources} (fuel : nat) o buf r :
  exists m, default_api fuel o buf r = m /\
    (job_api o buf r = Some m \/ system_api fuel o buf r = Some m \/ game_api fuel o r = Some m).
Proof. eexists. split; [reflexivity|]. destruct o; auto. Qed.

(** ** The title of a container *)

Lemma run_bind {S A B} (m : M S A) (k : A -> M S B) s a s' : m s = (Some a, s') -> (m ≫= k) s = k a s'.
Proof. unfold mbind, M_bind. by intros ->. Qed.

Section title.
Context {W : Type} {os : OS W} {f : Z} {img : bytes} `{!ImageOS W f img, !ReliableOS W f img}.
Context (Hmalloc : forall n w, (os_step (SysMalloc n) w).1.1 = true).
Context (Hbytes : Forall is_byte img) (Hsize : strlen img < 2 ^ 63).

Lemma pkg_sfo_ok path s ctx s' e t :
  pkg_init path s = (Some (PKG_OK, ctx), s') -> pkg_find_entry_by_id ctx PKG_ENTRY_ID_PARAM_SFO = Some e ->
  pkg_entry_is_encrypted e = false -> 0 < pe_size e <= 65536 ->
  exists t', pkg_sfo ctx t = (Some (Some (slice img (pe_offset e) (pe_size e))), t').
Proof.
  intros Hi Hf Henc Hsz. pose proof (pkg_init_ok Hbytes Hsize path s) as Hw. unfold wp in Hw. rewrite Hi in Hw.
  destruct (Hw eq_refl) as [Hfile _ (es & Hes & Hn & _ & HF & _)]. cbn [fst snd] in *.
  pose proof Hf as Hin. unfold pkg_find_entry_by_id in Hin. rewrite Hes, Hn, Nat2Z.id, take_ge in Hin by lia.
  apply find_some in Hin as [Hin _]. apply list_elem_of_In in Hin.
  pose proof (proj1 (Forall_forall _ _) HF e Hin) as He.
  unfold pkg_sfo. rewrite Hf, (proj2 (Z.ltb_lt _ _)), (proj2 (Z.leb_le _ _)) by lia. cbn [andb negb].
  pose proof (Hmalloc (pe_size e) (os_state t)) as Hm.
  destruct (sys_call (SysMalloc (pe_size e)) t) as [a t1] eqn:Et.
  assert (a = Some true) as ->.
  { unfold sys_call in Et. destruct (os_step _ _) as [[x y] z]. cbn [fst] in Hm. by simplify_eq. }
  rewrite (run_bind _ _ _ _ _ Et). cbn [negb].
  pose proof (extract_buffer_ok ctx e (pe_size e) t1 Hfile He ltac:(lia)) as Hx. unfold wp in Hx.
  destruct (pkg_extract_to_buffer ctx e (pe_size e) t1) as [[[r b]|] t2] eqn:Ex; [|done].
  rewrite (run_bind _ _ _ _ _ Ex). destruct Hx as [H0 H1]. cbn [fst] in H0, H1.
  assert (Hr : 0 <= r) by (apply H1; [done|]; split; [done|]; unfold PKG_MAX_ENTRY_SIZE; lia).
  destruct (H0 Hr) as [[= -> ->] _]. rewrite (proj2 (Z.ltb_lt _ _)) by lia. by exists t2.
Qed.

Lemma pkg_cleanup_runs ctx (t : sysst W) : exists c t', pkg_cleanup ctx t = (Some c, t').
Proof.
  unfold pkg_cleanup. destruct (pkg_file ctx) as [g|]; [|eauto].
  unfold mbind, M_bind, mret, M_ret, sys_call. destruct (os_step _ _) as [[x y] z]. eauto.
Qed.


End title.

(** A container with the table of [SfoSpec]. *)
Definition title_image : bytes := demo_container (sfo_file demo_table).


(** ** Icons outside the root *)

#[local] Instance game_resources : Resources :=
  {| http_get_resource _ := None; k_frontend_patch := []; strerror _ := [] |}.

(** A server with root /srv; the file of the system is /etc/private/icon0.png. *)
Definition icon_server : st http_state (img_world (str "secret")) :=
  St (set_g_http_root (str "/srv") http_state_init)
    (SysSt (ImgWorld 0 (Toy [] [] [(str "/etc/private/icon0.png", Stat 33188 6 0 0 0)] [] [])) 0 []).

Definition get (u : bytes) : http_request_t := Request HTTP_METHOD_GET u 1 1 [] None 0.


End Game.
